(* ===== verification/_CoqProject ===== *)
-Q . S2P
Prelude.v
Kube.v
Regex.v
Api.v
GoJson.v
GoStrings.v
Composition.v
CompositionProofs.v
CompositionReads.v
CompositionComplete.v
Reference.v
CompositionSpec.v
Connector.v
Provisioner.v
Cnpg.v
CnpgHybrid.v
Percona.v
Arango.v
Provider.v
Contracts.v
Reconciler.v
Requests.v
ReconcilerSpec.v
GoUrl.v
Config.v
Descriptor.v
DescriptorSpec.v
Lineage.v
LineageProofs.v
LineageSpec.v
Sha256.v
Catalog.v
CatalogSpec.v
Report.v
Plan.v
Witness.v
Graph.v
Admission.v
Input.v
InputSpec.v
Check.v
CheckSpec.v
BundleSpec.v
GoJsonRead.v
JsonInput.v
GoJsonSpec.v
GoBase64.v
GoQuery.v
Discovery.v
DiscoverySpec.v
GoMime.v
Threads.v
Probe.v
Source.v
ServicesSpec.v
GoDecode.v
GoRawJson.v
GoUrlString.v
LineageClient.v
LineageClientSpec.v
Dataspace.v
DataspaceSpec.v
CiPlan.v
CiPlanSpec.v
PreflightClient.v
PreflightClientSpec.v
GoFlag.v
Commands.v
CommandsSpec.v
Consumer.v
ConsumerSpec.v
WebHost.v
WebHostSpec.v
SampleApi.v
EngineReader.v
Lifecycle.v
Serving.v
Startup.v
StartupSpec.v
