(* ===== verification/Prelude.v ===== *)
(** * The data-product controller: a verification library

    The repository is a Kubernetes controller for [DataProduct] objects with a registry that publishes
    them.  A product declares outputs, inputs from other products, and optionally a connector workload,
    contract checks and a provisioned source.  The controller observes each of these, decides whether
    the product is ready and writes the verdict to its status; the registry projects products into
    portable descriptors and traces their dependencies.  This library models that logic as executable
    definitions and proves what it promises.

    ** The parts and the files that model them

    - [Prelude] (this file): notations, the state monad, lemmas on lists, strings and [sort.Slice].
    - [Kube]: the third-party Go packages as type classes.  [Env] is the outside world: every call that
      observes it threads one abstract [World], so two reads may disagree and a context may expire
      between any two calls.  [ConditionApi], [NameValidation], [VersionApi], [UnstructuredApi] are
      operations; [ConditionLaws], [VersionLaws] and [GroupVersionLaws] state their documentation.
      [Reference] gives concrete instances that satisfy the laws, sample products and a sample cluster.
    - [Api]: the records of [api/v1alpha1/dataproduct_types.go], the admission rule of a source and the
      validation markers of its fields.
    - [Regex], [GoJson], [GoJsonRead], [GoJsonSpec], [GoDecode], [GoRawJson], [GoStrings], [GoUrl],
      [GoUrlString], [GoQuery], [GoBase64], [GoMime], [GoFlag], [Sha256]: the standard library as far as
      the code uses it: anchored patterns (with their language), [json.Marshal], [json.Decoder] and
      decoding into typed values and raw messages, UTF-8, [strings], [url.Parse] and [URL.String],
      [url.ParseQuery], [netip.ParseAddr], base64, media types, command-line flags and SHA-256.
    - [Composition] with [CompositionProofs], [CompositionReads], [CompositionComplete],
      [CompositionSpec]: [internal/controller/composition.go].
    - [Connector]: [internal/connector/v1/observer.go].  [Contracts]: [internal/controller/contracts.go].
    - [Provisioner]: [internal/provisioner/v1/observer.go]; [Cnpg], [CnpgHybrid], [Percona], [Arango]:
      the engine contracts of [internal/provider/v1]; [Provider]: its registry and dispatch.
    - [Reconciler], [Requests], [ReconcilerSpec]: [internal/controller/dataproduct_controller.go].
    - [Config]: [internal/config].  [Descriptor] with [DescriptorSpec]:
      [internal/registry/descriptor.go], [descriptor_validation.go] and the projection of [handler.go].
    - [Lineage] with [LineageProofs], [LineageSpec]: [internal/registry/lineage.go].
    - [Discovery] with [DiscoverySpec]: [internal/registry/discovery.go], [schema.go] and the inventory
      endpoints of [handler.go].
    - [Catalog] with [CatalogSpec]: [internal/catalog/catalog.go].  [Dataspace] with [DataspaceSpec]:
      [internal/dataspace], the export of a catalog snapshot to a dataspace.
    - [Report], [Plan], [Witness], [Graph], [Admission], [Input], [Check] with [InputSpec], [CheckSpec],
      [BundleSpec]: the publisher preflight of [internal/preflight], a file per Go file; [CheckSpec]
      proves what every report satisfies, [BundleSpec] joins preflight and controller.
    - [JsonInput]: [internal/jsoninput].
    - [Threads]: concurrent handlers as programs of atomic actions on shared semaphores, a mutex,
      counters and gauges, with a type system; [Probe] and [Source] are the services of
      [internal/contractprobe] and [internal/httpsource] in it, [ServicesSpec] their promises.
    - [Commands] with [CommandsSpec]: [pkg/featureflag], [cmd/product-check] and [cmd/dsp-catalog].
      [WebHost] with [WebHostSpec]: [internal/portablehost], [web/*.go], [internal/uibundle], the
      workspace of [internal/registry/handler.go] and the settings and policies of
      [internal/demoproduct]; [SampleApi]: the data endpoints of that sample, with a theorem that the API
      consumer reads exactly what they serve.  [EngineReader]: the metadata-only transport of
      [internal/provider/v1/engine_reader.go].
    - [Lifecycle]: [internal/httpserver].  [Serving]: the servers of [cmd/http-source] and
      [cmd/contract-probe].  Both prove that a return leaves the servers closed and no goroutine blocked.
    - [Startup] with [StartupSpec]: [main.go] and the service commands under [cmd], from arguments and
      settings to the gates and the configuration of what is started.
    - [CiPlan] with [CiPlanSpec]: [scripts/ci-plan].  [PreflightClient] with [PreflightClientSpec]: the
      report reader of [docs/examples/preflight-client], written independently of the preflight.
      [LineageClient] with [LineageClientSpec]: the trace reader of [docs/examples/lineage-client].
      [Consumer] with [ConsumerSpec]: the command of [examples/api-consumer].

    ** How state and effects correspond

    A Go method that mutates the product it was given returns the updated product.  Code that reads the
    cluster is a computation [ST World A].  The graph walks mutate a struct of maps; the struct is a
    record, its maps are [gmap] and [gset], and the walk runs in [ST (graph * World)].  The management
    services run one goroutine per request on shared state: their handlers are trees of atomic actions
    and a step of a configuration is an action of any of them.  Integers of the API are [Z]; no
    arithmetic on them can leave the 64-bit range within the bounds the code enforces.  Go's [error] is
    abstract; a nil error is [None].  Messages are modelled verbatim; [strconv.Quote] is the one
    formatting function left abstract.

    ** What the theorems show

    - Composition (C1 to C7): a published success is backed by a real, acyclic, compatible and ready
      graph in one namespace, made of what the client answered during the walk; accepted graphs
      respect the limits; a sound graph within the limits is accepted; every outcome of the walk is
      explained; other namespaces are irrelevant; compatible upgrades are safe; the published
      lineage is sorted, bounded and exact.
    - CI planner (C8): the reduced profile is admitted only for exact commits whose whole inventory is
      reviewed at both, and only modifications of its files between them.
    - Observers (C9, C11 to C16): exact characterisations of readiness for connectors and Crossplane
      sources, soundness of the registry's dispatch, agreement of the API's markers with it, and for
      each engine what the resource and Secret read for a ready answer show.
    - Offline commands (C10): the exit code of product-check is exact, down to the walk of a controller
      over what was checked.
    - Reconciler (C17 to C20): every evaluation reaches a verdict, readiness is backed by every declared
      capability, the status is written exactly on a change, and a producer's event requests exactly
      the affected products.
    - Report reader (C22): what is printed with success is an accounted report, which is
      reviewed only when it is complete, every product after those that supply its inputs.
    - Registry (C23): descriptors carry no diagnostics.
    - Trace reader (C24): every trace the registry serves is read back and printed in full, through the
      encoder, the decoder and the typed structs on either side.
    - Traces (C25, C26): every trace is bounded, and a complete one is the whole acyclic picture.
    - Start-up (C21, C27): a sample product that starts publishes settings that cannot inject into its
      policies; each gate of the controller is its own setting, and an invalid setting stops it first.
    - Preflight (C28 to C32): the plan is the least topological order exactly when one exists; the
      graph witness is exact; a bundle reported valid and complete passes the controller's walk in a
      cluster that serves it; every report is accounted and private; reading is total and exact.
    - Catalog (C33): a served catalog is a complete paged inventory within its limits, with distinct
      identities and references that resolve.
    - Discovery (C34, C35): continuations read back and are bound to their request; a client obtains
      the whole inventory.
    - API consumer (C36, C39): every published descriptor is accepted and its outputs are selected as
      they were declared; nothing but the approved endpoint is contacted.
    - Services (C37, C38): observations stay whole under any interleaving, semaphores are within their
      capacity, every request is answered and nothing is left locked.
    - Dataspace (C40): the exporter accepts whatever the catalog serves and refuses only for the
      bindings; a successful export is the projection of the selected datasets within every limit.

    ** Bounds and fuel

    Recursions that are not structural take fuel, and exhaustion is a value of its own ([None]) or
    proved unreachable.  [walk_fuel] and [trace_fuel] are 65: both walks stop at depth 64 ([visit_fuel]
    in CompositionProofs; C4 and C25); the preflight walk likewise ([witness_fuel], C29).  The worklist
    of [requestsForDependency] takes two steps more than there are edges ([drain_total] in Requests;
    C20).  [parseIPv6] fills two of sixteen bytes per round, so eight rounds are exact.  The planner
    places one product per round.  A source of documents is read in at most one step per byte
    ([ReadAll_total], for a reader that makes progress) and holds at most 4096 physical documents
    ([parse_fuel]); a field path loses a byte per round ([safe_loop_fuel]).  The catalog reads at most
    17 pages.  The JSON scanner takes twice the length of its input ([scan_fuel] in GoJsonRead: more
    fuel changes nothing).  An entry of a git tree takes at least 21 bytes, so the length of its listing
    suffices to read it.  Arguments are parsed structurally.

    ** What is not modelled

    The controller runtime and client construction, generated code, logging, HTTP transport, routing and
    the opening of listeners, most response headers and embedded assets: they are calls of third-party
    code without a decision of the repository's own.  The JavaScript of web/ is another language, and the
    test fixtures and the script that prints the publisher's identity are not part of the running system.
    The Go types of the ArangoDB operator and their JSON, the YAML decoders of preflight, OpenAPI, list
    and CEL validation are interfaces; so are the checksum of the ArangoDB specification, and the floats
    and times of the API consumer.  [sort.Slice] is a stable sort here; no statement depends on the order
    of ties.  Semaphores of one slot that guard a trace or a catalog are an argument of the handler.  The
    report reader is proved sound (C22); that it accepts every complete report is not proved. *)
From stdpp Require Export base option list gmap strings sorting numbers.
From Stdlib Require Export ZArith Lia.
From Stdlib Require String Ascii.

Set Default Proof Using "Type".
#[export] Set Warnings "-clear-no-such-hyp".

(** ** Notations of the development *)

Declare Scope go_scope.
Delimit Scope go_scope with go.
(** Go's [==] and [!=] on comparable values. *)
Notation "x == y" := (bool_decide (x = y)) (at level 70, no associativity) : go_scope.
Notation "x != y" := (negb (bool_decide (x = y))) (at level 70, no associativity) : go_scope.
#[global] Open Scope go_scope.

(** [len] of a slice or of a string, as a mathematical integer. *)
Definition len {A} (l : list A) : Z := Z.of_nat (length l).
Definition slen (s : string) : Z := Z.of_nat (String.length s).

Lemma len_app {A} (l l' : list A) : len (l ++ l') = (len l + len l')%Z.
Proof. unfold len. rewrite length_app. lia. Qed.

(** Sums. *)
Lemma foldr_add_init (l : list Z) (z : Z) : foldr Z.add z l = (foldr Z.add 0 l + z)%Z.
Proof. induction l as [|x l IH]; cbn; lia. Qed.
#[export] Instance sum_proper : Proper (Permutation ==> eq) (foldr Z.add 0%Z).
Proof. intros l l' H. induction H; cbn; lia. Qed.

(** A pointer dereferenced as a test: [p != nil]. *)
Definition non_nil {A} (o : option A) : bool :=
  match o with Some _ => true | None => false end.

(** ** The state monad that threads the outside world and mutable objects *)

Definition ST (S A : Type) : Type := S → A * S.
#[export] Instance st_ret {S} : MRet (ST S) := λ A a s, (a, s).
#[export] Instance st_bind {S} : MBind (ST S) :=
  λ A B f m s, let '(a, s') := m s in f a s'.

Lemma st_bind_ret {S A B} (a : A) (f : A → ST S B) (s : S) :
  (mbind f (mret a) : ST S B) s = f a s.
Proof. reflexivity. Qed.

Lemma st_bind_inv {S A B} (m : ST S A) (f : A → ST S B) (s : S) (r : B * S) :
  (mbind f m : ST S B) s = r → ∃ a s', m s = (a, s') ∧ f a s' = r.
Proof.
  unfold mbind, st_bind. destruct (m s) as [a s'] eqn:E. intros <-. eauto.
Qed.

(** A computation that reads nothing and changes nothing. *)
Definition no_effect {S A} (m : ST S A) : Prop := ∀ s, snd (m s) = s.

(** ** Boolean conditions *)

Create Rewrite HintDb go_bool.
#[export] Hint Rewrite andb_true_iff orb_true_iff negb_true_iff andb_false_iff
  orb_false_iff negb_false_iff negb_orb negb_andb negb_involutive
  @bool_decide_eq_true @bool_decide_eq_false
  Z.leb_le Z.ltb_lt Z.eqb_eq Z.leb_gt Z.ltb_ge Z.eqb_neq Z.geb_le Z.gtb_gt
  Nat.leb_le Nat.ltb_lt Nat.eqb_eq : go_bool.

(** Turns boolean guards of the code into propositions everywhere. *)
Ltac go_bool := autorewrite with go_bool in *.

(** Case analysis on the next guard or scrutinee in the goal. *)
Ltac split_guard :=
  match goal with
  | |- context [if ?b then _ else _] => destruct b eqn:?
  | |- context [match ?x with _ => _ end] => destruct x eqn:?
  end.

(** Case analysis on the next guard or scrutinee of a hypothesis. *)
Ltac split_guard_in H :=
  match type of H with
  | context [if ?b then _ else _] => destruct b eqn:?
  | context [match ?x with _ => _ end] => destruct x eqn:?
  end.

(** Splits monadic equations [m >>= f = r] into their steps. *)
Ltac step_st H :=
  let a := fresh "a" in let s := fresh "s" in let E := fresh "E" in
  apply st_bind_inv in H as (a & s & E & H).

Lemma non_nil_true {A} (o : option A) : non_nil o = true ↔ is_Some o.
Proof. destruct o; simpl; split; naive_solver. Qed.

Lemma non_nil_false {A} (o : option A) : non_nil o = false ↔ o = None.
Proof. by destruct o. Qed.
#[export] Hint Rewrite @non_nil_true @non_nil_false : go_bool.

Lemma existsb_exists_elem {A} (f : A → bool) (l : list A) :
  existsb f l = true ↔ ∃ x, x ∈ l ∧ f x = true.
Proof.
  rewrite existsb_exists. split; intros (x & Hx & Hf); exists x;
    split; try done; by apply list_elem_of_In.
Qed.

Lemma forallb_elem {A} (f : A → bool) (l : list A) :
  forallb f l = true ↔ ∀ x, x ∈ l → f x = true.
Proof.
  rewrite forallb_forall. split; intros Hf x Hx; apply Hf; by apply list_elem_of_In.
Qed.

(** ** First match in a slice: the loop that returns the first hit *)

Fixpoint find_first {A} (f : A → bool) (l : list A) : option A :=
  match l with
  | [] => None
  | x :: l' => if f x then Some x else find_first f l'
  end.

Lemma find_first_Some {A} (f : A → bool) (l : list A) x :
  find_first f l = Some x →
  ∃ l1 l2, l = l1 ++ x :: l2 ∧ f x = true ∧ Forall (λ y, f y = false) l1.
Proof.
  induction l as [|y l IH]; simpl; [done|]. destruct (f y) eqn:Hy.
  - intros [= ->]. exists [], l. repeat split; auto.
  - intros (l1 & l2 & -> & Hx & Hl)%IH. exists (y :: l1), l2. repeat split; auto.
Qed.

Lemma find_first_None {A} (f : A → bool) (l : list A) :
  find_first f l = None ↔ ∀ x, x ∈ l → f x = false.
Proof.
  induction l as [|y l IH]; simpl; [by split; [intros _ x ?%elem_of_nil|]|].
  destruct (f y) eqn:Hy; split.
  - done.
  - intros Hl. rewrite (Hl y) in Hy by (by left). done.
  - intros H x [->|Hx]%elem_of_cons; [done|]. by apply IH.
  - intros Hl. apply IH. intros x Hx. apply Hl. by right.
Qed.

Lemma find_first_elem {A} (f : A → bool) (l : list A) x :
  find_first f l = Some x → x ∈ l ∧ f x = true.
Proof.
  intros (l1 & l2 & -> & Hx & _)%find_first_Some. split; [set_solver|done].
Qed.

Lemma find_first_is_Some {A} (f : A → bool) (l : list A) :
  is_Some (find_first f l) ↔ existsb f l = true.
Proof.
  rewrite existsb_exists_elem. split.
  - intros (x & Hx%find_first_elem). destruct Hx. eauto.
  - intros (x & Hx & Hf). destruct (find_first f l) eqn:E; [eauto|].
    rewrite find_first_None in E. specialize (E x Hx). congruence.
Qed.

(** ** Concatenation of strings *)

Lemma str_app_nil s : "" +:+ s = s.
Proof. reflexivity. Qed.
Lemma str_app_cons a s t : String.String a s +:+ t = String.String a (s +:+ t).
Proof. reflexivity. Qed.
Lemma str_app_nil_r s : s +:+ "" = s.
Proof. induction s as [|a s IH]; [done|]. by rewrite str_app_cons, IH. Qed.
Lemma str_app_assoc s t u : s +:+ (t +:+ u) = (s +:+ t) +:+ u.
Proof. induction s as [|a s IH]; [done|]. by rewrite !str_app_cons, IH. Qed.
Lemma str_app_inj_r s t u : s +:+ t = s +:+ u → t = u.
Proof. induction s as [|a s IH]; [done|]. rewrite !str_app_cons. intros [= H]. auto. Qed.
Lemma slen_app s t : slen (s +:+ t) = (slen s + slen t)%Z.
Proof.
  unfold slen. induction s as [|a s IH]; [done|]. rewrite str_app_cons. simpl. lia.
Qed.

(** ** Bytewise order of Go strings *)

Lemma ascii_compare_eq a b : Ascii.compare a b = Eq ↔ a = b.
Proof.
  unfold Ascii.compare. rewrite N.compare_eq_iff. split; [|by intros ->].
  intros E. rewrite <- (Ascii.ascii_N_embedding a), <- (Ascii.ascii_N_embedding b). by rewrite E.
Qed.

Lemma str_compare_refl s : String.compare s s = Eq.
Proof.
  induction s as [|a s IH]; simpl; [done|].
  by rewrite (proj2 (ascii_compare_eq a a) eq_refl).
Qed.

Lemma str_lt_trans : ∀ s t u, String.compare s t = Lt → String.compare t u = Lt →
  String.compare s u = Lt.
Proof.
  induction s as [|a s IH]; intros [|b t] [|c u]; simpl; try done.
  destruct (Ascii.compare a b) eqn:Hab, (Ascii.compare b c) eqn:Hbc; try done; intros H1 H2;
    repeat match goal with
    | H : Ascii.compare _ _ = Eq |- _ => apply ascii_compare_eq in H as ->
    end.
  - rewrite (proj2 (ascii_compare_eq c c) eq_refl). eauto.
  - by rewrite Hbc.
  - by rewrite Hab.
  - unfold Ascii.compare in *. rewrite N.compare_lt_iff in *.
    destruct (N.compare_spec (Ascii.N_of_ascii a) (Ascii.N_of_ascii c)); try done; lia.
Qed.

Lemma str_ltb_lt s t : String.ltb s t = true ↔ String.compare s t = Lt.
Proof. unfold String.ltb. by destruct (String.compare s t). Qed.

Lemma str_ltb_irrefl s : String.ltb s s = false.
Proof. unfold String.ltb. by rewrite str_compare_refl. Qed.

Lemma str_ltb_trans s t u :
  String.ltb s t = true → String.ltb t u = true → String.ltb s u = true.
Proof. rewrite !str_ltb_lt. apply str_lt_trans. Qed.

Lemma str_ltb_false s t : String.ltb t s = false ↔ String.leb s t = true.
Proof.
  unfold String.ltb, String.leb. rewrite (String.compare_antisym t s).
  by destruct (String.compare s t).
Qed.

Lemma str_ltb_total s t : s ≠ t → String.ltb s t = true ∨ String.ltb t s = true.
Proof.
  intros Hne. unfold String.ltb. rewrite (String.compare_antisym t s).
  destruct (String.compare s t) eqn:E; simpl; auto.
  by apply String.compare_eq_iff in E.
Qed.

(** ** [sort.Slice]: a permutation ordered by [less]; ties keep an unspecified order in Go, so
    no statement depends on it. *)

Definition not_after {A} (less : A → A → bool) (x y : A) : Prop := less y x = false.
#[export] Instance not_after_dec {A} (less : A → A → bool) : RelDecision (not_after less).
Proof. intros x y. unfold not_after. apply _. Defined.

Definition sort_slice {A} (less : A → A → bool) : list A → list A :=
  merge_sort (not_after less).

Lemma sort_slice_perm {A} (less : A → A → bool) (l : list A) : sort_slice less l ≡ₚ l.
Proof. apply merge_sort_Permutation. Qed.

Lemma sort_slice_elem {A} (less : A → A → bool) (l : list A) x :
  x ∈ sort_slice less l ↔ x ∈ l.
Proof. by rewrite sort_slice_perm. Qed.

Lemma StronglySorted_impl {A} (R R' : relation A) (l : list A) :
  (∀ x y, R x y → R' x y) → StronglySorted R l → StronglySorted R' l.
Proof.
  intros HR. induction 1 as [|x l Hs IH Hl]; constructor; [done|].
  eapply Forall_impl; [|exact Hl]. intros y. apply HR.
Qed.

(** [less] is the strict part of a total preorder given by a string key. *)
Definition less_by {A} (key : A → string) (x y : A) : bool := String.ltb (key x) (key y).

Lemma sort_slice_sorted {A} (key : A → string) (l : list A) :
  StronglySorted (λ x y, String.leb (key x) (key y) = true) (sort_slice (less_by key) l).
Proof.
  set (R := not_after (less_by key)).
  assert (HT : Transitive R).
  { unfold R, not_after, less_by. intros x y z. rewrite !str_ltb_false. unfold String.leb.
    destruct (String.compare (key x) (key y)) eqn:E1; [|intros _|done].
    - apply String.compare_eq_iff in E1 as ->. done.
    - destruct (String.compare (key y) (key z)) eqn:E2; [|intros _|done].
      + apply String.compare_eq_iff in E2 as <-. by rewrite E1.
      + by rewrite (str_lt_trans _ _ _ E1 E2). }
  assert (Htot : Total R).
  { intros x y. unfold R, not_after, less_by. rewrite !str_ltb_false. apply String.leb_total. }
  eapply (StronglySorted_impl R).
  - intros x y. unfold R, not_after, less_by. by rewrite str_ltb_false.
  - apply Sorted_StronglySorted; [apply HT|]. apply Sorted_merge_sort, Htot.
Qed.

(** ** Maps filled by a loop: [for _, x := range l { m[key(x)] = f(x) }] *)

Section Table.
Context {A B K : Type} `{Countable K} (key : A → K) (f : A → B).

Definition fill (l : list A) (m : gmap K B) : gmap K B := foldl (λ m x, <[key x := f x]> m) m l.

Lemma fill_other l : ∀ m k, k ∉ map key l → fill l m !! k = m !! k.
Proof.
  induction l as [|y l IH]; intros m k Hk; [done|]. cbn in Hk |- *.
  apply not_elem_of_cons in Hk as [Hy Hk]. unfold fill in IH. rewrite IH by done.
  by rewrite lookup_insert_ne.
Qed.

Lemma fill_lookup l : ∀ m x, NoDup (map key l) → x ∈ l → fill l m !! key x = Some (f x).
Proof.
  induction l as [|y l IH]; intros m x; cbn [map]; [by intros _ ?%elem_of_nil|].
  intros [Hy Hl]%list.NoDup_cons [->|Hd]%elem_of_cons; [|by apply IH].
  change (fill (y :: l) m) with (fill l (<[key y := f y]> m)).
  by rewrite fill_other, lookup_insert_eq.
Qed.

Lemma fill_inv l : ∀ m k v, fill l m !! k = Some v →
  (∃ x, x ∈ l ∧ k = key x ∧ v = f x) ∨ m !! k = Some v.
Proof.
  induction l as [|y l IH]; intros m k v; [by right|].
  change (fill (y :: l) m) with (fill l (<[key y := f y]> m)).
  intros [(x & Hx & -> & ->)|Hm]%IH.
  - left. exists x. split_and!; auto. by right.
  - apply lookup_insert_Some in Hm as [[<- <-]|[_ Hm]]; [|by right].
    left. exists y. split_and!; auto. by left.
Qed.

Lemma fill_domain l : ∀ m k, is_Some (fill l m !! k) ↔ k ∈ map key l ∨ is_Some (m !! k).
Proof.
  induction l as [|y l IH]; intros m k.
  - split; [by right|]. intros [?%elem_of_nil|?]; done.
  - change (fill (y :: l) m) with (fill l (<[key y := f y]> m)). rewrite IH.
    change (map key (y :: l)) with (key y :: map key l). rewrite elem_of_cons.
    destruct (decide (k = key y)) as [->|Hk].
    + rewrite lookup_insert_eq. split; [auto|right; by eexists].
    + rewrite lookup_insert_ne by done. naive_solver.
Qed.
End Table.
