(* ===== verification/Kube.v ===== *)
(** * Kubernetes libraries as interfaces

    The controller is written against packages that are not part of the repository:
    [k8s.io/apimachinery] (conditions, API errors, name validation, semantic versions, accessors of
    unstructured objects) and [controller-runtime] (the clients).  This file states them as type
    classes: operations are fields, and the documented behaviour a theorem relies on is a law of a
    second class.  File Reference gives concrete instances that satisfy the laws, so that every hypothesis
    of the development can be met and concrete runs can be evaluated. *)

From Stdlib Require Import Ascii.
From S2P Require Import Prelude.

(** ** Plain data of the API machinery *)

(** [metav1.Time] in nanoseconds; zero is Go's zero time. *)
Definition Time := Z.

(** [metav1.Time.IsZero] on a pointer: nil or the zero time. *)
Definition IsZero (t : option Time) : bool :=
  match t with None => true | Some n => (n =? 0)%Z end.

(** [metav1.Condition]. *)
Record Condition := mkCondition {
  cond_Type : string;
  cond_Status : string;
  cond_ObservedGeneration : Z;
  cond_LastTransitionTime : Time;
  cond_Reason : string;
  cond_Message : string
}.
#[export] Instance Condition_eq_dec : EqDecision Condition.
Proof. solve_decision. Defined.

Definition ConditionTrue : string := "True".
Definition ConditionFalse : string := "False".

(** The fields of [metav1.ObjectMeta] the repository reads. *)
Record ObjectMeta := mkObjectMeta {
  Name : string;
  Namespace : string;
  Generation : Z;
  DeletionTimestamp : option Time;
  Annotations : gmap string string
}.
#[export] Instance ObjectMeta_eq_dec : EqDecision ObjectMeta.
Proof. solve_decision. Defined.

(** [client.ObjectKey]. *)
Record ObjectKey := mkKey { key_Namespace : string; key_Name : string }.
#[export] Instance ObjectKey_eq_dec : EqDecision ObjectKey.
Proof. solve_decision. Defined.
#[export] Instance ObjectKey_countable : Countable ObjectKey.
Proof.
  refine (inj_countable' (λ k, (key_Namespace k, key_Name k)) (λ p, mkKey p.1 p.2) _).
  by intros [].
Defined.

(** [ObjectKey.String]. *)
Definition key_String (k : ObjectKey) : string := key_Namespace k +:+ "/" +:+ key_Name k.

(** ** The running process and its environment *)

(** Everything outside the process is one abstract [World]; every call that observes it threads it,
    so two reads may disagree.  [Err] is [ctx.Err()], which may become non-nil at any call. *)
Class Env := {
  World : Type;
  Ctx : Type;
  error : Type;  (* Go's [error], nil being [None] at its uses *)
  IsNotFound : error → bool;
  IsForbidden : error → bool;
  IsUnauthorized : error → bool;
  Err : Ctx → ST World (option error);
  WithTimeout : Ctx → Z → ST World Ctx;
  Now : ST World Time
}.

(** [5*time.Second] and [30*time.Second]. *)
Definition Second : Z := 1000000000.

(** [client.Reader.Get] for one kind of object: the object or an API error. *)
Definition Reader `{Env} (T : Type) : Type := Ctx → ObjectKey → ST World (T + error).

(** A release-flag callback [func(context.Context) bool]; a nil callback is [None]. *)
Definition Flag `{Env} : Type := option (Ctx → ST World bool).

(** [flag != nil && flag(ctx)]. *)
Definition flag_on `{Env} (flag : Flag) (ctx : Ctx) : ST World bool :=
  match flag with
  | None => mret false
  | Some f => f ctx
  end.

(** [strconv.Quote], the [%q] verb: which runes it escapes depends on Unicode tables, so it stays an
    operation of the environment; only message texts use it and no theorem depends on it. *)
Class GoFmt := { Quote : string → string }.

(** ** [k8s.io/apimachinery/pkg/api/meta]: status conditions *)

Class ConditionApi := {
  FindStatusCondition : list Condition → string → option Condition;
  (** The first argument is the time read by the call. *)
  SetStatusCondition : Time → list Condition → Condition → list Condition;
  RemoveStatusCondition : list Condition → string → list Condition
}.

(** Two conditions that differ at most in their transition time. *)
Definition same_condition (c d : Condition) : Prop :=
  cond_Type c = cond_Type d ∧ cond_Status c = cond_Status d ∧
  cond_ObservedGeneration c = cond_ObservedGeneration d ∧
  cond_Reason c = cond_Reason d ∧ cond_Message c = cond_Message d.

(** The documentation of the package: a find returns a condition of the requested type; a set
    updates every field of that type's condition (the time only on a status change) and leaves the
    others; a remove deletes that type's conditions and leaves the others. *)
Class ConditionLaws `{ConditionApi} : Prop := {
  find_type : ∀ cs t c, FindStatusCondition cs t = Some c → cond_Type c = t;
  find_set_eq : ∀ now cs c, ∃ d,
    FindStatusCondition (SetStatusCondition now cs c) (cond_Type c) = Some d ∧ same_condition d c;
  find_set_ne : ∀ now cs c t, t ≠ cond_Type c →
    FindStatusCondition (SetStatusCondition now cs c) t = FindStatusCondition cs t;
  set_unchanged : ∀ now cs c d, FindStatusCondition cs (cond_Type c) = Some d →
    same_condition d c → SetStatusCondition now cs c = cs;
  find_remove_eq : ∀ cs t, FindStatusCondition (RemoveStatusCondition cs t) t = None;
  find_remove_ne : ∀ cs t t', t' ≠ t →
    FindStatusCondition (RemoveStatusCondition cs t) t' = FindStatusCondition cs t';
  remove_unchanged : ∀ cs t, FindStatusCondition cs t = None → RemoveStatusCondition cs t = cs
}.

(** [meta.SetStatusCondition(&conditions, c)] reads the clock itself. *)
Definition set_condition `{Env} `{ConditionApi} (cs : list Condition) (c : Condition)
  : ST World (list Condition) :=
  now ← (Now : ST World Time); mret (SetStatusCondition now cs c).

(** ** [k8s.io/apimachinery/pkg/util/validation] *)

(** Both functions return the list of messages, empty for a valid name. *)
Class NameValidation := {
  IsDNS1123Label : string → list string;
  IsDNS1123Subdomain : string → list string
}.

(** ** [k8s.io/apimachinery/pkg/util/version] *)

Class VersionApi := {
  Version : Type;
  ParseSemantic : string → option Version;
  Major : Version → Z;
  AtLeast : Version → Version → bool
}.

(** [AtLeast] compares versions by one total order. *)
Class VersionLaws `{VersionApi} : Prop := {
  AtLeast_refl : ∀ v, AtLeast v v = true;
  AtLeast_trans : ∀ u v w, AtLeast u v = true → AtLeast v w = true → AtLeast u w = true;
  AtLeast_total : ∀ u v, AtLeast u v = true ∨ AtLeast v u = true
}.

(** ** [k8s.io/apimachinery/pkg/apis/meta/v1/unstructured] and [runtime/schema] *)

(** A decoded JSON value held in a Go [any]. *)
Unset Elimination Schemes.
Inductive any :=
  | ANil
  | ABool (b : bool)
  | AInt (n : Z)
  | AFloat (text : string)
  | AString (s : string)
  | ASlice (l : list any)
  | AMap (m : list (string * any)).
Set Elimination Schemes.

(** A Go call that returns [(value, found, err)]; [None] stands for a non-nil error. *)
Definition Nested (A : Type) : Type := option (A * bool).

(** [metav1.OwnerReference]. *)
Record OwnerReference := mkOwner {
  owner_APIVersion : string;
  owner_Kind : string;
  owner_Name : string;
  owner_UID : string
}.
#[export] Instance OwnerReference_eq_dec : EqDecision OwnerReference.
Proof. solve_decision. Defined.

(** [schema.GroupVersion]. *)
Record GroupVersion := mkGV { gv_Group : string; gv_Version : string }.

Class UnstructuredApi := {
  Unstructured : Type;
  (** the [Object] field *)
  Object : Unstructured → list (string * any);
  GetName : Unstructured → string;
  GetUID : Unstructured → string;
  GetKind : Unstructured → string;
  GetGeneration : Unstructured → Z;
  GetDeletionTimestamp : Unstructured → option Time;
  NestedString : list (string * any) → list string → Nested string;
  NestedInt64 : list (string * any) → list string → Nested Z;
  NestedBool : list (string * any) → list string → Nested bool;
  NestedSlice : list (string * any) → list string → Nested (list any);
  NestedStringSlice : list (string * any) → list string → Nested (list string);
  (** [NestedFieldNoCopy]: whether the field is present, or an error. *)
  NestedFieldPresent : list (string * any) → list string → option bool;
  (** [schema.ParseGroupVersion]; [None] is a non-nil error. *)
  ParseGroupVersion : string → option GroupVersion
}.

(** [schema.ParseGroupVersion] on a string with exactly one slash and a group before it: the two
    parts. *)
Class GroupVersionLaws `{UnstructuredApi} := {
  ParseGroupVersion_parts group version :
    group ≠ "" → "/"%char ∉ String.list_ascii_of_string group →
    "/"%char ∉ String.list_ascii_of_string version →
    ParseGroupVersion (group +:+ "/" +:+ version) = Some (mkGV group version)
}.

(** [metav1.PartialObjectMetadata] of a Secret: the metadata the providers inspect. *)
Record SecretMetadata := mkSecret {
  secret_DeletionTimestamp : option Time;
  secret_OwnerReferences : list OwnerReference;
  secret_Annotations : gmap string string
}.
