(* ===== verification/Regex.v ===== *)
(** * Go regular expressions

    The package [regexp] as far as the repository uses it: anchored patterns over ASCII classes.  A
    pattern is an [re]; [MatchString] decides it with derivatives, and [MatchString_spec] shows that
    the decision is the usual language of the expression. *)

From S2P Require Import Prelude.
From Stdlib Require Import Ascii.

Inductive re :=
  | REmpty
  | REps
  | RClass (f : Ascii.ascii → bool)
  | RCat (r1 r2 : re)
  | RAlt (r1 r2 : re)
  | RStar (r : re).

Fixpoint nullable (r : re) : bool :=
  match r with
  | REmpty | RClass _ => false
  | REps | RStar _ => true
  | RCat r1 r2 => nullable r1 && nullable r2
  | RAlt r1 r2 => nullable r1 || nullable r2
  end.

(** Smart constructors keep derivatives small. *)
Definition cat (r1 r2 : re) : re :=
  match r1, r2 with
  | REmpty, _ => REmpty
  | _, REmpty => REmpty
  | REps, _ => r2
  | _, _ => RCat r1 r2
  end.
Definition alt (r1 r2 : re) : re :=
  match r1, r2 with
  | REmpty, _ => r2
  | _, REmpty => r1
  | _, _ => RAlt r1 r2
  end.

Fixpoint deriv (a : Ascii.ascii) (r : re) : re :=
  match r with
  | REmpty | REps => REmpty
  | RClass f => if f a then REps else REmpty
  | RCat r1 r2 =>
      if nullable r1 then alt (cat (deriv a r1) r2) (deriv a r2) else cat (deriv a r1) r2
  | RAlt r1 r2 => alt (deriv a r1) (deriv a r2)
  | RStar r' => cat (deriv a r') (RStar r')
  end.

(** [regexp.MatchString] for a pattern anchored at both ends. *)
Fixpoint MatchString (r : re) (s : string) : bool :=
  match s with
  | String.EmptyString => nullable r
  | String.String a s' => MatchString (deriv a r) s'
  end.

(** ** The language of an expression *)

Inductive Matches : re → string → Prop :=
  | MEps : Matches REps ""
  | MClass f a : f a = true → Matches (RClass f) (String.String a "")
  | MCat r1 r2 s1 s2 : Matches r1 s1 → Matches r2 s2 → Matches (RCat r1 r2) (s1 +:+ s2)
  | MAltL r1 r2 s : Matches r1 s → Matches (RAlt r1 r2) s
  | MAltR r1 r2 s : Matches r2 s → Matches (RAlt r1 r2) s
  | MStar0 r : Matches (RStar r) ""
  | MStarS r a s1 s2 : Matches r (String.String a s1) → Matches (RStar r) s2 →
      Matches (RStar r) (String.String a s1 +:+ s2).

Lemma nullable_spec r : nullable r = true ↔ Matches r "".
Proof.
  induction r as [| |f|r1 IH1 r2 IH2|r1 IH1 r2 IH2|r IH]; simpl.
  - split; [done|inversion 1].
  - split; [constructor|done].
  - split; [done|inversion 1].
  - rewrite andb_true_iff, IH1, IH2. split.
    + intros [H1 H2]. apply (MCat _ _ "" "" H1 H2).
    + inversion 1 as [| |? ? s1 s2 H1 H2| | | |]; subst.
      destruct s1; rewrite ?str_app_cons, ?str_app_nil in *; simplify_eq/=. by split.
  - rewrite orb_true_iff, IH1, IH2. split.
    + intros [?|?]; [by apply MAltL|by apply MAltR].
    + inversion 1; auto.
  - split; [constructor|done].
Qed.

Lemma cat_spec r1 r2 s : Matches (cat r1 r2) s ↔ Matches (RCat r1 r2) s.
Proof.
  assert (HE : ∀ r s, ¬ Matches (RCat REmpty r) s).
  { intros r s0 H. inversion H as [| |? ? s1 s2 H1 H2| | | |]; subst. inversion H1. }
  assert (HE' : ∀ r s, ¬ Matches (RCat r REmpty) s).
  { intros r s0 H. inversion H as [| |? ? s1 s2 H1 H2| | | |]; subst. inversion H2. }
  assert (H0 : ∀ s, ¬ Matches REmpty s) by (intros ? H; inversion H).
  assert (H1 : ∀ r s, Matches r s ↔ Matches (RCat REps r) s).
  { intros r s0. split.
    - intros H. apply (MCat _ _ "" s0 MEps H).
    - inversion 1 as [| |? ? s1 s2 Hs1 Hs2| | | |]; subst. by inversion Hs1; subst. }
  destruct r1, r2; simpl; try done; try (by rewrite <- H1); naive_solver.
Qed.

Lemma alt_spec r1 r2 s : Matches (alt r1 r2) s ↔ Matches r1 s ∨ Matches r2 s.
Proof.
  assert (H0 : ∀ s, ¬ Matches REmpty s) by (intros ? H; inversion H).
  assert (H1 : ∀ r r' s, Matches (RAlt r r') s ↔ Matches r s ∨ Matches r' s).
  { intros r r' s0. split; [inversion 1; auto|].
    intros [?|?]; [by apply MAltL|by apply MAltR]. }
  destruct r1, r2; simpl; rewrite ?H1; naive_solver.
Qed.

Lemma cat_inv r1 r2 s : Matches (RCat r1 r2) s →
  ∃ s1 s2, s = s1 +:+ s2 ∧ Matches r1 s1 ∧ Matches r2 s2.
Proof. inversion 1; eauto. Qed.

Lemma star_inv r s : Matches (RStar r) s →
  s = "" ∨ ∃ a s1 s2, s = String.String a s1 +:+ s2 ∧
    Matches r (String.String a s1) ∧ Matches (RStar r) s2.
Proof. inversion 1; eauto 10. Qed.

Lemma deriv_spec a r : ∀ s, Matches (deriv a r) s ↔ Matches r (String.String a s).
Proof.
  induction r as [| |f|r1 IH1 r2 IH2|r1 IH1 r2 IH2|r IH]; simpl; intros s.
  - split; inversion 1.
  - split; inversion 1.
  - destruct (f a) eqn:Hf; split; inversion 1; subst; try congruence; by constructor.
  - assert (Hcat : Matches (RCat (deriv a r1) r2) s ↔
      ∃ s1 s2, s = s1 +:+ s2 ∧ Matches r1 (String.String a s1) ∧ Matches r2 s2).
    { split.
      - intros (s1 & s2 & -> & H1 & H2)%cat_inv. apply IH1 in H1. eauto.
      - intros (s1 & s2 & -> & H1 & H2). constructor; [by apply IH1|done]. }
    assert (Hfwd : Matches (RCat r1 r2) (String.String a s) ↔
      Matches (RCat (deriv a r1) r2) s ∨ (nullable r1 = true ∧ Matches r2 (String.String a s))).
    { rewrite Hcat, nullable_spec. split.
      - intros (s1 & s2 & E & H1 & H2)%cat_inv. destruct s1 as [|b s1];
          rewrite ?str_app_cons, ?str_app_nil in *; simplify_eq/=; eauto 10.
      - intros [(s1 & s2 & -> & H1 & H2)|[H1 H2]]; [by apply (MCat _ _ (String.String a s1))|].
        by apply (MCat _ _ ""). }
    rewrite Hfwd. destruct (nullable r1); rewrite ?alt_spec, cat_spec, ?IH2; naive_solver.
  - rewrite alt_spec, IH1, IH2. split; [intros [?|?]; [by apply MAltL|by apply MAltR]|].
    inversion 1; auto.
  - rewrite cat_spec. split.
    + intros (s1 & s2 & -> & H1%IH & H2)%cat_inv. by apply (MStarS r a s1 s2).
    + intros [?|(b & s1 & s2 & E & H1 & H2)]%star_inv; [done|].
      rewrite str_app_cons in E. simplify_eq/=.
      constructor; [by apply IH|done].
Qed.

Lemma MatchString_spec r s : MatchString r s = true ↔ Matches r s.
Proof.
  revert r. induction s as [|a s IH]; intros r; simpl; [apply nullable_spec|].
  by rewrite IH, deriv_spec.
Qed.

(** ** Derived forms of the pattern syntax *)

Definition in_range (lo hi : Ascii.ascii) (a : Ascii.ascii) : bool :=
  ((Ascii.N_of_ascii lo <=? Ascii.N_of_ascii a) && (Ascii.N_of_ascii a <=? Ascii.N_of_ascii hi))%N.
Definition is_char (c a : Ascii.ascii) : bool := Ascii.eqb c a.
Definition digit : Ascii.ascii → bool := in_range "0"%char "9"%char.
Definition lower : Ascii.ascii → bool := in_range "a"%char "z"%char.
Definition upper : Ascii.ascii → bool := in_range "A"%char "Z"%char.
Definition one_of (s : string) (a : Ascii.ascii) : bool :=
  existsb (Ascii.eqb a) (String.list_ascii_of_string s).

Definition RChr (c : Ascii.ascii) : re := RClass (is_char c).
Fixpoint RStr (s : string) : re :=
  match s with
  | String.EmptyString => REps
  | String.String a s' => RCat (RChr a) (RStr s')
  end.
Definition ROpt (r : re) : re := RAlt REps r.
Definition RPlus (r : re) : re := RCat r (RStar r).
(** [r{0,n}]. *)
Fixpoint RUpTo (n : nat) (r : re) : re :=
  match n with O => REps | S n' => ROpt (RCat r (RUpTo n' r)) end.

(** ** Bytes a pattern excludes *)

(** A pattern none of whose classes holds the byte matches no string with it. *)
Fixpoint avoids (c : Ascii.ascii) (r : re) : bool :=
  match r with
  | REmpty | REps => true
  | RClass f => negb (f c)
  | RCat r1 r2 | RAlt r1 r2 => avoids c r1 && avoids c r2
  | RStar r => avoids c r
  end.
Lemma avoids_spec c r s : Matches r s → avoids c r = true → c ∉ String.list_ascii_of_string s.
Proof.
  assert (∀ s t, c ∉ String.list_ascii_of_string s → c ∉ String.list_ascii_of_string t →
    c ∉ String.list_ascii_of_string (s +:+ t)) as Happ.
  { intros s1. induction s1 as [|x s1 IH]; intros t H1 H2; [done|]. rewrite str_app_cons. cbn in *.
    set_solver. }
  induction 1 as [|f a Hf|r1 r2 s1 s2 _ IH1 _ IH2|r1 r2 s _ IH|r1 r2 s _ IH|r|r a s1 s2 _ IH1 _ IH2];
    cbn [avoids]; rewrite ?andb_true_iff, ?negb_true_iff; intros Ha.
  - apply not_elem_of_nil.
  - cbn. intros ->%list_elem_of_singleton. congruence.
  - destruct Ha. by apply Happ; auto.
  - destruct Ha. auto.
  - destruct Ha. auto.
  - apply not_elem_of_nil.
  - apply Happ; auto.
Qed.
