(* ===== verification/Api.v ===== *)
(** * The DataProduct API types

    The records of [api/v1alpha1/dataproduct_types.go], with the field names of the Go structs, and
    the cross-field admission rule that file declares for a provisioned source.  An optional pointer
    is an [option]; a Go string type with enumerated constants stays a string, because the
    controller compares it as one. *)

From Stdlib Require Import Ascii.
From S2P Require Import Prelude Kube Regex.

Definition ConditionReady : string := "Ready".
Definition ConditionConnectorReady : string := "ConnectorReady".
Definition ConditionContractsReady : string := "ContractsReady".
Definition ConditionCompositionReady : string := "CompositionReady".
Definition ConditionSourceReady : string := "SourceReady".

Record ProductOwner := mkProductOwner {
  Owner_Name : string;
  Owner_URL : string
}.

Record ProductReference := mkProductReference {
  Ref_Name : string;
  Ref_Namespace : string;
  Ref_Output : string
}.

(** [OutputProtocol] is a string type. *)
Definition OutputProtocol := string.
Definition ProtocolOpenAPI : OutputProtocol := "OpenAPI".
Definition ProtocolAsyncAPI : OutputProtocol := "AsyncAPI".
Definition ProtocolGraphQL : OutputProtocol := "GraphQL".
Definition ProtocolDCAT : OutputProtocol := "DCAT".
Definition ProtocolArrowFlight : OutputProtocol := "ArrowFlight".

Record InputContract := mkInputContract {
  MinimumVersion : string;
  Contract_Protocol : OutputProtocol
}.

Record InputPort := mkInputPort {
  Input_Name : string;
  Input_ProductRef : ProductReference;
  Input_Contract : option InputContract
}.

Record OutputPort := mkOutputPort {
  Output_Name : string;
  Output_Protocol : OutputProtocol;
  Output_URL : string;
  Output_ContractURL : string;
  Output_MediaType : string
}.

Record InputStatus := mkInputStatus {
  IS_Name : string;
  IS_ProductRef : ProductReference;
  IS_ProductID : string;
  IS_ObservedGeneration : Z;
  IS_Version : string;
  IS_Owner : option ProductOwner;
  IS_Output : option OutputPort;
  IS_Ready : bool;
  IS_Reason : string
}.

(** A nil [Capabilities] slice is distinguished from an empty one by the registry. *)
Record UIContract := mkUIContract {
  UI_APIVersion : string;
  UI_HostOrigins : list string;
  UI_Capabilities : option (list string)
}.

Record ProductUI := mkProductUI {
  UI_URL : string;
  UI_Title : string;
  UI_Contract : option UIContract
}.

Record ProvisionedResourceReference := mkResourceRef {
  RR_APIVersion : string;
  RR_Kind : string;
  RR_Name : string
}.

Record ConnectionSecretReference := mkSecretRef { CS_Name : string }.

Record EngineSelection := mkEngine {
  Engine_APIVersion : string;
  Engine_Type : string;
  Engine_Provider : string
}.

Record ProvisionedSource := mkSource {
  Source_Adapter : string;
  Source_Engine : option EngineSelection;
  Source_ResourceRef : ProvisionedResourceReference;
  Source_ConnectionSecretRef : ConnectionSecretReference
}.

Record ConnectorResourceReference := mkConnectorRef {
  CR_APIVersion : string;
  CR_Kind : string;
  CR_Name : string;
  CR_Namespace : string
}.

Record Connector := mkConnector {
  Connector_Adapter : string;
  Connector_ResourceRef : ConnectorResourceReference
}.

Record ContractCheck := mkContractCheck {
  Check_Output : string;
  Check_ResourceRef : ConnectorResourceReference
}.

Record DataProductSpec := mkSpec {
  ID : string;
  DisplayName : string;  (* the Go field is [Name] *)
  Description : string;
  Spec_Version : string;
  Owner : ProductOwner;
  DocumentationURL : string;
  Inputs : list InputPort;
  Outputs : list OutputPort;
  UI : option ProductUI;
  Source : option ProvisionedSource;
  Spec_Connector : option Connector;
  ContractChecks : list ContractCheck
}.

Record DataProductStatus := mkStatus {
  ObservedGeneration : Z;
  Conditions : list Condition;
  Status_Inputs : list InputStatus
}.

Record DataProduct := mkProduct {
  Meta : ObjectMeta;
  Spec : DataProductSpec;
  Status : DataProductStatus
}.

#[export] Instance ProductOwner_eq_dec : EqDecision ProductOwner.
Proof. solve_decision. Defined.
#[export] Instance ProductReference_eq_dec : EqDecision ProductReference.
Proof. solve_decision. Defined.
#[export] Instance InputContract_eq_dec : EqDecision InputContract.
Proof. solve_decision. Defined.
#[export] Instance InputPort_eq_dec : EqDecision InputPort.
Proof. solve_decision. Defined.
#[export] Instance OutputPort_eq_dec : EqDecision OutputPort.
Proof. solve_decision. Defined.
#[export] Instance InputStatus_eq_dec : EqDecision InputStatus.
Proof. solve_decision. Defined.
#[export] Instance DataProductStatus_eq_dec : EqDecision DataProductStatus.
Proof. solve_decision. Defined.

(** [client.ObjectKeyFromObject]. *)
Definition ObjectKeyFromObject (p : DataProduct) : ObjectKey :=
  mkKey (Namespace (Meta p)) (Name (Meta p)).

(** Assignments through the product pointer. *)
Definition set_Conditions (cs : list Condition) (p : DataProduct) : DataProduct :=
  mkProduct (Meta p) (Spec p)
    (mkStatus (ObservedGeneration (Status p)) cs (Status_Inputs (Status p))).
Definition set_Status_Inputs (l : list InputStatus) (p : DataProduct) : DataProduct :=
  mkProduct (Meta p) (Spec p) (mkStatus (ObservedGeneration (Status p)) (Conditions (Status p)) l).
Definition set_ObservedGeneration (g : Z) (p : DataProduct) : DataProduct :=
  mkProduct (Meta p) (Spec p) (mkStatus g (Conditions (Status p)) (Status_Inputs (Status p))).

(** ** The admission rule of a provisioned source

    The [XValidation] marker of [ProvisionedSource], clause by clause. *)
Definition native_rule (e : EngineSelection) (s : ProvisionedSource) : bool :=
  let r := Source_ResourceRef s in
  let secret := CS_Name (Source_ConnectionSecretRef s) in
  (Engine_Provider e == "native") &&
  ( ( (Engine_Type e == "sql") && (Source_Adapter s == "cnpg/v1") &&
      (RR_APIVersion r == "postgresql.cnpg.io/v1") && (RR_Kind r == "Cluster") &&
      (secret == RR_Name r +:+ "-app") )
  || ( (Engine_Type e == "document") && (Source_Adapter s == "percona-mongodb/v1") &&
      (RR_APIVersion r == "psmdb.percona.com/v1") && (RR_Kind r == "PerconaServerMongoDB") &&
      (secret != "percona-server-mongodb-users") )
  || ( (Engine_Type e == "graph") && (Source_Adapter s == "arangodb/v1") &&
      (RR_APIVersion r == "database.arangodb.com/v1") && (RR_Kind r == "ArangoDeployment") ) ).

Definition hybrid_rule (e : EngineSelection) (s : ProvisionedSource) : bool :=
  let r := Source_ResourceRef s in
  let secret := CS_Name (Source_ConnectionSecretRef s) in
  (Engine_Provider e == "cnpg-hybrid") &&
  ((Engine_Type e == "document") || (Engine_Type e == "graph")) &&
  (Source_Adapter s == "cnpg-hybrid/v1") &&
  (RR_APIVersion r == "postgresql.cnpg.io/v1") && (RR_Kind r == "Cluster") &&
  negb (existsb (λ suffix, secret == RR_Name r +:+ suffix)
          ["-app"; "-superuser"; "-replication"; "-server"; "-ca"; "-client"]%string).

Definition source_rule (s : ProvisionedSource) : bool :=
  match Source_Engine s with
  | Some e => native_rule e s || hybrid_rule e s
  | None => Source_Adapter s == "crossplane/v1"
  end.

(** The field markers of [ProvisionedSource] and of the structs it holds: the [Pattern] of the
    resource's API version, kind and name and of the Secret's name, their [MaxLength] (in characters;
    the patterns admit ASCII alone) and every [Enum]. *)
Definition lower_digit (a : ascii) : bool := lower a || digit a.
Definition resourceName : re :=
  RCat (RClass lower_digit)
    (ROpt (RCat (RStar (RClass (λ a, one_of "-." a || lower_digit a))) (RClass lower_digit))).
Definition resourceAPIVersion : re :=
  RCat resourceName (RCat (RChr "/"%char) (RCat (RClass lower) (RStar (RClass lower_digit)))).
Definition resourceKind : re :=
  RCat (RClass upper) (RStar (RClass (λ a, upper a || lower a || digit a))).

Definition name_fields (name : string) : bool :=
  (slen name <=? 253)%Z && MatchString resourceName name.
Definition resource_fields (r : ProvisionedResourceReference) : bool :=
  MatchString resourceAPIVersion (RR_APIVersion r) && MatchString resourceKind (RR_Kind r) &&
  name_fields (RR_Name r).
Definition engine_fields (e : EngineSelection) : bool :=
  (Engine_APIVersion e == "engine-provider/v1") &&
  existsb (λ t, Engine_Type e == t) ["sql"; "document"; "graph"]%string &&
  existsb (λ p, Engine_Provider e == p) ["native"; "cnpg-hybrid"]%string.
Definition source_fields (s : ProvisionedSource) : bool :=
  existsb (λ a, Source_Adapter s == a)
    ["crossplane/v1"; "cnpg/v1"; "percona-mongodb/v1"; "arangodb/v1"; "cnpg-hybrid/v1"]%string &&
  match Source_Engine s with Some e => engine_fields e | None => true end &&
  resource_fields (Source_ResourceRef s) &&
  name_fields (CS_Name (Source_ConnectionSecretRef s)).
