(* ===== verification/GoJson.v ===== *)
(** * [unicode/utf8] and [encoding/json]

    UTF-8 validity and the encoder of [json.Marshal] for the values the repository marshals:
    strings, integers, booleans, slices and structs.  The encoder escapes HTML characters, replaces
    invalid UTF-8 by the escape of U+FFFD and escapes U+2028 and U+2029, as [json.Marshal] does. *)

From S2P Require Import Prelude.
From stdpp Require Import pretty.
From Stdlib Require Import Ascii.

Definition byte_in (lo hi : N) (a : ascii) : bool :=
  ((lo <=? N_of_ascii a) && (N_of_ascii a <=? hi))%N.

(** The continuation bytes that a leading byte admits (the table of [unicode/utf8]). *)
Definition second_byte (a b : ascii) : bool :=
  let n := N_of_ascii a in
  if (n =? 0xE0)%N then byte_in 0xA0 0xBF b
  else if (n =? 0xED)%N then byte_in 0x80 0x9F b
  else if (n =? 0xF0)%N then byte_in 0x90 0xBF b
  else if (n =? 0xF4)%N then byte_in 0x80 0x8F b
  else byte_in 0x80 0xBF b.
Definition tail_byte : ascii → bool := byte_in 0x80 0xBF.

(** The length of the encoding that starts [String a s], or 0 when it is invalid. *)
Definition rune_size (a : ascii) (s : string) : nat :=
  if byte_in 0 0x7F a then 1
  else if byte_in 0xC2 0xDF a then
    match s with String.String b _ => if tail_byte b then 2 else 0 | _ => 0 end
  else if byte_in 0xE0 0xEF a then
    match s with
    | String.String b (String.String c _) => if second_byte a b && tail_byte c then 3 else 0
    | _ => 0
    end
  else if byte_in 0xF0 0xF4 a then
    match s with
    | String.String b (String.String c (String.String d _)) =>
        if second_byte a b && tail_byte c && tail_byte d then 4 else 0
    | _ => 0
    end
  else 0.

(** [utf8.ValidString]. *)
Fixpoint ValidString (s : string) : bool :=
  match s with
  | String.EmptyString => true
  | String.String a s1 =>
      match rune_size a s1 with
      | 1 => ValidString s1
      | 2 => match s1 with String.String _ s2 => ValidString s2 | _ => false end
      | 3 => match s1 with
             | String.String _ (String.String _ s3) => ValidString s3
             | _ => false
             end
      | 4 => match s1 with
             | String.String _ (String.String _ (String.String _ s4)) => ValidString s4
             | _ => false
             end
      | _ => false
      end
  end.

(** ** Strings *)

Definition hex_digit (n : N) : ascii :=
  if (n <? 10)%N then ascii_of_N (48 + n) else ascii_of_N (87 + n).
Definition one (a : ascii) : string := String.String a "".
Definition backslash : ascii := "\".

(** The bytes below 0x80 that [json.Marshal] copies unchanged. *)
Definition html_safe (a : ascii) : bool :=
  byte_in 0x20 0x7F a &&
  negb (existsb (Ascii.eqb a) [ascii_of_N 34; "&"; "<"; ">"; backslash]%char).

Definition escape_ascii (a : ascii) : string :=
  if html_safe a then one a
  else let n := N_of_ascii a in
  String.String backslash
    (if existsb (Ascii.eqb a) [ascii_of_N 34; backslash] then one a
     else if (n =? 8)%N then "b"
     else if (n =? 12)%N then "f"
     else if (n =? 10)%N then "n"
     else if (n =? 13)%N then "r"
     else if (n =? 9)%N then "t"
     else "u00" +:+ one (hex_digit (n / 16)) +:+ one (hex_digit (n mod 16))).

Definition is_line_separator (a b c : ascii) : bool :=
  (N_of_ascii a =? 0xE2)%N && (N_of_ascii b =? 0x80)%N && byte_in 0xA8 0xA9 c.

Fixpoint json_chars (s : string) : string :=
  match s with
  | String.EmptyString => ""
  | String.String a s1 =>
      if byte_in 0 0x7F a then escape_ascii a +:+ json_chars s1
      else
        match rune_size a s1, s1 with
        | 2, String.String b s2 => String.String a (String.String b (json_chars s2))
        | 3, String.String b (String.String c s3) =>
            (if is_line_separator a b c
             then one backslash +:+ "u202" +:+ one (hex_digit (N_of_ascii c mod 16))
             else one a +:+ one b +:+ one c) +:+ json_chars s3
        | 4, String.String b (String.String c (String.String d s4)) =>
            one a +:+ one b +:+ one c +:+ one d +:+ json_chars s4
        | _, _ => one backslash +:+ "ufffd" +:+ json_chars s1
        end
  end.

Definition quote_byte : string := one (ascii_of_N 34).
Definition json_string (s : string) : string := quote_byte +:+ json_chars s +:+ quote_byte.

(** ** Values *)

Unset Elimination Schemes.
Inductive json :=
  | JNull
  | JBool (b : bool)
  | JInt (n : Z)
  | JString (s : string)
  | JArray (l : list json)
  | JObject (fields : list (string * json)).
Set Elimination Schemes.

Fixpoint join (sep : string) (l : list string) : string :=
  match l with
  | [] => ""
  | [s] => s
  | s :: l' => s +:+ sep +:+ join sep l'
  end.

(** [json.Marshal]; struct fields are listed in declaration order, map keys sorted. *)
Fixpoint encode (j : json) : string :=
  match j with
  | JNull => "null"
  | JBool b => if b then "true" else "false"
  | JInt n => pretty n
  | JString s => json_string s
  | JArray l => "[" +:+ join "," (map encode l) +:+ "]"
  | JObject fs =>
      "{" +:+ join "," (map (λ f, json_string (fst f) +:+ ":" +:+ encode (snd f)) fs) +:+ "}"
  end.

(** Fields tagged [omitempty]. *)
Definition field (name : string) (j : json) : list (string * json) := [(name, j)].
Definition omit_string (name s : string) : list (string * json) :=
  if s == "" then [] else [(name, JString s)].
Definition omit_int (name : string) (n : Z) : list (string * json) :=
  if (n =? 0)%Z then [] else [(name, JInt n)].
Definition omit_nil {A} (name : string) (f : A → json) (o : option A) : list (string * json) :=
  match o with None => [] | Some a => [(name, f a)] end.
Definition omit_empty {A} (name : string) (f : A → json) (l : list A) : list (string * json) :=
  match l with [] => [] | _ => [(name, JArray (map f l))] end.

(** An encoded string is never shorter than its two quotes. *)
Lemma json_string_length s : (2 <= slen (json_string s))%Z.
Proof.
  unfold json_string. rewrite !slen_app. unfold quote_byte, slen, one. simpl. lia.
Qed.
