(* ===== verification/GoStrings.v ===== *)
(** * The functions of Go's package [strings] the repository uses *)

From Stdlib Require Import Ascii.
From S2P Require Import Prelude.

(** [strings.HasPrefix]. *)
Fixpoint HasPrefix (s prefix : string) {struct prefix} : bool :=
  match prefix, s with
  | String.EmptyString, _ => true
  | String.String a p, String.String b s' => Ascii.eqb a b && HasPrefix s' p
  | String.String _ _, String.EmptyString => false
  end.

(** [strings.Contains]. *)
Fixpoint Contains (s substr : string) : bool :=
  HasPrefix s substr ||
  match s with
  | String.EmptyString => false
  | String.String _ s' => Contains s' substr
  end.

(** [s] without its first [n] bytes. *)
Fixpoint drop_bytes (n : nat) (s : string) : string :=
  match n, s with
  | O, _ => s
  | S n', String.String _ s' => drop_bytes n' s'
  | S _, String.EmptyString => ""
  end.

(** [s] up to its first [n] bytes. *)
Fixpoint take_bytes (n : nat) (s : string) : string :=
  match n, s with
  | S n', String.String a s' => String.String a (take_bytes n' s')
  | _, _ => ""
  end.

(** [strings.Replace(s, old, new, 1)] for a non-empty [old]. *)
Fixpoint ReplaceFirst (s old new : string) : string :=
  if HasPrefix s old then new +:+ drop_bytes (String.length old) s
  else match s with
  | String.EmptyString => ""
  | String.String a s' => String.String a (ReplaceFirst s' old new)
  end.

(** [strings.ReplaceAll(s, old, new)] for a non-empty [old]; [skip] counts the bytes of a match that
    are still to be dropped. *)
Fixpoint replace_all (s old new : string) (skip : nat) : string :=
  match s with
  | String.EmptyString => ""
  | String.String a s' =>
      match skip with
      | S skip' => replace_all s' old new skip'
      | O => if HasPrefix s old then new +:+ replace_all s' old new (String.length old - 1)
             else String.String a (replace_all s' old new 0)
      end
  end.
Definition ReplaceAll (s old new : string) : string := replace_all s old new 0.

(** [strings.HasSuffix]. *)
Definition HasSuffix (s suffix : string) : bool :=
  (String.length suffix <=? String.length s)%nat &&
  (drop_bytes (String.length s - String.length suffix) s == suffix).

(** [strings.TrimPrefix] and [strings.TrimSuffix]. *)
Definition TrimPrefix (s prefix : string) : string :=
  if HasPrefix s prefix then drop_bytes (String.length prefix) s else s.
Definition TrimSuffix (s suffix : string) : string :=
  if HasSuffix s suffix then take_bytes (String.length s - String.length suffix) s else s.

(** [strings.Split] on a one-byte separator; [cur] is the current field. *)
Fixpoint split_byte (sep : ascii) (s cur : string) : list string :=
  match s with
  | String.EmptyString => [cur]
  | String.String a s' =>
      if Ascii.eqb a sep then cur :: split_byte sep s' ""
      else split_byte sep s' (cur +:+ String.String a "")
  end.
Definition Split (s : string) (sep : ascii) : list string := split_byte sep s "".

Lemma HasPrefix_spec s p : HasPrefix s p = true ↔ ∃ t, s = p +:+ t.
Proof.
  revert s. induction p as [|a p IH]; intros s; simpl.
  - split; [|done]. intros _. by exists s.
  - destruct s as [|b s].
    + split; [done|]. intros [t Ht]. done.
    + rewrite andb_true_iff, Ascii.eqb_eq, IH. split.
      * intros [-> [t ->]]. by exists t.
      * intros [t Ht]. rewrite str_app_cons in Ht. injection Ht as -> ->. eauto.
Qed.

Lemma Contains_spec s u : Contains s u = true ↔ ∃ l r, s = l +:+ u +:+ r.
Proof.
  induction s as [|a s IH]; simpl; rewrite orb_true_iff, HasPrefix_spec.
  - split.
    + intros [[t Ht]|]; [|done]. by exists "", t.
    + intros (l & r & H). left. destruct l as [|b l]; [by exists r|done].
  - rewrite IH. split.
    + intros [[t Ht]|(l & r & ->)]; [by exists "", t|]. exists (String.String a l), r. done.
    + intros (l & r & H). destruct l as [|b l]; [left; by exists r|right].
      rewrite str_app_cons in H. injection H as <- ->. eauto.
Qed.

Lemma take_drop_bytes n : ∀ s, s = take_bytes n s +:+ drop_bytes n s.
Proof.
  induction n as [|n IH]; intros [|a s]; try done. cbn [take_bytes drop_bytes].
  by rewrite str_app_cons, <- IH.
Qed.

Lemma take_bytes_length n : ∀ s, n <= String.length s → String.length (take_bytes n s) = n.
Proof.
  induction n as [|n IH]; intros [|a s] H; cbn in H |- *; try lia. rewrite IH; lia.
Qed.

Lemma drop_bytes_app p t : drop_bytes (String.length p) (p +:+ t) = t.
Proof. induction p as [|a p IH]; [done|]. by rewrite str_app_cons. Qed.

(** A replacement at the head of the string. *)
Lemma ReplaceFirst_prefix old new t : ReplaceFirst (old +:+ t) old new = new +:+ t.
Proof.
  assert (HasPrefix (old +:+ t) old = true) as Hp by (apply HasPrefix_spec; eauto).
  destruct (old +:+ t) as [|a s] eqn:E; cbn [ReplaceFirst]; rewrite Hp; f_equal; rewrite <- E;
    apply drop_bytes_app.
Qed.

