(* ===== verification/Composition.v ===== *)
(** * Composition: the dependency graph walk and declared compatibility

    [internal/controller/composition.go].  The walk [visit] mutates a [compositionGraph] and reads
    producers through the client, so it runs in a state monad over the graph and the outside world.
    Go's maps from keys to [true] are finite sets; a missing height reads as 0.  The recursion is
    on fuel; [visit_fuel] (file CompositionProofs) shows that 65 levels always suffice. *)

From S2P Require Import Prelude Kube Api Regex GoJson.
From Stdlib Require Import Ascii.

Definition maxCompositionProducts : Z := 256.
Definition maxCompositionEdges : Z := 1024.
Definition maxCompositionDepth : Z := 64.
Definition maxLineageBytes : Z := 65536.

(** The anchored pattern of a stable version: [v] and three dotted numbers without leading
    zeros. *)
Definition version_number : re :=
  RAlt (RChr "0") (RCat (RClass (in_range "1" "9")) (RStar (RClass digit))).
Definition stableContractVersion : re :=
  RCat (RChr "v") (RCat version_number (RCat (RChr ".")
    (RCat version_number (RCat (RChr ".") version_number)))).

(** [resolvedReference] makes an omitted namespace relative to the declaring product. *)
Definition resolvedReference (product : DataProduct) (ref : ProductReference)
  : ProductReference :=
  if Ref_Namespace ref == ""
  then mkProductReference (Ref_Name ref) (Namespace (Meta product)) (Ref_Output ref)
  else ref.

Definition ref_key (ref : ProductReference) : ObjectKey :=
  mkKey (Ref_Namespace ref) (Ref_Name ref).

(** [findOutput] selects the declared port by name. *)
Definition findOutput (product : DataProduct) (name : string) : option OutputPort :=
  find_first (λ o, Output_Name o == name) (Outputs (Spec product)).

Section Compatibility.
Context `{V : VersionApi}.

(** [compatibleVersion] accepts stable same-major upgrades, exact matches before version one. *)
Definition compatibleVersion (actual minimum : string) : bool :=
  if negb (MatchString stableContractVersion actual) ||
     negb (MatchString stableContractVersion minimum)
  then false
  else match ParseSemantic actual with
  | None => false
  | Some a =>
      match ParseSemantic minimum with
      | None => false
      | Some m =>
          if Major a != Major m then false
          else if Major a == 0%Z then actual == minimum
          else AtLeast a m
      end
  end.

(** [inputCompatibility] checks the selected port and the optional contract requirement. *)
Definition inputCompatibility (input : InputPort) (producer : DataProduct) : string :=
  match findOutput producer (Ref_Output (Input_ProductRef input)) with
  | None => "OutputNotFound"
  | Some output =>
      match Input_Contract input with
      | None => ""
      | Some contract =>
          if (Output_Protocol output != Contract_Protocol contract) ||
             negb (compatibleVersion (Spec_Version (Spec producer)) (MinimumVersion contract))
          then "ContractIncompatible"
          else ""
      end
  end.

Definition DeclaredInputCompatibility (input : InputPort) (producer : DataProduct) : string :=
  inputCompatibility input producer.
End Compatibility.

(** [producerReady] rejects stale success and products already being deleted. *)
Definition producerReady `{C : ConditionApi} (product : DataProduct) : bool :=
  let condition := FindStatusCondition (Conditions (Status product)) ConditionReady in
  IsZero (DeletionTimestamp (Meta product)) &&
  match condition with
  | None => false
  | Some c =>
      (cond_Status c == ConditionTrue) && (cond_ObservedGeneration c == Generation (Meta product))
  end.

(** ** JSON of an observed input, with the struct tags of the API types *)

Definition ProductReference_json (r : ProductReference) : json :=
  JObject (field "name" (JString (Ref_Name r)) ++ omit_string "namespace" (Ref_Namespace r) ++
           field "output" (JString (Ref_Output r))).
Definition ProductOwner_json (o : ProductOwner) : json :=
  JObject (field "name" (JString (Owner_Name o)) ++ omit_string "url" (Owner_URL o)).
Definition OutputPort_json (o : OutputPort) : json :=
  JObject (field "name" (JString (Output_Name o)) ++
           field "protocol" (JString (Output_Protocol o)) ++
           field "url" (JString (Output_URL o)) ++
           field "contractUrl" (JString (Output_ContractURL o)) ++
           omit_string "mediaType" (Output_MediaType o)).
Definition InputStatus_json (s : InputStatus) : json :=
  JObject (field "name" (JString (IS_Name s)) ++
           field "productRef" (ProductReference_json (IS_ProductRef s)) ++
           omit_string "productID" (IS_ProductID s) ++
           omit_int "observedGeneration" (IS_ObservedGeneration s) ++
           omit_string "version" (IS_Version s) ++
           omit_nil "owner" ProductOwner_json (IS_Owner s) ++
           omit_nil "output" OutputPort_json (IS_Output s) ++
           field "ready" (JBool (IS_Ready s)) ++
           field "reason" (JString (IS_Reason s))).

Section Walk.
Context `{E : Env} `{C : ConditionApi} `{V : VersionApi} `{F : GoFmt}.

Record compositionObservation := mkObservation {
  reason : string;
  message : string;
  obs_err : option error
}.

Definition no_observation : compositionObservation := mkObservation "" "" None.

Record compositionGraph := mkGraph {
  notReady : option ObjectKey;
  products : gmap ObjectKey DataProduct;
  visiting : gset ObjectKey;
  visited : gset ObjectKey;
  heights : gmap ObjectKey Z;
  missing : gset ObjectKey;
  edges : Z
}.

Definition height (g : compositionGraph) (k : ObjectKey) : Z := default 0%Z (heights g !! k).

(** *** Assignments to the graph's fields *)
Definition set_notReady (k : ObjectKey) (g : compositionGraph) : compositionGraph :=
  mkGraph (Some k) (products g) (visiting g) (visited g) (heights g) (missing g) (edges g).
Definition add_product (k : ObjectKey) (p : DataProduct) (g : compositionGraph)
  : compositionGraph :=
  mkGraph (notReady g) (<[k := p]> (products g)) (visiting g) (visited g) (heights g) (missing g)
    (edges g).
Definition enter (k : ObjectKey) (n : Z) (g : compositionGraph) : compositionGraph :=
  mkGraph (notReady g) (products g) ({[k]} ∪ visiting g) (visited g) (heights g) (missing g)
    (edges g + n).
Definition leave (k : ObjectKey) (g : compositionGraph) : compositionGraph :=
  mkGraph (notReady g) (products g) (visiting g ∖ {[k]}) (visited g) (heights g) (missing g)
    (edges g).
Definition set_visited (k : ObjectKey) (g : compositionGraph) : compositionGraph :=
  mkGraph (notReady g) (products g) (visiting g) ({[k]} ∪ visited g) (heights g) (missing g)
    (edges g).
Definition set_height (k : ObjectKey) (h : Z) (g : compositionGraph) : compositionGraph :=
  mkGraph (notReady g) (products g) (visiting g) (visited g) (<[k := h]> (heights g)) (missing g)
    (edges g).
Definition set_missing (k : ObjectKey) (g : compositionGraph) : compositionGraph :=
  mkGraph (notReady g) (products g) (visiting g) (visited g) (heights g) ({[k]} ∪ missing g)
    (edges g).

(** *** The monad of the walk *)
Definition Walk (A : Type) : Type := ST (compositionGraph * World) A.
Definition get_graph : Walk compositionGraph := λ s, (fst s, s).
Definition modify (f : compositionGraph → compositionGraph) : Walk unit :=
  λ s, (tt, (f (fst s), snd s)).
Definition world {A} (m : ST World A) : Walk A :=
  λ s, let '(a, w) := m (snd s) in (a, (fst s, w)).

Definition compositionLimit : compositionObservation :=
  mkObservation "CompositionLimitExceeded"
    "Composition exceeds 256 products, 1024 inputs, or 64 levels; split the dependency graph."
    None.

Definition timed_out (err : error) : compositionObservation :=
  mkObservation "DependencyUnavailable"
    "Composition observation timed out; it will be retried." (Some err).
Definition cycle_found (key : ObjectKey) : compositionObservation :=
  mkObservation "DependencyCycle"
    ("A dependency cycle includes DataProduct " +:+ key_String key +:+
     "; remove a circular input reference.") None.
Definition cross_namespace : compositionObservation :=
  mkObservation "CrossNamespaceDependencyDenied"
    "Composition requires producers in the same namespace; cross-namespace producer authorization is not supported."
    None.
Definition missing_producer (input : InputPort) (key producerKey : ObjectKey)
  : compositionObservation :=
  mkObservation "DependencyNotFound"
    ("Input " +:+ Quote (Input_Name input) +:+ " on DataProduct " +:+ key_String key +:+
     " references missing DataProduct " +:+ key_String producerKey +:+ ".") None.
Definition unavailable_producer (err : error) : compositionObservation :=
  mkObservation "DependencyUnavailable"
    "A dependency could not be observed; check Kubernetes API availability and controller access."
    (Some err).
Definition incompatible (why : string) (input : InputPort) (key : ObjectKey)
    (ref : ProductReference) : compositionObservation :=
  mkObservation why
    ("Input " +:+ Quote (Input_Name input) +:+ " on DataProduct " +:+ key_String key +:+
     " does not match output " +:+ Quote (Ref_Output ref) +:+ " on " +:+ key_String (ref_key ref)
     +:+ "; check its protocol and stable contract version.") None.

(** The producer of an input: from the snapshot, or by one bounded read. *)
Definition get_producer (reader : Reader DataProduct) (ctx : Ctx) (input : InputPort)
    (key producerKey : ObjectKey) : Walk (DataProduct + compositionObservation) :=
  g ← get_graph;
  match products g !! producerKey with
  | Some producer => mret (inl producer)
  | None =>
      if (maxCompositionProducts <=? Z.of_nat (size (products g)))%Z
      then mret (inr compositionLimit)
      else
        r ← world (reader ctx producerKey);
        match r with
        | inr err =>
            if IsNotFound err then
              _ ← modify (set_missing producerKey);
              mret (inr (missing_producer input key producerKey))
            else mret (inr (unavailable_producer err))
        | inl producer =>
            _ ← modify (add_product producerKey producer);
            mret (inl producer)
        end
  end.

(** The loop over one product's inputs; [rec] is the recursive call of [visit]. *)
Fixpoint visit_inputs
    (rec : DataProduct → Z → Walk (option compositionObservation))
    (reader : Reader DataProduct) (ctx : Ctx) (product : DataProduct) (key : ObjectKey)
    (depth : Z) (inputs : list InputPort) : Walk (option compositionObservation) :=
  match inputs with
  | [] =>
      _ ← modify (set_visited key);
      mret (Some no_observation)
  | input :: inputs' =>
      let ref := resolvedReference product (Input_ProductRef input) in
      if Ref_Namespace ref != Namespace (Meta product) then mret (Some cross_namespace)
      else
        let producerKey := ref_key ref in
        found ← get_producer reader ctx input key producerKey;
        match found with
        | inr observation => mret (Some observation)
        | inl producer =>
            result ← rec producer (depth + 1)%Z;
            match result with
            | None => mret None
            | Some observation =>
                if reason observation != "" then mret (Some observation)
                else
                  _ ← modify (λ g, set_height key
                        (Z.max (height g key) (1 + height g producerKey)) g);
                  let why := inputCompatibility input producer in
                  if why != "" then mret (Some (incompatible why input key ref))
                  else
                    _ ← modify (λ g,
                          if negb (producerReady producer) && negb (non_nil (notReady g))
                          then set_notReady producerKey g else g);
                    visit_inputs rec reader ctx product key depth inputs'
            end
        end
  end.

(** [visit] checks structure and declared contracts before trusting any producer's status; the
    result [None] means that the fuel ran out. *)
Fixpoint visit (fuel : nat) (reader : Reader DataProduct) (ctx : Ctx) (product : DataProduct)
    (depth : Z) : Walk (option compositionObservation) :=
  match fuel with
  | O => mret None
  | S fuel' =>
      err ← world (Err ctx);
      match err with
      | Some e => mret (Some (timed_out e))
      | None =>
          g ← get_graph;
          let key := ObjectKeyFromObject product in
          let inputs := Inputs (Spec product) in
          if bool_decide (key ∈ visiting g) then mret (Some (cycle_found key))
          else if bool_decide (key ∈ visited g) then
            if (maxCompositionDepth <=? depth + height g key)%Z
            then mret (Some compositionLimit)
            else mret (Some no_observation)
          else if (maxCompositionDepth <=? depth)%Z ||
                  (maxCompositionEdges - edges g <? len inputs)%Z
          then mret (Some compositionLimit)
          else
            _ ← modify (enter key (len inputs));
            result ← visit_inputs (visit fuel' reader ctx) reader ctx product key depth inputs;
            _ ← modify (leave key);  (* defer delete(g.visiting, key) *)
            mret result
      end
  end.

(** *** Lineage of the product's own inputs *)

(** One entry of [product.Status.Inputs], from the already observed snapshot. *)
Definition input_status (g : compositionGraph) (product : DataProduct) (input : InputPort)
  : InputStatus :=
  let ref := resolvedReference product (Input_ProductRef input) in
  let base (why : string) := mkInputStatus (Input_Name input) ref "" 0 "" None None false why in
  if Ref_Namespace ref != Namespace (Meta product)
  then base "CrossNamespaceDependencyDenied"
  else match products g !! ref_key ref with
  | Some producer =>
      let why := inputCompatibility input producer in
      let why := if (why == "") && negb (producerReady producer) then "DependencyNotReady" else why in
      let ready := why == "" in
      mkInputStatus (Input_Name input) ref
        (ID (Spec producer)) (Generation (Meta producer)) (Spec_Version (Spec producer))
        (Some (Owner (Spec producer)))
        (findOutput producer (Ref_Output ref))
        ready (if ready then "InputReady" else why)
  | None =>
      if bool_decide (ref_key ref ∈ missing g) then base "DependencyNotFound"
      else base "DependencyUnobserved"
  end.

(** [json.Marshal] of an [InputStatus], which holds no value the encoder can reject. *)
Definition marshal_status (s : InputStatus) : string + error := inl (encode (InputStatus_json s)).

(** The loop that fills [product.Status.Inputs] within the byte budget; [acc] is the slice so far. *)
Fixpoint lineage_loop (g : compositionGraph) (product : DataProduct) (inputs : list InputPort)
    (lineageBytes : Z) (acc : list InputStatus) (observation : compositionObservation)
  : compositionObservation * list InputStatus :=
  match inputs with
  | [] => (observation, acc)
  | input :: inputs' =>
      let status := input_status g product input in
      match marshal_status status with
      | inr err =>
          (mkObservation "DependencyUnavailable" "Input lineage could not be encoded." (Some err),
           [])
      | inl encoded =>
          let lineageBytes := (lineageBytes + (slen encoded + 1))%Z in
          if (maxLineageBytes <? lineageBytes)%Z then
            (mkObservation "CompositionLimitExceeded"
               "Observed lineage exceeds 64 KiB; shorten producer metadata or split the inputs."
               None, [])
          else lineage_loop g product inputs' lineageBytes (acc ++ [status]) observation
      end
  end.

(** [setCompositionCondition]. *)
Definition composition_condition (product : DataProduct) (observation : compositionObservation)
  : Condition :=
  let ok := reason observation == "" in
  mkCondition ConditionCompositionReady
    (if ok then ConditionTrue else ConditionFalse)
    (Generation (Meta product)) 0%Z
    (if ok then "CompositionVerified" else reason observation)
    (if ok then "The dependency graph is acyclic and all inputs satisfy their declared contracts."
     else message observation).
Definition setCompositionCondition (product : DataProduct) (observation : compositionObservation)
  : ST World DataProduct :=
  cs ← set_condition (Conditions (Status product)) (composition_condition product observation);
  mret (set_Conditions cs product).

Definition removeCompositionCondition (product : DataProduct) : DataProduct :=
  set_Conditions
    (RemoveStatusCondition (Conditions (Status product)) ConditionCompositionReady) product.

Definition initial_graph (product : DataProduct) : compositionGraph :=
  mkGraph None {[ObjectKeyFromObject product := product]} ∅ ∅ ∅ ∅ 0.

(** Fuel of the root call: one more than the depth limit. *)
Definition walk_fuel : nat := 65.

Definition walk_root (reader : Reader DataProduct) (ctx : Ctx) (product : DataProduct)
  : ST World (compositionObservation * compositionGraph) :=
  λ w, let '(r, (g, w')) := visit walk_fuel reader ctx product 0 (initial_graph product, w) in
       ((default compositionLimit r, g), w').

(** The observation after the walk, before lineage: a structurally sound graph may still hold a
    producer that is not ready. *)
Definition with_notReady (o : compositionObservation) (g : compositionGraph)
  : compositionObservation :=
  match notReady g with
  | Some k =>
      if reason o == "" then
        mkObservation "DependencyNotReady"
          ("DataProduct " +:+ key_String k +:+
           " is not ready; wait for its current source and dependency observations.") None
      else o
  | None => o
  end.

(** The first input of the sorted lineage that is not ready decides an otherwise clean result. *)
Definition with_lineage (o : compositionObservation) (statuses : list InputStatus)
  : compositionObservation :=
  if reason o == "" then
    match find_first (λ s, negb (IS_Ready s)) statuses with
    | Some input =>
        mkObservation (IS_Reason input)
          ("Input " +:+ Quote (IS_Name input) +:+
           " requires a ready producer with a compatible named output.") None
    | None => o
    end
  else o.

(** The lineage block: the loop runs only when the product declares at most
    [maxCompositionEdges] inputs, and its slice is sorted by name. *)
Definition observe_lineage (g : compositionGraph) (product : DataProduct)
    (o : compositionObservation) : compositionObservation * list InputStatus :=
  let inputs := Inputs (Spec product) in
  if (len inputs <=? maxCompositionEdges)%Z then
    let '(o', l) := lineage_loop g product inputs 2 [] o in
    (o', sort_slice (less_by IS_Name) l)
  else (o, []).

(** [observeComposition]: the product with its refreshed status, and the returned error. *)
Definition observeComposition (client : Reader DataProduct) (CompositionEnabled : Flag) (ctx : Ctx)
    (product0 : DataProduct) : ST World (option error * DataProduct) :=
  let product := set_Status_Inputs [] product0 in
  let inputs := Inputs (Spec product) in
  if (len inputs =? 0)%Z then mret (None, removeCompositionCondition product)
  else
    on ← flag_on CompositionEnabled ctx;
    if negb on then
      if existsb (λ i, non_nil (Input_Contract i)) inputs then
        p ← setCompositionCondition product
              (mkObservation "CompositionFeatureDisabled"
                 "Enable composition to evaluate required input contracts." None);
        mret (None, p)
      else mret (None, removeCompositionCondition product)
    else
      ctx' ← WithTimeout ctx (5 * Second);
      walked ← walk_root client ctx' product;
      let '(o, g) := walked in
      let o := with_notReady o g in
      let '(o, statuses) := observe_lineage g product o in
      let product := set_Status_Inputs statuses product in
      let o := with_lineage o statuses in
      p ← setCompositionCondition product o;
      mret (obs_err o, p).

End Walk.
