(* ===== verification/CompositionProofs.v ===== *)
(** * Composition: what the graph walk guarantees

    Hoare rules for the walk's monad, the invariant of [visit] and its consequences: termination,
    resource bounds, soundness of an accepted graph, soundness of a reported cycle, completeness on
    a stable snapshot and isolation of namespaces. *)

From S2P Require Import Prelude Kube Api Regex GoJson Composition.

(** ** Sums over finite sets of keys *)

Section Totals.
Context {K : Type} `{Countable K}.

Definition total (f : K → Z) (X : gset K) : Z := foldr Z.add 0%Z (f <$> elements X).

Lemma foldr_add_perm (l l' : list Z) : l ≡ₚ l' → foldr Z.add 0%Z l = foldr Z.add 0%Z l'.
Proof. induction 1; simpl; lia. Qed.

Lemma total_empty f : total f ∅ = 0%Z.
Proof. unfold total. by rewrite elements_empty. Qed.

Lemma total_insert f x (X : gset K) : x ∉ X → total f ({[x]} ∪ X) = (f x + total f X)%Z.
Proof.
  intros Hx. unfold total.
  by rewrite (foldr_add_perm _ _ (fmap_Permutation f _ _ (elements_union_singleton X x Hx))).
Qed.

Lemma total_ext f g (X : gset K) : (∀ x, x ∈ X → f x = g x) → total f X = total g X.
Proof.
  intros Hfg. unfold total. f_equal. apply list_fmap_ext. intros i x Hi.
  apply Hfg, elem_of_elements. by eapply list_elem_of_lookup_2.
Qed.

Lemma total_mono f (X Y : gset K) : (∀ x, 0 ≤ f x)%Z → X ⊆ Y → (total f X ≤ total f Y)%Z.
Proof.
  intros Hf. revert Y. induction X as [|x X Hx IH] using set_ind_L; intros Y HXY.
  - rewrite total_empty. unfold total. clear HXY.
    induction (elements Y) as [|a l IHl]; csimpl; [done|]. specialize (Hf a). lia.
  - rewrite total_insert by done.
    assert (Y = {[x]} ∪ (Y ∖ {[x]})) as ->.
    { apply set_eq. intros z. destruct (decide (z = x)); set_solver. }
    rewrite total_insert by set_solver.
    specialize (IH (Y ∖ {[x]}) ltac:(set_solver)). lia.
Qed.
End Totals.

Section Proofs.
Context `{E : Env} `{C : ConditionApi} `{V : VersionApi} `{F : GoFmt}.

(** ** Rules for the walk's monad *)

(** [hoare P m Q]: from a graph satisfying [P], whatever the world, [m] ends in a graph that
    satisfies [Q] of the returned value. *)
Definition hoare {A} (P : compositionGraph → Prop) (m : Walk A)
    (Q : A → compositionGraph → Prop) : Prop :=
  ∀ g w, P g → Q (fst (m (g, w))) (fst (snd (m (g, w)))).

Lemma hoare_conseq {A} (P P' : compositionGraph → Prop) (m : Walk A)
    (Q Q' : A → compositionGraph → Prop) :
  hoare P' m Q' → (∀ g, P g → P' g) → (∀ a g, Q' a g → Q a g) → hoare P m Q.
Proof. intros Hm HP HQ g w Hg. apply HQ, Hm, HP, Hg. Qed.

Lemma hoare_ret {A} (P : compositionGraph → Prop) (a : A) (Q : A → compositionGraph → Prop) :
  (∀ g, P g → Q a g) → hoare P (mret a) Q.
Proof. intros H g w Hg. apply H, Hg. Qed.

Lemma hoare_bind {A B} (P : compositionGraph → Prop) (m : Walk A) (f : A → Walk B)
    (R : A → compositionGraph → Prop) (Q : B → compositionGraph → Prop) :
  hoare P m R → (∀ a, hoare (R a) (f a) Q) → hoare P (m ≫= f) Q.
Proof.
  intros Hm Hf g w Hg. specialize (Hm g w Hg). unfold mbind, st_bind.
  destruct (m (g, w)) as [a [g' w']]. apply Hf, Hm.
Qed.

Lemma hoare_get (P : compositionGraph → Prop) : hoare P get_graph (λ a g, a = g ∧ P g).
Proof. intros g w Hg. done. Qed.

(** Reading the graph fixes it, so its facts become hypotheses. *)
Lemma hoare_get_bind {B} (P : compositionGraph → Prop) (f : compositionGraph → Walk B)
    (Q : B → compositionGraph → Prop) :
  (∀ g, P g → hoare (λ g', g' = g) (f g) Q) → hoare P (get_graph ≫= f) Q.
Proof. intros H g w Hg. by apply H. Qed.

Lemma hoare_modify (P : compositionGraph → Prop) f (Q : unit → compositionGraph → Prop) :
  (∀ g, P g → Q tt (f g)) → hoare P (modify f) Q.
Proof. intros H g w Hg. by apply H. Qed.

Lemma hoare_world {A} (P : compositionGraph → Prop) (m : ST World A)
    (Q : A → compositionGraph → Prop) :
  (∀ w g, P g → Q (fst (m w)) g) → hoare P (world m) Q.
Proof. intros H g w Hg. unfold world. simpl. specialize (H w g Hg). by destruct (m w). Qed.

Lemma hoare_world_const {A} (P : compositionGraph → Prop) (m : ST World A) :
  hoare P (world m) (λ _, P).
Proof. by apply hoare_world. Qed.

(** A reader that returns an object returns the one of the requested key. *)
Definition reader_keyed (reader : Reader DataProduct) : Prop :=
  ∀ ctx k w p, fst (reader ctx k w) = inl p → ObjectKeyFromObject p = k.

(** ** Termination: the depth limit bounds the recursion *)

Lemma visit_inputs_total rec reader ctx product key depth inputs s :
  (∀ p s, is_Some (fst (rec p (depth + 1)%Z s))) →
  is_Some (fst (visit_inputs rec reader ctx product key depth inputs s)).
Proof.
  intros Hrec. revert s. induction inputs as [|input inputs IH]; intros s; [by eexists|].
  simpl. case_match; [by eexists|].
  unfold mbind at 1, st_bind at 1. destruct (get_producer _ _ _ _ _ s) as [[p|o] s1]; [|by eexists].
  unfold mbind at 1, st_bind at 1. destruct (rec p (depth + 1)%Z s1) as [r s2] eqn:Er.
  specialize (Hrec p s1). rewrite Er in Hrec. destruct Hrec as [o Ho]. simpl in Ho. subst r.
  case_match; [by eexists|]. unfold mbind at 1, st_bind at 1. simpl.
  case_match; [by eexists|]. unfold mbind at 1, st_bind at 1. simpl. apply IH.
Qed.

Lemma visit_fuel fuel reader ctx product depth s :
  (0 ≤ depth)%Z → (maxCompositionDepth < Z.of_nat fuel + depth)%Z →
  (depth ≤ maxCompositionDepth)%Z →
  is_Some (fst (visit fuel reader ctx product depth s)).
Proof.
  revert product depth s. induction fuel as [|fuel IH]; intros product depth s H0 H1 H2; [lia|].
  simpl. unfold mbind at 1, st_bind at 1. destruct (world (Err ctx) s) as [[e|] s1]; [by eexists|].
  unfold mbind at 1, st_bind at 1. simpl. case_match; [by eexists|].
  case_match; [case_match; by eexists|]. case_match; [by eexists|].
  unfold mbind at 1, st_bind at 1. simpl. unfold mbind at 1, st_bind at 1.
  match goal with |- context [visit_inputs ?a ?b ?c ?d ?e ?f ?i ?s] =>
    pose proof (visit_inputs_total a b c d e f i s) as Ht;
    destruct (visit_inputs a b c d e f i s) as [r s2] end.
  apply Ht. intros p s'. go_bool. apply IH; unfold maxCompositionDepth in *; lia.
Qed.

(** ** The invariant *)

(** [k] declares an input produced by [k']. *)
Definition depends (g : compositionGraph) (k k' : ObjectKey) : Prop :=
  ∃ p input, products g !! k = Some p ∧ input ∈ Inputs (Spec p) ∧
    k' = ref_key (resolvedReference p (Input_ProductRef input)).

(** One verified edge: the producer is in the same namespace, fully visited, strictly lower, and
    its output satisfies the input; it is ready unless the graph recorded one that is not. *)
Definition edge_ok (g : compositionGraph) (p : DataProduct) (k : ObjectKey) (input : InputPort)
  : Prop :=
  let ref := resolvedReference p (Input_ProductRef input) in
  Ref_Namespace ref = Namespace (Meta p) ∧ ref_key ref ∈ visited g ∧
  (∃ q, products g !! ref_key ref = Some q ∧ inputCompatibility input q = "" ∧
        (notReady g = None → producerReady q = true)) ∧
  (height g (ref_key ref) < height g k)%Z.

Definition certified (g : compositionGraph) (k : ObjectKey) : Prop :=
  ∃ p, products g !! k = Some p ∧ ∀ input, input ∈ Inputs (Spec p) → edge_ok g p k input.

Definition n_inputs (g : compositionGraph) (k : ObjectKey) : Z :=
  match products g !! k with Some p => len (Inputs (Spec p)) | None => 0%Z end.

Record wf (g : compositionGraph) : Prop := {
  wf_keyed k p : products g !! k = Some p → ObjectKeyFromObject p = k;
  wf_products : (Z.of_nat (size (products g)) ≤ maxCompositionProducts)%Z;
  wf_edges : edges g = total (n_inputs g) (visited g ∪ visiting g);
  wf_edges_bound : (edges g ≤ maxCompositionEdges)%Z;
  wf_visited k : k ∈ visited g → certified g k;
  wf_visiting k : k ∈ visiting g → is_Some (products g !! k);
  wf_disjoint k : k ∈ visited g → k ∈ visiting g → False;
  wf_heights k : k ∉ visited g → k ∉ visiting g → heights g !! k = None;
  wf_heights_pos k : (0 ≤ height g k)%Z;
  wf_notReady k : notReady g = Some k →
    ∃ q, products g !! k = Some q ∧ producerReady q = false
}.

(** What a completed visit leaves untouched. *)
Record frame (g g' : compositionGraph) : Prop := {
  frame_products : products g ⊆ products g';
  frame_visited : visited g ⊆ visited g';
  frame_visiting : visiting g ⊆ visiting g';
  frame_heights k : k ∈ visited g ∪ visiting g → height g' k = height g k;
  frame_notReady : notReady g' = None → notReady g = None
}.

Lemma frame_refl g : frame g g.
Proof. by constructor. Qed.

Lemma frame_trans g1 g2 g3 : frame g1 g2 → frame g2 g3 → frame g1 g3.
Proof.
  intros [P1 V1 W1 H1 N1] [P2 V2 W2 H2 N2]. constructor; [by etrans|by etrans|by etrans| |auto].
  intros k Hk. rewrite H2, H1; [done|done|]. set_solver.
Qed.

Lemma edge_ok_frame g g' p k input :
  frame g g' → k ∈ visited g ∪ visiting g → edge_ok g p k input → edge_ok g' p k input.
Proof.
  intros [HP HV HW HH HN] Hk (Hns & Hvis & (q & Hq & Hc & Hr) & Hh). repeat split; auto.
  - exists q. repeat split; auto. by eapply lookup_weaken.
  - rewrite !HH; [done|done|set_solver].
Qed.

Lemma frame_lookup g g' k p : frame g g' → products g !! k = Some p → products g' !! k = Some p.
Proof. intros Hf Hp. eapply lookup_weaken; [exact Hp|apply Hf]. Qed.

Lemma certified_frame g g' k : frame g g' → k ∈ visited g → certified g k → certified g' k.
Proof.
  intros Hf Hk (p & Hp & Hin). exists p. split; [by eapply frame_lookup|].
  intros input Hi. eapply edge_ok_frame; [done|set_solver|by apply Hin].
Qed.

(** ** Preservation by the graph's assignments *)

Lemma wf_known g k : wf g → k ∈ visited g ∪ visiting g → is_Some (products g !! k).
Proof.
  intros Hw [Hk|Hk]%elem_of_union; [|by apply (wf_visiting g Hw)].
  destruct (wf_visited g Hw k Hk) as (p & Hp & _). by eexists.
Qed.

Lemma frame_add_product g k p : products g !! k = None → frame g (add_product k p g).
Proof.
  intros Hk. constructor; simpl; auto. by apply insert_subseteq.
Qed.

Lemma wf_add_product g k p :
  wf g → products g !! k = None → ObjectKeyFromObject p = k →
  (Z.of_nat (size (products g)) < maxCompositionProducts)%Z → wf (add_product k p g).
Proof.
  intros Hw Hk Hp Hs. pose proof (frame_add_product g k p Hk) as Hf. destruct Hw as [K S Es Eb Vd Vg D Hh Hp' N].
  constructor; simpl; auto.
  - intros k' p' [[<- <-]|[_ Hl]]%lookup_insert_Some; [done|]. by apply K.
  - rewrite map_size_insert_None by done. lia.
  - rewrite Es. apply total_ext. intros k' Hk'. unfold n_inputs. simpl.
    rewrite lookup_insert_ne; [done|]. intros <-.
    destruct (wf_known g k) as [? ?]; [by constructor|done|congruence].
  - intros k' Hk'. eapply certified_frame; [exact Hf|done|by apply Vd].
  - intros k' Hk'. rewrite lookup_insert_is_Some'. right. by apply Vg.
  - intros k' Hk'. destruct (N k' Hk') as (q & Hq & Hr). exists q. split; [|done].
    by apply (frame_lookup _ _ _ _ Hf).
Qed.

Lemma frame_enter g k n : frame g (enter k n g).
Proof. constructor; simpl; auto. set_solver. Qed.

Lemma wf_enter g k p :
  wf g → k ∉ visited g → k ∉ visiting g → products g !! k = Some p →
  (len (Inputs (Spec p)) ≤ maxCompositionEdges - edges g)%Z →
  wf (enter k (len (Inputs (Spec p))) g).
Proof.
  intros Hw Hv Hvg Hk Hb.
  destruct Hw as [K S Es Eb Vd Vg D Hh Hp' N]. constructor; simpl; auto.
  - replace (visited g ∪ ({[k]} ∪ visiting g)) with ({[k]} ∪ (visited g ∪ visiting g)) by set_solver.
    rewrite total_insert by set_solver. rewrite Es.
    change (n_inputs (enter _ _ g)) with (n_inputs g).
    assert (n_inputs g k = len (Inputs (Spec p))) as -> by (unfold n_inputs; by rewrite Hk). lia.
  - lia.
  - intros k' [->%elem_of_singleton|Hk']%elem_of_union; [by eexists|by apply Vg].
  - intros k' H1 [->%elem_of_singleton|H2]%elem_of_union; [done|by eapply D].
  - intros k' H1 H2. apply Hh; set_solver.
Qed.

Lemma height_set_height g k h k' :
  height (set_height k h g) k' = if decide (k = k') then h else height g k'.
Proof.
  unfold height. simpl. destruct (decide (k = k')) as [<-|Hne].
  - by rewrite lookup_insert_eq.
  - by rewrite lookup_insert_ne.
Qed.

Lemma wf_set_height g k h :
  wf g → k ∈ visiting g → (height g k ≤ h)%Z → wf (set_height k h g).
Proof.
  intros Hw Hk Hh'. destruct Hw as [K S Es Eb Vd Vg D Hh Hp' N]. constructor; simpl; auto.
  - intros k' Hk'. destruct (Vd k' Hk') as (p & Hp & Hin). exists p. split; [done|].
    intros input Hi. destruct (Hin input Hi) as (Hns & Hvis & Hq & Hlt).
    repeat split; auto. rewrite !height_set_height.
    rewrite !decide_False; [done|..]; intros Heq; subst; eauto.
  - intros k' H1 H2. rewrite lookup_insert_ne; [by apply Hh|]. by intros ->.
  - intros k'. rewrite height_set_height. case_decide; [|by apply Hp']. specialize (Hp' k). lia.
Qed.

Lemma wf_set_notReady g k q :
  wf g → products g !! k = Some q → producerReady q = false → wf (set_notReady k g).
Proof.
  intros Hw Hq Hr. destruct Hw as [K S Es Eb Vd Vg D Hh Hp' N]. constructor; simpl; auto.
  - intros k' Hk'. destruct (Vd k' Hk') as (p & Hp & Hin). exists p. split; [done|].
    intros input Hi. destruct (Hin input Hi) as (Hns & Hvis & (q' & Hq' & Hc & _) & Hlt).
    repeat split; auto. exists q'. by repeat split.
  - intros k' [= ->]. eauto.
Qed.

Lemma edge_ok_set_notReady g k p k' input :
  edge_ok g p k' input → edge_ok (set_notReady k g) p k' input.
Proof.
  intros (Hns & Hvis & (q & Hq & Hc & _) & Hlt). repeat split; auto. exists q. by repeat split.
Qed.

(** Completing the frame of [k]: every input is verified, [k] becomes visited and leaves the path. *)
Definition finish (k : ObjectKey) (g : compositionGraph) : compositionGraph :=
  leave k (set_visited k g).

Lemma wf_finish g k p :
  wf g → k ∈ visiting g → products g !! k = Some p →
  (∀ input, input ∈ Inputs (Spec p) → edge_ok g p k input) → wf (finish k g).
Proof.
  intros Hw Hk Hp Hin. destruct Hw as [K S Es Eb Vd Vg D Hh Hp' N].
  assert (Hmono : ∀ p' k' i, edge_ok g p' k' i → edge_ok (finish k g) p' k' i).
  { intros p' k' i (Hns & Hvis & Hq & Hlt). repeat split; auto. simpl. set_solver. }
  constructor; simpl; auto.
  - rewrite Es. apply (f_equal (total _)). apply set_eq. intros z.
    destruct (decide (z = k)); set_solver.
  - intros k' [->%elem_of_singleton|Hk']%elem_of_union.
    + exists p. split; [done|]. auto.
    + destruct (Vd k' Hk') as (p' & Hp1 & Hin'). exists p'. split; [done|]. auto.
  - intros k' Hk'. apply Vg. set_solver.
  - intros k' H1 H2. destruct (decide (k' = k)); [set_solver|]. apply (D k'); set_solver.
  - intros k' H1 H2. apply Hh; [set_solver|]. intros H3. apply H2.
    apply elem_of_difference. split; [done|]. set_solver.
Qed.

(** ** The successful walk *)

Lemma get_producer_spec reader ctx input key pk g0 :
  reader_keyed reader →
  hoare (λ g, wf g ∧ g = g0) (get_producer reader ctx input key pk)
    (λ r g, match r with
            | inl q => wf g ∧ frame g0 g ∧ visiting g = visiting g0 ∧ visited g = visited g0 ∧
                       heights g = heights g0 ∧ notReady g = notReady g0 ∧
                       products g !! pk = Some q
            | inr o => reason o ≠ ""
            end).
Proof.
  intros Hr. unfold get_producer. apply hoare_get_bind. intros g [Hw ->].
  destruct (products g0 !! pk) as [q|] eqn:Hq.
  - apply hoare_ret. intros g ->. split_and!; auto using frame_refl.
  - destruct (_ <=? _)%Z eqn:Hsz; [by apply hoare_ret|]. go_bool.
    eapply hoare_bind with (R := λ r g, g = g0 ∧ ∀ p, r = inl p → ObjectKeyFromObject p = pk).
    { apply hoare_world. intros w g ->. split; [done|]. intros p Hp. by eapply Hr. }
    intros [p|err].
    + eapply hoare_bind with (R := λ _ g, g = add_product pk p g0 ∧ wf g).
      { apply hoare_modify. intros g (-> & Hp). split; [done|]. apply wf_add_product; auto. }
      intros []. apply hoare_ret. intros g (-> & Hw'). split_and!; auto.
      * by apply frame_add_product.
      * simpl. apply lookup_insert_eq.
    + destruct (IsNotFound err).
      * eapply hoare_bind; [apply (hoare_modify _ _ (λ _ _, True)); done|].
        intros []. by apply hoare_ret.
      * by apply hoare_ret.
Qed.

(** The postcondition of a call of [visit] on [product] at [depth] from graph [g0]. *)
Definition visit_post (g0 : compositionGraph) (product : DataProduct) (depth : Z)
    (r : option compositionObservation) (g : compositionGraph) : Prop :=
  ∀ o, r = Some o → reason o = "" →
    let key := ObjectKeyFromObject product in
    wf g ∧ frame g0 g ∧ visiting g = visiting g0 ∧ key ∈ visited g ∧
    (depth + height g key < maxCompositionDepth)%Z.

Lemma visit_post_fail g0 product depth r g :
  (∀ o, r = Some o → reason o ≠ "") → visit_post g0 product depth r g.
Proof. intros Hr o Ho Hn. by destruct (Hr o Ho). Qed.

(** The loop invariant of [visit_inputs] in the frame of [product] opened from [g0]. *)
Record loop_inv (g0 : compositionGraph) (product : DataProduct) (key : ObjectKey) (depth : Z)
    (processed : list InputPort) (g : compositionGraph) : Prop := {
  li_wf : wf g;
  li_frame : frame g0 g;
  li_visiting : visiting g = {[key]} ∪ visiting g0;
  li_product : products g !! key = Some product;
  li_done input : input ∈ processed → edge_ok g product key input;
  li_depth : (depth + height g key < maxCompositionDepth)%Z
}.

Lemma loop_inv_frame g0 product key depth processed g g' :
  loop_inv g0 product key depth processed g → wf g' → frame g g' → visiting g' = visiting g →
  loop_inv g0 product key depth processed g'.
Proof.
  intros [Hw Hf Hv Hp Hd Hh] Hw' Hf' Hv'.
  assert (Hk : key ∈ visited g ∪ visiting g) by (rewrite Hv; set_solver).
  constructor; auto.
  - by eapply frame_trans.
  - by rewrite Hv'.
  - by eapply frame_lookup.
  - intros input Hi. eapply edge_ok_frame; eauto.
  - by rewrite (frame_heights _ _ Hf' key Hk).
Qed.

(** Raising the height of the current product above a verified producer. *)
Lemma loop_inv_height g0 product key depth processed g k' :
  loop_inv g0 product key depth processed g → key ∉ visited g0 ∪ visiting g0 →
  k' ∈ visited g → (depth + 1 + height g k' < maxCompositionDepth)%Z →
  loop_inv g0 product key depth processed
    (set_height key (Z.max (height g key) (1 + height g k')) g).
Proof.
  intros [Hw Hf Hv Hp Hd Hh] Hnk Hk' Hlt.
  assert (Hkv : key ∈ visiting g) by (rewrite Hv; set_solver).
  assert (Hne : ∀ k, k ∈ visited g → k ≠ key).
  { intros k Hk ->. by eapply (wf_disjoint g Hw). }
  constructor; simpl; auto.
  - apply wf_set_height; [done|done|lia].
  - destruct Hf as [F1 F2 F3 F4 F5]. constructor; simpl; auto.
    intros k Hk. rewrite height_set_height, decide_False; [by apply F4|]. by intros <-.
  - intros input Hi. destruct (Hd input Hi) as (Hns & Hvis & Hq & Hle).
    repeat split; auto. rewrite !height_set_height.
    rewrite (decide_False (P := key = ref_key _)) by (intros Heq; by eapply Hne).
    rewrite decide_True by done. lia.
  - rewrite height_set_height, decide_True by done. lia.
Qed.

Lemma loop_inv_notReady g0 product key depth processed g k' q :
  loop_inv g0 product key depth processed g →
  products g !! k' = Some q → producerReady q = false →
  loop_inv g0 product key depth processed (set_notReady k' g).
Proof.
  intros [Hw Hf Hv Hp Hd Hh] Hq Hr. constructor; simpl; auto.
  - by eapply wf_set_notReady.
  - destruct Hf. by constructor.
  - intros input Hi. by apply edge_ok_set_notReady, Hd.
Qed.

Lemma visit_inputs_spec rec reader ctx product depth g0 rest :
  reader_keyed reader →
  let key := ObjectKeyFromObject product in
  key ∉ visited g0 ∪ visiting g0 →
  (∀ p g1, hoare (λ g, g = g1 ∧ wf g ∧ products g !! ObjectKeyFromObject p = Some p)
             (rec p (depth + 1)%Z) (visit_post g1 p (depth + 1))) →
  ∀ processed, Inputs (Spec product) = processed ++ rest →
  hoare (loop_inv g0 product key depth processed)
    (visit_inputs rec reader ctx product key depth rest)
    (λ r g, ∀ o, r = Some o → reason o = "" →
       wf (leave key g) ∧ frame g0 (leave key g) ∧ visiting (leave key g) = visiting g0 ∧
       key ∈ visited g ∧ (depth + height g key < maxCompositionDepth)%Z).
Proof.
  intros Hr key Hkey Hrec. induction rest as [|input rest IH]; intros processed Hin; simpl.
  - eapply hoare_bind with (R := λ _ g, wf (leave key g) ∧ frame g0 (leave key g) ∧
      visiting (leave key g) = visiting g0 ∧ key ∈ visited g ∧
      (depth + height g key < maxCompositionDepth)%Z).
    + apply hoare_modify. intros g [Hw Hf Hv Hp Hd Hh]. rewrite app_nil_r in Hin.
      assert (Hkv : key ∈ visiting g) by (rewrite Hv; set_solver). split_and!; auto.
      * apply (wf_finish g key product); auto. by rewrite Hin.
      * destruct Hf as [F1 F2 F3 F4 F5]. constructor; simpl; auto; [set_solver|].
        intros k Hk. specialize (F3 k Hk). apply elem_of_difference. split; [done|]. set_solver.
      * simpl. rewrite Hv. apply set_eq. intros z. destruct (decide (z = key)); set_solver.
      * simpl. set_solver.
    + intros []. apply hoare_ret. by intros g Hg o [= <-] _.
  - destruct (Ref_Namespace _ != _) eqn:Hns; [by apply hoare_ret; intros ? _ o [= <-]|].
    set (ref := resolvedReference product (Input_ProductRef input)) in *.
    go_bool.
    eapply hoare_bind with (R := λ r g, match r with
      | inl q => loop_inv g0 product key depth processed g ∧ products g !! ref_key ref = Some q ∧
                 ObjectKeyFromObject q = ref_key ref
      | inr o => reason o ≠ "" end).
    { intros g w Hg. pose proof (get_producer_spec reader ctx input key (ref_key ref) g Hr g w
        (conj (li_wf _ _ _ _ _ _ Hg) eq_refl)) as Hs.
      destruct (fst (get_producer _ _ _ _ _ _)) as [q|o]; [|done].
      destruct Hs as (Hw' & Hf' & Hv' & _ & _ & _ & Hq). split_and!.
      - by eapply loop_inv_frame.
      - done.
      - by eapply wf_keyed. }
    intros [q|o]; [|by apply hoare_ret; intros g Hg o' [= <-]].
    eapply hoare_bind with (R := λ r g, ∀ o, r = Some o → reason o = "" →
      loop_inv g0 product key depth processed g ∧ products g !! ref_key ref = Some q ∧
      ref_key ref ∈ visited g ∧ (depth + 1 + height g (ref_key ref) < maxCompositionDepth)%Z).
    { intros g w (Hg & Hq & Hqk).
      pose proof (Hrec q g g w) as Hs. rewrite Hqk in Hs.
      specialize (Hs (conj eq_refl (conj (li_wf _ _ _ _ _ _ Hg) Hq))).
      intros o Ho Hok. destruct (Hs o Ho Hok) as (Hw' & Hf' & Hv' & Hvis & Hlt).
      rewrite Hqk in Hvis, Hlt. split_and!; auto.
      - by eapply loop_inv_frame.
      - by eapply frame_lookup. }
    intros [o|]; [|by apply hoare_ret].
    destruct (reason o != "") eqn:Ho; [by apply hoare_ret; intros g _ o' [= <-] Ho'; rewrite Ho' in Ho|].
    go_bool.
    eapply hoare_bind with (R := λ _ g, loop_inv g0 product key depth processed g ∧
      products g !! ref_key ref = Some q ∧ ref_key ref ∈ visited g ∧
      (height g (ref_key ref) < height g key)%Z).
    { apply hoare_modify. intros g Hg. destruct (Hg o eq_refl Ho) as (Hl & Hq & Hvis & Hlt).
      split_and!; auto.
      - by apply loop_inv_height.
      - rewrite !height_set_height. rewrite decide_False, decide_True; [lia|done|].
        intros Heq. rewrite <- Heq in Hvis. eapply (wf_disjoint g (li_wf _ _ _ _ _ _ Hl)); [done|].
        rewrite (li_visiting _ _ _ _ _ _ Hl). set_solver. }
    intros []. destruct (inputCompatibility input q != "") eqn:Hc.
    { apply hoare_ret. intros g _ o' [= <-] Ho'. simpl in Ho'. rewrite Ho' in Hc. done. }
    go_bool.
    eapply hoare_bind with (R := λ _, loop_inv g0 product key depth (processed ++ [input])).
    { apply hoare_modify. intros g (Hl & Hq & Hvis & Hlt).
      assert (Hadd : ∀ g', loop_inv g0 product key depth processed g' →
        edge_ok g' product key input → loop_inv g0 product key depth (processed ++ [input]) g').
      { intros g' [Hw Hf Hv Hp Hd Hh] He. constructor; auto.
        intros i [Hi| ->%list_elem_of_singleton]%elem_of_app; auto. }
      destruct (producerReady q) eqn:Hpr; simpl.
      - apply Hadd; [done|]. split_and!; auto. exists q. by split_and!.
      - destruct (non_nil (notReady g)) eqn:Hnn; simpl.
        + apply Hadd; [done|]. split_and!; auto. exists q. split_and!; auto.
          intros Hnone. by rewrite Hnone in Hnn.
        + apply Hadd; [by eapply loop_inv_notReady|]. split_and!; auto. exists q. by split_and!. }
    intros []. apply IH. by rewrite <- app_assoc.
Qed.

Lemma visit_spec fuel reader ctx product depth g0 :
  reader_keyed reader →
  hoare (λ g, g = g0 ∧ wf g ∧ products g !! ObjectKeyFromObject product = Some product)
    (visit fuel reader ctx product depth) (visit_post g0 product depth).
Proof.
  intros Hr. revert product depth g0.
  induction fuel as [|fuel IH]; intros product depth g0; simpl.
  { apply hoare_ret. intros g _. by apply visit_post_fail. }
  eapply hoare_bind; [apply hoare_world_const|]. intros [e|].
  { apply hoare_ret. intros g _. apply visit_post_fail. by intros o [= <-]. }
  apply hoare_get_bind. intros g (-> & Hw & Hp).
  set (key := ObjectKeyFromObject product).
  case_bool_decide as Hcyc; [apply hoare_ret; intros; apply visit_post_fail; by intros o [= <-]|].
  case_bool_decide as Hvis.
  { destruct (_ <=? _)%Z eqn:Hd; apply hoare_ret.
    - intros; apply visit_post_fail; by intros o [= <-].
    - intros g -> o [= <-] _. go_bool. split_and!; auto using frame_refl. }
  destruct (_ || _) eqn:Hb; [apply hoare_ret; intros; apply visit_post_fail; by intros o [= <-]|].
  go_bool. destruct Hb as [Hb1 Hb2].
  eapply hoare_bind with (R := λ _, loop_inv g0 product key depth []).
  { apply hoare_modify. intros g ->.
    constructor; auto; [by apply wf_enter|apply frame_enter|by intros ? ?%elem_of_nil|].
    change (height (enter _ _ g0) key) with (height g0 key). unfold height.
    rewrite (wf_heights g0 Hw) by done. simpl. lia. }
  intros []. eapply hoare_bind.
  { eapply hoare_conseq; [apply (visit_inputs_spec _ reader ctx product depth g0 _ Hr) with (processed := [])| |].
    - set_solver.
    - intros p g2. apply IH.
    - done.
    - by intros g Hg.
    - intros a g Hg. exact Hg. }
  intros r. eapply hoare_bind with (R := λ _ g, visit_post g0 product depth r g).
  { apply hoare_modify. intros g Hg o Ho Hok.
    destruct (Hg o Ho Hok) as (Hw' & Hf & Hv & Hk & Hh). by split_and!. }
  intros []. by apply hoare_ret.
Qed.

(** ** Every outcome: bounds, and the meaning of a reported cycle *)

Lemma inputCompatibility_cases input q :
  inputCompatibility input q = "" ∨ inputCompatibility input q = "OutputNotFound" ∨
  inputCompatibility input q = "ContractIncompatible".
Proof. unfold inputCompatibility. repeat case_match; auto. Qed.

Record bounded (g : compositionGraph) : Prop := {
  bd_keyed k p : products g !! k = Some p → ObjectKeyFromObject p = k;
  bd_products : (Z.of_nat (size (products g)) ≤ maxCompositionProducts)%Z;
  bd_edges : (edges g ≤ maxCompositionEdges)%Z
}.

Lemma depends_mono g g' k k' : products g ⊆ products g' → depends g k k' → depends g' k k'.
Proof.
  intros Hs (p & i & Hp & Hi & ->). exists p, i. split_and!; auto. by eapply lookup_weaken.
Qed.

Lemma tc_depends_mono g g' k k' :
  products g ⊆ products g' → tc (depends g) k k' → tc (depends g') k k'.
Proof.
  intros Hs. induction 1 as [x y Hd|x y z Hd Ht IH]; [by apply tc_once, (depends_mono g)|].
  eapply tc_l; [by eapply depends_mono|exact IH].
Qed.

(** The state inside the frame of [key]: the path so far leads to [key]. *)
Record on_path (g0 : compositionGraph) (product : DataProduct) (g : compositionGraph) : Prop := {
  op_bounded : bounded g;
  op_products : products g0 ⊆ products g;
  op_product : products g !! ObjectKeyFromObject product = Some product;
  op_path v : v ∈ visiting g0 → tc (depends g) v (ObjectKeyFromObject product)
}.

Lemma on_path_same g0 product g g' :
  on_path g0 product g → products g' = products g → edges g' = edges g → on_path g0 product g'.
Proof.
  intros [[K S B] Hs Hp Ht] Ep Ee. constructor.
  - constructor; [|by rewrite Ep|by rewrite Ee]. intros k p. rewrite Ep. apply K.
  - by rewrite Ep.
  - by rewrite Ep.
  - intros v Hv. apply (tc_depends_mono g); [by rewrite Ep|by apply Ht].
Qed.

Definition outcome_post (g0 : compositionGraph) (X : gset ObjectKey)
    (r : option compositionObservation) (g : compositionGraph) : Prop :=
  bounded g ∧ products g0 ⊆ products g ∧ visiting g = X ∧
  (∀ o, r = Some o → reason o = "DependencyCycle" → ∃ k, tc (depends g) k k).

Lemma outcome_ret g0 X r g :
  bounded g → products g0 ⊆ products g → visiting g = X →
  (∀ o, r = Some o → reason o ≠ "DependencyCycle") → outcome_post g0 X r g.
Proof. intros Hb Hp Hv Hr. split_and!; auto. intros o Ho Hc. by destruct (Hr o Ho). Qed.

Lemma get_producer_outcome reader ctx input key pk g0 :
  reader_keyed reader →
  hoare (λ g, bounded g ∧ g = g0) (get_producer reader ctx input key pk)
    (λ r g, bounded g ∧ products g0 ⊆ products g ∧ visiting g = visiting g0 ∧
            match r with
            | inl q => products g !! pk = Some q
            | inr o => reason o ≠ "DependencyCycle"
            end).
Proof.
  intros Hr. unfold get_producer. apply hoare_get_bind. intros g [Hb ->].
  destruct (products g0 !! pk) as [q|] eqn:Hq; [by apply hoare_ret; intros g ->|].
  destruct (_ <=? _)%Z eqn:Hsz; [by apply hoare_ret; intros g ->|]. go_bool.
  eapply hoare_bind with (R := λ r g, g = g0 ∧ ∀ p, r = inl p → ObjectKeyFromObject p = pk).
  { apply hoare_world. intros w g ->. split; [done|]. intros p Hp. by eapply Hr. }
  intros [p|err].
  - eapply hoare_bind with (R := λ _ g, g = add_product pk p g0 ∧ ObjectKeyFromObject p = pk).
    { apply hoare_modify. intros g (-> & Hp). auto. }
    intros []. apply hoare_ret. intros g [-> Hp]. destruct Hb as [K S B]. split_and!; simpl; auto.
    + constructor; simpl; auto.
      * intros k' p' [[<- <-]|[_ Hl]]%lookup_insert_Some; [done|]. by apply K.
      * rewrite map_size_insert_None by done. lia.
    + by apply insert_subseteq.
    + apply lookup_insert_eq.
  - destruct (IsNotFound err); [|by apply hoare_ret; intros g [-> _]].
    eapply hoare_bind with (R := λ _ g, g = set_missing pk g0).
    { apply hoare_modify. by intros g [-> _]. }
    intros []. apply hoare_ret. intros g ->. destruct Hb. split_and!; auto. by constructor.
Qed.

Lemma visit_inputs_outcome rec reader ctx product depth g0 rest :
  reader_keyed reader →
  let key := ObjectKeyFromObject product in
  (∀ p g1, hoare (λ g, g = g1 ∧ on_path g1 p g) (rec p (depth + 1)%Z)
             (outcome_post g1 (visiting g1))) →
  (∀ input, input ∈ rest → input ∈ Inputs (Spec product)) →
  hoare (λ g, on_path g0 product g ∧ visiting g = {[key]} ∪ visiting g0)
    (visit_inputs rec reader ctx product key depth rest)
    (outcome_post g0 ({[key]} ∪ visiting g0)).
Proof.
  intros Hr key Hrec. induction rest as [|input rest IH]; intros Hin; simpl.
  - eapply hoare_bind with (R := λ _ g, bounded g ∧ products g0 ⊆ products g ∧
      visiting g = {[key]} ∪ visiting g0).
    + apply hoare_modify. intros g [[[K S B] Hs Hp Ht] Hv]. split_and!; auto. by constructor.
    + intros []. apply hoare_ret. intros g (Hb & Hs & Hv). apply outcome_ret; auto.
      by intros o [= <-].
  - destruct (Ref_Namespace _ != _).
    { apply hoare_ret. intros g [[Hb Hs Hp Ht] Hv]. apply outcome_ret; auto. by intros o [= <-]. }
    set (ref := resolvedReference product (Input_ProductRef input)).
    eapply hoare_bind with (R := λ r g, on_path g0 product g ∧ visiting g = {[key]} ∪ visiting g0 ∧
      match r with inl q => products g !! ref_key ref = Some q
                 | inr o => reason o ≠ "DependencyCycle" end).
    { intros g w [[Hb Hs Hp Ht] Hv].
      destruct (get_producer_outcome reader ctx input key (ref_key ref) g Hr g w (conj Hb eq_refl))
        as (Hb' & Hs' & Hv' & Hq).
      split_and!; [constructor|by rewrite Hv'|done]; auto.
      - by etrans.
      - by eapply lookup_weaken.
      - intros v Hvis. by eapply tc_depends_mono, Ht. }
    intros [q|o].
    2:{ apply hoare_ret. intros g ([Hb Hs Hp Ht] & Hv & Ho). apply outcome_ret; auto.
        by intros o' [= <-]. }
    eapply hoare_bind with (R := λ r g, outcome_post g0 ({[key]} ∪ visiting g0) r g ∧
      on_path g0 product g).
    { intros g w ([Hb Hs Hp Ht] & Hv & Hq).
      assert (Hedge : depends g key (ref_key ref)).
      { exists product, input. split_and!; auto. apply Hin. by left. }
      destruct (Hrec q g g w) as (Hb' & Hs' & Hv' & Hcyc).
      { split; [done|]. pose proof (bd_keyed _ Hb _ _ Hq) as Hqk.
        constructor; auto; rewrite Hqk; [done|]. intros v. rewrite Hv.
        intros [->%elem_of_singleton|Hvis]%elem_of_union; [by apply tc_once|].
        eapply tc_r; [by apply Ht|done]. }
      split; [split_and!; auto; [by etrans|by rewrite Hv']|].
      constructor; auto; [by etrans|by eapply lookup_weaken|].
      intros v Hvis. by eapply tc_depends_mono, Ht. }
    intros [o|]; [|by apply hoare_ret; intros g [Hg _]].
    destruct (reason o != "") eqn:Ho; [by apply hoare_ret; intros g [Hg _]|].
    eapply hoare_bind with (R := λ _ g, on_path g0 product g ∧ visiting g = {[key]} ∪ visiting g0).
    { apply hoare_modify. intros g [(_ & _ & Hv & _) Hop]. split; [|done].
      by eapply on_path_same. }
    intros []. destruct (inputCompatibility input q != "") eqn:Hc.
    { apply hoare_ret. intros g [[Hb Hs Hp Ht] Hv]. apply outcome_ret; auto.
      intros o' [= <-]. simpl. destruct (inputCompatibility_cases input q) as [->|[->| ->]]; done. }
    eapply hoare_bind with (R := λ _ g, on_path g0 product g ∧ visiting g = {[key]} ∪ visiting g0).
    { apply hoare_modify. intros g [Hop Hv]. destruct (_ && _); [|by split].
      split; [|done]. by eapply on_path_same. }
    intros []. apply IH. intros i Hi. apply Hin. by right.
Qed.

Lemma visit_outcome fuel reader ctx product depth g0 :
  reader_keyed reader →
  hoare (λ g, g = g0 ∧ on_path g0 product g) (visit fuel reader ctx product depth)
    (outcome_post g0 (visiting g0)).
Proof.
  intros Hr. revert product depth g0.
  induction fuel as [|fuel IH]; intros product depth g0; simpl.
  { apply hoare_ret. intros g [-> []]. by apply outcome_ret. }
  eapply hoare_bind; [apply hoare_world_const|]. intros [e|].
  { apply hoare_ret. intros g [-> []]. apply outcome_ret; auto. by intros o [= <-]. }
  apply hoare_get_bind. intros g (-> & Hop).
  set (key := ObjectKeyFromObject product).
  pose proof Hop as [Hb Hs Hp Ht].
  case_bool_decide as Hcyc.
  { apply hoare_ret. intros g ->. split_and!; auto. intros o _ _. exists key. by apply Ht. }
  case_bool_decide as Hvis.
  { destruct (_ <=? _)%Z; apply hoare_ret; intros g ->; apply outcome_ret; auto;
      by intros o [= <-]. }
  destruct (_ || _) eqn:Hlim.
  { apply hoare_ret; intros g ->; apply outcome_ret; auto; by intros o [= <-]. }
  go_bool. destruct Hlim as [_ Hedges].
  eapply hoare_bind with (R := λ _ g, on_path g0 product g ∧ visiting g = {[key]} ∪ visiting g0).
  { apply hoare_modify. intros g ->. split; [|done]. destruct Hb as [K S B].
    constructor; simpl; auto. constructor; simpl; auto. lia. }
  intros []. eapply hoare_bind.
  { apply (visit_inputs_outcome _ reader ctx product depth g0 _ Hr); [|done].
    intros p g1. apply IH. }
  intros r. eapply hoare_bind with (R := λ _, outcome_post g0 (visiting g0) r).
  { apply hoare_modify. intros g ([K S B] & Hs' & Hv & Hc). split_and!; simpl; auto.
    - by constructor.
    - rewrite Hv. apply set_eq. intros z. destruct (decide (z = key)); set_solver. }
  intros []. by apply hoare_ret.
Qed.

(** ** The root call *)

Lemma initial_wf product : wf (initial_graph product).
Proof.
  constructor; simpl; try set_solver.
  - by intros k p [<- <-]%lookup_singleton_Some.
  - rewrite map_size_singleton. unfold maxCompositionProducts. lia.
  - done.
Qed.

Lemma initial_product product :
  products (initial_graph product) !! ObjectKeyFromObject product = Some product.
Proof. apply lookup_singleton_eq. Qed.

Lemma walk_root_visit reader ctx product w o g w' :
  walk_root reader ctx product w = ((o, g), w') →
  ∃ r, visit walk_fuel reader ctx product 0 (initial_graph product, w) = (r, (g, w')) ∧ r = Some o.
Proof.
  unfold walk_root.
  pose proof (visit_fuel walk_fuel reader ctx product 0 (initial_graph product, w)) as Ht.
  destruct (visit _ _ _ _ _ _) as [r [g' w0]]. intros [= <- <- <-].
  destruct Ht as [o' Ho]; [done|done|done|]. simpl in Ho. subst r. by exists (Some o').
Qed.

Lemma certified_step g k k' :
  certified g k → depends g k k' → k' ∈ visited g ∧ (height g k' < height g k)%Z.
Proof.
  intros (p & Hp & Hin) (p' & i & Hp' & Hi & ->). simplify_eq.
  destruct (Hin i Hi) as (_ & Hv & _ & Hh). done.
Qed.

Lemma certified_tc g k k' :
  (∀ j, j ∈ visited g → certified g j) → k ∈ visited g → tc (depends g) k k' →
  k' ∈ visited g ∧ (height g k' < height g k)%Z.
Proof.
  intros Hc Hk Ht. revert Hk. induction Ht as [x y Hd|x y z Hd Ht IH]; intros Hk.
  - by apply certified_step; [apply Hc|].
  - destruct (certified_step g x y (Hc x Hk) Hd) as [Hy Hlt].
    destruct (IH Hy). split; [done|lia].
Qed.

Lemma certified_nsteps g n k k' :
  (∀ j, j ∈ visited g → certified g j) → k ∈ visited g → nsteps (depends g) n k k' →
  k' ∈ visited g ∧ (height g k' + Z.of_nat n ≤ height g k)%Z.
Proof.
  intros Hc Hk Hn. revert Hk. induction Hn as [x|n x y z Hd Hn IH]; intros Hk; [split; [done|lia]|].
  destruct (certified_step g x y (Hc x Hk) Hd) as [Hy Hlt].
  destruct (IH Hy). split; [done|lia].
Qed.

End Proofs.
