(* ===== verification/CompositionReads.v ===== *)
(** * Composition: what the graph walk read

    The products a walk decides on are the observed product itself and the answers of the client
    during the same walk: a log of the walk's reads, in order, with the answer of each, from which the
    graph's products are exactly recovered. *)

From S2P Require Import Prelude Kube Api Composition CompositionProofs.

Section Reads.
Context `{E : Env} `{C : ConditionApi} `{V : VersionApi} `{F : GoFmt}.

(** The reads of one walk, each with the key and the client's answer. *)
Definition read_log : Type := list (ObjectKey * (DataProduct + error)).

(** [walk_run reader ctx w log w']: between [w] and [w'] only the context was checked and only the
    reads of [log] were made, each answered by [reader] at the world of its turn. *)
Inductive walk_run (reader : Reader DataProduct) (ctx : Ctx) (w : World) : read_log → World → Prop :=
| run_start : walk_run reader ctx w [] w
| run_check log w' : walk_run reader ctx w log w' → walk_run reader ctx w log (snd (Err ctx w'))
| run_read log w' k :
    walk_run reader ctx w log w' →
    walk_run reader ctx w (log ++ [(k, fst (reader ctx k w'))]) (snd (reader ctx k w')).

(** [q] is what the walk of [root] knows at [k]: the product it started from, or an answer. *)
Definition known (root : DataProduct) (log : read_log) (k : ObjectKey) (q : DataProduct) : Prop :=
  (k = ObjectKeyFromObject root ∧ q = root) ∨ (k, inl q) ∈ log.

(** The graph [g] reached at [w'] holds what the reads of [log] brought, one read per key. *)
Definition observed (reader : Reader DataProduct) (ctx : Ctx) (root : DataProduct) (w : World)
    (log : read_log) (g : compositionGraph) (w' : World) : Prop :=
  walk_run reader ctx w log w' ∧ NoDup (ObjectKeyFromObject root :: log.*1) ∧
  ∀ k q, products g !! k = Some q ↔ known root log k q.

Section Walk.
Context (reader : Reader DataProduct) (ctx : Ctx) (root : DataProduct) (w0 : World).

(** The invariant of the walk; while it goes on, no read has failed. *)
Definition reads (clean : bool) (s : compositionGraph * World) : Prop :=
  ∃ log, observed reader ctx root w0 log (fst s) (snd s) ∧
    (clean = true → ∀ k e, (k, inr e) ∉ log).

Definition reads_post {A} (r : option compositionObservation * A) : (compositionGraph * World) → Prop :=
  reads (match fst r with Some o => reason o == "" | None => false end).

Lemma reads_weaken b s : reads true s → reads b s.
Proof. intros (log & Ho & Hc). exists log. auto. Qed.

Lemma reads_same b g g' w : products g' = products g → reads b (g, w) → reads b (g', w).
Proof.
  intros Hp (log & (Hr & Hn & Hk) & Hc). exists log. split; [|done].
  split_and!; [done|done|]. simpl in *. by rewrite Hp.
Qed.

Lemma reads_check b g w : reads b (g, w) → reads b (g, snd (Err ctx w)).
Proof.
  intros (log & (Hr & Hn & Hk) & Hc). exists log. split; [|done].
  split_and!; [by apply run_check|done|done].
Qed.

Lemma reads_new_key log g w k :
  observed reader ctx root w0 log g w → (∀ k e, (k, inr e) ∉ log) → products g !! k = None →
  NoDup (ObjectKeyFromObject root :: (log ++ [(k, fst (reader ctx k w))]).*1).
Proof.
  intros (_ & Hn & Hk) Hc Hg. rewrite fmap_app, app_comm_cons. apply list.NoDup_app. split_and!; [done| |].
  - intros j Hj. simpl. rewrite list_elem_of_singleton. intros ->.
    assert (∃ q, known root log k q) as [q Hq].
    { apply elem_of_cons in Hj as [-> |Hj]; [by exists root; left|].
      apply list_elem_of_fmap in Hj as ([j [q|e]] & -> & Hin); [by exists q; right|].
      by destruct (Hc j e). }
    apply Hk in Hq. congruence.
  - apply NoDup_singleton.
Qed.

Lemma reads_found g w k q :
  reads true (g, w) → products g !! k = None → fst (reader ctx k w) = inl q →
  reads true (add_product k q g, snd (reader ctx k w)).
Proof.
  intros (log & Ho & Hc) Hg Hq. specialize (Hc eq_refl).
  pose proof (reads_new_key log g w k Ho Hc Hg) as Hn. destruct Ho as (Hr & _ & Hk). simpl in *.
  exists (log ++ [(k, fst (reader ctx k w))]). rewrite Hq in *. split.
  - split_and!; [rewrite <- Hq; by apply run_read|done|]. intros j p. simpl. unfold known.
    rewrite elem_of_app, list_elem_of_singleton. destruct (decide (j = k)) as [->|Hj].
    + rewrite lookup_insert_eq. split; [intros [= <-]; auto|].
      intros [Hin|[Hin|[= ->]]]; [..|done].
      * by rewrite (proj2 (Hk k p) (or_introl Hin)) in Hg.
      * by rewrite (proj2 (Hk k p) (or_intror Hin)) in Hg.
    + rewrite lookup_insert_ne by done. rewrite Hk. unfold known. naive_solver.
  - intros _ j e [Hin|Hin]%elem_of_app; [by eapply Hc|]. by apply list_elem_of_singleton in Hin.
Qed.

Lemma reads_failed g w k :
  reads true (g, w) → products g !! k = None → (∀ q, fst (reader ctx k w) ≠ inl q) →
  reads false (g, snd (reader ctx k w)).
Proof.
  intros (log & Ho & Hc) Hg Hq. specialize (Hc eq_refl).
  pose proof (reads_new_key log g w k Ho Hc Hg) as Hn. destruct Ho as (Hr & _ & Hk). simpl in *.
  exists (log ++ [(k, fst (reader ctx k w))]). split; [|done].
  split_and!; [by apply run_read|done|]. intros j p. simpl. rewrite Hk. unfold known.
  rewrite elem_of_app, list_elem_of_singleton. naive_solver.
Qed.

Lemma get_producer_reads input key k s :
  reads true s →
  match fst (get_producer reader ctx input key k s) with
  | inl _ => reads true (snd (get_producer reader ctx input key k s))
  | inr o => reason o ≠ "" ∧ reads false (snd (get_producer reader ctx input key k s))
  end.
Proof.
  destruct s as [g w]. intros Hr. unfold get_producer, mbind, st_bind, world. simpl.
  destruct (products g !! k) as [q|] eqn:Hg; simpl; [done|].
  destruct (_ <=? _)%Z; simpl; [split; [done|by apply reads_weaken]|].
  destruct (reader ctx k w) as [[q|e] w1] eqn:Hq; simpl.
  - pose proof (reads_found g w k q Hr Hg) as H. rewrite Hq in H. by apply H.
  - assert (reads false (g, w1)) as H.
    { pose proof (reads_failed g w k Hr Hg) as H. rewrite Hq in H. by apply H. }
    destruct (IsNotFound e); simpl; (split; [done|]); [by eapply reads_same; [|apply H]|done].
Qed.

Lemma visit_inputs_reads rec product key depth inputs s :
  (∀ p d s, reads true s → reads_post (rec p d s) (snd (rec p d s))) →
  reads true s →
  reads_post (visit_inputs rec reader ctx product key depth inputs s)
    (snd (visit_inputs rec reader ctx product key depth inputs s)).
Proof.
  intros Hrec. revert s. induction inputs as [|input inputs IH]; intros s Hs; simpl.
  { destruct s as [g w]. by apply (reads_same _ g). }
  destruct (_ != _); [by apply reads_weaken|].
  pose proof (get_producer_reads input key
    (ref_key (resolvedReference product (Input_ProductRef input))) s Hs) as Hg.
  unfold mbind, st_bind. destruct (get_producer _ _ _ _ _ s) as [[q|o] s1]; simpl in Hg.
  2:{ destruct Hg as [Ho Hg]. unfold reads_post. simpl. by rewrite bool_decide_false. }
  pose proof (Hrec q (depth + 1)%Z s1 Hg) as Hq. unfold reads_post in Hq.
  destruct (rec q (depth + 1)%Z s1) as [[o|] s2]; simpl in Hq; [|done].
  destruct (reason o != "") eqn:Ho; [done|]. go_bool. rewrite Ho in Hq. destruct s2 as [g2 w2].
  simpl. destruct (inputCompatibility input q != "").
  - apply reads_weaken. by apply (reads_same _ g2).
  - simpl. apply IH. eapply (reads_same _ g2); [|exact Hq]. by destruct (_ && _).
Qed.

Lemma visit_reads fuel product depth s :
  reads true s →
  reads_post (visit fuel reader ctx product depth s) (snd (visit fuel reader ctx product depth s)).
Proof.
  revert product depth s. induction fuel as [|fuel IH]; intros product depth [g w] Hs; simpl.
  { by apply reads_weaken. }
  pose proof (reads_check _ _ _ Hs) as Hw. unfold mbind, st_bind, world. simpl.
  destruct (Err ctx w) as [[e|] w1]; simpl in *; [by apply reads_weaken|].
  case_bool_decide; [by apply reads_weaken|].
  case_bool_decide; [destruct (_ <=? _)%Z; by apply reads_weaken|].
  destruct (_ || _); [by apply reads_weaken|]. simpl.
  match goal with |- context [visit_inputs ?a ?b ?c ?d ?e ?f ?i ?s] =>
    pose proof (visit_inputs_reads a d e f i s IH) as Hv;
    destruct (visit_inputs a b c d e f i s) as [r [g2 w2]] end.
  eapply (reads_same _ g2); [done|]. apply Hv. by eapply reads_same.
Qed.

Lemma initial_reads : reads true (initial_graph root, w0).
Proof.
  exists []. split; [|intros _ k e; apply not_elem_of_nil]. split_and!; [apply run_start| |].
  - apply NoDup_singleton.
  - intros k q. simpl. rewrite lookup_singleton_Some. unfold known. rewrite elem_of_nil. naive_solver.
Qed.

(** Whatever its outcome, the walk holds exactly the product it started from and the products its
    reads returned. *)
Lemma walk_root_reads o g w' :
  walk_root reader ctx root w0 = ((o, g), w') → ∃ log, observed reader ctx root w0 log g w'.
Proof.
  unfold walk_root. intros H.
  pose proof (visit_reads walk_fuel root 0 (initial_graph root, w0) initial_reads) as Hv.
  destruct (visit _ _ _ _ _ _) as [r [g' w1]]. injection H as _ <- <-.
  destruct Hv as (log & Ho & _). by exists log.
Qed.
End Walk.
End Reads.
