(* ===== verification/CompositionComplete.v ===== *)
(** * Composition: completeness on a stable snapshot and namespace isolation

    Two further facts about [visit]: when the stored products form a bounded acyclic graph whose
    edges are compatible, the walk accepts it; and the walk never depends on products of another
    namespace. *)

From S2P Require Import Prelude Kube Api Regex GoJson Composition CompositionProofs.

Section Complete.
Context `{E : Env} `{C : ConditionApi} `{V : VersionApi} `{F : GoFmt}.

Lemma hoare_and {A} (P : compositionGraph → Prop) (m : Walk A)
    (Q1 Q2 : A → compositionGraph → Prop) :
  hoare P m Q1 → hoare P m Q2 → hoare P m (λ a g, Q1 a g ∧ Q2 a g).
Proof. intros H1 H2 g w Hg. split; [by apply H1|by apply H2]. Qed.

(** A step whose value is known. *)
Lemma hoare_bind_eq {A B} (P R : compositionGraph → Prop) (m : Walk A) (f : A → Walk B) (a : A)
    (Q : B → compositionGraph → Prop) :
  hoare P m (λ b g, b = a ∧ R g) → hoare R (f a) Q → hoare P (m ≫= f) Q.
Proof.
  intros Hm Hf. eapply hoare_bind; [exact Hm|]. intros b g w [-> Hg]. by apply Hf.
Qed.

Lemma hoare_world_value {A} (P : compositionGraph → Prop) (m : ST World A) (a : A) :
  (∀ w, fst (m w) = a) → hoare P (world m) (λ b g, b = a ∧ P g).
Proof. intros H. apply hoare_world. intros w g Hg. by split. Qed.

(** ** A sound snapshot *)

(** The edge from [p] through [input] in the products [snap]: same namespace, an existing producer
    with a compatible output, and a strictly smaller rank. *)
Definition snapshot_edge (snap : gmap ObjectKey DataProduct) (rank : ObjectKey → nat)
    (p : DataProduct) (input : InputPort) : Prop :=
  let ref := resolvedReference p (Input_ProductRef input) in
  Ref_Namespace ref = Namespace (Meta p) ∧
  (rank (ref_key ref) < rank (ObjectKeyFromObject p))%nat ∧
  ∃ q, snap !! ref_key ref = Some q ∧ inputCompatibility input q = "".

(** A closed set of products within the limits; [rank] witnesses acyclicity and bounds the depth. *)
Record snapshot_ok (snap : gmap ObjectKey DataProduct) (rank : ObjectKey → nat) : Prop := {
  sn_keyed k p : snap !! k = Some p → ObjectKeyFromObject p = k;
  sn_products : (Z.of_nat (size snap) ≤ maxCompositionProducts)%Z;
  sn_inputs : (total (λ k, match snap !! k with
                           | Some p => len (Inputs (Spec p)) | None => 0 end) (dom snap)
               ≤ maxCompositionEdges)%Z;
  sn_edges k p input : snap !! k = Some p → input ∈ Inputs (Spec p) → snapshot_edge snap rank p input;
  sn_rank k : is_Some (snap !! k) → (Z.of_nat (rank k) < maxCompositionDepth)%Z
}.

(** The client answers from the snapshot whenever it is asked, and the deadline is not hit. *)
Definition serves (snap : gmap ObjectKey DataProduct) (reader : Reader DataProduct) (ctx : Ctx)
  : Prop :=
  (∀ w, fst (Err ctx w) = None) ∧
  ∀ k p w, snap !! k = Some p → fst (reader ctx k w) = inl p.

(** What the walk keeps while it stays inside the snapshot. *)
Record inside (snap : gmap ObjectKey DataProduct) (rank : ObjectKey → nat) (root : ObjectKey)
    (g : compositionGraph) : Prop := {
  in_products : products g ⊆ snap;
  in_heights k : (height g k ≤ Z.of_nat (rank k))%Z;
  in_notReady k : notReady g = Some k → (rank k < rank root)%nat
}.

Section Snapshot.
Context (snap : gmap ObjectKey DataProduct) (rank : ObjectKey → nat) (root : ObjectKey).
Context (reader : Reader DataProduct) (ctx : Ctx).
Context (Hsnap : snapshot_ok snap rank) (Hserves : serves snap reader ctx).

(** The reads the walk makes, as the reader restricted to the snapshot. *)
Context (Hkeyed : reader_keyed reader).

Definition accepted (r : option compositionObservation) : Prop :=
  ∃ o, r = Some o ∧ reason o = "".

Lemma inside_add_product g k p :
  inside snap rank root g → snap !! k = Some p → inside snap rank root (add_product k p g).
Proof.
  intros [Hp Hh Hn] Hk. constructor; simpl; auto. by apply insert_subseteq_l.
Qed.

Lemma inside_set_height g k h :
  inside snap rank root g → (h ≤ Z.of_nat (rank k))%Z →
  inside snap rank root (set_height k h g).
Proof.
  intros [Hp Hh Hn] Hk. constructor; simpl; auto.
  intros k'. rewrite height_set_height. case_decide; [by subst|by apply Hh].
Qed.

Lemma get_producer_complete input key pk q :
  snap !! pk = Some q →
  hoare (λ g, wf g ∧ inside snap rank root g) (get_producer reader ctx input key pk)
    (λ r g, r = inl q ∧ inside snap rank root g).
Proof.
  intros Hq. unfold get_producer. apply hoare_get_bind. intros g [Hw Hi].
  destruct (products g !! pk) as [q'|] eqn:Hpk.
  - apply hoare_ret. intros g' ->. split; [|done].
    pose proof (lookup_weaken _ _ _ _ Hpk (in_products _ _ _ _ Hi)). congruence.
  - rewrite (proj2 (Z.leb_gt _ _)).
    + eapply hoare_bind with (R := λ r g', r = inl q ∧ g' = g).
      { eapply hoare_conseq; [apply (hoare_world_value (λ g', g' = g) _ (inl q))| |]; auto.
        intros w. by apply Hserves. }
      intros r g' w [-> ->]. simpl. split; [done|]. by apply inside_add_product.
    + pose proof (sn_products _ _ Hsnap).
      assert (size (products g) < size snap)%nat; [|lia].
      apply map_subset_size. apply strict_spec_alt. split; [apply Hi|].
      intros Heq. rewrite Heq in Hpk. congruence.
Qed.

Lemma edges_complete g k p :
  wf g → inside snap rank root g → k ∉ visited g → k ∉ visiting g → products g !! k = Some p →
  (len (Inputs (Spec p)) ≤ maxCompositionEdges - edges g)%Z.
Proof.
  intros Hw Hi Hk1 Hk2 Hp. rewrite (wf_edges g Hw).
  pose proof (sn_inputs _ _ Hsnap) as Hin.
  set (f := λ k, match snap !! k with Some p => len (Inputs (Spec p)) | None => 0%Z end) in *.
  assert (Hsnap_of : ∀ j, is_Some (products g !! j) → n_inputs g j = f j ∧ j ∈ dom snap).
  { intros j [q Hq]. pose proof (lookup_weaken _ _ _ _ Hq (in_products _ _ _ _ Hi)) as Hs.
    unfold n_inputs, f. rewrite Hq, Hs. split; [done|]. by apply elem_of_dom_2 in Hs. }
  assert (total f ({[k]} ∪ (visited g ∪ visiting g)) ≤ total f (dom snap))%Z as Hle.
  { apply total_mono; [intros j; unfold f; case_match; unfold len; lia|].
    intros j [->%elem_of_singleton|Hj]%elem_of_union; apply Hsnap_of; [by eexists|].
    by apply wf_known. }
  rewrite total_insert in Hle by set_solver.
  assert (total (n_inputs g) (visited g ∪ visiting g) = total f (visited g ∪ visiting g)) as ->.
  { apply total_ext. intros j Hj. apply Hsnap_of. by apply wf_known. }
  assert (f k = len (Inputs (Spec p))) as <-; [|lia].
  destruct (Hsnap_of k) as [<- _]; [by eexists|]. unfold n_inputs. by rewrite Hp.
Qed.

(** The precondition of a call on [p] at [depth]. *)
Definition call_ok (p : DataProduct) (depth : Z) (g : compositionGraph) : Prop :=
  let key := ObjectKeyFromObject p in
  wf g ∧ inside snap rank root g ∧ products g !! key = Some p ∧
  (∀ v, v ∈ visiting g → (rank key < rank v)%nat) ∧
  (depth + Z.of_nat (rank key) < maxCompositionDepth)%Z ∧ (rank key ≤ rank root)%nat.

Lemma visit_inputs_complete rec product depth visiting0 rest :
  let key := ObjectKeyFromObject product in
  (∀ p g1, hoare (λ g, g = g1 ∧ wf g ∧ products g !! ObjectKeyFromObject p = Some p)
             (rec p (depth + 1)%Z) (visit_post g1 p (depth + 1))) →
  (∀ p, (rank (ObjectKeyFromObject p) < rank key)%nat →
        hoare (call_ok p (depth + 1)) (rec p (depth + 1)%Z)
          (λ r g, accepted r ∧ inside snap rank root g)) →
  snap !! key = Some product →
  (∀ v, v ∈ visiting0 → (rank key < rank v)%nat) →
  (depth + Z.of_nat (rank key) < maxCompositionDepth)%Z → (rank key ≤ rank root)%nat →
  (∀ input, input ∈ rest → input ∈ Inputs (Spec product)) →
  hoare (λ g, wf g ∧ inside snap rank root g ∧ visiting g = {[key]} ∪ visiting0 ∧
              products g !! key = Some product)
    (visit_inputs rec reader ctx product key depth rest)
    (λ r g, accepted r ∧ inside snap rank root g).
Proof.
  intros key Hpost Hrec Hkey Hv0 Hdepth Hroot. induction rest as [|input rest IH]; intros Hin; simpl.
  - intros g w (_ & [Hp Hh Hn] & _). simpl. split; [by eexists|]. by constructor.
  - destruct (sn_edges _ _ Hsnap key product input Hkey) as (Hns & Hrank & q & Hq & Hc).
    { apply Hin. by left. }
    set (ref := resolvedReference product (Input_ProductRef input)) in *.
    rewrite (bool_decide_true _ Hns). simpl.
    pose proof (sn_keyed _ _ Hsnap _ _ Hq) as Hqk.
    eapply hoare_bind_eq with (a := inl q) (R := λ g, wf g ∧ inside snap rank root g ∧
      visiting g = {[key]} ∪ visiting0 ∧ products g !! key = Some product ∧
      products g !! ref_key ref = Some q).
    { intros g w (Hw & Hi & Hv & Hp).
      pose proof (get_producer_spec reader ctx input key (ref_key ref) g Hkeyed g w (conj Hw eq_refl))
        as Hs.
      destruct (get_producer_complete input key (ref_key ref) q Hq g w (conj Hw Hi)) as [Er Hi'].
      rewrite Er in Hs. destruct Hs as (Hw' & Hf' & Hv' & _ & _ & _ & Hpk).
      split_and!; auto; [by rewrite Hv'|by eapply frame_lookup]. }
    eapply hoare_bind with (R := λ r g, accepted r ∧ wf g ∧ inside snap rank root g ∧
      visiting g = {[key]} ∪ visiting0 ∧ products g !! key = Some product ∧
      products g !! ref_key ref = Some q).
    { intros g w (Hw & Hi & Hv & Hp & Hpq).
      destruct (Hrec q ltac:(by rewrite Hqk) g w) as ([o [Ho Hok]] & Hi').
      { unfold call_ok. rewrite Hqk. split_and!; auto; [|fold key in Hrank; lia..].
        intros v. rewrite Hv. intros [->%elem_of_singleton|Hv1]%elem_of_union; [done|].
        specialize (Hv0 v Hv1). fold key in Hrank. lia. }
      destruct (Hpost q g g w) with (o := o) as (Hw' & Hf' & Hv' & _ & _); auto.
      { by rewrite Hqk. }
      split_and!; auto; [by eexists|by rewrite Hv'|by eapply frame_lookup..]. }
    intros [o|]; [|by intros g w [(? & ? & _) _]].
    destruct (reason o != "") eqn:Ho; [intros g w [(o' & [= <-] & Ho') _]; by rewrite Ho' in Ho|].
    eapply hoare_bind with (R := λ _ g, wf g ∧ inside snap rank root g ∧
      visiting g = {[key]} ∪ visiting0 ∧ products g !! key = Some product ∧
      products g !! ref_key ref = Some q).
    { apply hoare_modify. intros g (_ & Hw & Hi & Hv & Hp & Hpq). split_and!; auto.
      - apply wf_set_height; [done|rewrite Hv; set_solver|lia].
      - apply inside_set_height; [done|]. pose proof (in_heights _ _ _ _ Hi key).
        pose proof (in_heights _ _ _ _ Hi (ref_key ref)). fold key in Hrank. lia. }
    intros []. rewrite (bool_decide_true _ Hc). simpl.
    eapply hoare_bind with (R := λ _ g, wf g ∧ inside snap rank root g ∧
      visiting g = {[key]} ∪ visiting0 ∧ products g !! key = Some product);
      [|intros []; apply IH; by intros i Hi'; apply Hin; right].
    apply hoare_modify. intros g (Hw & Hi & Hv & Hp & Hpq).
    destruct (producerReady q) eqn:Hpr; simpl; [by split_and!|].
    destruct (non_nil (notReady g)); simpl; [by split_and!|].
    split_and!; auto; [by eapply wf_set_notReady|].
    destruct Hi as [I1 I2 I3]. constructor; auto. intros k [= <-]. fold key in Hrank. lia.
Qed.

Lemma visit_complete fuel product depth :
  (0 ≤ depth)%Z → (rank (ObjectKeyFromObject product) < fuel)%nat →
  hoare (call_ok product depth) (visit fuel reader ctx product depth)
    (λ r g, accepted r ∧ inside snap rank root g).
Proof.
  revert product depth. induction fuel as [|fuel IH]; intros product depth H0 Hfuel; [lia|]. simpl.
  eapply hoare_bind_eq; [apply hoare_world_value, Hserves|].
  apply hoare_get_bind. intros g (Hw & Hi & Hp & Hv & Hd & Hr).
  set (key := ObjectKeyFromObject product) in *.
  case_bool_decide as Hcyc; [specialize (Hv key Hcyc); lia|].
  case_bool_decide as Hvis.
  { pose proof (in_heights _ _ _ _ Hi key). rewrite (proj2 (Z.leb_gt _ _)) by lia.
    apply hoare_ret. intros g' ->. split; [by eexists|done]. }
  rewrite (proj2 (Z.leb_gt _ _)) by lia.
  rewrite (proj2 (Z.ltb_ge _ _)) by (by eapply edges_complete). simpl.
  assert (Hsk : snap !! key = Some product) by (eapply lookup_weaken; [exact Hp|apply Hi]).
  eapply hoare_bind with (R := λ _ g', wf g' ∧ inside snap rank root g' ∧
    visiting g' = {[key]} ∪ visiting g ∧ products g' !! key = Some product).
  { apply hoare_modify. intros g' ->. split_and!; auto.
    - apply wf_enter; auto. by eapply edges_complete.
    - destruct Hi. by constructor. }
  intros []. eapply hoare_bind; [apply visit_inputs_complete; auto|].
  - intros p g1. by apply visit_spec.
  - intros p Hlt. apply IH; [lia|]. fold key in Hlt. lia.
  - intros r. eapply hoare_bind with (R := λ _ g', accepted r ∧ inside snap rank root g').
    { apply hoare_modify. intros g' [Ha [I1 I2 I3]]. split; [done|]. by constructor. }
    intros []. by apply hoare_ret.
Qed.
End Snapshot.

(** The root walk of a product of a sound snapshot accepts it, and records a producer as not ready
    only below the root. *)
Lemma walk_root_complete snap rank reader ctx product w :
  snapshot_ok snap rank → serves snap reader ctx → reader_keyed reader →
  snap !! ObjectKeyFromObject product = Some product →
  let '((o, g), _) := walk_root reader ctx product w in
  reason o = "" ∧ inside snap rank (ObjectKeyFromObject product) g.
Proof.
  intros Hs Hr Hk Hp. set (root := ObjectKeyFromObject product).
  destruct (walk_root reader ctx product w) as [[o g] w'] eqn:Hwalk.
  destruct (walk_root_visit reader ctx product w o g w' Hwalk) as (r & Hv & ->).
  pose proof (sn_rank _ _ Hs root ltac:(by eexists)) as Hrk. unfold maxCompositionDepth in Hrk.
  destruct (visit_complete snap rank root reader ctx Hs Hr Hk walk_fuel product 0)
    with (initial_graph product) w as ((o' & Ho & Hok) & Hi).
  - done.
  - fold root. unfold walk_fuel. lia.
  - unfold call_ok. fold root. split_and!; auto using initial_wf, initial_product.
    + constructor; simpl.
      * by apply map_singleton_subseteq_l.
      * intros k. change (height _ k) with 0%Z. lia.
      * done.
    + apply initial_product.
    + intros v Hvis. by apply not_elem_of_empty in Hvis.
  - rewrite Hv in Ho, Hi. simpl in Ho, Hi. by simplify_eq.
Qed.

(** ** Isolation of namespaces *)

Section Isolation.
Context (ns : string) (r1 r2 : Reader DataProduct) (ctx : Ctx).
Context (Hkeyed : reader_keyed r1).
Context (Hagree : ∀ c k w, key_Namespace k = ns → r1 c k w = r2 c k w).

Definition keyed (g : compositionGraph) : Prop :=
  ∀ k p, products g !! k = Some p → ObjectKeyFromObject p = k.

(** The two runs agree, and the graph stays keyed. *)
Definition agree {A} (m1 m2 : Walk A) : Prop :=
  ∀ g w, keyed g → m1 (g, w) = m2 (g, w) ∧ keyed (fst (snd (m1 (g, w)))).

Lemma agree_ret {A} (a : A) : agree (mret a) (mret a).
Proof. by intros g w Hg. Qed.

Lemma agree_modify f : (∀ g, keyed g → keyed (f g)) → agree (modify f) (modify f).
Proof. intros Hf g w Hg. split; [done|]. by apply Hf. Qed.

(** [Φ] is what the first run's value is known to satisfy. *)
Lemma agree_bind_post {A B} (Φ : A → Prop) (m1 m2 : Walk A) (f1 f2 : A → Walk B) :
  agree m1 m2 → (∀ g w, keyed g → Φ (fst (m1 (g, w)))) →
  (∀ a, Φ a → agree (f1 a) (f2 a)) → agree (m1 ≫= f1) (m2 ≫= f2).
Proof.
  intros Hm HΦ Hf g w Hg. destruct (Hm g w Hg) as [Heq Hk]. specialize (HΦ g w Hg).
  unfold mbind, st_bind. rewrite <- Heq. destruct (m1 (g, w)) as [a [g' w']]. by apply Hf.
Qed.

Lemma agree_bind {A B} (m1 m2 : Walk A) (f1 f2 : A → Walk B) :
  agree m1 m2 → (∀ a, agree (f1 a) (f2 a)) → agree (m1 ≫= f1) (m2 ≫= f2).
Proof. intros Hm Hf. by apply (agree_bind_post (λ _, True)). Qed.

Lemma get_producer_agree input key pk :
  key_Namespace pk = ns →
  agree (get_producer r1 ctx input key pk) (get_producer r2 ctx input key pk) ∧
  ∀ g w, keyed g → ∀ q, fst (get_producer r1 ctx input key pk (g, w)) = inl q →
    ObjectKeyFromObject q = pk.
Proof.
  intros Hns. split.
  - intros g w Hg. unfold get_producer, mbind, st_bind, world. simpl.
    destruct (products g !! pk) eqn:Hp; [done|]. destruct (_ <=? _)%Z; [done|].
    simpl. rewrite <- Hagree by done. destruct (r1 ctx pk w) as [[q|e] w'] eqn:Hq; simpl.
    + split; [done|]. intros k p. simpl. intros [[<- <-]|[_ Hl]]%lookup_insert_Some; [|by apply Hg].
      apply (Hkeyed ctx pk w). by rewrite Hq.
    + by destruct (IsNotFound e).
  - intros g w Hg q. unfold get_producer, mbind, st_bind, world. simpl.
    destruct (products g !! pk) eqn:Hp; simpl; [intros [= <-]; by apply Hg|].
    destruct (_ <=? _)%Z; [done|]. simpl.
    destruct (r1 ctx pk w) as [[q'|e] w'] eqn:Hq; simpl.
    + intros [= <-]. apply (Hkeyed ctx pk w). by rewrite Hq.
    + by destruct (IsNotFound e).
Qed.

Lemma visit_inputs_agree rec1 rec2 product key depth inputs :
  Namespace (Meta product) = ns →
  (∀ p, Namespace (Meta p) = ns → agree (rec1 p (depth + 1)%Z) (rec2 p (depth + 1)%Z)) →
  agree (visit_inputs rec1 r1 ctx product key depth inputs)
        (visit_inputs rec2 r2 ctx product key depth inputs).
Proof.
  intros Hns Hrec. induction inputs as [|input inputs IH]; simpl.
  { apply agree_bind; [by apply agree_modify|]. intros []. apply agree_ret. }
  destruct (Ref_Namespace _ != _) eqn:Href; [apply agree_ret|]. go_bool.
  set (ref := resolvedReference product (Input_ProductRef input)) in *.
  destruct (get_producer_agree input key (ref_key ref)) as [Ha Hk]; [simpl; by rewrite Href|].
  apply (agree_bind_post (λ r, ∀ q, r = inl q → ObjectKeyFromObject q = ref_key ref)); [done|exact Hk|].
  intros [q|o] Hq; [|apply agree_ret]. specialize (Hq q eq_refl).
  apply agree_bind.
  - apply Hrec. transitivity (key_Namespace (ObjectKeyFromObject q)); [done|].
    rewrite Hq. simpl. by rewrite Href.
  - intros [o|]; [|apply agree_ret]. destruct (reason o != ""); [apply agree_ret|].
    apply agree_bind; [by apply agree_modify|]. intros [].
    destruct (inputCompatibility input q != ""); [apply agree_ret|].
    apply agree_bind; [|by intros []]. apply agree_modify. intros g' Hg'. by destruct (_ && _).
Qed.

Lemma visit_agree fuel product depth :
  Namespace (Meta product) = ns →
  agree (visit fuel r1 ctx product depth) (visit fuel r2 ctx product depth).
Proof.
  revert product depth. induction fuel as [|fuel IH]; intros product depth Hns; [apply agree_ret|].
  simpl. apply agree_bind.
  { intros g w Hg. split; [done|]. unfold world. simpl. by destruct (Err ctx w). }
  intros [e|]; [apply agree_ret|].
  apply agree_bind; [by intros g w Hg|]. intros g0.
  case_bool_decide; [apply agree_ret|].
  case_bool_decide; [destruct (_ <=? _)%Z; apply agree_ret|].
  destruct (_ || _); [apply agree_ret|].
  apply agree_bind; [by apply agree_modify|]. intros [].
  apply agree_bind; [by apply visit_inputs_agree; auto|]. intros r.
  apply agree_bind; [by apply agree_modify|]. intros []. apply agree_ret.
Qed.
End Isolation.

End Complete.
