(* ===== verification/Reference.v ===== *)
(** * Reference instances of the interfaces

    Concrete Kubernetes libraries that satisfy every law of file Kube: a world of stored products
    with a clock, association-list conditions, dotted-number versions and JSON trees.  They show
    that the laws can be met and let concrete runs be evaluated. *)

From Stdlib Require Import Ascii.
From S2P Require Import Prelude Kube Api Regex GoJson.

(** ** The cluster *)

Inductive RefError := RNotFound | RForbidden | RUnauthorized | ROther.

Record RefWorld := mkRefWorld {
  stored : gmap ObjectKey DataProduct;
  clock : Z;
  updates : list DataProduct
}.

Definition ref_env : Env := {|
  World := RefWorld;
  Ctx := unit;
  error := RefError;
  IsNotFound := λ e, match e with RNotFound => true | _ => false end;
  IsForbidden := λ e, match e with RForbidden => true | _ => false end;
  IsUnauthorized := λ e, match e with RUnauthorized => true | _ => false end;
  Err := λ _, mret None;
  WithTimeout := λ c _, mret c;
  Now := λ w, (clock w, mkRefWorld (stored w) (clock w + 1) (updates w))
|}.

(** The client's [Get] and status [Update] on the stored products. *)
Definition keyed_at (m : gmap ObjectKey DataProduct) (k : ObjectKey) : DataProduct + RefError :=
  match m !! k with
  | Some p => if ObjectKeyFromObject p == k then inl p else inr ROther
  | None => inr RNotFound
  end.
Definition ref_get : @Reader ref_env DataProduct := λ _ k w, (keyed_at (stored w) k, w).

(** A client of a cluster whose products never change. *)
Definition ref_fixed (m : gmap ObjectKey DataProduct) : @Reader ref_env DataProduct :=
  λ _ k w, (keyed_at m k, w).
Definition ref_update (_ : unit) (p : DataProduct) : ST RefWorld (option RefError) := λ w,
  (None, mkRefWorld (<[ObjectKeyFromObject p := p]> (stored w)) (clock w) (p :: updates w)).

Definition flag_true : @Flag ref_env := Some (λ _, mret true).

(** ** Conditions *)

Fixpoint ref_set (now : Time) (cs : list Condition) (c : Condition) : list Condition :=
  match cs with
  | [] =>
      [mkCondition (cond_Type c) (cond_Status c) (cond_ObservedGeneration c)
         (if (cond_LastTransitionTime c =? 0)%Z then now else cond_LastTransitionTime c)
         (cond_Reason c) (cond_Message c)]
  | d :: cs' =>
      if cond_Type d == cond_Type c then
        mkCondition (cond_Type c) (cond_Status c) (cond_ObservedGeneration c)
          (if cond_Status d == cond_Status c then cond_LastTransitionTime d
           else if (cond_LastTransitionTime c =? 0)%Z then now else cond_LastTransitionTime c)
          (cond_Reason c) (cond_Message c) :: cs'
      else d :: ref_set now cs' c
  end.

Definition ref_conditions : ConditionApi := {|
  FindStatusCondition := λ cs t, find_first (λ c, cond_Type c == t) cs;
  SetStatusCondition := ref_set;
  RemoveStatusCondition := λ cs t, List.filter (λ c, cond_Type c != t) cs
|}.

Lemma ref_conditions_laws : @ConditionLaws ref_conditions.
Proof.
  constructor; simpl.
  - intros cs t c [_ H]%find_first_elem. by go_bool.
  - intros now cs c. induction cs as [|d cs IH]; simpl.
    + rewrite bool_decide_true by done. eexists. split; [done|]. by repeat split.
    + case_bool_decide as Hd; simpl.
      * rewrite bool_decide_true by done. eexists. split; [done|]. by repeat split.
      * rewrite bool_decide_false by done. exact IH.
  - intros now cs c t Ht. induction cs as [|d cs IH]; simpl.
    + by rewrite bool_decide_false by congruence.
    + case_bool_decide as Hd; simpl; [|by rewrite IH].
      rewrite !bool_decide_false by congruence. done.
  - intros now cs c d. induction cs as [|d' cs IH]; simpl; [done|].
    case_bool_decide as Hd; [|by intros H1 H2; rewrite IH].
    intros [= ->] (E1 & E2 & E3 & E4 & E5). rewrite bool_decide_true by done.
    destruct d; simpl in *; by subst.
  - intros cs t. apply find_first_None. intros c Hc.
    apply list_elem_of_In, filter_In in Hc as [_ Hc]. go_bool. done.
  - intros cs t t' Ht. induction cs as [|d cs IH]; simpl; [done|].
    case_bool_decide as H1; simpl; case_bool_decide as H2; rewrite ?IH; congruence || done.
  - intros cs t H. rewrite find_first_None in H. induction cs as [|d cs IH]; simpl; [done|].
    rewrite (H d) by (by left). simpl. f_equal. apply IH. intros c Hc. apply H. by right.
Qed.

(** ** Semantic versions: dotted decimal numbers after an optional [v] *)

Fixpoint split_on (sep : ascii) (s cur : string) : list string :=
  match s with
  | String.EmptyString => [cur]
  | String.String a s' =>
      if Ascii.eqb a sep then cur :: split_on sep s' ""
      else split_on sep s' (cur +:+ one a)
  end.

Fixpoint decimal (s : string) (acc : Z) : option Z :=
  match s with
  | String.EmptyString => Some acc
  | String.String a s' =>
      if digit a then decimal s' (10 * acc + Z.of_N (N_of_ascii a) - 48)%Z else None
  end.

Definition ref_parse (s : string) : option (Z * Z * Z) :=
  let s := match s with String.String "v" s' => s' | _ => s end in
  match split_on "." s "" with
  | [a; b; c] =>
      match decimal a 0, decimal b 0, decimal c 0 with
      | Some x, Some y, Some z => Some (x, y, z)
      | _, _, _ => None
      end
  | _ => None
  end.

Definition ref_at_least (v w : Z * Z * Z) : bool :=
  let '(a, b, c) := v in let '(x, y, z) := w in
  ((x <? a) || ((a =? x) && ((y <? b) || ((b =? y) && (z <=? c)))))%Z.

Definition ref_versions : VersionApi := {|
  Version := Z * Z * Z;
  ParseSemantic := ref_parse;
  Major := λ v, fst (fst v);
  AtLeast := ref_at_least
|}.

Lemma ref_versions_laws : @VersionLaws ref_versions.
Proof.
  constructor; simpl.
  - intros [[a b] c]. simpl. go_bool. lia.
  - intros [[a b] c] [[d e] f] [[x y] z]. simpl. go_bool. lia.
  - intros [[a b] c] [[d e] f]. simpl. go_bool. lia.
Qed.

Definition ref_fmt : GoFmt := {| Quote := λ s, quote_byte +:+ s +:+ quote_byte |}.

(** ** Names *)

Definition dns_label : re :=
  let alnum := λ a, lower a || digit a in
  RCat (RClass alnum)
    (ROpt (RCat (RUpTo 61 (RClass (λ a, alnum a || is_char "-" a))) (RClass alnum))).

Definition ref_names : NameValidation := {|
  IsDNS1123Label := λ s, if MatchString dns_label s then [] else ["invalid"];
  IsDNS1123Subdomain := λ s,
    if (slen s <=? 253)%Z && forallb (MatchString dns_label) (split_on "." s "")
    then [] else ["invalid"]
|}.

(** ** Unstructured objects *)

Fixpoint any_field (m : list (string * any)) (k : string) : option any :=
  match m with
  | [] => None
  | (k', v) :: m' => if k == k' then Some v else any_field m' k
  end.

(** The nested lookup: an error when an intermediate value is not a map. *)
Fixpoint nested (m : list (string * any)) (path : list string) : option (option any) :=
  match path with
  | [] => Some (Some (AMap m))
  | [k] => Some (any_field m k)
  | k :: path' =>
      match any_field m k with
      | None => Some None
      | Some (AMap m') => nested m' path'
      | Some _ => None
      end
  end.

Definition nested_as {A} (conv : any → option A) (zero : A) (m : list (string * any))
    (path : list string) : Nested A :=
  match nested m path with
  | None => None
  | Some None => Some (zero, false)
  | Some (Some v) => match conv v with Some a => Some (a, true) | None => None end
  end.

Definition as_string (a : any) : option string :=
  match a with AString s => Some s | _ => None end.

Record RefObject := mkRefObject {
  ro_object : list (string * any);
  ro_name : string;
  ro_uid : string;
  ro_kind : string;
  ro_generation : Z;
  ro_deletion : option Time
}.

Definition ref_parse_gv (s : string) : option GroupVersion :=
  match split_on "/" s "" with
  | [v] => Some (mkGV "" v)
  | [g; v] => Some (mkGV g v)
  | _ => None
  end.

Definition ref_unstructured : UnstructuredApi := {|
  Unstructured := RefObject;
  Object := ro_object;
  GetName := ro_name;
  GetUID := ro_uid;
  GetKind := ro_kind;
  GetGeneration := ro_generation;
  GetDeletionTimestamp := ro_deletion;
  NestedString := nested_as as_string "";
  NestedInt64 := nested_as (λ a, match a with AInt n => Some n | _ => None end) 0%Z;
  NestedBool := nested_as (λ a, match a with ABool b => Some b | _ => None end) false;
  NestedSlice := nested_as (λ a, match a with ASlice l => Some l | _ => None end) [];
  NestedStringSlice :=
    nested_as (λ a, match a with ASlice l => mapM as_string l | _ => None end) [];
  NestedFieldPresent := λ m path,
    match nested m path with
    | None => None
    | Some o => Some (non_nil o)
    end;
  ParseGroupVersion := ref_parse_gv
|}.

Lemma split_on_none sep s cur :
  sep ∉ String.list_ascii_of_string s → split_on sep s cur = [cur +:+ s].
Proof.
  revert cur. induction s as [|a s IH]; intros cur Hs; cbn [split_on]; [by rewrite str_app_nil_r|].
  cbn in Hs. apply not_elem_of_cons in Hs as [Ha Hs].
  destruct (Ascii.eqb_spec a sep) as [->|_]; [done|]. rewrite IH by done. by rewrite <- str_app_assoc.
Qed.

Lemma split_on_once sep s t cur :
  sep ∉ String.list_ascii_of_string s →
  split_on sep (s +:+ String.String sep t) cur = (cur +:+ s) :: split_on sep t "".
Proof.
  revert cur. induction s as [|a s IH]; intros cur Hs.
  - rewrite str_app_nil, str_app_nil_r. cbn [split_on]. by rewrite Ascii.eqb_refl.
  - rewrite str_app_cons. cbn [split_on]. cbn in Hs. apply not_elem_of_cons in Hs as [Ha Hs].
    destruct (Ascii.eqb_spec a sep) as [->|_]; [done|]. rewrite IH by done. by rewrite <- str_app_assoc.
Qed.

Lemma ref_group_version_laws : @GroupVersionLaws ref_unstructured.
Proof.
  constructor. intros g v _ Hg Hv. cbn. unfold ref_parse_gv.
  change (g +:+ "/" +:+ v) with (g +:+ String.String "/"%char v).
  rewrite split_on_once by done. by rewrite split_on_none.
Qed.

(** ** Sample products *)

Definition sample_owner : ProductOwner := mkProductOwner "team" "https://team.example".

Definition sample (ns name : string) (inputs : list InputPort) (outputs : list OutputPort)
    (conditions : list Condition) : DataProduct :=
  mkProduct (mkObjectMeta name ns 3%Z None ∅)
    (mkSpec ("urn:" +:+ name) name "A product." "v1.2.0" sample_owner "https://docs.example"
       inputs outputs None None None [])
    (mkStatus 3%Z conditions []).

Definition sample_ready : Condition := mkCondition ConditionReady ConditionTrue 3%Z 7%Z "Ready" "ok".

Definition sample_output : OutputPort :=
  mkOutputPort "api" ProtocolOpenAPI "https://api.example" "https://api.example/openapi.json" "".

(** A consumer of [orders] and [users]; [orders] itself consumes [users]. *)
Definition sample_input (name producer minimum : string) : InputPort :=
  mkInputPort name (mkProductReference producer "" "api")
    (Some (mkInputContract minimum ProtocolOpenAPI)).
Definition sample_users : DataProduct := sample "shop" "users" [] [sample_output] [sample_ready].
Definition sample_orders : DataProduct :=
  sample "shop" "orders" [sample_input "u" "users" "v1.0.0"] [sample_output] [sample_ready].
Definition sample_report : DataProduct :=
  sample "shop" "report" [sample_input "o" "orders" "v1.1.0"; sample_input "u" "users" "v1.2.0"]
    [] [].

Definition sample_products : gmap ObjectKey DataProduct :=
  <[mkKey "shop" "users" := sample_users]> (<[mkKey "shop" "orders" := sample_orders]>
    {[mkKey "shop" "report" := sample_report]}).
Definition sample_world : RefWorld := mkRefWorld sample_products 100%Z [].
