(* ===== verification/CompositionSpec.v ===== *)
(** * Composition: the properties

    What an observation published by [observeComposition] means: soundness and completeness of an
    accepted graph, bounds of every walk, isolation of namespaces, the order of contract versions and
    the published lineage. *)

From S2P Require Import Prelude Kube Api Regex GoJson Composition CompositionProofs.
From S2P Require Import CompositionReads CompositionComplete Reference.

(** ** Lineage: encoded size and contents *)

Definition status_size (s : InputStatus) : Z := (slen (encode (InputStatus_json s)) + 1)%Z.
Definition lineage_size (l : list InputStatus) : Z := foldr Z.add 0%Z (status_size <$> l).

Lemma lineage_size_cons s l : lineage_size (s :: l) = (status_size s + lineage_size l)%Z.
Proof. reflexivity. Qed.

Lemma lineage_size_perm l l' : l ≡ₚ l' → lineage_size l = lineage_size l'.
Proof. intros H. unfold lineage_size. apply foldr_add_perm. by rewrite H. Qed.

Lemma slen_join (l : list string) :
  (slen (join "," l) ≤ foldr Z.add 0 ((λ s, slen s + 1)%Z <$> l))%Z.
Proof.
  induction l as [|s [|t l] IH]; [done| |].
  - csimpl. lia.
  - change (join "," (s :: t :: l)) with (s +:+ "," +:+ join "," (t :: l)).
    rewrite !slen_app. change (slen ",") with 1%Z. csimpl in *. lia.
Qed.

(** The JSON array of the published statuses is no longer than the budget that was counted. *)
Lemma slen_lineage_json (l : list InputStatus) :
  (slen (encode (JArray (map InputStatus_json l))) ≤ 2 + lineage_size l)%Z.
Proof.
  change (encode (JArray (map InputStatus_json l))) with
    ("[" +:+ join "," (map encode (map InputStatus_json l)) +:+ "]").
  rewrite !slen_app. change (slen "[") with 1%Z. change (slen "]") with 1%Z.
  pose proof (slen_join (map encode (map InputStatus_json l))) as H.
  enough (foldr Z.add 0 ((λ s, slen s + 1)%Z <$> map encode (map InputStatus_json l))
          = lineage_size l)%Z by lia.
  unfold lineage_size, status_size. rewrite map_map.
  clear H. induction l as [|s l IH]; [done|]. csimpl. by rewrite IH.
Qed.

#[local] Arguments encode : simpl never.
#[local] Arguments InputStatus_json : simpl never.

Section Observe.
Context `{E : Env} `{C : ConditionApi} `{V : VersionApi} `{F : GoFmt}.

(** The graph that has read exactly the snapshot. *)
Definition snapshot_graph (snap : gmap ObjectKey DataProduct) : compositionGraph :=
  mkGraph None snap ∅ ∅ ∅ ∅ 0.

Lemma lineage_loop_spec g p inputs n acc o o' l :
  lineage_loop g p inputs n acc o = (o', l) → (n ≤ maxLineageBytes)%Z →
  (l = [] ∧ reason o' = "CompositionLimitExceeded" ∧ obs_err o' = None) ∨
  (o' = o ∧ l = acc ++ map (input_status g p) inputs ∧
   (n + lineage_size (map (input_status g p) inputs) ≤ maxLineageBytes)%Z).
Proof.
  revert n acc. induction inputs as [|i inputs IH]; intros n acc H Hn; simpl in H.
  - injection H as <- <-. right. rewrite app_nil_r. change (lineage_size (map _ [])) with 0%Z. split_and!; auto. lia.
  - destruct (_ <? _)%Z eqn:Hb.
    + injection H as <- <-. by left.
    + go_bool. destruct (IH _ _ H Hb) as [Hl|(-> & -> & Hs)]; [by left|]. right.
      split_and!; auto; [by rewrite <- app_assoc|].
      simpl. rewrite lineage_size_cons. unfold status_size at 1. lia.
Qed.

(** Within the budget, the loop publishes every input. *)
Lemma lineage_loop_fits g p inputs n acc o :
  (n + lineage_size (map (input_status g p) inputs) ≤ maxLineageBytes)%Z →
  lineage_loop g p inputs n acc o = (o, acc ++ map (input_status g p) inputs).
Proof.
  assert (Hpos : ∀ l, (0 ≤ lineage_size l)%Z).
  { intros l. induction l as [|s l IH]; [done|]. rewrite lineage_size_cons.
    unfold status_size, slen. lia. }
  revert n acc. induction inputs as [|i inputs IH]; intros n acc H; simpl.
  - by rewrite app_nil_r.
  - simpl in H. rewrite lineage_size_cons in H. unfold status_size in H. pose proof (Hpos (map (input_status g p) inputs)).
    rewrite (proj2 (Z.ltb_ge _ _)) by lia. rewrite IH by lia. by rewrite <- app_assoc.
Qed.

(** The lineage block publishes nothing, with an error reason or above the input limit, or one
    status per input, sorted. *)
Lemma observe_lineage_spec g p o o' l :
  observe_lineage g p o = (o', l) →
  (l = [] ∧ reason o' = "CompositionLimitExceeded") ∨
  (o' = o ∧ l = [] ∧ (maxCompositionEdges < len (Inputs (Spec p)))%Z) ∨
  (o' = o ∧ l = sort_slice (less_by IS_Name) (map (input_status g p) (Inputs (Spec p))) ∧
   (2 + lineage_size l ≤ maxLineageBytes)%Z).
Proof.
  unfold observe_lineage. destruct (_ <=? _)%Z eqn:Hn.
  - destruct (lineage_loop _ _ _ _ _ _) as [o1 l1] eqn:Hl. intros [= <- <-].
    destruct (lineage_loop_spec _ _ _ _ _ _ _ _ Hl) as [(-> & Hr & _)|(-> & -> & Hs)]; [done| |].
    + by left.
    + right; right. split_and!; auto. by rewrite (lineage_size_perm _ _ (sort_slice_perm _ _)).
  - intros [= <- <-]. right; left. go_bool. split_and!; auto.
Qed.

(** Within both limits, every input is published. *)
Lemma observe_lineage_fits g p o :
  (len (Inputs (Spec p)) ≤ maxCompositionEdges)%Z →
  (2 + lineage_size (map (input_status g p) (Inputs (Spec p))) ≤ maxLineageBytes)%Z →
  observe_lineage g p o =
    (o, sort_slice (less_by IS_Name) (map (input_status g p) (Inputs (Spec p)))).
Proof.
  intros Hn Hs. unfold observe_lineage. rewrite (proj2 (Z.leb_le _ _)) by done.
  by rewrite lineage_loop_fits.
Qed.

(** The published list is empty above either limit, and complete within both. *)
Lemma observe_lineage_exact g p o o' l :
  observe_lineage g p o = (o', l) →
  let statuses := map (input_status g p) (Inputs (Spec p)) in
  (l = if bool_decide (len (Inputs (Spec p)) ≤ maxCompositionEdges ∧
                       2 + lineage_size statuses ≤ maxLineageBytes)%Z
       then sort_slice (less_by IS_Name) statuses else []) ∧
  (2 + lineage_size l ≤ maxLineageBytes)%Z.
Proof.
  intros H statuses. assert (Hnil : (2 + lineage_size [] ≤ maxLineageBytes)%Z) by done.
  case_bool_decide as Hfit.
  - destruct Hfit as [Hn Hs]. rewrite observe_lineage_fits in H by done. injection H as <- <-.
    split; [done|]. by rewrite (lineage_size_perm _ _ (sort_slice_perm _ _)).
  - destruct (observe_lineage_spec _ _ _ _ _ H) as [[-> _]|[(_ & -> & _)|(_ & -> & Hs)]]; [done..|].
    destruct Hfit. rewrite (lineage_size_perm _ _ (sort_slice_perm _ _)) in Hs. split; [|done].
    unfold observe_lineage in H. destruct (_ <=? _)%Z eqn:Hn; [by go_bool|].
    injection H as _ H. go_bool. exfalso.
    assert (Inputs (Spec p) = []) as Hi; [|rewrite Hi in Hn; unfold len, maxCompositionEdges in Hn; simpl in Hn; lia].
    symmetry in H. apply (f_equal length) in H. rewrite (Permutation_length (sort_slice_perm _ _)) in H.
    rewrite length_map in H. by apply nil_length_inv.
Qed.

Lemma input_status_ready g p input :
  IS_Ready (input_status g p input) = true ↔
  let ref := resolvedReference p (Input_ProductRef input) in
  Ref_Namespace ref = Namespace (Meta p) ∧
  ∃ q, products g !! ref_key ref = Some q ∧ inputCompatibility input q = "" ∧ producerReady q = true.
Proof.
  unfold input_status. case_bool_decide as Hns; simpl.
  - destruct (products g !! _) as [q|] eqn:Hq; simpl.
    + go_bool. split.
      * intros Hw. split; [done|]. exists q. case_bool_decide as Hc; simpl in Hw; [|done].
        by destruct (producerReady q) eqn:Hr.
      * intros (_ & q' & [= <-] & Hc & Hr). by rewrite Hc, Hr.
    + split; [by case_bool_decide|]. by intros (_ & q & ? & _).
  - split; [done|]. by intros [? _].
Qed.

Lemma input_status_reason g p input : IS_Reason (input_status g p input) ≠ "".
Proof.
  unfold input_status. case_bool_decide; simpl; [|done].
  destruct (products g !! _) as [q|]; simpl; [|by case_bool_decide].
  case_bool_decide as Hw; done.
Qed.

(** A clean final observation: the walk was clean and every published input is ready. *)
Lemma with_lineage_ok o l :
  (∀ s, s ∈ l → IS_Reason s ≠ "") → reason (with_lineage o l) = "" →
  with_lineage o l = o ∧ ∀ s, s ∈ l → IS_Ready s = true.
Proof.
  intros Hl. unfold with_lineage. case_bool_decide as Ho; [|done].
  destruct (find_first _ _) as [s|] eqn:Hf; simpl.
  - intros Hr. apply find_first_elem in Hf as [Hs _]. by destruct (Hl s Hs).
  - intros _. split; [done|]. intros s Hs. rewrite find_first_None in Hf.
    specialize (Hf s Hs). by destruct (IS_Ready s).
Qed.

Lemma with_lineage_ready o l : (∀ s, s ∈ l → IS_Ready s = true) → with_lineage o l = o.
Proof.
  intros Hl. unfold with_lineage. case_bool_decide; [|done].
  destruct (find_first _ _) as [s|] eqn:Hf; [|done].
  apply find_first_elem in Hf as [Hs Hn]. by rewrite (Hl s Hs) in Hn.
Qed.

Lemma with_notReady_ok o g : reason (with_notReady o g) = "" → reason o = "" ∧ notReady g = None.
Proof. unfold with_notReady. repeat case_match; simpl; try done. by go_bool. Qed.

(** The walk an observation makes: the flag is on, the walk starts from the product without its old
    lineage, under the five-second deadline, and ends with [o], [g] and [w2]. *)
Definition observation_run (client : Reader DataProduct) (flag : Flag) (ctx : Ctx) (p : DataProduct)
    (w : World) (ctx' : Ctx) (w1 : World) (o : compositionObservation) (g : compositionGraph)
    (w2 : World) : Prop :=
  ∃ w0, flag_on flag ctx w = (true, w0) ∧ WithTimeout ctx (5 * Second) w0 = (ctx', w1) ∧
    walk_root client ctx' (set_Status_Inputs [] p) w1 = ((o, g), w2).

(** Every run of [observeComposition] ends without a condition, with the disabled condition, or with
    the condition of a walk. *)
Lemma observeComposition_cases client flag ctx p w err p' w' :
  observeComposition client flag ctx p w = ((err, p'), w') →
  let p0 := set_Status_Inputs [] p in
  ((Inputs (Spec p) = [] ∨ fst (flag_on flag ctx w) = false) ∧ err = None ∧
     p' = removeCompositionCondition p0) ∨
  (∃ w1 o, fst (flag_on flag ctx w) = false ∧ err = None ∧ Inputs (Spec p) ≠ [] ∧
     reason o = "CompositionFeatureDisabled" ∧ setCompositionCondition p0 o w1 = (p', w')) ∨
  (∃ ctx' w1 o g w2 o2 l, Inputs (Spec p) ≠ [] ∧
     observation_run client flag ctx p w ctx' w1 o g w2 ∧
     observe_lineage g p0 (with_notReady o g) = (o2, l) ∧
     err = obs_err (with_lineage o2 l) ∧
     setCompositionCondition (set_Status_Inputs l p0) (with_lineage o2 l) w2 = (p', w')).
Proof.
  intros H p0. unfold observeComposition in H. fold p0 in H.
  destruct (len (Inputs (Spec p0)) =? 0)%Z eqn:Hn.
  { injection H as <- <- <-. left. split_and!; auto. left. go_bool.
    simpl in Hn. unfold len in Hn. destruct (Inputs (Spec p)); [done|simpl in Hn; lia]. }
  assert (Hne : Inputs (Spec p) ≠ []) by (intros He; simpl in Hn; by rewrite He in Hn).
  step_st H. destruct a; simpl in H.
  - step_st H. step_st H. destruct a0 as [o g].
    destruct (observe_lineage g p0 (with_notReady o g)) as [o2 l] eqn:Hl.
    step_st H. injection H as <- <- <-. right; right.
    exists a, s0, o, g, s1, o2, l. split_and!; [done| |done|done|done]. by exists s.
  - destruct (existsb _ _).
    + step_st H. injection H as <- <- <-. right; left.
      do 2 eexists. split_and!; [by rewrite E0|done|done| |eassumption]; done.
    + injection H as <- <- <-. left. rewrite E0. auto.
Qed.

Lemma setCompositionCondition_inv p o w p' w' :
  setCompositionCondition p o w = (p', w') →
  ∃ now, p' = set_Conditions
    (SetStatusCondition now (Conditions (Status p)) (composition_condition p o)) p.
Proof.
  unfold setCompositionCondition, set_condition. intros H. step_st H. step_st E0.
  injection E0 as <- <-. injection H as <- <-. by eexists.
Qed.

(** The condition found after the set is the one that was set, but for its time. *)
Lemma setCompositionCondition_found `{!ConditionLaws} p o w p' w' c :
  setCompositionCondition p o w = (p', w') →
  FindStatusCondition (Conditions (Status p')) ConditionCompositionReady = Some c →
  same_condition c (composition_condition p o).
Proof.
  intros (now & ->)%setCompositionCondition_inv. simpl. intros Hc.
  destruct (find_set_eq now (Conditions (Status p)) (composition_condition p o)) as (d & Hd & Hs).
  simpl in Hd. by simplify_eq.
Qed.

(** What publishing an observation leaves: the condition with its generation and reason, and
    everything else untouched. *)
Lemma published_condition `{!ConditionLaws} p o w p' w' :
  setCompositionCondition p o w = (p', w') →
  Meta p' = Meta p ∧ Spec p' = Spec p ∧
  ObservedGeneration (Status p') = ObservedGeneration (Status p) ∧
  (∀ t, t ≠ ConditionCompositionReady →
     FindStatusCondition (Conditions (Status p')) t = FindStatusCondition (Conditions (Status p)) t) ∧
  ∃ c, FindStatusCondition (Conditions (Status p')) ConditionCompositionReady = Some c ∧
    same_condition c (composition_condition p o).
Proof.
  intros (now & ->)%setCompositionCondition_inv. simpl. split_and!; auto.
  - intros t Ht. by apply find_set_ne.
  - destruct (find_set_eq now (Conditions (Status p)) (composition_condition p o)) as (c & Hc & Hs).
    by exists c.
Qed.

Lemma composition_condition_true p o :
  cond_Status (composition_condition p o) = ConditionTrue ↔ reason o = "".
Proof. unfold composition_condition. simpl. by case_bool_decide. Qed.

(** Everything reachable from a visited product is visited. *)
Lemma certified_rtc g k k' :
  (∀ j, j ∈ visited g → certified g j) → k ∈ visited g → rtc (depends g) k k' → k' ∈ visited g.
Proof.
  intros Hc Hk. induction 1 as [x|x y z Hd Hr IH]; [done|].
  apply IH. by apply (certified_step g x y (Hc x Hk) Hd).
Qed.

Lemma certified_namespace g k k' :
  wf g → k ∈ visited g → depends g k k' → key_Namespace k' = key_Namespace k.
Proof.
  intros Hw Hk (p & i & Hp & Hi & ->). destruct (wf_visited g Hw k Hk) as (p' & Hp' & Hin).
  simplify_eq. destruct (Hin i Hi) as (Hns & _). simpl. rewrite Hns.
  by rewrite <- (wf_keyed g Hw _ _ Hp).
Qed.

Lemma certified_rtc_namespace g k k' :
  wf g → k ∈ visited g → rtc (depends g) k k' → key_Namespace k' = key_Namespace k.
Proof.
  intros Hw Hk Hr. revert Hk. induction Hr as [x|x y z Hd Hr IH]; intros Hk; [done|].
  rewrite IH; [by eapply certified_namespace|].
  by apply (certified_step g x y (wf_visited g Hw x Hk) Hd).
Qed.

(** The accepted walk of the root. *)
Lemma walk_root_accepted reader ctx product w o g w' :
  reader_keyed reader → walk_root reader ctx product w = ((o, g), w') → reason o = "" →
  wf g ∧ products g !! ObjectKeyFromObject product = Some product ∧
  ObjectKeyFromObject product ∈ visited g ∧
  (height g (ObjectKeyFromObject product) < maxCompositionDepth)%Z.
Proof.
  intros Hr (r & Hv & ->)%walk_root_visit Ho.
  pose proof (visit_spec walk_fuel reader ctx product 0 (initial_graph product) Hr
    (initial_graph product) w (conj eq_refl (conj (initial_wf product) (initial_product product))))
    as Hs.
  rewrite Hv in Hs. destruct (Hs o eq_refl Ho) as (Hw & Hf & _ & Hk & Hh). split_and!; auto.
  eapply frame_lookup; [exact Hf|]. apply initial_product.
Qed.

(** A clean observation is the zero observation, and an error is reported exactly with the retryable
    reason. *)
Definition honest (o : compositionObservation) : Prop :=
  (reason o = "" → o = no_observation) ∧
  (is_Some (obs_err o) ↔ reason o = "DependencyUnavailable").

Lemma honest_failure why text : why ≠ "" → why ≠ "DependencyUnavailable" →
  honest (mkObservation why text None).
Proof. intros H1 H2. split; simpl; [done|]. split; [by intros []|done]. Qed.

Lemma honest_error text e : honest (mkObservation "DependencyUnavailable" text (Some e)).
Proof. split; simpl; [done|]. by split; eauto. Qed.

Lemma honest_none : honest no_observation.
Proof. split; [done|]. split; [by intros []|done]. Qed.

Lemma get_producer_honest reader ctx i key pk :
  hoare (λ _, True) (get_producer reader ctx i key pk) (λ r _, ∀ o, r = inr o → honest o).
Proof.
  intros g w _ o. unfold get_producer, mbind, st_bind, world. simpl.
  repeat case_match; simpl in *; intros [= <-] || (intros ?; simplify_eq);
    by apply honest_failure || apply honest_error.
Qed.

Lemma visit_inputs_honest rec reader ctx p key depth inputs :
  (∀ q, hoare (λ _, True) (rec q (depth + 1)%Z) (λ r _, ∀ o, r = Some o → honest o)) →
  hoare (λ _, True) (visit_inputs rec reader ctx p key depth inputs)
    (λ r _, ∀ o, r = Some o → honest o).
Proof.
  intros Hrec. induction inputs as [|i inputs IH]; simpl.
  { intros g w _ o [= <-]. apply honest_none. }
  destruct (_ != _); [intros g w _ o [= <-]; by apply honest_failure|].
  eapply hoare_bind; [apply get_producer_honest|].
  intros [q|o]; [|intros g w Ho o' [= <-]; by apply Ho].
  eapply hoare_bind; [eapply hoare_conseq; [apply Hrec|done|intros a g Hg; exact Hg]|].
  intros [o|]; [|by apply hoare_ret].
  destruct (reason o != ""); [by apply hoare_ret|].
  eapply hoare_bind with (R := λ _ _, True); [by apply hoare_modify|]. intros [].
  destruct (inputCompatibility i q != "") eqn:Hc.
  { intros g w _ o' [= <-]. go_bool.
    apply honest_failure; [done|]. by destruct (inputCompatibility_cases i q) as [->|[->| ->]]. }
  eapply hoare_bind with (R := λ _ _, True); [by apply hoare_modify|]. by intros [].
Qed.

Lemma visit_honest fuel reader ctx p depth :
  hoare (λ _, True) (visit fuel reader ctx p depth) (λ r _, ∀ o, r = Some o → honest o).
Proof.
  revert p depth. induction fuel as [|fuel IH]; intros p depth; simpl; [by apply hoare_ret|].
  eapply hoare_bind; [apply hoare_world_const|].
  intros [e|]; [intros g w _ o [= <-]; apply honest_error|].
  apply hoare_get_bind. intros g0 _.
  case_bool_decide; [intros g w _ o [= <-]; by apply honest_failure|].
  case_bool_decide;
    [destruct (_ <=? _)%Z; intros g w _ o [= <-]; [by apply honest_failure|apply honest_none]|].
  destruct (_ || _); [intros g w _ o [= <-]; by apply honest_failure|].
  eapply hoare_bind with (R := λ _ _, True); [by apply hoare_modify|]. intros [].
  eapply hoare_bind; [by apply visit_inputs_honest|].
  intros r. eapply hoare_bind with (R := λ _ _, ∀ o, r = Some o → honest o);
    [by apply hoare_modify|]. intros []. by apply hoare_ret.
Qed.

Lemma walk_root_honest reader ctx p w o g w' :
  walk_root reader ctx p w = ((o, g), w') → honest o.
Proof.
  intros (r & Hv & ->)%walk_root_visit.
  pose proof (visit_honest walk_fuel reader ctx p 0 (initial_graph p) w I o) as H.
  rewrite Hv in H. by apply H.
Qed.

(** The reasons of a published input. *)
Lemma input_status_not_retryable g p input :
  IS_Reason (input_status g p input) ≠ "DependencyUnavailable".
Proof.
  unfold input_status. case_bool_decide; simpl; [|done].
  destruct (products g !! _) as [q|]; simpl; [|by case_bool_decide].
  case_bool_decide as Hw; [done|].
  by destruct (inputCompatibility_cases input q) as [->|[->| ->]], (producerReady q).
Qed.

(** The later steps of the observation keep it honest. *)
Lemma final_honest g p o o2 l :
  honest o → observe_lineage g p (with_notReady o g) = (o2, l) → honest (with_lineage o2 l).
Proof.
  intros Ho Hl.
  assert (Hnr : honest (with_notReady o g)).
  { unfold with_notReady. repeat case_match; auto. by apply honest_failure. }
  unfold observe_lineage in Hl.
  assert (honest o2 ∧ ∀ s, s ∈ l → ∃ i, s = input_status g p i) as [Ho2 Hs].
  { destruct (_ <=? _)%Z; [|injection Hl as <- <-; split; [done|by intros ? ?%elem_of_nil]].
    destruct (lineage_loop _ _ _ _ _ _) as [o1 l1] eqn:Hloop. injection Hl as <- <-.
    destruct (lineage_loop_spec _ _ _ _ _ _ _ _ Hloop) as [(-> & Hr & He)|(-> & -> & _)]; [done|..].
    - split; [|by intros ? ?%elem_of_nil]. destruct o1 as [why text err]. simpl in *. subst.
      by apply honest_failure.
    - split; [done|]. intros s Hs%sort_slice_elem. apply list_elem_of_fmap in Hs as (i & -> & _). eauto. }
  unfold with_lineage. case_bool_decide; [|done].
  destruct (find_first _ _) as [s|] eqn:Hf; [|done].
  apply find_first_elem in Hf as [Hin _]. destruct (Hs s Hin) as [i ->].
  apply honest_failure; [apply input_status_reason|apply input_status_not_retryable].
Qed.

Lemma n_inputs_bound g k : wf g → k ∈ visited g → (n_inputs g k ≤ maxCompositionEdges)%Z.
Proof.
  intros Hw Hk. pose proof (wf_edges g Hw). pose proof (wf_edges_bound g Hw).
  assert (total (n_inputs g) {[k]} ≤ total (n_inputs g) (visited g ∪ visiting g))%Z as Ht.
  { apply total_mono; [|set_solver]. intros j. unfold n_inputs, len. case_match; lia. }
  rewrite <- (union_empty_r_L {[k]}), total_insert, total_empty in Ht by set_solver. lia.
Qed.

(** What a published success stands on: a clean walk with every producer ready, and the sorted
    statuses of all inputs within the budget. *)
Lemma composition_published `{!ConditionLaws} client flag ctx p w err p' w' c :
  reader_keyed client →
  observeComposition client flag ctx p w = ((err, p'), w') →
  FindStatusCondition (Conditions (Status p')) ConditionCompositionReady = Some c →
  cond_Status c = ConditionTrue →
  ∃ ctx' w1 g w2, observation_run client flag ctx p w ctx' w1 no_observation g w2 ∧
    notReady g = None ∧ err = None ∧ cond_ObservedGeneration c = Generation (Meta p) ∧
    Status_Inputs (Status p') =
      sort_slice (less_by IS_Name) (map (input_status g p) (Inputs (Spec p))) ∧
    (∀ s, s ∈ Status_Inputs (Status p') → IS_Ready s = true).
Proof.
  intros Hr Hobs Hc Hst. set (p0 := set_Status_Inputs [] p).
  destruct (observeComposition_cases _ _ _ _ _ _ _ _ Hobs)
    as [(Hoff & -> & ->)|[(w1 & o & Hoff & -> & Hne & Ho & Hset)
       |(ctx' & w1 & o & g & w2 & o2 & l & Hne & Hrun & Hl & Herr & Hset)]].
  { simpl in Hc. by rewrite find_remove_eq in Hc. }
  all: destruct (setCompositionCondition_found _ _ _ _ _ _ Hset Hc) as (_ & Hs & Hgen & _);
    rewrite Hst in Hs; symmetry in Hs; apply composition_condition_true in Hs; try (by rewrite Hs in Ho).
  destruct Hrun as (w0 & Hon & Htime & Hwalk).
  fold p0 in Hwalk, Hl, Hset. apply setCompositionCondition_inv in Hset as (now & ->).
  destruct (with_lineage_ok o2 l) as [Heq Hready]; [|done|].
  { intros s Hin. destruct (observe_lineage_spec _ _ _ _ _ Hl) as [[-> _]|[(_ & -> & _)|(_ & -> & _)]];
      [by apply elem_of_nil in Hin..|].
    apply sort_slice_elem, list_elem_of_fmap in Hin as (i & -> & _). apply input_status_reason. }
  rewrite Heq in Hs, Herr.
  destruct (observe_lineage_spec _ _ _ _ _ Hl) as [[_ Hlim]|Hl']; [congruence|].
  assert (o2 = with_notReady o g) as Ho2 by (by destruct Hl' as [(-> & _)|(-> & _)]).
  rewrite Ho2 in Hs. destruct (with_notReady_ok o g Hs) as [Ho Hnr].
  destruct (walk_root_accepted _ _ _ _ _ _ _ Hr Hwalk Ho) as (Hw & Hp & Hk & _).
  pose proof (n_inputs_bound g _ Hw Hk) as Hb. unfold n_inputs in Hb. rewrite Hp in Hb.
  destruct Hl' as [(_ & _ & Hover)|(_ & Hlist & _)]; [lia|].
  assert (o = no_observation) as ->.
  { by apply (walk_root_honest _ _ _ _ _ _ _ Hwalk). }
  exists ctx', w1, g, w2. split_and!; auto; [by exists w0|].
  rewrite Herr, Ho2. unfold with_notReady. by rewrite Hnr.
Qed.
(** The lineage of a product depends only on its direct producers. *)
Lemma input_status_snapshot snap g p input q :
  products g !! ref_key (resolvedReference p (Input_ProductRef input)) = Some q →
  snap !! ref_key (resolvedReference p (Input_ProductRef input)) = Some q →
  input_status g p input = input_status (snapshot_graph snap) p input.
Proof. intros Hg Hs. unfold input_status. simpl. by rewrite Hg, Hs. Qed.

(** A sound, ready snapshot makes every step of the observation clean. *)
Lemma complete_walk snap rank client ctx p w :
  snapshot_ok snap rank → serves snap client ctx → reader_keyed client →
  snap !! ObjectKeyFromObject p = Some p →
  (∀ k q, snap !! k = Some q → k ≠ ObjectKeyFromObject p → producerReady q = true) →
  ∃ g w', walk_root client ctx p w = ((no_observation, g), w') ∧ notReady g = None ∧
    map (input_status g p) (Inputs (Spec p)) =
    map (input_status (snapshot_graph snap) p) (Inputs (Spec p)) ∧
    (len (Inputs (Spec p)) ≤ maxCompositionEdges)%Z ∧
    ∀ i, i ∈ Inputs (Spec p) → IS_Ready (input_status g p i) = true.
Proof.
  intros Hs Hsv Hr Hp Hready.
  pose proof (walk_root_complete snap rank client ctx p w Hs Hsv Hr Hp) as Hc.
  destruct (walk_root client ctx p w) as [[o g] w'] eqn:Hwalk. destruct Hc as [Ho Hi].
  destruct (walk_root_accepted _ _ _ _ _ _ _ Hr Hwalk Ho) as (Hw & Hgp & Hk & _).
  assert (Hnr : notReady g = None).
  { destruct (notReady g) as [k|] eqn:Hn; [|done].
    destruct (wf_notReady g Hw k Hn) as (q & Hq & Hqr). pose proof (in_notReady _ _ _ _ Hi k Hn).
    assert (producerReady q = true); [|congruence]. eapply (Hready k).
    - eapply lookup_weaken; [exact Hq|apply Hi].
    - intros ->. lia. }
  destruct (wf_visited g Hw _ Hk) as (p1 & Hp1 & Hin). simplify_eq.
  exists g, w'. split_and!; auto.
  - by rewrite (proj1 (walk_root_honest _ _ _ _ _ _ _ Hwalk) Ho).
  - apply map_ext_in. intros i Hii%list_elem_of_In. destruct (Hin i Hii) as (_ & _ & (q & Hq & _) & _).
    eapply input_status_snapshot; [exact Hq|]. eapply lookup_weaken; [exact Hq|apply Hi].
  - pose proof (n_inputs_bound g _ Hw Hk) as Hb. unfold n_inputs in Hb. by rewrite Hgp in Hb.
  - intros i Hii. apply input_status_ready.
    destruct (Hin i Hii) as (Hns & _ & (q & Hq & Hcq & Hrq) & _). split; [done|]. eauto 10.
Qed.
End Observe.

(** ** Versions *)

Section Versions.
Context `{V : VersionApi} `{!VersionLaws}.

Lemma compatibleVersion_inv a b :
  compatibleVersion a b = true → ∃ v m, ParseSemantic a = Some v ∧ ParseSemantic b = Some m ∧
    Major v = Major m ∧ AtLeast v m = true ∧ (Major v = 0%Z → a = b).
Proof.
  unfold compatibleVersion. destruct (_ || _) eqn:Hs; [done|].
  destruct (ParseSemantic a) as [v|] eqn:Ha; [|done].
  destruct (ParseSemantic b) as [m|] eqn:Hb; [|done].
  case_bool_decide as Hm; simpl; [|done]. case_bool_decide as H0.
  - intros Hab. go_bool. subst. assert (v = m) as -> by congruence.
    exists m, m. split_and!; auto. apply AtLeast_refl.
  - intros Hat. exists v, m. by split_and!.
Qed.

Lemma compatibleVersion_stable a b :
  compatibleVersion a b = true →
  MatchString stableContractVersion a = true ∧ MatchString stableContractVersion b = true.
Proof.
  unfold compatibleVersion.
  destruct (MatchString stableContractVersion a), (MatchString stableContractVersion b); done.
Qed.

Lemma compatibleVersion_trans a b c :
  compatibleVersion a b = true → compatibleVersion b c = true → compatibleVersion a c = true.
Proof.
  intros Hab Hbc. destruct (compatibleVersion_inv a b Hab) as (v & m & Ha & Hb & HM & Hat & H0).
  destruct (compatibleVersion_inv b c Hbc) as (m' & n & Hb' & Hc & HM' & Hat' & H0'). simplify_eq.
  apply compatibleVersion_stable in Hab as [Sa _]. apply compatibleVersion_stable in Hbc as [_ Sc].
  unfold compatibleVersion. rewrite Ha, Hc, Sa, Sc. simpl.
  rewrite HM, HM'. rewrite bool_decide_true by done. simpl. case_bool_decide as Hz.
  - rewrite H0, H0' by congruence. by apply bool_decide_true.
  - by eapply AtLeast_trans.
Qed.
End Versions.

(** ** Properties of the graph walk *)

Section Properties.
Context `{E : Env} `{C : ConditionApi} `{!ConditionLaws} `{V : VersionApi} `{F : GoFmt}.

(** C1: soundness of a published success.  When [observeComposition] leaves the condition
    CompositionReady with status True, it returned no error, the condition carries the product's
    current generation, and the walk it made, with the flag on and under its deadline, ended with no
    reason.  The products it decided on are the observed product and the answers its client gave
    during that walk, one read per key.  Among them everything reachable from the product through
    declared inputs was read, lies in the product's namespace, has every declared input served by a
    producer that was read and is compatible and currently ready, and lies on no cycle.  The published
    inputs are exactly the product's declared inputs, all ready. *)
Theorem composition_ready_sound client flag ctx p w err p' w' c :
  reader_keyed client →
  observeComposition client flag ctx p w = ((err, p'), w') →
  FindStatusCondition (Conditions (Status p')) ConditionCompositionReady = Some c →
  cond_Status c = ConditionTrue →
  err = None ∧ cond_ObservedGeneration c = Generation (Meta p) ∧
  ∃ ctx' w1 g w2 log,
    observation_run client flag ctx p w ctx' w1 no_observation g w2 ∧
    observed client ctx' (set_Status_Inputs [] p) w1 log g w2 ∧
    (∀ k, rtc (depends g) (ObjectKeyFromObject p) k →
       key_Namespace k = Namespace (Meta p) ∧ ¬ tc (depends g) k k ∧
       ∃ q, known (set_Status_Inputs [] p) log k q ∧ ObjectKeyFromObject q = k ∧
         ∀ input, input ∈ Inputs (Spec q) → ∃ r,
           known (set_Status_Inputs [] p) log (ref_key (resolvedReference q (Input_ProductRef input))) r ∧
           inputCompatibility input r = "" ∧ producerReady r = true) ∧
    Status_Inputs (Status p') ≡ₚ map (input_status g p) (Inputs (Spec p)) ∧
    ∀ s, s ∈ Status_Inputs (Status p') → IS_Ready s = true.
Proof.
  intros Hr Hobs Hc Hst.
  destruct (composition_published _ _ _ _ _ _ _ _ _ Hr Hobs Hc Hst)
    as (ctx' & w1 & g & w2 & Hrun & Hnr & -> & Hgen & Hl & Hready).
  pose proof Hrun as (w0 & _ & _ & Hwalk).
  destruct (walk_root_accepted _ _ _ _ _ _ _ Hr Hwalk eq_refl) as (Hw & Hp & Hk & _).
  destruct (walk_root_reads _ _ _ _ _ _ _ Hwalk) as (log & Hlog).
  change (ObjectKeyFromObject (set_Status_Inputs [] p)) with (ObjectKeyFromObject p) in *.
  split; [done|]. split; [done|]. exists ctx', w1, g, w2, log.
  split_and!; auto; [|by rewrite Hl, sort_slice_perm]. destruct Hlog as (_ & _ & Hknown).
  intros k Hrtc. pose proof (certified_rtc g _ k (wf_visited g Hw) Hk Hrtc) as Hkv.
  split_and!.
  - by rewrite (certified_rtc_namespace g _ k Hw Hk Hrtc).
  - intros Ht. destruct (certified_tc g k k (wf_visited g Hw) Hkv Ht). lia.
  - destruct (wf_visited g Hw k Hkv) as (q & Hq & Hin). exists q.
    split_and!; [by apply Hknown|by eapply wf_keyed|]. intros i Hi.
    destruct (Hin i Hi) as (_ & _ & (r & H1 & H2 & H3) & _). exists r. rewrite <- Hknown. auto.
Qed.

(** C2: an accepted walk is within the limits.  When the walk of a product ends with no reason, every
    product it visited has all its inputs verified, every dependency path from the product is shorter
    than 64 products, at most 256 products were read and the inputs of all visited products together
    are at most 1024. *)
Theorem accepted_graph_bounded reader ctx product w o g w' :
  reader_keyed reader → walk_root reader ctx product w = ((o, g), w') → reason o = "" →
  (∀ k, k ∈ visited g → certified g k) ∧
  (∀ n k, nsteps (depends g) n (ObjectKeyFromObject product) k →
     k ∈ visited g ∧ (Z.of_nat n < maxCompositionDepth)%Z) ∧
  (Z.of_nat (size (products g)) ≤ maxCompositionProducts)%Z ∧
  (total (n_inputs g) (visited g) ≤ maxCompositionEdges)%Z.
Proof.
  intros Hr Hwalk Ho.
  destruct (walk_root_accepted _ _ _ _ _ _ _ Hr Hwalk Ho) as (Hw & Hp & Hk & Hh).
  split_and!; [apply (wf_visited g Hw)| |apply (wf_products g Hw)|].
  - intros n k Hn. destruct (certified_nsteps g n _ k (wf_visited g Hw) Hk Hn).
    pose proof (wf_heights_pos g Hw k). split; [done|lia].
  - etrans; [|apply (wf_edges_bound g Hw)]. rewrite (wf_edges g Hw).
    apply total_mono; [|set_solver]. intros j. unfold n_inputs, len. case_match; lia.
Qed.

(** C3: completeness on a stable cluster.  When the stored products reachable from the product form an
    acyclic graph within the limits whose edges stay in the namespace and are compatible, every other
    product of it is ready, the client serves it without errors before the deadline, and the encoded
    lineage fits its budget, [observeComposition] succeeds: no error, condition CompositionReady with
    status True, reason CompositionVerified and the current generation, and the lineage of every
    input. *)
Theorem composition_ready_complete snap rank client flag ctx p w :
  let p0 := set_Status_Inputs [] p in
  let lineage := map (input_status (snapshot_graph snap) p0) (Inputs (Spec p)) in
  snapshot_ok snap rank → (∀ ctx', serves snap client ctx') → reader_keyed client →
  (∀ w, fst (flag_on flag ctx w) = true) →
  Inputs (Spec p) ≠ [] → snap !! ObjectKeyFromObject p = Some p0 →
  (∀ k q, snap !! k = Some q → k ≠ ObjectKeyFromObject p → producerReady q = true) →
  (2 + lineage_size lineage ≤ maxLineageBytes)%Z →
  ∃ p' w' c, observeComposition client flag ctx p w = ((None, p'), w') ∧
    FindStatusCondition (Conditions (Status p')) ConditionCompositionReady = Some c ∧
    cond_Status c = ConditionTrue ∧ cond_Reason c = "CompositionVerified" ∧
    cond_ObservedGeneration c = Generation (Meta p) ∧
    Status_Inputs (Status p') = sort_slice (less_by IS_Name) lineage.
Proof.
  intros p0 lineage Hs Hsv Hr Hflag Hne Hp Hready Hsize.
  unfold observeComposition. fold p0.
  rewrite (proj2 (Z.eqb_neq _ _)).
  2:{ change (Inputs (Spec p0)) with (Inputs (Spec p)). unfold len.
      destruct (Inputs (Spec p)); simpl; [done|lia]. }
  unfold mbind, st_bind. specialize (Hflag w).
  destruct (flag_on flag ctx w) as [b w1]. simpl in Hflag. subst b. simpl.
  destruct (WithTimeout ctx (5 * Second) w1) as [ctx' w2].
  destruct (complete_walk snap rank client ctx' p0 w2 Hs (Hsv ctx') Hr Hp Hready)
    as (g & w3 & -> & Hnr & Hlin & Hlen & Hrdy).
  change (Inputs (Spec p0)) with (Inputs (Spec p)) in Hlin. fold lineage in Hlin.
  rewrite observe_lineage_fits; [|done|].
  2:{ change (Inputs (Spec p0)) with (Inputs (Spec p)). by rewrite Hlin. }
  change (Inputs (Spec p0)) with (Inputs (Spec p)). rewrite Hlin.
  rewrite with_lineage_ready.
  2:{ intros s Hin. apply sort_slice_elem in Hin. rewrite <- Hlin in Hin.
      apply list_elem_of_fmap in Hin as (i & -> & Hi). by apply Hrdy. }
  assert (with_notReady no_observation g = no_observation) as ->.
  { unfold with_notReady. by rewrite Hnr. }
  destruct (setCompositionCondition _ no_observation w3) as [p' w'] eqn:Hset.
  pose proof (setCompositionCondition_inv _ _ _ _ _ Hset) as (now & ->).
  destruct (find_set_eq now (Conditions (Status p)) (composition_condition p0 no_observation))
    as (c & Hc & (_ & H2 & H3 & H4 & _)).
  do 3 eexists. split; [done|]. split; [exact Hc|]. split_and!; done.
Qed.

(** C4: every walk, whatever the cluster answers.  The recursion returns (65 levels of fuel are never
    exhausted), reads at most 256 products, counts at most 1024 inputs, leaves no product on the
    current path, and reports a dependency cycle only when the products it read contain one. *)
Theorem walk_every_outcome reader ctx product w o g w' :
  reader_keyed reader → walk_root reader ctx product w = ((o, g), w') →
  visit walk_fuel reader ctx product 0 (initial_graph product, w) = (Some o, (g, w')) ∧
  (Z.of_nat (size (products g)) ≤ maxCompositionProducts)%Z ∧
  (edges g ≤ maxCompositionEdges)%Z ∧ visiting g = ∅ ∧
  (reason o = "DependencyCycle" → ∃ k, tc (depends g) k k).
Proof.
  intros Hr (r & Hv & ->)%walk_root_visit.
  destruct (visit_outcome walk_fuel reader ctx product 0 (initial_graph product) Hr
    (initial_graph product) w) as ([_ Hs He] & _ & Hvis & Hcyc).
  - split; [done|]. constructor; [|done|apply initial_product|].
    + destruct (initial_wf product) as [K S _ B]. by constructor.
    + intros v Hv'. by apply not_elem_of_empty in Hv'.
  - rewrite Hv in Hs, He, Hvis, Hcyc. split_and!; auto. intros Ho. by apply (Hcyc o).
Qed.

(** C5: namespace isolation.  Two clusters that agree on the products of the product's own namespace
    give the same observation, status, error and world: a product of another namespace can neither
    be read by the walk nor influence it. *)
Theorem composition_namespace_isolated (r1 r2 : Reader DataProduct) flag ctx p w :
  reader_keyed r1 →
  (∀ c k w, key_Namespace k = Namespace (Meta p) → r1 c k w = r2 c k w) →
  observeComposition r1 flag ctx p w = observeComposition r2 flag ctx p w.
Proof.
  intros Hk Hagree. unfold observeComposition.
  destruct (len _ =? 0)%Z; [done|]. unfold mbind, st_bind.
  destruct (flag_on flag ctx w) as [[] w1]; simpl; [|done].
  destruct (WithTimeout ctx (5 * Second) w1) as [ctx' w2].
  set (p0 := set_Status_Inputs [] p).
  assert (walk_root r1 ctx' p0 w2 = walk_root r2 ctx' p0 w2) as ->; [|done].
  unfold walk_root.
  destruct (visit_agree (Namespace (Meta p)) r1 r2 ctx' Hk Hagree walk_fuel p0 0 eq_refl
    (initial_graph p0) w2) as [-> _]; [|done].
  intros k q. apply (wf_keyed _ (initial_wf p0)).
Qed.

(** C6: compatible upgrades are safe.  A stable version that parses is compatible with itself,
    compatibility is transitive, it never crosses a major version and before version one it is
    equality; so replacing a producer by one with the same outputs and a compatible later version
    keeps every satisfied input satisfied. *)
Theorem compatible_upgrade_safe `{!VersionLaws} (a b c : string) (input : InputPort)
    (q q' : DataProduct) :
  (∀ v, MatchString stableContractVersion a = true → ParseSemantic a = Some v →
     compatibleVersion a a = true) ∧
  (compatibleVersion a b = true → compatibleVersion b c = true → compatibleVersion a c = true) ∧
  (compatibleVersion a b = true → ∃ v m, ParseSemantic a = Some v ∧ ParseSemantic b = Some m ∧
     Major v = Major m ∧ AtLeast v m = true ∧ (Major v = 0%Z → a = b)) ∧
  (Outputs (Spec q') = Outputs (Spec q) →
   compatibleVersion (Spec_Version (Spec q')) (Spec_Version (Spec q)) = true →
   inputCompatibility input q = "" → inputCompatibility input q' = "").
Proof.
  assert (Htrans : ∀ x y z, compatibleVersion x y = true → compatibleVersion y z = true →
    compatibleVersion x z = true) by apply compatibleVersion_trans.
  split_and!; [|apply Htrans|apply compatibleVersion_inv|].
  - intros v Hs Hv. unfold compatibleVersion. rewrite Hs, Hv. simpl.
    rewrite bool_decide_true by done. simpl.
    case_bool_decide; [by apply bool_decide_true|apply AtLeast_refl].
  - intros Hout Hv. unfold inputCompatibility, findOutput. rewrite Hout.
    destruct (find_first _ _) as [o|]; [|done]. destruct (Input_Contract input) as [ct|]; [|done].
    destruct (Output_Protocol o != _); [done|]. simpl.
    destruct (compatibleVersion (Spec_Version (Spec q)) _) eqn:Hq; [|done].
    by rewrite (Htrans _ _ _ Hv Hq).
Qed.

(** C7: the published lineage.  After every observation the inputs in the status are sorted by name and
    their JSON is at most 64 KiB long.  They are empty when the product declares no input, when the
    flag is off, or when the walk was made but there are more than 1024 inputs or their statuses
    would not fit; otherwise they are the sorted statuses of exactly the declared inputs.  A status is
    ready exactly when the producer lies in the product's namespace and the walk knew it (it is the
    observed product, or the client returned it during this walk), it offers a compatible output and
    it is ready itself. *)
Theorem lineage_published client flag ctx p w :
  let '((_, p'), _) := observeComposition client flag ctx p w in
  let l := Status_Inputs (Status p') in
  StronglySorted (λ s t, String.leb (IS_Name s) (IS_Name t) = true) l ∧
  (slen (encode (JArray (map InputStatus_json l))) ≤ maxLineageBytes)%Z ∧
  ((l = [] ∧ (Inputs (Spec p) = [] ∨ fst (flag_on flag ctx w) = false)) ∨
   ∃ ctx' w1 o g w2 log,
     observation_run client flag ctx p w ctx' w1 o g w2 ∧
     observed client ctx' (set_Status_Inputs [] p) w1 log g w2 ∧
     (let statuses := map (input_status g p) (Inputs (Spec p)) in
      l = if bool_decide (len (Inputs (Spec p)) ≤ maxCompositionEdges ∧
                          2 + lineage_size statuses ≤ maxLineageBytes)%Z
          then sort_slice (less_by IS_Name) statuses else []) ∧
     ∀ input, input ∈ Inputs (Spec p) →
       (IS_Ready (input_status g p input) = true ↔
        Ref_Namespace (resolvedReference p (Input_ProductRef input)) = Namespace (Meta p) ∧
        ∃ q, known (set_Status_Inputs [] p) log
               (ref_key (resolvedReference p (Input_ProductRef input))) q ∧
          inputCompatibility input q = "" ∧ producerReady q = true)).
Proof.
  destruct (observeComposition client flag ctx p w) as [[err p'] w'] eqn:Hobs.
  assert (Hnil : StronglySorted (λ s t, String.leb (IS_Name s) (IS_Name t) = true) [] ∧
    (slen (encode (JArray (map InputStatus_json []))) ≤ maxLineageBytes)%Z) by (split; [constructor|done]).
  destruct (observeComposition_cases _ _ _ _ _ _ _ _ Hobs)
    as [(Hoff & -> & ->)|[(w1 & o & Hoff & -> & Hne & Ho & Hset)
       |(ctx' & w1 & o & g & w2 & o2 & l & Hne & Hrun & Hl & Herr & Hset)]].
  { simpl. destruct Hnil. split_and!; auto. }
  { apply setCompositionCondition_inv in Hset as (now & ->). simpl. destruct Hnil. split_and!; auto. }
  apply setCompositionCondition_inv in Hset as (now & ->). simpl.
  pose proof Hrun as (w0 & _ & _ & Hwalk).
  destruct (walk_root_reads _ _ _ _ _ _ _ Hwalk) as (log & Hlog).
  destruct (observe_lineage_exact _ _ _ _ _ Hl) as [Heq Hs].
  split_and!.
  - rewrite Heq. case_bool_decide; [apply sort_slice_sorted|constructor].
  - etrans; [apply slen_lineage_json|done].
  - right. exists ctx', w1, o, g, w2, log. split_and!; [done..|]. intros i _.
    pose proof (input_status_ready g p i) as Hi. simpl in Hi. rewrite Hi.
    destruct Hlog as (_ & _ & Hk). by setoid_rewrite Hk.
Qed.

(** Scope of an observation.  It changes neither metadata nor spec, nor the observed generation,
    nor any condition of another type; the condition it leaves carries the current generation, there
    is none for a product without inputs, and an error is returned exactly when the published reason
    is the retryable DependencyUnavailable with status False. *)
Theorem composition_scope client flag ctx p w :
  let '((err, p'), _) := observeComposition client flag ctx p w in
  Meta p' = Meta p ∧ Spec p' = Spec p ∧
  ObservedGeneration (Status p') = ObservedGeneration (Status p) ∧
  (∀ t, t ≠ ConditionCompositionReady →
     FindStatusCondition (Conditions (Status p')) t = FindStatusCondition (Conditions (Status p)) t) ∧
  (∀ c, FindStatusCondition (Conditions (Status p')) ConditionCompositionReady = Some c →
     cond_ObservedGeneration c = Generation (Meta p)) ∧
  (Inputs (Spec p) = [] →
     FindStatusCondition (Conditions (Status p')) ConditionCompositionReady = None) ∧
  (is_Some err ↔ ∃ c,
     FindStatusCondition (Conditions (Status p')) ConditionCompositionReady = Some c ∧
     cond_Status c = ConditionFalse ∧ cond_Reason c = "DependencyUnavailable").
Proof.
  destruct (observeComposition client flag ctx p w) as [[err p'] w'] eqn:Hobs.
  destruct (observeComposition_cases _ _ _ _ _ _ _ _ Hobs)
    as [(Hoff & -> & ->)|[(w1 & o & Hoff & -> & Hne & Ho & Hset)
       |(ctx' & w1 & o & g & w2 & o2 & l & Hne & Hrun & Hl & Herr & Hset)]].
  - simpl. rewrite find_remove_eq. split_and!; auto.
    + intros t Ht. by apply find_remove_ne.
    + done.
    + split; [by intros []|by intros (? & ? & _)].
  - destruct (published_condition _ _ _ _ _ Hset) as (HM & HS & HG & Ht & c & Hc & (_ & H2 & H3 & H4 & _)).
    rewrite Hc. split_and!; auto; [by intros ? [= <-]|by intros|].
    split; [by intros []|]. intros (d & [= <-] & _ & Hd). rewrite H4 in Hd. simpl in Hd.
    rewrite Ho in Hd. by rewrite bool_decide_false in Hd by done.
  - destruct (published_condition _ _ _ _ _ Hset) as (HM & HS & HG & Ht & c & Hc & (_ & H2 & H3 & H4 & _)).
    rewrite Hc. split_and!; auto; [by intros ? [= <-]|by intros|].
    destruct Hrun as (w0 & _ & _ & Hwalk).
    destruct (final_honest _ _ _ _ _ (walk_root_honest _ _ _ _ _ _ _ Hwalk) Hl) as [Hclean Hiff].
    rewrite Herr, Hiff. simpl in H2, H4. case_bool_decide as Hr.
    + rewrite Hr. split; [done|]. intros (d & [= <-] & _ & Hd). by rewrite H4 in Hd.
    + split; [intros Hd; exists c; by rewrite H2, H4, Hd|].
      intros (d & [= <-] & _ & Hd). by rewrite H4 in Hd.
Qed.
End Properties.

(** ** Witnesses on the sample products *)

#[local] Existing Instances ref_env ref_conditions ref_conditions_laws ref_versions ref_versions_laws
  ref_fmt.

Lemma keyed_at_key m k p : keyed_at m k = inl p → ObjectKeyFromObject p = k.
Proof. unfold keyed_at. destruct (m !! k); [|done]. case_bool_decide; naive_solver. Qed.

Lemma ref_get_keyed : reader_keyed ref_get.
Proof. intros ctx k w p. apply keyed_at_key. Qed.

Lemma ref_fixed_keyed m : reader_keyed (ref_fixed m).
Proof. intros ctx k w p. apply keyed_at_key. Qed.

Definition sample_observed : option RefError * DataProduct * RefWorld :=
  observeComposition ref_get flag_true tt sample_report sample_world.

Lemma composition_ready_sound_witness :
  ∃ c, FindStatusCondition (Conditions (Status (snd (fst sample_observed))))
         ConditionCompositionReady = Some c ∧
    cond_Status c = ConditionTrue ∧ fst (fst sample_observed) = None ∧
    cond_ObservedGeneration c = 3%Z ∧
    ∃ ctx' w1 g w2, observation_run ref_get flag_true tt sample_report sample_world ctx' w1
                      no_observation g w2.
Proof.
  eexists. split; [vm_compute; reflexivity|]. split; [reflexivity|].
  destruct (composition_ready_sound ref_get flag_true tt sample_report sample_world
    (fst (fst sample_observed)) (snd (fst sample_observed)) (snd sample_observed)
    (mkCondition ConditionCompositionReady ConditionTrue 3%Z 100%Z "CompositionVerified"
      "The dependency graph is acyclic and all inputs satisfy their declared contracts.")
    ref_get_keyed) as (H1 & H2 & ctx' & w1 & g & w2 & log & H3 & _).
  - vm_compute. reflexivity.
  - vm_compute. reflexivity.
  - reflexivity.
  - split; [exact H1|]. split; [exact H2|]. exists ctx', w1, g, w2. exact H3.
Defined.

Definition sample_walk : compositionObservation * compositionGraph * RefWorld :=
  walk_root ref_get tt sample_report sample_world.

Lemma accepted_graph_bounded_witness :
  reason (fst (fst sample_walk)) = "" ∧
  (total (n_inputs (snd (fst sample_walk))) (visited (snd (fst sample_walk))) ≤ 1024)%Z.
Proof.
  split; [vm_compute; reflexivity|].
  apply (accepted_graph_bounded ref_get tt sample_report sample_world (fst (fst sample_walk))
    (snd (fst sample_walk)) (snd sample_walk) ref_get_keyed).
  - vm_compute. reflexivity.
  - vm_compute. reflexivity.
Defined.

Definition sample_rank (k : ObjectKey) : nat :=
  if key_Name k == "report" then 2 else if key_Name k == "orders" then 1 else 0.

Lemma sample_products_elim (P : ObjectKey → DataProduct → Prop) :
  P (mkKey "shop" "users") sample_users → P (mkKey "shop" "orders") sample_orders →
  P (mkKey "shop" "report") sample_report → ∀ k p, sample_products !! k = Some p → P k p.
Proof.
  intros H1 H2 H3 k p. unfold sample_products.
  intros [[<- <-]|[_ [[<- <-]|[_ [<- <-]%lookup_singleton_Some]]%lookup_insert_Some]]%lookup_insert_Some;
    done.
Qed.

Lemma sample_snapshot_ok : snapshot_ok sample_products sample_rank.
Proof.
  constructor.
  - by apply (sample_products_elim (λ k p, ObjectKeyFromObject p = k)).
  - vm_compute. by intros.
  - vm_compute. by intros.
  - intros k p input Hk. revert k p Hk input.
    apply (sample_products_elim (λ k p, ∀ input, input ∈ Inputs (Spec p) →
      snapshot_edge sample_products sample_rank p input)).
    + by intros input ?%elem_of_nil.
    + intros input ->%list_elem_of_singleton. split_and!; [done|vm_compute; lia|].
      exists sample_users. by vm_compute.
    + intros input [-> | ->%list_elem_of_singleton]%elem_of_cons; (split_and!; [done|vm_compute; lia|]);
        [exists sample_orders|exists sample_users]; by vm_compute.
  - intros k [p Hk]. revert k p Hk.
    by apply (sample_products_elim (λ k _, (Z.of_nat (sample_rank k) < maxCompositionDepth)%Z)).
Qed.

Lemma composition_ready_complete_witness :
  ∃ p' w' c, observeComposition (ref_fixed sample_products) flag_true tt sample_report sample_world
             = ((None, p'), w') ∧
    FindStatusCondition (Conditions (Status p')) ConditionCompositionReady = Some c ∧
    cond_Status c = ConditionTrue.
Proof.
  destruct (composition_ready_complete sample_products sample_rank (ref_fixed sample_products)
    flag_true tt sample_report sample_world) as (p' & w' & c & H1 & H2 & H3 & _).
  - apply sample_snapshot_ok.
  - intros ctx. split; [reflexivity|]. intros k p w Hk. revert k p Hk.
    apply (sample_products_elim (λ k p, keyed_at sample_products k = inl p)); vm_compute; reflexivity.
  - apply ref_fixed_keyed.
  - reflexivity.
  - discriminate.
  - vm_compute. reflexivity.
  - apply (sample_products_elim (λ k q, k ≠ mkKey "shop" "report" → producerReady q = true));
      vm_compute; congruence.
  - vm_compute. discriminate.
  - exists p', w', c. split; [exact H1|]. split; [exact H2|exact H3].
Defined.

(** Two products that consume each other. *)
Definition cycle_product (name producer : string) : DataProduct :=
  sample "shop" name [sample_input "i" producer "v1.0.0"] [sample_output] [sample_ready].
Definition cycle_walk : compositionObservation * compositionGraph * RefWorld :=
  walk_root (ref_fixed {[mkKey "shop" "b" := cycle_product "b" "a"]}) tt (cycle_product "a" "b")
    sample_world.

Lemma walk_every_outcome_witness :
  reason (fst (fst cycle_walk)) = "DependencyCycle" ∧
  ∃ k, tc (depends (snd (fst cycle_walk))) k k.
Proof.
  split; [vm_compute; reflexivity|].
  apply (walk_every_outcome (ref_fixed {[mkKey "shop" "b" := cycle_product "b" "a"]}) tt
    (cycle_product "a" "b") sample_world (fst (fst cycle_walk)) (snd (fst cycle_walk))
    (snd cycle_walk) (ref_fixed_keyed _)); vm_compute; reflexivity.
Defined.

(** The cluster without the products of other namespaces. *)
Definition only_shop : Reader DataProduct := λ c k w,
  if key_Namespace k == "shop" then ref_get c k w else (inr RNotFound, w).

Lemma composition_namespace_isolated_witness :
  observeComposition ref_get flag_true tt sample_report sample_world =
  observeComposition only_shop flag_true tt sample_report sample_world.
Proof.
  apply (composition_namespace_isolated ref_get only_shop flag_true tt sample_report sample_world
    ref_get_keyed).
  intros c k w Hk. unfold only_shop. rewrite bool_decide_true; [reflexivity|exact Hk].
Defined.

Lemma compatible_upgrade_safe_witness :
  compatibleVersion "v1.3.0" "v1.2.0" = true ∧ compatibleVersion "v1.2.0" "v1.1.9" = true ∧
  compatibleVersion "v1.3.0" "v1.1.9" = true.
Proof.
  split; [vm_compute; reflexivity|]. split; [vm_compute; reflexivity|].
  destruct (compatible_upgrade_safe "v1.3.0" "v1.2.0" "v1.1.9" (sample_input "u" "users" "v1.0.0")
    sample_users sample_users) as (_ & H & _).
  apply H; vm_compute; reflexivity.
Defined.

Lemma composition_scope_witness :
  FindStatusCondition (Conditions (Status (snd (fst
    (observeComposition ref_get flag_true tt sample_users sample_world))))) ConditionReady =
  Some sample_ready.
Proof.
  pose proof (composition_scope ref_get flag_true tt sample_users sample_world) as H.
  destruct (observeComposition ref_get flag_true tt sample_users sample_world) as [[err p'] w'].
  destruct H as (_ & _ & _ & H & _).
  etransitivity; [apply (H ConditionReady); discriminate|vm_compute; reflexivity].
Defined.
