(* ===== verification/Connector.v ===== *)
(** * Connector: read-only observation of workload readiness

    [internal/connector/v1/observer.go]: the observer of an independently operated Deployment and the
    contract probe that binds one to a published contract URL.  The Deployment is the part of
    [apps/v1] the observer reads; int32 fields are integers that are only compared. *)

From S2P Require Import Prelude Kube Api GoStrings Reference.

(** ** The fields of [apps/v1] and [core/v1] that are read *)

Record EnvVar := mkEnvVar { Env_Name : string; Env_Value : string; Env_ValueFrom : bool }.
Record ContainerPort := mkPort { Port_Name : string; Port_ContainerPort : Z }.
(** [intstr.IntOrString]. *)
Record IntOrString := mkIntStr { IntVal : Z; StrVal : string }.
Record HTTPGetAction := mkHTTPGet {
  HTTP_Path : string;
  HTTP_Host : string;
  HTTP_Headers : list (string * string);
  HTTP_Scheme : string;
  HTTP_Port : IntOrString
}.
(** [ReadinessProbe] is nil, or a probe whose [HTTPGet] handler may be nil. *)
Record Container := mkContainer {
  Container_Name : string;
  Command : list string;
  Args : list string;
  ReadinessProbe : option (option HTTPGetAction);
  Ports : list ContainerPort;
  Container_Env : list EnvVar
}.
Record Deployment := mkDeployment {
  D_DeletionTimestamp : option Time;
  D_Generation : Z;
  D_Replicas : option Z;
  D_Containers : list Container;
  DS_ObservedGeneration : Z;
  DS_Replicas : Z;
  DS_UpdatedReplicas : Z;
  DS_ReadyReplicas : Z;
  DS_AvailableReplicas : Z;
  DS_UnavailableReplicas : Z
}.

(** ** Observations *)

Record Observation := mkObs { Ready : bool; Reason : string; Message : string }.
#[export] Instance Observation_eq_dec : EqDecision Observation.
Proof. solve_decision. Defined.

Definition unavailable (why text : string) : Observation := mkObs false why text.

(** [matchesContractProbe]: the loop over one container's environment returns on the first entry of
    the two reserved names that is not the expected literal, and counts the entries. *)
Fixpoint probe_env (target : string) (env : list EnvVar) (urlCount flagCount : Z)
  : option (Z * Z) :=
  match env with
  | [] => Some (urlCount, flagCount)
  | e :: env' =>
      if Env_Name e == "CONTRACT_PROBE_URL" then
        if Env_ValueFrom e || (Env_Value e != target) then None
        else probe_env target env' (urlCount + 1)%Z flagCount
      else if Env_Name e == "CONTRACT_READINESS_ENABLED" then
        if Env_ValueFrom e || (Env_Value e != "true") then None
        else probe_env target env' urlCount (flagCount + 1)%Z
      else probe_env target env' urlCount flagCount
  end.

(** The body of the loop for the container that is the probe. *)
Definition probe_container (container : Container) (target : string) : bool :=
  if (len (Command container) != 1%Z) || (nth 0 (Command container) "" != "/contract-probe") ||
     (len (Args container) != 0%Z) || negb (non_nil (ReadinessProbe container))
  then false
  else match ReadinessProbe container with
  | Some (Some probe) =>
      if (HTTP_Path probe != "/readyz") || (HTTP_Host probe != "") ||
         (len (HTTP_Headers probe) != 0%Z) ||
         ((HTTP_Scheme probe != "") && (HTTP_Scheme probe != "HTTP"))
      then false
      else
        let port := (IntVal (HTTP_Port probe) == 8081%Z) && (StrVal (HTTP_Port probe) == "") in
        let port := port || existsb (λ candidate,
          (Port_Name candidate == StrVal (HTTP_Port probe)) &&
          (Port_ContainerPort candidate == 8081%Z) && (Port_Name candidate != ""))
          (Ports container) in
        match probe_env target (Container_Env container) 0 0 with
        | None => false
        | Some (urlCount, flagCount) => port && (urlCount == 1%Z) && (flagCount == 1%Z)
        end
  | _ => false
  end.

Fixpoint matches_containers (containers : list Container) (target : string) : bool :=
  match containers with
  | [] => false
  | container :: containers' =>
      if Container_Name container != "contract-probe" then matches_containers containers' target
      else probe_container container target
  end.
Definition matchesContractProbe (workload : Deployment) (target : string) : bool :=
  matches_containers (D_Containers workload) target.

(** The decision on a Deployment that was read. *)
Definition judge_workload (workload : Deployment) (target : string) : Observation :=
  if non_nil (D_DeletionTimestamp workload) then
    unavailable "ConnectorDeleting"
      "The connector Deployment is being deleted; restore or replace the reference."
  else if (target != "") && negb (matchesContractProbe workload target) then
    unavailable "ContractProbeConfigurationMismatch"
      "Configure the contract-probe container with this output's literal URL, enable it, and use its /readyz HTTP probe on port 8081."
  else
    let desired := default 1%Z (D_Replicas workload) in
    if (desired <=? 0)%Z then
      unavailable "ConnectorScaledToZero" "Scale the connector Deployment to at least one replica."
    else if (D_Generation workload <=? 0)%Z ||
            (DS_ObservedGeneration workload != D_Generation workload) then
      unavailable "ConnectorStatusStale"
        "Wait for the Deployment controller to observe the current workload generation."
    else if (DS_Replicas workload != desired) || (DS_UpdatedReplicas workload != desired) ||
            (DS_ReadyReplicas workload != desired) || (DS_AvailableReplicas workload != desired) ||
            (DS_UnavailableReplicas workload != 0%Z) then
      unavailable "ConnectorNotReady"
        "Wait for all desired connector replicas to be updated, ready, and available; inspect the Deployment and its probes."
    else mkObs true "ConnectorReady"
           "All desired connector replicas are current, ready, and available.".

Definition could_not_observe : Observation :=
  unavailable "ConnectorUnavailable"
    "The Deployment could not be observed; check API availability and controller access.".

Section Observer.
Context `{E : Env} `{N : NameValidation}.

(** The reference is refused before any read. *)
Definition invalid_reference (namespace : string) (connector : Connector) : bool :=
  let ref := Connector_ResourceRef connector in
  (Connector_Adapter connector != "deployment/v1") || (CR_APIVersion ref != "apps/v1") ||
  (CR_Kind ref != "Deployment") || (CR_Namespace ref != "") ||
  (len (IsDNS1123Label namespace) != 0%Z) || (len (IsDNS1123Subdomain (CR_Name ref)) != 0%Z).

(** [Deployment.observe]; a nil reader is [None]. *)
Definition observe (reader : option (Reader Deployment)) (ctx : Ctx) (namespace : string)
    (connector : Connector) (target : string) : ST World Observation :=
  if invalid_reference namespace connector then
    mret (unavailable "ConnectorInvalid"
      "Use deployment/v1 with an apps/v1 Deployment name; omit namespace to select this product's namespace.")
  else match reader with
  | None =>
      mret (unavailable "ConnectorUnavailable"
        "Configure the controller's uncached connector reader.")
  | Some reader =>
      readContext ← WithTimeout ctx (5 * Second);
      r ← reader readContext (mkKey namespace (CR_Name (Connector_ResourceRef connector)));
      match r with
      | inr err =>
          mret (if IsNotFound err then
                  unavailable "ConnectorNotFound"
                    "Create the referenced connector Deployment in this product's namespace."
                else if IsForbidden err || IsUnauthorized err then
                  unavailable "ConnectorAccessDenied"
                    "Grant the controller get access to this named Deployment in the product namespace."
                else could_not_observe)
      | inl workload =>
          e ← Err readContext;
          mret (if non_nil e then could_not_observe else judge_workload workload target)
      end
  end.

Definition Observe (reader : option (Reader Deployment)) (ctx : Ctx) (namespace : string)
    (connector : Connector) : ST World Observation :=
  observe reader ctx namespace connector "".

(** The renaming of an observation to the probe's vocabulary. *)
Definition as_probe (o : Observation) : Observation :=
  mkObs (Ready o) (ReplaceFirst (Reason o) "Connector" "ContractProbe")
    (ReplaceAll (Message o) "connector" "contract probe").

Definition ObserveContract (reader : option (Reader Deployment)) (ctx : Ctx) (namespace : string)
    (ref : ConnectorResourceReference) (target : string) : ST World Observation :=
  if (target == "") || Contains target "$(" || Contains target "$$" then
    mret (unavailable "ContractProbeConfigurationMismatch" "Select an output with a contract URL.")
  else
    observation ← observe reader ctx namespace (mkConnector "deployment/v1" ref) target;
    mret (as_probe observation).
End Observer.

(** ** What readiness means *)

(** All desired replicas of the current generation are updated, ready and available. *)
Record rolled_out (w : Deployment) : Prop := {
  ro_alive : D_DeletionTimestamp w = None;
  ro_current : (0 < D_Generation w)%Z ∧ DS_ObservedGeneration w = D_Generation w;
  ro_replicas : let n := default 1%Z (D_Replicas w) in
    (0 < n)%Z ∧ DS_Replicas w = n ∧ DS_UpdatedReplicas w = n ∧ DS_ReadyReplicas w = n ∧
    DS_AvailableReplicas w = n;
  ro_unavailable : DS_UnavailableReplicas w = 0%Z
}.

(** The literal entries of one name. *)
Definition env_of (name : string) (c : Container) : list EnvVar :=
  List.filter (λ e, Env_Name e == name) (Container_Env c).

(** The probe reads its target and its flag from exactly one literal entry each, and its readiness is
    the process's own HTTP endpoint on port 8081. *)
Record probe_bound (target : string) (c : Container) : Prop := {
  pb_command : Command c = ["/contract-probe"] ∧ Args c = [];
  pb_probe : ∃ probe, ReadinessProbe c = Some (Some probe) ∧
    HTTP_Path probe = "/readyz" ∧ HTTP_Host probe = "" ∧ HTTP_Headers probe = [] ∧
    (HTTP_Scheme probe = "" ∨ HTTP_Scheme probe = "HTTP") ∧
    ((IntVal (HTTP_Port probe) = 8081%Z ∧ StrVal (HTTP_Port probe) = "") ∨
     ∃ p, p ∈ Ports c ∧ Port_Name p = StrVal (HTTP_Port probe) ∧ Port_Name p ≠ "" ∧
          Port_ContainerPort p = 8081%Z);
  pb_url : env_of "CONTRACT_PROBE_URL" c = [mkEnvVar "CONTRACT_PROBE_URL" target false];
  pb_flag : env_of "CONTRACT_READINESS_ENABLED" c =
    [mkEnvVar "CONTRACT_READINESS_ENABLED" "true" false]
}.

(** An entry of the given name holds the given literal. *)
Definition literal (name value : string) (e : EnvVar) : Prop :=
  Env_Name e = name → Env_ValueFrom e = false ∧ Env_Value e = value.

Lemma literal_other name value e : Env_Name e ≠ name → literal name value e.
Proof. by intros H ?. Qed.

Lemma literal_spec name value e :
  Env_Name e = name → literal name value e ↔ Env_ValueFrom e || (Env_Value e != value) = false.
Proof. intros H. unfold literal. go_bool. naive_solver. Qed.

(** The loop succeeds when all reserved entries are literal, and counts them. *)
Lemma probe_env_spec target env u f u' f' :
  probe_env target env u f = Some (u', f') ↔
  (Forall (literal "CONTRACT_PROBE_URL" target) env ∧
   Forall (literal "CONTRACT_READINESS_ENABLED" "true") env) ∧
  u' = (u + len (List.filter (λ e, Env_Name e == "CONTRACT_PROBE_URL") env))%Z ∧
  f' = (f + len (List.filter (λ e, Env_Name e == "CONTRACT_READINESS_ENABLED") env))%Z.
Proof.
  revert u f. induction env as [|e env IH]; intros u f; simpl.
  - unfold len. simpl. split.
    + intros [= <- <-]. split_and!; constructor || lia.
    + intros (_ & -> & ->). f_equal. f_equal; lia.
  - rewrite !Forall_cons_iff. case_bool_decide as H1.
    + rewrite (bool_decide_false (Env_Name e = "CONTRACT_READINESS_ENABLED")) by (by rewrite H1).
      pose proof (literal_other "CONTRACT_READINESS_ENABLED" "true" e ltac:(by rewrite H1)) as Ho.
      pose proof (literal_spec _ target e H1) as Hl.
      destruct (_ || _); [split; [done|]; intros (((Hl1 & _) & _) & _); by apply Hl in Hl1|].
      rewrite IH. unfold len. simpl. intuition lia.
    + pose proof (literal_other "CONTRACT_PROBE_URL" target e H1) as Ho. case_bool_decide as H2.
      * pose proof (literal_spec _ "true" e H2) as Hl.
        destruct (_ || _); [split; [done|]; intros ((_ & (Hl1 & _)) & _); by apply Hl in Hl1|].
        rewrite IH. unfold len. simpl. intuition lia.
      * pose proof (literal_other "CONTRACT_READINESS_ENABLED" "true" e H2) as Ho'. rewrite IH.
        intuition lia.
Qed.

(** One literal entry of a name, among entries that are all literal. *)
Lemma one_literal name value env :
  Forall (literal name value) env ∧ len (List.filter (λ e, Env_Name e == name) env) = 1%Z ↔
  List.filter (λ e, Env_Name e == name) env = [mkEnvVar name value false].
Proof.
  split.
  - intros [Hl Hn]. unfold len in Hn.
    destruct (List.filter _ env) as [|e [|]] eqn:Hf; simpl in Hn; try lia.
    assert (In e (List.filter (λ e, Env_Name e == name) env)) as Hin by (rewrite Hf; by left).
    apply filter_In in Hin as [Hin Hname]. go_bool.
    rewrite List.Forall_forall in Hl. destruct (Hl e Hin Hname) as [E1 E2].
    destruct e. simpl in *. by subst.
  - intros Hf. split; [|by rewrite Hf]. apply List.Forall_forall. intros e Hin Hname.
    assert (In e (List.filter (λ e, Env_Name e == name) env)) as Hin'.
    { apply filter_In. split; [done|]. by apply bool_decide_true. }
    rewrite Hf in Hin'. destruct Hin' as [<-|[]]. done.
Qed.

Lemma len_zero {A} (l : list A) : len l = 0%Z ↔ l = [].
Proof. unfold len. destruct l; simpl; split; try done; lia. Qed.

Lemma probe_container_spec c target : probe_container c target = true ↔ probe_bound target c.
Proof.
  unfold probe_container. destruct (_ || _) eqn:Hg.
  { split; [done|]. intros [[Hc Ha] (probe & Hp & _) _ _]. by rewrite Hc, Ha, Hp in Hg. }
  go_bool. destruct Hg as (((Hlen & Hcmd) & Hargs) & Hrp). apply len_zero in Hargs.
  assert (Command c = ["/contract-probe"]) as Hc.
  { unfold len in Hlen. destruct (Command c) as [|x [|]]; simpl in *; try lia. by subst. }
  destruct (ReadinessProbe c) as [[probe|]|] eqn:Hp.
  2,3: split; [done|]; intros [_ (probe & Hp' & _) _ _]; congruence.
  destruct (_ || _) eqn:Hh.
  { split; [done|]. intros [_ (probe' & Hp' & H1 & H2 & H3 & H4 & _) _ _]. exfalso.
    assert (probe' = probe) as -> by congruence. rewrite H1, H2, H3 in Hh.
    by destruct H4 as [H4|H4]; rewrite H4 in Hh. }
  go_bool. destruct Hh as (((H1 & H2) & H3) & H4). apply len_zero in H3.
  destruct (probe_env target (Container_Env c) 0 0) as [[u f]|] eqn:He.
  - apply probe_env_spec in He as ((Hu & Hf) & -> & ->). go_bool. rewrite existsb_exists_elem.
    setoid_rewrite andb_true_iff. setoid_rewrite andb_true_iff.
    setoid_rewrite negb_true_iff. setoid_rewrite bool_decide_eq_true.
    setoid_rewrite bool_decide_eq_false.
    split.
    + intros [[Hport Hu1] Hf1]. constructor; [done| |by apply one_literal|by apply one_literal].
      exists probe. split_and!; auto. destruct Hport as [Hport|(p & Hin & [Hn Hp8] & Hne)]; eauto 10.
    + intros [_ (probe' & Hp' & _ & _ & _ & _ & Hport) Hurl Hflag].
      assert (probe' = probe) as -> by congruence.
      apply one_literal in Hurl as [_ Hurl]. apply one_literal in Hflag as [_ Hflag].
      split_and!; [|lia|lia]. destruct Hport as [Hport|(p & Hin & Hn & Hne & Hp8)]; eauto 10.
  - split; [done|]. intros [_ _ Hurl Hflag].
    apply one_literal in Hurl as [Hu _]. apply one_literal in Hflag as [Hf _].
    assert (∃ u f, probe_env target (Container_Env c) 0 0 = Some (u, f)) as (u & f & He'); [|congruence].
    do 2 eexists. by apply probe_env_spec.
Qed.

(** The first container named contract-probe decides. *)
Definition probes (workload : Deployment) (target : string) : Prop :=
  ∃ before c after, D_Containers workload = before ++ c :: after ∧
    Container_Name c = "contract-probe" ∧
    Forall (λ d, Container_Name d ≠ "contract-probe") before ∧ probe_bound target c.

Lemma matchesContractProbe_spec workload target :
  matchesContractProbe workload target = true ↔ probes workload target.
Proof.
  unfold matchesContractProbe, probes. induction (D_Containers workload) as [|c l IH]; simpl.
  - split; [done|]. by intros ([|] & ? & ? & ? & _).
  - case_bool_decide as Hn; simpl.
    + rewrite probe_container_spec. split.
      * intros Hb. exists [], c, l. split_and!; auto.
      * intros (before & d & after & Heq & Hd & Hall & Hb).
        destruct before as [|x before]; simplify_eq/=; [done|]. by inversion Hall.
    + rewrite IH. split.
      * intros (before & d & after & -> & Hd & Hall & Hb). exists (c :: before), d, after.
        split_and!; auto.
      * intros (before & d & after & Heq & Hd & Hall & Hb).
        destruct before as [|x before]; simplify_eq/=. inversion Hall; subst.
        exists before, d, after. by split_and!.
Qed.

Lemma judge_workload_spec workload target :
  Ready (judge_workload workload target) = true ↔
  rolled_out workload ∧ (target = "" ∨ probes workload target).
Proof.
  unfold judge_workload. rewrite <- matchesContractProbe_spec.
  repeat (split_guard; simpl; go_bool).
  all: try (split; [done|]; intros [[R1 [R2 R2'] (R3 & R4 & R5 & R6 & R7) R8] R9]; exfalso;
    repeat match goal with H : _ ∨ _ |- _ => destruct H | H : _ ∧ _ |- _ => destruct H
      | H : is_Some _ |- _ => destruct H end; (congruence || lia)).
  split; [|done]. intros _. destruct_and!.
  split; [|naive_solver]. by constructor.
Qed.

(** The reasons of the observer, each with its readiness. *)
Definition connector_reasons : list (bool * string) :=
  [(true, "ConnectorReady"); (false, "ConnectorInvalid"); (false, "ConnectorUnavailable");
   (false, "ConnectorNotFound"); (false, "ConnectorAccessDenied"); (false, "ConnectorDeleting");
   (false, "ContractProbeConfigurationMismatch"); (false, "ConnectorScaledToZero");
   (false, "ConnectorStatusStale"); (false, "ConnectorNotReady")].

Lemma judge_workload_reason workload target :
  (Ready (judge_workload workload target), Reason (judge_workload workload target))
    ∈ connector_reasons.
Proof. unfold judge_workload. repeat split_guard; simpl; apply list_elem_of_In; simpl; tauto. Qed.

Section Lemmas.
Context `{E : Env} `{N : NameValidation}.

Lemma observe_reason reader ctx namespace connector target w :
  let o := fst (observe reader ctx namespace connector target w) in
  (Ready o, Reason o) ∈ connector_reasons.
Proof.
  unfold observe, mbind, st_bind.
  destruct (invalid_reference _ _); [apply list_elem_of_In; simpl; tauto|].
  destruct reader as [get|]; [|apply list_elem_of_In; simpl; tauto].
  destruct (WithTimeout _ _ w) as [ctx' w1]. destruct (get _ _ w1) as [[workload|err] w2]; simpl.
  - destruct (Err ctx' w2) as [[e|] w3]; simpl; [apply list_elem_of_In; simpl; tauto|].
    apply judge_workload_reason.
  - repeat split_guard; apply list_elem_of_In; simpl; tauto.
Qed.

(** A ready observation is the verdict on the Deployment that was read. *)
Lemma observe_ready reader ctx namespace connector target w :
  Ready (fst (observe reader ctx namespace connector target w)) = true →
  invalid_reference namespace connector = false ∧
  ∃ get ctx' w1 workload w2,
    reader = Some get ∧ WithTimeout ctx (5 * Second) w = (ctx', w1) ∧
    get ctx' (mkKey namespace (CR_Name (Connector_ResourceRef connector))) w1 = (inl workload, w2) ∧
    fst (Err ctx' w2) = None ∧ rolled_out workload ∧ (target = "" ∨ probes workload target).
Proof.
  unfold observe. destruct (invalid_reference namespace connector); [done|].
  destruct reader as [get|]; [|done].
  unfold mbind, st_bind. destruct (WithTimeout ctx (5 * Second) w) as [ctx' w1] eqn:Hc.
  destruct (get ctx' _ w1) as [[workload|err] w2] eqn:Hg; [|by repeat split_guard].
  destruct (Err ctx' w2) as [[e|] w3] eqn:He; simpl; [done|]. intros Hr%judge_workload_spec.
  split; [done|]. exists get, ctx', w1, workload, w2. by rewrite He.
Qed.
End Lemmas.

(** ** Properties *)

Section Properties.
Context `{E : Env} `{N : NameValidation}.

(** C9: a connector is reported ready exactly when its reference names an apps/v1 Deployment of the
    product's own namespace through deployment/v1, a reader is configured, the one read under the
    five-second deadline returned the Deployment in time, every desired replica of its current
    generation is updated, ready and available, and, for a contract probe, its first contract-probe
    container is bound to the target URL by one literal entry each for URL and flag. *)
Theorem connector_ready_iff reader ctx namespace connector target w :
  Ready (fst (observe reader ctx namespace connector target w)) = true ↔
  invalid_reference namespace connector = false ∧
  ∃ get ctx' w1 workload w2,
    reader = Some get ∧ WithTimeout ctx (5 * Second) w = (ctx', w1) ∧
    get ctx' (mkKey namespace (CR_Name (Connector_ResourceRef connector))) w1 = (inl workload, w2) ∧
    fst (Err ctx' w2) = None ∧ rolled_out workload ∧ (target = "" ∨ probes workload target).
Proof.
  split; [apply observe_ready|].
  intros (Hv & get & ctx' & w1 & workload & w2 & -> & Hc & Hg & He & Hr).
  unfold observe. rewrite Hv. unfold mbind, st_bind. rewrite Hc, Hg.
  destruct (Err ctx' w2) as [e w3]. simpl in He. subst e. simpl. by apply judge_workload_spec.
Qed.

(** A contract probe never reports readiness for another target, and speaks only its own
    vocabulary.  An empty target or one with a substitution is refused without any read; a ready
    observation means that some container is bound to exactly this literal target; every reason is a
    ContractProbe reason, and only a ready observation carries the ready one. *)
Theorem contract_probe_sound reader ctx namespace ref target w :
  let '(o, w') := ObserveContract reader ctx namespace ref target w in
  ((target = "" ∨ (∃ l r, target = l +:+ "$(" +:+ r) ∨ (∃ l r, target = l +:+ "$$" +:+ r)) →
     Ready o = false ∧ w' = w) ∧
  (Ready o = true → ∃ workload, rolled_out workload ∧ probes workload target) ∧
  HasPrefix (Reason o) "ContractProbe" = true ∧
  (Ready o = true ↔ Reason o = "ContractProbeReady").
Proof.
  unfold ObserveContract. destruct (_ || _) eqn:Ht; simpl.
  { split_and!; done. }
  go_bool. destruct Ht as [[Ht1 Ht2] Ht3].
  unfold mbind, st_bind. set (connector := mkConnector "deployment/v1" ref).
  pose proof (observe_ready reader ctx namespace connector target w) as Hr.
  pose proof (observe_reason reader ctx namespace connector target w) as Hs.
  destruct (observe reader ctx namespace connector target w) as [o w']. simpl in *. split_and!.
  - intros [Ht|[Ht|Ht]]; apply Contains_spec in Ht || idtac; congruence.
  - intros Ho. destruct (Hr Ho) as (_ & ? & ? & ? & workload & ? & _ & _ & _ & _ & Hro & Hp).
    exists workload. split; [done|]. by destruct Hp.
  - unfold connector_reasons in Hs. apply list_elem_of_In in Hs. simpl in Hs.
    repeat destruct Hs as [Hs|Hs]; injection Hs as _ <- || destruct Hs; reflexivity.
  - unfold connector_reasons in Hs. apply list_elem_of_In in Hs. simpl in Hs.
    repeat destruct Hs as [Hs|Hs]; (injection Hs as <- <- || destruct Hs); vm_compute; split; done.
Qed.
End Properties.

(** ** Witnesses *)

#[local] Existing Instances ref_env ref_names.

Definition sample_probe : Container :=
  mkContainer "contract-probe" ["/contract-probe"] []
    (Some (Some (mkHTTPGet "/readyz" "" [] "HTTP" (mkIntStr 0%Z "probe"))))
    [mkPort "probe" 8081%Z]
    [mkEnvVar "CONTRACT_PROBE_URL" "https://api.example/openapi.json" false;
     mkEnvVar "CONTRACT_READINESS_ENABLED" "true" false].
Definition sample_deployment : Deployment :=
  mkDeployment None 4%Z (Some 2%Z) [sample_probe] 4%Z 2%Z 2%Z 2%Z 2%Z 0%Z.
Definition sample_deployments : option (Reader Deployment) :=
  Some (λ _ k w, (if key_Name k == "probe" then inl sample_deployment else inr RNotFound, w)).
Definition sample_connector_ref : ConnectorResourceReference :=
  mkConnectorRef "apps/v1" "Deployment" "probe" "".

Lemma sample_rolled_out : rolled_out sample_deployment.
Proof. constructor; [reflexivity|split; [reflexivity|reflexivity]| |reflexivity]. by split_and!. Qed.

Lemma connector_ready_iff_witness :
  Ready (fst (observe sample_deployments tt "shop"
    (mkConnector "deployment/v1" sample_connector_ref) "" sample_world)) = true.
Proof.
  apply connector_ready_iff. split; [vm_compute; reflexivity|].
  do 2 eexists. exists sample_world, sample_deployment, sample_world.
  split_and!; try reflexivity. { apply sample_rolled_out. } by left.
Defined.

Lemma contract_probe_sound_witness :
  ∃ workload, rolled_out workload ∧ probes workload "https://api.example/openapi.json".
Proof.
  pose proof (contract_probe_sound sample_deployments tt "shop" sample_connector_ref
    "https://api.example/openapi.json" sample_world) as H.
  destruct (ObserveContract _ _ _ _ _ _) as [o w'] eqn:Ho. destruct H as (_ & H & _). apply H.
  vm_compute in Ho. by injection Ho as <- _.
Defined.
