(* ===== verification/Provisioner.v ===== *)
(** * Provisioner: observation of a Crossplane-managed source

    [internal/provisioner/v1/observer.go].  The uncached reader serves custom resources as
    unstructured objects and Secrets as metadata only; the REST mapper may perform discovery, so both
    thread the world. *)

From S2P Require Import Prelude Kube Api Reference.

(** [provisionerv1.Observation]. *)
Record SourceObservation := mkSourceObs { S_Ready : bool; S_Reason : string; S_Message : string }.
#[export] Instance SourceObservation_eq_dec : EqDecision SourceObservation.
Proof. solve_decision. Defined.

Definition source_unavailable (why text : string) : SourceObservation := mkSourceObs false why text.

(** The scope name of a namespaced mapping. *)
Definition RESTScopeNameNamespace : string := "namespace".

Section Provisioner.
Context `{E : Env} `{U : UnstructuredApi}.

(** [client.Reader] as the providers use it. *)
Record SourceReader := mkSourceReader {
  get_resource : Ctx → GroupVersion → string → ObjectKey → ST World (Unstructured + error);
  get_secret : Ctx → ObjectKey → ST World (SecretMetadata + error)
}.

(** [meta.RESTMapper.RESTMapping]: the scope name of the mapping, or an error. *)
Definition RESTMapper : Type := GroupVersion → string → ST World (string + error).

Definition readFailure (err : error) : SourceObservation :=
  if IsForbidden err || IsUnauthorized err then
    source_unavailable "SourceAccessDenied"
      "Grant the controller get access to the referenced resource and connection Secret in this namespace."
  else
    source_unavailable "SourceUnavailable"
      "The source could not be observed; check API availability and controller access.".

(** An explicit generation must be current; an error is never current. *)
Definition generation_current (r : Nested Z) (generation : Z) : bool :=
  match r with
  | None => false
  | Some (g, found) => negb (found && (g != generation))
  end.

(** The loop over [status.conditions]; [seen] holds the condition types already accepted. *)
Fixpoint crossplane_conditions (generation : Z) (conditions : list any) (seen : gset string) : bool :=
  match conditions with
  | [] => bool_decide ("Ready" ∈ seen) && bool_decide ("Synced" ∈ seen)
  | item :: conditions' =>
      match item with
      | AMap condition =>
          match NestedString condition ["type"] with
          | None => false
          | Some (name, _) =>
              if (name != "Ready") && (name != "Synced")
              then crossplane_conditions generation conditions' seen
              else if bool_decide (name ∈ seen) then false
              else match NestedString condition ["status"] with
              | None => false
              | Some (status, _) =>
                  if status != "True" then false
                  else if negb (generation_current
                                  (NestedInt64 condition ["observedGeneration"]) generation)
                  then false
                  else crossplane_conditions generation conditions' ({[name]} ∪ seen)
              end
          end
      | _ => false
      end
  end.

Definition crossplaneReady (resource : Unstructured) : bool :=
  if negb (generation_current (NestedInt64 (Object resource) ["status"; "observedGeneration"])
             (GetGeneration resource))
  then false
  else match NestedSlice (Object resource) ["status"; "conditions"] with
  | Some (conditions, true) => crossplane_conditions (GetGeneration resource) conditions ∅
  | _ => false
  end.

(** The owner loop: some owner reference names the current resource. *)
Definition owned_by (version : GroupVersion) (resource : Unstructured) (owner : OwnerReference)
  : bool :=
  match ParseGroupVersion (owner_APIVersion owner) with
  | None => false
  | Some ownerVersion =>
      (gv_Version ownerVersion != "") && (gv_Group ownerVersion == gv_Group version) &&
      (GetUID resource != "") && (owner_UID owner == GetUID resource) &&
      (owner_Name owner == GetName resource) && (owner_Kind owner == GetKind resource)
  end.

(** The connection reference of the resource matches the declared one. *)
Definition connection_mismatch (resource : Unstructured) (namespace : string)
    (source : ProvisionedSource) : bool :=
  match NestedString (Object resource) ["spec"; "writeConnectionSecretToRef"; "name"],
        NestedString (Object resource) ["spec"; "writeConnectionSecretToRef"; "namespace"] with
  | Some (connectionName, _), Some (connectionNamespace, _) =>
      (connectionName != CS_Name (Source_ConnectionSecretRef source)) ||
      ((connectionNamespace != "") && (connectionNamespace != namespace))
  | _, _ => true
  end.

(** The guard that precedes every read. *)
Definition crossplane_invalid (namespace : string) (source : ProvisionedSource)
    (version : option GroupVersion) : bool :=
  match version with
  | None => true
  | Some version =>
      (gv_Group version == "") || (Source_Adapter source != "crossplane/v1") || (namespace == "") ||
      (RR_Kind (Source_ResourceRef source) == "") || (RR_Name (Source_ResourceRef source) == "") ||
      (CS_Name (Source_ConnectionSecretRef source) == "")
  end.

(** [Crossplane.Observe]; a nil reader or mapper is [None]. *)
Definition crossplane_Observe (reader : option SourceReader) (mapper : option RESTMapper)
    (ctx : Ctx) (namespace : string) (source : ProvisionedSource) : ST World SourceObservation :=
  let ref := Source_ResourceRef source in
  let secretName := CS_Name (Source_ConnectionSecretRef source) in
  let version := ParseGroupVersion (RR_APIVersion ref) in
  match version, crossplane_invalid namespace source version with
  | None, _ | _, true =>
    mret (source_unavailable "SourceInvalid"
      "Use the crossplane/v1 adapter with a namespaced custom-resource reference and connection Secret.")
  | Some version, false => match reader, mapper with
  | Some reader, Some mapper =>
      mapping ← mapper version (RR_Kind ref);
      match mapping with
      | inr _ =>
          mret (source_unavailable "SourceAPIUnavailable"
            "Install the referenced provisioner's API and allow discovery before retrying.")
      | inl scope =>
          if scope != RESTScopeNameNamespace then
            mret (source_unavailable "SourceScopeUnsupported"
              "The referenced provisioner resource must be namespaced.")
          else
            r ← get_resource reader ctx version (RR_Kind ref) (mkKey namespace (RR_Name ref));
            match r with
            | inr err =>
                mret (if IsNotFound err then
                        source_unavailable "SourceNotFound"
                          "Create the referenced provisioner resource in this product's namespace."
                      else readFailure err)
            | inl resource =>
                if non_nil (GetDeletionTimestamp resource) then
                  mret (source_unavailable "SourceDeleting"
                    "The provisioner resource is being deleted; restore or replace the source reference.")
                else if negb (crossplaneReady resource) then
                  mret (source_unavailable "SourceNotReady"
                    "The provisioner must report Ready=True and Synced=True; inspect its conditions for details.")
                else if connection_mismatch resource namespace source then
                  mret (source_unavailable "ConnectionReferenceMismatch"
                    "The provisioner's connection Secret reference must match this product's same-namespace connection reference.")
                else
                  s ← get_secret reader ctx (mkKey namespace secretName);
                  match s with
                  | inr err =>
                      mret (if IsNotFound err then
                              source_unavailable "ConnectionNotPublished"
                                "The provisioner must publish the referenced connection Secret in this product's namespace."
                            else readFailure err)
                  | inl secret =>
                      if non_nil (secret_DeletionTimestamp secret) then
                        mret (source_unavailable "ConnectionNotPublished"
                          "The connection Secret is being deleted; wait for the provisioner to republish it.")
                      else if negb (existsb (owned_by version resource)
                                      (secret_OwnerReferences secret)) then
                        mret (source_unavailable "ConnectionOwnerMismatch"
                          "The connection Secret must belong to the current provisioner resource; wait for its publisher to reconcile.")
                      else mret (mkSourceObs true "SourceReady"
                        "The provisioner is ready and its connection Secret is published.")
                  end
            end
      end
  | _, _ =>
      mret (source_unavailable "SourceUnavailable"
        "The provisioner reader is unavailable; check controller configuration.")
  end
  end.
End Provisioner.

(** ** What readiness means *)

Section Spec.
Context `{E : Env} `{U : UnstructuredApi}.

Definition condition_name (item : any) : option string :=
  match item with AMap m => fst <$> NestedString m ["type"] | _ => None end.

(** The conditions of one type. *)
Definition named (t : string) (conditions : list any) : list any :=
  List.filter (λ i, condition_name i == Some t) conditions.

Definition condition_good (generation : Z) (item : any) : Prop :=
  ∃ m found, item = AMap m ∧ NestedString m ["status"] = Some ("True", found) ∧
    generation_current (NestedInt64 m ["observedGeneration"]) generation = true.

(** Exactly one condition of type [t], and it is a current True. *)
Definition once (generation : Z) (conditions : list any) (t : string) : Prop :=
  ∃ item, named t conditions = [item] ∧ condition_good generation item.

(** The crossplane/v1 condition contract. *)
Definition crossplane_contract (resource : Unstructured) : Prop :=
  generation_current (NestedInt64 (Object resource) ["status"; "observedGeneration"])
    (GetGeneration resource) = true ∧
  ∃ conditions, NestedSlice (Object resource) ["status"; "conditions"] = Some (conditions, true) ∧
    Forall (λ i, is_Some (condition_name i)) conditions ∧
    once (GetGeneration resource) conditions "Ready" ∧
    once (GetGeneration resource) conditions "Synced".

(** The obligation left for type [t] when the types in [seen] were met before. *)
Definition pending (generation : Z) (conditions : list any) (seen : gset string) (t : string)
  : Prop :=
  if decide (t ∈ seen) then named t conditions = [] else once generation conditions t.

Lemma named_cons t item conditions :
  named t (item :: conditions) =
  if decide (condition_name item = Some t) then item :: named t conditions else named t conditions.
Proof. unfold named. simpl. by case_bool_decide; case_decide. Qed.

Lemma pending_skip generation item conditions seen t :
  condition_name item ≠ Some t →
  pending generation (item :: conditions) seen t ↔ pending generation conditions seen t.
Proof.
  intros Hn. unfold pending, once. rewrite named_cons.
  by rewrite (decide_False (P := condition_name item = Some t)).
Qed.

Lemma pending_seen generation item conditions seen t :
  condition_name item = Some t → t ∈ seen → ¬ pending generation (item :: conditions) seen t.
Proof.
  intros Hn Hs. unfold pending. rewrite (decide_True (P := t ∈ seen)) by done.
  rewrite named_cons. by rewrite (decide_True (P := condition_name item = Some t)).
Qed.

Lemma pending_new generation item conditions seen t :
  condition_name item = Some t → t ∉ seen →
  pending generation (item :: conditions) seen t ↔
  condition_good generation item ∧ pending generation conditions ({[t]} ∪ seen) t.
Proof.
  intros Hn Hs. unfold pending, once. rewrite (decide_False (P := t ∈ seen)) by done.
  rewrite named_cons, (decide_True (P := condition_name item = Some t)) by done.
  rewrite decide_True by set_solver. split.
  - intros (i & [= <- ->] & Hg). done.
  - intros [Hg ->]. by exists item.
Qed.

Lemma pending_other generation conditions seen t t' :
  t ≠ t' → pending generation conditions ({[t']} ∪ seen) t ↔ pending generation conditions seen t.
Proof.
  intros Hn. unfold pending.
  destruct (decide (t ∈ {[t']} ∪ seen)), (decide (t ∈ seen)); set_solver.
Qed.

Lemma crossplane_conditions_step generation item conditions seen t u :
  condition_name item = Some t → t ≠ u →
  (pending generation (item :: conditions) seen t ∧
   pending generation (item :: conditions) seen u) ↔
  (t ∉ seen) ∧ condition_good generation item ∧
  pending generation conditions ({[t]} ∪ seen) t ∧ pending generation conditions ({[t]} ∪ seen) u.
Proof.
  intros Hn Hne. rewrite (pending_skip _ _ _ _ u) by congruence.
  rewrite (pending_other _ _ _ u t) by congruence.
  destruct (decide (t ∈ seen)) as [Hs|Hs].
  - split; [intros [H _]; by apply pending_seen in H|by intros [? _]].
  - rewrite pending_new by done. tauto.
Qed.

Lemma condition_good_map generation m :
  condition_good generation (AMap m) ↔ match NestedString m ["status"] with
  | Some (status, _) => status = "True" ∧
      generation_current (NestedInt64 m ["observedGeneration"]) generation = true
  | None => False
  end.
Proof.
  unfold condition_good. split.
  - intros (m' & f & [= <-] & Hs & Hg). by rewrite Hs.
  - destruct (NestedString m ["status"]) as [[status f]|] eqn:Hs; [|done].
    intros [-> Hg]. exists m, f. by rewrite Hs.
Qed.

(** The acceptance of one condition of a required type. *)
Ltac accept IH Hgood :=
  rewrite Hgood; case_bool_decide; [split; [done|]; tauto|];
  destruct (NestedString _ ["status"]) as [[status ?]|]; [|split; [done|]; tauto];
  case_bool_decide; simpl; [|split; [done|]; tauto];
  destruct (generation_current _ _); simpl; [|split; [done|]; naive_solver];
  rewrite IH; naive_solver.

Lemma crossplane_conditions_spec generation conditions seen :
  crossplane_conditions generation conditions seen = true ↔
  Forall (λ i, is_Some (condition_name i)) conditions ∧
  pending generation conditions seen "Ready" ∧ pending generation conditions seen "Synced".
Proof.
  revert seen. induction conditions as [|item conditions IH]; intros seen; simpl.
  - go_bool. unfold pending, once. simpl. split.
    + intros [H1 H2]. rewrite !decide_True by done. done.
    + intros (_ & H1 & H2). destruct (decide ("Ready" ∈ seen)), (decide ("Synced" ∈ seen));
        naive_solver.
  - rewrite Forall_cons_iff. destruct item as [| | | | | |m];
      try (split; [done|]; intros [[[? ?] _] _]; done).
    set (item := AMap m).
    assert (Hname : condition_name item = match NestedString m ["type"] with
      | Some (name, _) => Some name | None => None end).
    { simpl. by destruct (NestedString m ["type"]) as [[]|]. }
    assert (Hgood : condition_good generation item ↔ match NestedString m ["status"] with
      | Some (status, _) => status = "True" ∧
          generation_current (NestedInt64 m ["observedGeneration"]) generation = true
      | None => False end).
    { apply condition_good_map. }
    clearbody item.
    destruct (NestedString m ["type"]) as [[name found]|].
    2:{ rewrite Hname. split; [done|]. by intros [[[? ?] _] _]. }
    destruct (decide (name = "Ready")) as [->|H1]; [|destruct (decide (name = "Synced")) as [->|H2]].
    + rewrite (bool_decide_true ("Ready" = "Ready")) by done. simpl.
      rewrite (crossplane_conditions_step _ _ _ _ "Ready" "Synced" Hname) by done. accept IH Hgood.
    + rewrite (bool_decide_false ("Synced" = "Ready")), (bool_decide_true ("Synced" = "Synced")) by done.
      simpl. rewrite (and_comm (pending generation (item :: conditions) seen "Ready")).
      rewrite (crossplane_conditions_step _ _ _ _ "Synced" "Ready" Hname) by done. accept IH Hgood.
    + rewrite (bool_decide_false (name = "Ready")), (bool_decide_false (name = "Synced")) by done.
      simpl. rewrite IH, !pending_skip by congruence. rewrite Hname. naive_solver.
Qed.

Lemma crossplaneReady_spec resource :
  crossplaneReady resource = true ↔ crossplane_contract resource.
Proof.
  unfold crossplaneReady, crossplane_contract.
  destruct (generation_current _ _); simpl; [|split; [done|]; by intros [? _]].
  destruct (NestedSlice _ _) as [[conditions []]|].
  - rewrite crossplane_conditions_spec. unfold pending. rewrite !decide_False by set_solver.
    split; [naive_solver|]. intros (_ & c & [= <-] & H). done.
  - split; [done|]. by intros (_ & c & ? & _).
  - split; [done|]. by intros (_ & c & ? & _).
Qed.

(** The connection Secret is published by the current resource: not being deleted, and owned by an
    object of the same group with the resource's UID, name and kind. *)
Definition published_by (version : GroupVersion) (resource : Unstructured) (secret : SecretMetadata)
  : Prop :=
  secret_DeletionTimestamp secret = None ∧
  ∃ owner v, owner ∈ secret_OwnerReferences secret ∧
    ParseGroupVersion (owner_APIVersion owner) = Some v ∧ gv_Version v ≠ "" ∧
    gv_Group v = gv_Group version ∧ GetUID resource ≠ "" ∧ owner_UID owner = GetUID resource ∧
    owner_Name owner = GetName resource ∧ owner_Kind owner = GetKind resource.

Lemma published_by_spec version resource secret :
  negb (non_nil (secret_DeletionTimestamp secret)) &&
  existsb (owned_by version resource) (secret_OwnerReferences secret) = true ↔
  published_by version resource secret.
Proof.
  rewrite andb_true_iff, existsb_exists_elem. unfold published_by, owned_by. go_bool.
  split; intros [H1 H2]; (split; [done|]).
  - destruct H2 as (o & Ho & H2). destruct (ParseGroupVersion _) as [v|] eqn:Hv; [|done].
    go_bool. exists o, v. naive_solver.
  - destruct H2 as (o & v & Ho & Hv & H2). exists o. split; [done|]. rewrite Hv. go_bool.
    naive_solver.
Qed.
End Spec.

(** ** Properties *)

Section Properties.
Context `{E : Env} `{U : UnstructuredApi}.

(** Everything a ready crossplane/v1 source stands on, in the order it is read. *)
Definition crossplane_evidence (reader : option SourceReader) (mapper : option RESTMapper)
    (ctx : Ctx) (namespace : string) (source : ProvisionedSource) (w : World) : Prop :=
  let ref := Source_ResourceRef source in
  ∃ version get map w1 resource w2 secret w3,
    ParseGroupVersion (RR_APIVersion ref) = Some version ∧
    crossplane_invalid namespace source (Some version) = false ∧
    reader = Some get ∧ mapper = Some map ∧
    map version (RR_Kind ref) w = (inl RESTScopeNameNamespace, w1) ∧
    get_resource get ctx version (RR_Kind ref) (mkKey namespace (RR_Name ref)) w1
      = (inl resource, w2) ∧
    GetDeletionTimestamp resource = None ∧ crossplane_contract resource ∧
    connection_mismatch resource namespace source = false ∧
    get_secret get ctx (mkKey namespace (CS_Name (Source_ConnectionSecretRef source))) w2
      = (inl secret, w3) ∧
    published_by version resource secret.

Lemma crossplane_ready reader mapper ctx namespace source w :
  S_Ready (fst (crossplane_Observe reader mapper ctx namespace source w)) = true →
  crossplane_evidence reader mapper ctx namespace source w.
Proof.
  unfold crossplane_Observe, crossplane_evidence, mbind, st_bind.
  destruct (ParseGroupVersion _) as [version|]; [|done].
  destruct (crossplane_invalid _ _ _) eqn:Hinv; [done|].
  destruct reader as [get|]; [|done]. destruct mapper as [map|]; [|done].
  destruct (map version _ w) as [[scope|e] w1] eqn:Hm; [|done].
  case_bool_decide as Hsc; simpl; [|done]. subst scope.
  destruct (get_resource _ _ _ _ _ w1) as [[resource|e] w2] eqn:Hr; [|simpl; unfold readFailure; by repeat split_guard].
  destruct (GetDeletionTimestamp resource) eqn:Hdel; [done|]. simpl.
  destruct (crossplaneReady resource) eqn:Hcr; [|done]. simpl.
  destruct (connection_mismatch _ _ _) eqn:Hcm; [done|].
  destruct (get_secret _ _ _ w2) as [[secret|e] w3] eqn:Hs; [|simpl; unfold readFailure; by repeat split_guard].
  pose proof (published_by_spec version resource secret) as Hp.
  destruct (non_nil _); [done|]. destruct (existsb _ _); [|done]. intros _.
  exists version, get, map, w1, resource, w2, secret, w3.
  split_and!; auto; [by apply crossplaneReady_spec|by apply Hp].
Qed.

(** C11: a crossplane/v1 source is ready exactly when its reference is a namespaced custom resource,
    discovery maps it to a namespaced API, the resource of the product's own namespace is not being
    deleted and meets the condition contract (exactly one Ready and one Synced condition, both True,
    no explicit generation behind the resource's), it publishes its connection under the declared
    name in the same namespace, and the Secret's metadata shows a live Secret owned by that very
    resource. *)
Theorem crossplane_ready_iff reader mapper ctx namespace source w :
  S_Ready (fst (crossplane_Observe reader mapper ctx namespace source w)) = true ↔
  crossplane_evidence reader mapper ctx namespace source w.
Proof.
  split; [apply crossplane_ready|].
  intros (version & get & map & w1 & resource & w2 & secret & w3 & Hv & Hinv & -> & -> & Hm & Hr &
    Hdel & Hc & Hcm & Hs & Hp).
  unfold crossplane_Observe, mbind, st_bind. rewrite Hv, Hinv, Hm.
  rewrite bool_decide_true by done. simpl. rewrite Hr, Hdel. simpl.
  apply crossplaneReady_spec in Hc as ->. simpl. rewrite Hcm, Hs.
  apply published_by_spec, andb_true_iff in Hp as [Hd ->].
  by destruct (secret_DeletionTimestamp secret).
Qed.
End Properties.

(** ** Witness *)

#[local] Existing Instances ref_env ref_unstructured.

Definition sample_condition (t : string) : any :=
  AMap [("type", AString t); ("status", AString "True"); ("observedGeneration", AInt 5%Z)].
Definition sample_bucket : RefObject :=
  mkRefObject
    [("spec", AMap [("writeConnectionSecretToRef", AMap [("name", AString "orders-conn")])]);
     ("status", AMap [("conditions", ASlice [sample_condition "Synced"; sample_condition "Ready"])])]
    "orders-db" "uid-1" "Database" 5%Z None.
Definition sample_secret : SecretMetadata :=
  mkSecret None [mkOwner "db.example/v1" "Database" "orders-db" "uid-1"] ∅.
Definition sample_source_reader : SourceReader :=
  mkSourceReader (λ _ _ _ _ w, (inl sample_bucket, w)) (λ _ _ w, (inl sample_secret, w)).
Definition sample_mapper : RESTMapper := λ _ _ w, (inl RESTScopeNameNamespace, w).
Definition sample_crossplane : ProvisionedSource :=
  mkSource "crossplane/v1" None (mkResourceRef "db.example/v1" "Database" "orders-db")
    (mkSecretRef "orders-conn").

Lemma crossplane_ready_iff_witness :
  crossplane_evidence (Some sample_source_reader) (Some sample_mapper) tt "shop" sample_crossplane
    sample_world.
Proof. apply crossplane_ready_iff. vm_compute. reflexivity. Defined.
