(* ===== verification/Cnpg.v ===== *)
(** * CloudNativePG: the SQL engine provider

    [internal/provider/v1/cnpg.go], with the API-failure mapping [readFailure] the typed providers
    share and the readiness predicate [cnpgReady] that the hybrid provider reuses. *)

From S2P Require Import Prelude Kube Api Reference Provisioner.

Section Cnpg.
Context `{E : Env} `{U : UnstructuredApi}.

(** [readFailure] of the providers package: a missing object has a caller-supplied reason. *)
Definition provider_readFailure (err : error) (missingReason missingMessage : string)
  : SourceObservation :=
  if IsNotFound err then source_unavailable missingReason missingMessage
  else if IsForbidden err || IsUnauthorized err then
    source_unavailable "SourceAccessDenied"
      "Grant exact-name get access to the provider resource and its application Secret in this namespace."
  else
    source_unavailable "SourceUnavailable"
      "The source could not be observed; check API availability and scoped controller access.".

(** The loop over the conditions; [None] is an early [return false]. *)
Fixpoint cnpg_conditions (generation : Z) (conditions : list any) (ready : bool) : option bool :=
  match conditions with
  | [] => Some ready
  | AMap condition :: conditions' =>
      match NestedString condition ["type"] with
      | None => None
      | Some (kind, _) =>
          if kind != "Ready" then cnpg_conditions generation conditions' ready
          else match NestedString condition ["status"] with
          | None => None
          | Some (status, _) =>
              if (status != "True") || ready then None
              else if negb (generation_current (NestedInt64 condition ["observedGeneration"])
                              generation)
              then None
              else cnpg_conditions generation conditions' true
          end
      end
  | _ :: _ => None
  end.

(** [status.<field>] equals the desired count. *)
Definition count_is (object : list (string * any)) (desired : Z) (field : string) : bool :=
  match NestedInt64 object ["status"; field] with
  | None => false
  | Some (count, _) => count == desired
  end.

Definition cnpgReady (cluster : Unstructured) : bool :=
  let object := Object cluster in
  if negb (generation_current (NestedInt64 object ["status"; "observedGeneration"])
             (GetGeneration cluster))
  then false
  else match NestedSlice object ["status"; "conditions"] with
  | Some (conditions, true) =>
      match cnpg_conditions (GetGeneration cluster) conditions false with
      | None => false
      | Some ready =>
          match NestedInt64 object ["spec"; "instances"] with
          | None => false
          | Some (desired, _) =>
              if (desired <=? 0)%Z then false
              else if negb (forallb (count_is object desired) ["instances"; "readyInstances"])
              then false
              else match NestedString object ["status"; "currentPrimary"] with
              | None => false
              | Some (current, _) =>
                  if current == "" then false
                  else match NestedString object ["status"; "targetPrimary"] with
                  | None => false
                  | Some (target, _) => ready && (current == target)
                  end
              end
          end
      end
  | _ => false
  end.

(** A bootstrap method whose Secret is supplied, or unreadable. *)
Definition custom_bootstrap (cluster : Unstructured) (bootstrap : string) : bool :=
  match NestedFieldPresent (Object cluster) ["spec"; "bootstrap"; bootstrap; "secret"] with
  | None => true
  | Some present => present
  end.

Definition cnpg_owner (cluster : Unstructured) (owner : OwnerReference) : bool :=
  match ParseGroupVersion (owner_APIVersion owner) with
  | None => false
  | Some version =>
      (gv_Group version == "postgresql.cnpg.io") && (gv_Version version != "") &&
      (owner_Kind owner == "Cluster") && (owner_Name owner == GetName cluster) &&
      (GetUID cluster != "") && (owner_UID owner == GetUID cluster)
  end.

Definition cnpg_gv : GroupVersion := mkGV "postgresql.cnpg.io" "v1".

(** The selection guard common to the typed providers: engine contract, type and provider. *)
Definition engine_is (source : ProvisionedSource) (provider : string) (types : list string) : bool :=
  match Source_Engine source with
  | None => false
  | Some e =>
      (Engine_APIVersion e == "engine-provider/v1") && existsb (λ t, Engine_Type e == t) types &&
      (Engine_Provider e == provider)
  end.

Definition cnpg_invalid (namespace : string) (source : ProvisionedSource) : bool :=
  let ref := Source_ResourceRef source in
  (namespace == "") || (RR_Name ref == "") || (RR_APIVersion ref != "postgresql.cnpg.io/v1") ||
  (RR_Kind ref != "Cluster") || (Source_Adapter source != "cnpg/v1") ||
  negb (engine_is source "native" ["sql"]) ||
  (CS_Name (Source_ConnectionSecretRef source) != RR_Name ref +:+ "-app").

(** [CloudNativePG.Observe]. *)
Definition cnpg_Observe (reader : option SourceReader) (ctx : Ctx) (namespace : string)
    (source : ProvisionedSource) : ST World SourceObservation :=
  let ref := Source_ResourceRef source in
  if cnpg_invalid namespace source then
    mret (source_unavailable "SourceInvalid"
      "Use sql/native with cnpg/v1 and a same-namespace Cluster's generated application Secret.")
  else match reader with
  | None =>
      mret (source_unavailable "SourceUnavailable"
        "The provider reader is unavailable; check controller configuration.")
  | Some reader =>
      r ← get_resource reader ctx cnpg_gv "Cluster" (mkKey namespace (RR_Name ref));
      match r with
      | inr err =>
          mret (provider_readFailure err "SourceNotFound"
            "Create the referenced CloudNativePG Cluster in this product's namespace.")
      | inl cluster =>
          if non_nil (GetDeletionTimestamp cluster) then
            mret (source_unavailable "SourceDeleting"
              "The source is being deleted; restore or replace its reference.")
          else if existsb (custom_bootstrap cluster) ["initdb"; "recovery"; "pg_basebackup"] then
            mret (source_unavailable "ConnectionPublicationUnsupported"
              "Use the operator-generated application Secret; custom bootstrap credentials require a separate adapter.")
          else if negb (cnpgReady cluster) then
            mret (source_unavailable "SourceNotReady"
              "The Cluster must report Ready=True, all requested instances ready and a settled primary; inspect its status.")
          else
            s ← get_secret reader ctx (mkKey namespace (CS_Name (Source_ConnectionSecretRef source)));
            match s with
            | inr err =>
                mret (provider_readFailure err "ConnectionNotPublished"
                  "Wait for the operator to publish the generated application Secret.")
            | inl secret =>
                if non_nil (secret_DeletionTimestamp secret) then
                  mret (source_unavailable "ConnectionNotPublished"
                    "The connection Secret is being deleted; wait for its publisher.")
                else if existsb (cnpg_owner cluster) (secret_OwnerReferences secret) then
                  mret (mkSourceObs true "SourceReady"
                    "The SQL provider is ready and its generated application Secret is published.")
                else mret (source_unavailable "ConnectionOwnerMismatch"
                  "The application Secret must belong to the current Cluster; wait for its publisher to reconcile.")
            end
      end
  end.
End Cnpg.

(** ** What readiness means *)

Section Spec.
Context `{E : Env} `{U : UnstructuredApi}.

(** What a ready typed provider stands on: a valid selection, the live resource of the product's
    namespace meeting [check], and the live Secret of the same namespace meeting [publish]. *)
Definition typed_evidence (gv : GroupVersion) (kind : string) (check : Unstructured → Prop)
    (publish : Unstructured → SecretMetadata → Prop) (reader : option SourceReader) (ctx : Ctx)
    (namespace : string) (source : ProvisionedSource) (w : World) : Prop :=
  ∃ get resource w1 secret w2, reader = Some get ∧
    get_resource get ctx gv kind (mkKey namespace (RR_Name (Source_ResourceRef source))) w
      = (inl resource, w1) ∧
    GetDeletionTimestamp resource = None ∧ check resource ∧
    get_secret get ctx (mkKey namespace (CS_Name (Source_ConnectionSecretRef source))) w1
      = (inl secret, w2) ∧
    secret_DeletionTimestamp secret = None ∧ publish resource secret.

(** The objects a typed provider decided on: [resource] is what [reader] answered for the declared name
    in the product's namespace and [secret] what it answered next for the declared Secret there, both
    live. *)
Definition live_objects (gv : GroupVersion) (kind : string) (reader : option SourceReader) (ctx : Ctx)
    (namespace : string) (source : ProvisionedSource) (w : World) (resource : Unstructured)
    (secret : SecretMetadata) : Prop :=
  ∃ get w1 w2, reader = Some get ∧
    get_resource get ctx gv kind (mkKey namespace (RR_Name (Source_ResourceRef source))) w
      = (inl resource, w1) ∧
    GetDeletionTimestamp resource = None ∧
    get_secret get ctx (mkKey namespace (CS_Name (Source_ConnectionSecretRef source))) w1
      = (inl secret, w2) ∧
    secret_DeletionTimestamp secret = None.

Lemma typed_evidence_live gv kind check publish reader ctx namespace source w :
  typed_evidence gv kind check publish reader ctx namespace source w ↔
  ∃ resource secret, live_objects gv kind reader ctx namespace source w resource secret ∧
    check resource ∧ publish resource secret.
Proof.
  unfold typed_evidence, live_objects. split.
  - intros (get & r & w1 & s & w2 & H). destruct_and!. exists r, s. split_and!; [|done..].
    exists get, w1, w2. by split_and!.
  - intros (r & s & (get & w1 & w2 & H) & Hc & Hp). destruct_and!. exists get, r, w1, s, w2. by split_and!.
Qed.

(** The Cluster's published facts: exactly one current Ready=True, every requested instance present
    and ready, and a settled primary. *)
Definition cnpg_contract (cluster : Unstructured) : Prop :=
  let object := Object cluster in
  generation_current (NestedInt64 object ["status"; "observedGeneration"]) (GetGeneration cluster)
    = true ∧
  (∃ conditions, NestedSlice object ["status"; "conditions"] = Some (conditions, true) ∧
     Forall (λ i, is_Some (condition_name i)) conditions ∧
     once (GetGeneration cluster) conditions "Ready") ∧
  ∃ n f1 f2 f3, NestedInt64 object ["spec"; "instances"] = Some (n, f1) ∧ (0 < n)%Z ∧
    NestedInt64 object ["status"; "instances"] = Some (n, f2) ∧
    NestedInt64 object ["status"; "readyInstances"] = Some (n, f3) ∧
    ∃ primary f4 f5, primary ≠ "" ∧
      NestedString object ["status"; "currentPrimary"] = Some (primary, f4) ∧
      NestedString object ["status"; "targetPrimary"] = Some (primary, f5).

Lemma cnpg_conditions_spec generation conditions ready :
  cnpg_conditions generation conditions ready = Some true ↔
  Forall (λ i, is_Some (condition_name i)) conditions ∧
  pending generation conditions (if ready then {["Ready"]} else ∅) "Ready".
Proof.
  revert ready. induction conditions as [|item conditions IH]; intros ready; simpl.
  - unfold pending, once. simpl. destruct ready.
    + rewrite decide_True by set_solver. done.
    + rewrite decide_False by set_solver. naive_solver.
  - rewrite Forall_cons_iff. destruct item as [| | | | | |m];
      try (split; [done|]; intros [[[? ?] _] _]; done).
    set (item := AMap m).
    assert (Hname : condition_name item = match NestedString m ["type"] with
      | Some (name, _) => Some name | None => None end).
    { simpl. by destruct (NestedString m ["type"]) as [[]|]. }
    assert (Hgood : condition_good generation item ↔ match NestedString m ["status"] with
      | Some (status, _) => status = "True" ∧
          generation_current (NestedInt64 m ["observedGeneration"]) generation = true
      | None => False end) by apply condition_good_map.
    clearbody item. destruct (NestedString m ["type"]) as [[name found]|].
    2:{ rewrite Hname. split; [done|]. by intros [[[? ?] _] _]. }
    rewrite Hname. case_bool_decide as Hr; simpl.
    + subst name. destruct ready.
      * split; [destruct (NestedString m ["status"]) as [[]|]; [by rewrite orb_true_r|done]|].
        intros [_ H]. apply pending_seen in H; [done|done|set_solver].
      * rewrite pending_new, Hgood by (done || set_solver).
        destruct (NestedString m ["status"]) as [[status f]|]; [|split; [done|]; tauto].
        rewrite orb_false_r.
        case_bool_decide; simpl; [|split; [done|]; tauto].
        destruct (generation_current _ _); simpl; [|split; [done|]; naive_solver].
        rewrite IH, union_empty_r_L. naive_solver.
    + rewrite IH, pending_skip by congruence. naive_solver.
Qed.

Lemma count_is_spec object n field :
  count_is object n field = true ↔ ∃ f, NestedInt64 object ["status"; field] = Some (n, f).
Proof.
  unfold count_is. destruct (NestedInt64 _ _) as [[c f]|]; go_bool; split; naive_solver.
Qed.

Lemma cnpgReady_spec cluster : cnpgReady cluster = true ↔ cnpg_contract cluster.
Proof.
  unfold cnpgReady, cnpg_contract.
  destruct (generation_current _ _); simpl; [|split; [done|]; by intros [? _]].
  destruct (NestedSlice _ _) as [[conditions []]|];
    [|split; [done|]; by intros (_ & (? & ? & _) & _)..].
  pose proof (cnpg_conditions_spec (GetGeneration cluster) conditions false) as Hc.
  unfold pending in Hc. rewrite decide_False in Hc by set_solver. split.
  - destruct (cnpg_conditions _ _ _) as [ready|]; [|done].
    destruct (NestedInt64 _ ["spec"; "instances"]) as [[n f]|]; [|done].
    destruct (n <=? 0)%Z eqn:Hn; [done|]. rewrite andb_true_r.
    destruct (count_is _ n "instances" && _) eqn:Hcount; [|done]. simpl.
    apply andb_true_iff in Hcount as [(f1 & H1)%count_is_spec (f2 & H2)%count_is_spec].
    destruct (NestedString _ ["status"; "currentPrimary"]) as [[cur f3]|] eqn:H3; [|done].
    case_bool_decide; [done|].
    destruct (NestedString _ ["status"; "targetPrimary"]) as [[tgt f4]|] eqn:H4; [|done].
    intros [-> Heq]%andb_true_iff. go_bool. subst tgt. split; [done|].
    split; [exists conditions; split; [done|by apply Hc]|].
    exists n, f, f1, f2. split_and!; auto. by exists cur, f3, f4.
  - intros (_ & (cs & [= <-] & Hcs) & n & f1 & f2 & f3 & -> & Hn & H1 & H2 & p & f4 & f5 & Hp & -> & ->).
    apply Hc in Hcs as ->. rewrite (proj2 (Z.leb_gt _ _)) by done.
    rewrite (proj2 (count_is_spec _ _ "instances")) by eauto.
    rewrite (proj2 (count_is_spec _ _ "readyInstances")) by eauto. simpl.
    rewrite bool_decide_false by done. by apply bool_decide_true.
Qed.

(** Secret ownership by an object of the Cluster's group with its UID and name. *)
Lemma cnpg_owner_spec cluster secret :
  existsb (cnpg_owner cluster) (secret_OwnerReferences secret) = true ↔
  ∃ owner v, owner ∈ secret_OwnerReferences secret ∧
    ParseGroupVersion (owner_APIVersion owner) = Some v ∧ gv_Group v = "postgresql.cnpg.io" ∧
    gv_Version v ≠ "" ∧ owner_Kind owner = "Cluster" ∧ owner_Name owner = GetName cluster ∧
    GetUID cluster ≠ "" ∧ owner_UID owner = GetUID cluster.
Proof.
  rewrite existsb_exists_elem. unfold cnpg_owner. split.
  - intros (o & Ho & H). destruct (ParseGroupVersion _) as [v|] eqn:Hv; [|done]. go_bool.
    exists o, v. destruct_and!. by split_and!.
  - intros (o & v & Ho & Hv & H). exists o. split; [done|]. rewrite Hv. go_bool.
    destruct_and!. by split_and!.
Qed.

(** The properties of a ready SQL source's Cluster and Secret. *)
Definition cnpg_check (cluster : Unstructured) : Prop :=
  (∀ method, method ∈ ["initdb"; "recovery"; "pg_basebackup"] →
     NestedFieldPresent (Object cluster) ["spec"; "bootstrap"; method; "secret"] = Some false) ∧
  cnpg_contract cluster.
Definition cnpg_publish (cluster : Unstructured) (secret : SecretMetadata) : Prop :=
  ∃ owner v, owner ∈ secret_OwnerReferences secret ∧
    ParseGroupVersion (owner_APIVersion owner) = Some v ∧ gv_Group v = "postgresql.cnpg.io" ∧
    gv_Version v ≠ "" ∧ owner_Kind owner = "Cluster" ∧ owner_Name owner = GetName cluster ∧
    GetUID cluster ≠ "" ∧ owner_UID owner = GetUID cluster.

Lemma custom_bootstrap_spec cluster methods :
  existsb (custom_bootstrap cluster) methods = false ↔
  ∀ method, method ∈ methods →
    NestedFieldPresent (Object cluster) ["spec"; "bootstrap"; method; "secret"] = Some false.
Proof.
  rewrite <- not_true_iff_false, existsb_exists_elem. unfold custom_bootstrap. split.
  - intros H m Hm. destruct (NestedFieldPresent _ _) as [[]|] eqn:Hp; [|done|].
    all: exfalso; apply H; exists m; by rewrite Hp.
  - intros H (m & Hm & Hp). by rewrite (H m Hm) in Hp.
Qed.

Lemma cnpg_ready reader ctx namespace source w :
  S_Ready (fst (cnpg_Observe reader ctx namespace source w)) = true ↔
  cnpg_invalid namespace source = false ∧
  typed_evidence cnpg_gv "Cluster" cnpg_check cnpg_publish reader ctx namespace source w.
Proof.
  unfold cnpg_Observe, typed_evidence, cnpg_check, cnpg_publish, mbind, st_bind.
  setoid_rewrite <- cnpg_owner_spec. setoid_rewrite <- cnpgReady_spec.
  setoid_rewrite <- custom_bootstrap_spec.
  destruct (cnpg_invalid _ _); [split; [done|]; by intros [? _]|].
  destruct reader as [get|]; [|split; [done|]; by intros (_ & ? & ? & ? & ? & ? & ? & _)].
  split.
  - destruct (get_resource _ _ _ _ _ w) as [[r|e] w1] eqn:Hr;
      [|simpl; unfold provider_readFailure; by repeat split_guard].
    destruct (GetDeletionTimestamp r) eqn:Hd; [done|]. simpl.
    destruct (custom_bootstrap r "initdb" || _) eqn:Hb; [done|].
    destruct (cnpgReady r) eqn:Hc; [|done]. simpl.
    destruct (get_secret _ _ _ w1) as [[s|e] w2] eqn:Hs;
      [|simpl; unfold provider_readFailure; by repeat split_guard].
    destruct (secret_DeletionTimestamp s) eqn:Hsd; [done|]. simpl.
    destruct (existsb _ _) eqn:Ho; [|done]. intros _. split; [done|].
    exists get, r, w1, s, w2. by split_and!.
  - intros (_ & g & r & w1 & s & w2 & [= <-] & Hr & Hd & [Hb Hc] & Hs & Hsd & Ho).
    rewrite Hr, Hd. simpl in *. rewrite Hb, Hc. simpl. by rewrite Hs, Hsd, Ho.
Qed.
End Spec.
