(* ===== verification/CnpgHybrid.v ===== *)
(** * CloudNativePG hybrid: document and graph capabilities on PostgreSQL

    [internal/provider/v1/cnpg_hybrid.go]: exclusion of operator publications, the pinned image
    profile, the current-owner check and the publisher's capability annotations. *)

From stdpp Require Import pretty.
From Stdlib Require Import Ascii.
From S2P Require Import Prelude Kube Api Regex GoStrings Reference Provisioner Cnpg.

(** [annotations[key]]: a missing key reads as the empty string. *)
Definition annotation (annotations : gmap string string) (key : string) : string :=
  default "" (annotations !! key).

(** A lower-case letter followed by at most 62 lower-case letters, digits or underscores. *)
Definition hybridIdentifier : re :=
  RCat (RClass lower) (RUpTo 62 (RClass (λ a, lower a || digit a || is_char "_" a))).

Definition hybrid_suffixes : list string :=
  ["-app"; "-superuser"; "-replication"; "-server"; "-ca"; "-client"].

(** [hybridReaderSecret]. *)
Definition hybridReaderSecret (cluster secret : string) : bool :=
  if secret == "" then false
  else negb (existsb (λ suffix, secret == cluster +:+ suffix) hybrid_suffixes).

Definition hybrid_prefix : string := "data.devantler.tech/cnpg-hybrid-".

(** [hybridPublication]. *)
Definition hybridPublication (annotations : gmap string string) (generation : Z) (engine : string)
  : bool :=
  let at_ (field : string) := annotation annotations (hybrid_prefix +:+ field) in
  if (generation <=? 0)%Z || (at_ "publication" != "v1") || (at_ "access" != "read-only") ||
     (at_ "source-generation" != pretty generation)
  then false
  else if negb (forallb (λ field, MatchString hybridIdentifier (at_ field)) ["database"; "user"])
  then false
  else
    let user := at_ "user" in
    if (user == "postgres") || (user == "streaming_replica") || HasPrefix user "pg_" ||
       HasPrefix user "cnpg_"
    then false
    else if engine == "graph" then
      (at_ "capability" == "age/1.7.0") && MatchString hybridIdentifier (at_ "graph")
    else if (engine != "document") || (at_ "capability" != "jsonb/v1") then false
    else forallb (λ field, MatchString hybridIdentifier (at_ field)) ["schema"; "table"; "column"].

Section Hybrid.
Context `{E : Env} `{U : UnstructuredApi}.

Definition hybrid_paths : list (list string) :=
  [["spec"; "superuserSecret"; "name"];
   ["spec"; "bootstrap"; "initdb"; "secret"; "name"];
   ["spec"; "bootstrap"; "recovery"; "secret"; "name"];
   ["spec"; "bootstrap"; "pg_basebackup"; "secret"; "name"];
   ["spec"; "certificates"; "serverCASecret"];
   ["spec"; "certificates"; "serverTLSSecret"];
   ["spec"; "certificates"; "clientCASecret"];
   ["spec"; "certificates"; "replicationTLSSecret"]].

(** The field at [path] can be read and does not name the Secret. *)
Definition names_other (object : list (string * any)) (secret : string) (path : list string) : bool :=
  match NestedString object path with
  | None => false
  | Some (name, _) => name != secret
  end.

(** [hybridConfiguredReader]. *)
Definition hybridConfiguredReader (cluster : Unstructured) (secret : string) : bool :=
  forallb (names_other (Object cluster) secret) hybrid_paths.

(** [hybridAGEPreload]. *)
Definition hybridAGEPreload (cluster : Unstructured) : bool :=
  match NestedStringSlice (Object cluster) ["spec"; "postgresql"; "shared_preload_libraries"] with
  | Some (libraries, true) => existsb (λ library, library == "age") libraries
  | _ => false
  end.

Definition hybrid_image : string :=
  "ghcr.io/cloudnative-pg/postgresql" +:+ ":17.11-minimal-trixie@" +:+
  "sha256:d78e771decf39071aa8bfb96684e8b7e6e5f3c6e00a945404249756db2c6c712".
Definition hybrid_age_image : string :=
  "ghcr.io/devantler-tech/data-product-controller-postgresql-age" +:+ ":" +:+
  "17.11-age1.7.0-dpc1.16.0" +:+ "@" +:+
  "sha256:0b6e2d75d5551586570979d767a28b255953c2ee86820409ad9fe37d91ce3fa8".

(** [hybridSourceProfile]. *)
Definition hybridSourceProfile (cluster : Unstructured) (engine : string) : bool :=
  let object := Object cluster in
  match NestedFieldPresent object ["spec"; "imageCatalogRef"] with
  | None | Some true => false
  | Some false =>
      match NestedString object ["spec"; "imageName"] with
      | None => false
      | Some (image, _) =>
          if (engine != "document") && (engine != "graph") then false
          else match NestedString object ["status"; "image"] with
          | Some (currentImage, true) =>
              if currentImage != image then false
              else if image == hybrid_image then engine == "document"
              else if image != hybrid_age_image then false
              else (engine == "document") || hybridAGEPreload cluster
          | _ => false
          end
      end
  end.

(** [hybridCurrentOwner]. *)
Definition hybridCurrentOwner (cluster : Unstructured) (secret : SecretMetadata) : bool :=
  if GetUID cluster == "" then false
  else existsb (λ owner,
    (owner_APIVersion owner == "postgresql.cnpg.io/v1") && (owner_Kind owner == "Cluster") &&
    (owner_Name owner == GetName cluster) && (owner_UID owner == GetUID cluster))
    (secret_OwnerReferences secret).

Definition hybrid_invalid (namespace : string) (source : ProvisionedSource) : bool :=
  let ref := Source_ResourceRef source in
  (namespace == "") || (RR_Name ref == "") || (RR_APIVersion ref != "postgresql.cnpg.io/v1") ||
  (RR_Kind ref != "Cluster") || (Source_Adapter source != "cnpg-hybrid/v1") ||
  negb (engine_is source "cnpg-hybrid" ["document"; "graph"]) ||
  negb (hybridReaderSecret (RR_Name ref) (CS_Name (Source_ConnectionSecretRef source))).

(** [source.Engine.Type], read after the guard has checked that the engine is set. *)
Definition engine_type (source : ProvisionedSource) : string :=
  match Source_Engine source with Some e => Engine_Type e | None => "" end.

(** [CloudNativePGHybrid.Observe]. *)
Definition hybrid_Observe (reader : option SourceReader) (ctx : Ctx) (namespace : string)
    (source : ProvisionedSource) : ST World SourceObservation :=
  let ref := Source_ResourceRef source in
  let secretName := CS_Name (Source_ConnectionSecretRef source) in
  if hybrid_invalid namespace source then
    mret (source_unavailable "SourceInvalid"
      "Use document or graph with cnpg-hybrid/v1, a same-namespace Cluster and a dedicated application reader publication.")
  else match reader with
  | None =>
      mret (source_unavailable "SourceUnavailable"
        "The provider reader is unavailable; check controller configuration.")
  | Some reader =>
      r ← get_resource reader ctx cnpg_gv "Cluster" (mkKey namespace (RR_Name ref));
      match r with
      | inr err =>
          mret (provider_readFailure err "SourceNotFound"
            "Create the referenced CloudNativePG Cluster in this product's namespace.")
      | inl cluster =>
          if non_nil (GetDeletionTimestamp cluster) then
            mret (source_unavailable "SourceDeleting"
              "The source is being deleted; restore or replace its reference.")
          else if negb (hybridConfiguredReader cluster secretName) then
            mret (source_unavailable "SourceInvalid"
              "Check the Cluster's configured publication references and use a dedicated application reader publication outside its operator publications.")
          else if negb (hybridSourceProfile cluster (engine_type source)) then
            mret (source_unavailable "SourceProfileUnsupported"
              "Use the supported immutable PostgreSQL image and declared hybrid capability configuration.")
          else if negb (cnpgReady cluster) then
            mret (source_unavailable "SourceNotReady"
              "The Cluster must report Ready=True, all requested instances ready and a settled primary; inspect its status.")
          else
            s ← get_secret reader ctx (mkKey namespace secretName);
            match s with
            | inr err =>
                mret (provider_readFailure err "ConnectionNotPublished"
                  "Wait for the independent publisher's application reader Secret.")
            | inl secret =>
                if non_nil (secret_DeletionTimestamp secret) then
                  mret (source_unavailable "ConnectionNotPublished"
                    "The application Secret is being deleted; wait for its publisher.")
                else if negb (hybridCurrentOwner cluster secret) then
                  mret (source_unavailable "ConnectionOwnerMismatch"
                    "The application reader Secret must identify the current Cluster UID; reconcile its publication.")
                else if negb (hybridPublication (secret_Annotations secret)
                                (GetGeneration cluster) (engine_type source)) then
                  mret (source_unavailable "ConnectionPublicationUnsupported"
                    "Publish the supported read-only capability metadata for the current Cluster generation after verifying the application query.")
                else mret (mkSourceObs true "SourceReady"
                  "The hybrid source is ready and its current application reader capability is published.")
            end
      end
  end.

(** ** What readiness means *)

Definition hybrid_check (source : ProvisionedSource) (cluster : Unstructured) : Prop :=
  hybridConfiguredReader cluster (CS_Name (Source_ConnectionSecretRef source)) = true ∧
  hybridSourceProfile cluster (engine_type source) = true ∧ cnpg_contract cluster.
Definition hybrid_publish (source : ProvisionedSource) (cluster : Unstructured)
    (secret : SecretMetadata) : Prop :=
  hybridCurrentOwner cluster secret = true ∧
  hybridPublication (secret_Annotations secret) (GetGeneration cluster) (engine_type source) = true.

Lemma hybrid_ready reader ctx namespace source w :
  S_Ready (fst (hybrid_Observe reader ctx namespace source w)) = true ↔
  hybrid_invalid namespace source = false ∧
  typed_evidence cnpg_gv "Cluster" (hybrid_check source) (hybrid_publish source) reader ctx namespace
    source w.
Proof.
  unfold hybrid_Observe, typed_evidence, hybrid_check, hybrid_publish, mbind, st_bind.
  setoid_rewrite <- cnpgReady_spec.
  destruct (hybrid_invalid _ _); [split; [done|]; by intros [? _]|].
  destruct reader as [get|]; [|split; [done|]; by intros (_ & ? & ? & ? & ? & ? & ? & _)].
  split.
  - destruct (get_resource _ _ _ _ _ w) as [[r|e] w1] eqn:Hr;
      [|simpl; unfold provider_readFailure; by repeat split_guard].
    destruct (GetDeletionTimestamp r) eqn:Hd; [done|]. simpl.
    destruct (hybridConfiguredReader _ _) eqn:Hb; [|done].
    destruct (hybridSourceProfile _ _) eqn:Hp; [|done].
    destruct (cnpgReady r) eqn:Hc; [|done]. simpl.
    destruct (get_secret _ _ _ w1) as [[s|e] w2] eqn:Hs;
      [|simpl; unfold provider_readFailure; by repeat split_guard].
    destruct (secret_DeletionTimestamp s) eqn:Hsd; [done|]. simpl.
    destruct (hybridCurrentOwner _ _) eqn:Ho; [|done].
    destruct (hybridPublication _ _ _) eqn:Hpub; [|done]. intros _. split; [done|].
    exists get, r, w1, s, w2. by split_and!.
  - intros (_ & g & r & w1 & s & w2 & [= <-] & Hr & Hd & (Hb & Hp & Hc) & Hs & Hsd & Ho & Hpub).
    rewrite Hr, Hd. simpl in *. rewrite Hb, Hp, Hc. simpl. rewrite Hs, Hsd, Ho. simpl. by rewrite Hpub.
Qed.

(** No publication an operator writes is ever accepted as the application's reader Secret. *)
Lemma hybridReaderSecret_spec cluster secret :
  hybridReaderSecret cluster secret = true ↔
  secret ≠ "" ∧ ∀ suffix, suffix ∈ hybrid_suffixes → secret ≠ cluster +:+ suffix.
Proof.
  unfold hybridReaderSecret. case_bool_decide; [split; [done|]; tauto|].
  rewrite negb_true_iff, <- not_true_iff_false, existsb_exists_elem.
  setoid_rewrite bool_decide_eq_true. naive_solver.
Qed.

(** The image a supported profile runs. *)
Lemma hybrid_profile cluster engine :
  hybridSourceProfile cluster engine = true →
  ∃ image f, NestedString (Object cluster) ["spec"; "imageName"] = Some (image, f) ∧
    NestedString (Object cluster) ["status"; "image"] = Some (image, true) ∧
    (image = hybrid_age_image ∧ (engine = "document" ∨ hybridAGEPreload cluster = true) ∨
     image = hybrid_image ∧ engine = "document").
Proof.
  unfold hybridSourceProfile.
  destruct (NestedFieldPresent _ _) as [[]|]; try done.
  destruct (NestedString _ ["spec"; "imageName"]) as [[image f]|]; [|done].
  destruct (_ && _); [done|].
  destruct (NestedString _ ["status"; "image"]) as [[current []]|]; try done.
  case_bool_decide as H1; simpl; [|done]. subst current. intros H. exists image, f.
  destruct (decide (image = hybrid_image)) as [->|Hne].
  - rewrite bool_decide_true in H by done. apply bool_decide_eq_true in H. by split_and!; auto.
  - rewrite (bool_decide_false (image = hybrid_image)) in H by done.
    destruct (decide (image = hybrid_age_image)) as [->|Hne'];
      [|by rewrite (bool_decide_false (image = hybrid_age_image)) in H].
    rewrite bool_decide_true in H by done. simpl in H. apply orb_true_iff in H.
    rewrite bool_decide_eq_true in H. split_and!; auto.
Qed.

Lemma hybrid_owner cluster secret :
  hybridCurrentOwner cluster secret = true →
  GetUID cluster ≠ "" ∧ ∃ owner, owner ∈ secret_OwnerReferences secret ∧
    owner_UID owner = GetUID cluster ∧ owner_Name owner = GetName cluster ∧
    owner_Kind owner = "Cluster" ∧ owner_APIVersion owner = "postgresql.cnpg.io/v1".
Proof.
  unfold hybridCurrentOwner. case_bool_decide as Hu; [done|].
  intros (o & Ho & H)%existsb_exists_elem. go_bool. destruct_and!. split; [done|].
  exists o. by split_and!.
Qed.

(** Not a user of the operator or of PostgreSQL itself. *)
Definition unprivileged (user : string) : Prop :=
  (user ∉ ["postgres"; "streaming_replica"]) ∧ HasPrefix user "pg_" = false ∧
  HasPrefix user "cnpg_" = false.

Lemma hybrid_publication annotations generation engine :
  hybridPublication annotations generation engine = true →
  (0 < generation)%Z ∧
  annotation annotations (hybrid_prefix +:+ "publication") = "v1" ∧
  annotation annotations (hybrid_prefix +:+ "access") = "read-only" ∧
  annotation annotations (hybrid_prefix +:+ "source-generation") = pretty generation ∧
  Matches hybridIdentifier (annotation annotations (hybrid_prefix +:+ "database")) ∧
  Matches hybridIdentifier (annotation annotations (hybrid_prefix +:+ "user")) ∧
  unprivileged (annotation annotations (hybrid_prefix +:+ "user")).
Proof.
  unfold hybridPublication. destruct (_ || _) eqn:H1; [done|].
  destruct (forallb _ ["database"; "user"]) eqn:H2; [|done]. cbn [negb].
  destruct (_ || _) eqn:H3 in |- *; [done|]. intros _.
  go_bool. destruct_and!. rewrite forallb_elem in H2. split_and!; auto.
  - apply MatchString_spec, (H2 "database"). set_solver.
  - apply MatchString_spec, (H2 "user"). set_solver.
  - split_and!; [set_solver|done|done].
Qed.

Lemma hybrid_configured cluster secret :
  hybridConfiguredReader cluster secret = true →
  ∀ path, path ∈ hybrid_paths → ∃ other f,
    NestedString (Object cluster) path = Some (other, f) ∧ other ≠ secret.
Proof.
  unfold hybridConfiguredReader. rewrite forallb_elem. intros H path Hp. specialize (H path Hp).
  unfold names_other in H. destruct (NestedString _ path) as [[other f]|]; [|done].
  go_bool. eauto.
Qed.
End Hybrid.

(** ** Properties *)

Section Properties.
Context `{E : Env} `{U : UnstructuredApi}.

(** C15: a ready hybrid source has a dedicated, current reader publication.  When the observation of a
    hybrid source is ready, its selection is valid and the two objects the reader answered, the Cluster
    of the declared name and then the declared Secret, both of the product's namespace and both live,
    show: the Secret is none of the operator's generated or configured publications and is owned by
    that very Cluster (version, kind, name and UID); the Cluster meets the condition contract and runs
    one of the two pinned images (the graph engine only the one with the preloaded extension); and the
    Secret's annotations are a read-only v1 publication for the Cluster's current generation with a
    valid database and a valid, unprivileged user. *)
Theorem hybrid_ready_dedicated_reader reader ctx namespace source w :
  S_Ready (fst (hybrid_Observe reader ctx namespace source w)) = true →
  let secretName := CS_Name (Source_ConnectionSecretRef source) in
  hybrid_invalid namespace source = false ∧
  ∃ cluster secret image f,
    live_objects cnpg_gv "Cluster" reader ctx namespace source w cluster secret ∧
    cnpg_contract cluster ∧
    (∀ suffix, suffix ∈ hybrid_suffixes → secretName ≠ RR_Name (Source_ResourceRef source) +:+ suffix) ∧
    (∀ path, path ∈ hybrid_paths → ∃ other f,
       NestedString (Object cluster) path = Some (other, f) ∧ other ≠ secretName) ∧
    NestedString (Object cluster) ["spec"; "imageName"] = Some (image, f) ∧
    NestedString (Object cluster) ["status"; "image"] = Some (image, true) ∧
    (image = hybrid_age_image ∧ (engine_type source = "document" ∨ hybridAGEPreload cluster = true) ∨
     image = hybrid_image ∧ engine_type source = "document") ∧
    GetUID cluster ≠ "" ∧
    (∃ owner, owner ∈ secret_OwnerReferences secret ∧ owner_UID owner = GetUID cluster ∧
       owner_Name owner = GetName cluster ∧ owner_Kind owner = "Cluster" ∧
       owner_APIVersion owner = "postgresql.cnpg.io/v1") ∧
    (0 < GetGeneration cluster)%Z ∧
    annotation (secret_Annotations secret) (hybrid_prefix +:+ "publication") = "v1" ∧
    annotation (secret_Annotations secret) (hybrid_prefix +:+ "access") = "read-only" ∧
    annotation (secret_Annotations secret) (hybrid_prefix +:+ "source-generation")
      = pretty (GetGeneration cluster) ∧
    Matches hybridIdentifier (annotation (secret_Annotations secret) (hybrid_prefix +:+ "database")) ∧
    Matches hybridIdentifier (annotation (secret_Annotations secret) (hybrid_prefix +:+ "user")) ∧
    unprivileged (annotation (secret_Annotations secret) (hybrid_prefix +:+ "user")).
Proof.
  intros [Hinv (cluster & secret & Hlive & (Hc & Hp & Hk) & Ho & Hpub)%typed_evidence_live]%hybrid_ready.
  assert (Hs : hybridReaderSecret (RR_Name (Source_ResourceRef source))
    (CS_Name (Source_ConnectionSecretRef source)) = true).
  { unfold hybrid_invalid in Hinv. apply orb_false_iff in Hinv as [_ H]. by apply negb_false_iff in H. }
  apply hybridReaderSecret_spec in Hs as [_ Hs].
  destruct (hybrid_profile _ _ Hp) as (image & f & Hi1 & Hi2 & Hi3).
  destruct (hybrid_owner _ _ Ho) as (Huid & owner & Hown).
  destruct (hybrid_publication _ _ _ Hpub) as (Hg & Hv & Ha & Hsg & Hdb & Hu1 & Hu2).
  split; [done|]. exists cluster, secret, image, f. split_and!; auto.
  - by apply hybrid_configured.
  - exists owner. destruct_and!. by split_and!.
Qed.
End Properties.

(** ** Witness *)

#[local] Existing Instances ref_env ref_unstructured.

Definition sample_hybrid : RefObject :=
  mkRefObject
    [("spec", AMap [("instances", AInt 1%Z); ("imageName", AString hybrid_image)]);
     ("status", AMap [("instances", AInt 1%Z); ("readyInstances", AInt 1%Z);
        ("image", AString hybrid_image);
        ("currentPrimary", AString "orders-1"); ("targetPrimary", AString "orders-1");
        ("conditions", ASlice [AMap [("type", AString "Ready"); ("status", AString "True")]])])]
    "orders" "uid-7" "Cluster" 2%Z None.
Definition sample_hybrid_secret : SecretMetadata :=
  mkSecret None [mkOwner "postgresql.cnpg.io/v1" "Cluster" "orders" "uid-7"]
    (list_to_map (map (λ p, (hybrid_prefix +:+ fst p, snd p))
      [("publication", "v1"); ("access", "read-only"); ("source-generation", "2");
       ("database", "shop"); ("user", "reader"); ("capability", "jsonb/v1"); ("schema", "public");
       ("table", "orders"); ("column", "doc")])).
Definition sample_hybrid_reader : SourceReader :=
  mkSourceReader (λ _ _ _ _ w, (inl sample_hybrid, w)) (λ _ _ w, (inl sample_hybrid_secret, w)).
Definition sample_hybrid_source : ProvisionedSource :=
  mkSource "cnpg-hybrid/v1" (Some (mkEngine "engine-provider/v1" "document" "cnpg-hybrid"))
    (mkResourceRef "postgresql.cnpg.io/v1" "Cluster" "orders") (mkSecretRef "orders-reader").

Lemma hybrid_ready_dedicated_reader_witness :
  hybrid_invalid "shop" sample_hybrid_source = false ∧
  ∃ cluster secret,
    live_objects cnpg_gv "Cluster" (Some sample_hybrid_reader) tt "shop" sample_hybrid_source
      sample_world cluster secret ∧ cnpg_contract cluster.
Proof.
  destruct (hybrid_ready_dedicated_reader (Some sample_hybrid_reader) tt "shop" sample_hybrid_source
    sample_world) as (Hi & c & s & image & f & Hl & H & _); [vm_compute; reflexivity|].
  split; [exact Hi|]. exists c, s. exact (conj Hl H).
Defined.
