(* ===== verification/Percona.v ===== *)
(** * Percona Server for MongoDB: the document engine provider

    [internal/provider/v1/percona.go]: the pinned single-replica-set profile and the declaration of a
    dedicated read-only application user. *)

From S2P Require Import Prelude Kube Api Reference Provisioner Cnpg.

Definition perconaSystemPublication : string := "percona-server-mongodb-users".

Definition perconaInvalid : SourceObservation :=
  source_unavailable "SourceInvalid"
    "Use one managed, unsharded replica set with positive size and no arbiter, non-voting, hidden or external members.".

Definition perconaNotReady : SourceObservation :=
  source_unavailable "SourceNotReady"
    "The source must report ready with every requested replica ready; inspect its status.".

(** [provisionerv1.Observation{Ready: true}]. *)
Definition source_ok : SourceObservation := mkSourceObs true "" "".

Section Percona.
Context `{E : Env} `{U : UnstructuredApi}.

(** [perconaFalse]. *)
Definition perconaFalse (object : list (string * any)) (fields : list string) : bool :=
  match NestedBool object fields with
  | None => false
  | Some (value, _) => negb value
  end.

(** The declared topology: the desired size of the one managed replica set, or [None]. *)
Definition percona_replica (replica : list (string * any)) : option Z :=
  if negb (perconaFalse replica ["arbiter"; "enabled"]) ||
     negb (perconaFalse replica ["nonvoting"; "enabled"]) ||
     negb (perconaFalse replica ["hidden"; "enabled"])
  then None
  else match NestedSlice replica ["externalNodes"] with
  | None => None
  | Some (external, _) =>
      if len external != 0%Z then None
      else match NestedString replica ["name"] with
      | None => None
      | Some (name, _) =>
          if name == "" then None
          else match NestedInt64 replica ["size"] with
          | None => None
          | Some (desired, _) => if (desired <=? 0)%Z then None else Some desired
          end
      end
  end.

(** The operator's report for a valid topology of [desired] members. *)
Definition percona_status (cluster : Unstructured) (desired : Z) : SourceObservation :=
  let object := Object cluster in
  match NestedString object ["status"; "state"] with
  | None => perconaNotReady
  | Some (state, _) =>
      if state == "error" then
        source_unavailable "SourceFailed"
          "The operator reports a source error; inspect the independently operated source."
      else if state != "ready" then perconaNotReady
      else if negb (generation_current (NestedInt64 object ["status"; "observedGeneration"])
                      (GetGeneration cluster))
      then perconaNotReady
      else if negb (forallb (count_is object desired) ["size"; "ready"]) then perconaNotReady
      else source_ok
  end.

(** [perconaReadiness]. *)
Definition perconaReadiness (cluster : Unstructured) : SourceObservation :=
  let object := Object cluster in
  let unsupported :=
    source_unavailable "SourceVersionUnsupported"
      "Use the supported Percona 1.23.0 resource profile and operator installation." in
  match NestedString object ["spec"; "crVersion"] with
  | None => unsupported
  | Some (version, _) =>
      if version != "1.23.0" then unsupported
      else match NestedBool object ["spec"; "pause"] with
      | None => perconaInvalid
      | Some (paused, _) =>
          if paused then
            source_unavailable "SourcePaused"
              "Resume the externally operated source before using this product."
          else if (GetUID cluster == "") || negb (perconaFalse object ["spec"; "unmanaged"]) ||
                  negb (perconaFalse object ["spec"; "sharding"; "enabled"])
          then perconaInvalid
          else match NestedSlice object ["spec"; "replsets"] with
          | Some ([AMap replica], true) =>
              match percona_replica replica with
              | None => perconaInvalid
              | Some desired => percona_status cluster desired
              end
          | _ => perconaInvalid
          end
      end
  end.

(** One role of the user is the built-in read role on an application database. *)
Definition percona_role (item : any) : bool :=
  match item with
  | AMap role =>
      match NestedString role ["name"] with
      | Some (roleName, _) =>
          if roleName != "read" then false
          else match NestedString role ["db"] with
          | None => false
          | Some (db, _) =>
              negb (existsb (λ reserved, db == reserved)
                      [""; "admin"; "local"; "config"; "$external"])
          end
      | None => false
      end
  | _ => false
  end.

(** [perconaReadOnlyUser]. *)
Definition perconaReadOnlyUser (user : list (string * any)) : bool :=
  match NestedString user ["name"] with
  | None => false
  | Some (name, _) =>
      if name == "" then false
      else if existsb (λ reserved, name == reserved)
                ["clusterAdmin"; "clusterMonitor"; "databaseAdmin"; "userAdmin"; "backup";
                 "operator"; "internal"]
      then false
      else match NestedString user ["db"] with
      | None => false
      | Some (authDB, _) =>
          if (authDB == "") || (authDB == "$external") then false
          else match NestedSlice user ["roles"] with
          | Some (roles, true) => if len roles == 0%Z then false else forallb percona_role roles
          | _ => false
          end
      end
  end.

Definition percona_paths : list (list string) :=
  [["spec"; "secrets"; "users"]; ["spec"; "secrets"; "keyFile"]; ["spec"; "secrets"; "sse"];
   ["spec"; "secrets"; "ssl"]; ["spec"; "secrets"; "sslInternal"];
   ["spec"; "secrets"; "encryptionKey"]; ["spec"; "secrets"; "vault"];
   ["spec"; "secrets"; "ldapSecret"]; ["spec"; "vault"; "tlsSecret"];
   ["spec"; "vault"; "syncUsers"; "tokenSecret"]].

Definition percona_reserved (clusterName : string) : list string :=
  ["internal-" +:+ clusterName +:+ "-users"; clusterName +:+ "-databaseadmin-conn-str";
   clusterName +:+ "-custom-user-secret"; clusterName +:+ "-custom-user-secret-conn-str";
   clusterName +:+ "-mongodb-keyfile"; clusterName +:+ "-mongodb-encryption-key";
   clusterName +:+ "-ssl"; clusterName +:+ "-ssl-internal"].

(** The operator's own reference at [path] can be read and differs. *)
Definition operator_other (object : list (string * any)) (secretName : string) (path : list string)
  : bool :=
  match NestedString object path with
  | None => false
  | Some (operatorSecret, _) => secretName != operatorSecret
  end.

(** The loop over [spec.users]; [names] are the names met so far, and [None] is [return false]. *)
Fixpoint percona_users (secretName : string) (users : list any) (names : gset string) (matches : Z)
  : option Z :=
  match users with
  | [] => Some matches
  | AMap user :: users' =>
      match NestedString user ["name"] with
      | None => None
      | Some (name, _) =>
          if name == "" then None
          else if bool_decide (name ∈ names) then None
          else match NestedString user ["passwordSecretRef"; "name"] with
          | None => None
          | Some (password, _) =>
              if (password != "") && (secretName == password +:+ "-conn-str") then None
              else if password != secretName
              then percona_users secretName users' ({[name]} ∪ names) matches
              else if negb (perconaReadOnlyUser user) then None
              else percona_users secretName users' ({[name]} ∪ names) (matches + 1)%Z
          end
      end
  | _ :: _ => None
  end.

(** [perconaApplicationPassword]. *)
Definition perconaApplicationPassword (cluster : Unstructured) (secretName : string) : bool :=
  if secretName == perconaSystemPublication then false
  else if negb (forallb (operator_other (Object cluster) secretName) percona_paths) then false
  else if existsb (λ reserved, secretName == reserved) (percona_reserved (GetName cluster)) then false
  else match NestedSlice (Object cluster) ["spec"; "users"] with
  | Some (users, true) =>
      match percona_users secretName users ∅ 0 with
      | Some matches => matches == 1%Z
      | None => false
      end
  | _ => false
  end.

Definition percona_gv : GroupVersion := mkGV "psmdb.percona.com" "v1".

Definition percona_owner (cluster : Unstructured) (owner : OwnerReference) : bool :=
  (owner_APIVersion owner == "psmdb.percona.com/v1") && (owner_Kind owner == "PerconaServerMongoDB") &&
  (owner_Name owner == GetName cluster) && (owner_UID owner == GetUID cluster).

Definition percona_invalid (namespace : string) (source : ProvisionedSource) : bool :=
  let ref := Source_ResourceRef source in
  let secretName := CS_Name (Source_ConnectionSecretRef source) in
  (namespace == "") || (RR_Name ref == "") || (RR_APIVersion ref != "psmdb.percona.com/v1") ||
  (RR_Kind ref != "PerconaServerMongoDB") || (Source_Adapter source != "percona-mongodb/v1") ||
  negb (engine_is source "native" ["document"]) ||
  ((secretName == "") || (secretName == perconaSystemPublication)).

(** [PerconaMongoDB.Observe]. *)
Definition percona_Observe (reader : option SourceReader) (ctx : Ctx) (namespace : string)
    (source : ProvisionedSource) : ST World SourceObservation :=
  let ref := Source_ResourceRef source in
  let secretName := CS_Name (Source_ConnectionSecretRef source) in
  if percona_invalid namespace source then
    mret (source_unavailable "SourceInvalid"
      "Use document/native with percona-mongodb/v1, a same-namespace PerconaServerMongoDB and a dedicated application password Secret.")
  else match reader with
  | None =>
      mret (source_unavailable "SourceUnavailable"
        "The provider reader is unavailable; check controller configuration.")
  | Some reader =>
      r ← get_resource reader ctx percona_gv "PerconaServerMongoDB" (mkKey namespace (RR_Name ref));
      match r with
      | inr err =>
          mret (provider_readFailure err "SourceNotFound"
            "Install the supported Percona operator and create the referenced PerconaServerMongoDB in this product's namespace.")
      | inl cluster =>
          if non_nil (GetDeletionTimestamp cluster) then
            mret (source_unavailable "SourceDeleting"
              "The source is being deleted; restore or replace its reference.")
          else if negb (S_Ready (perconaReadiness cluster)) then mret (perconaReadiness cluster)
          else if negb (perconaApplicationPassword cluster secretName) then
            mret (source_unavailable "ConnectionPublicationUnsupported"
              "Bind a dedicated password Secret to exactly one custom application user with only read roles on application databases.")
          else
            s ← get_secret reader ctx (mkKey namespace secretName);
            match s with
            | inr err =>
                mret (provider_readFailure err "ConnectionNotPublished"
                  "Publish the referenced application password Secret with an owner reference to the current source.")
            | inl secret =>
                if non_nil (secret_DeletionTimestamp secret) then
                  mret (source_unavailable "ConnectionNotPublished"
                    "The connection Secret is being deleted; wait for its publisher.")
                else if existsb (percona_owner cluster) (secret_OwnerReferences secret) then
                  mret (mkSourceObs true "SourceReady"
                    "The Document provider is ready and its declared application password Secret is published.")
                else mret (source_unavailable "ConnectionOwnerMismatch"
                  "The application password Secret must reference the current PerconaServerMongoDB; wait for its publisher to reconcile.")
            end
      end
  end.

(** ** What readiness means *)

(** An application user bound to the Secret: unreserved name, an application authentication database,
    and nothing but read roles on application databases. *)
Definition read_only_user (user : list (string * any)) : Prop :=
  (∃ name f, NestedString user ["name"] = Some (name, f) ∧
     name ∉ [""; "clusterAdmin"; "clusterMonitor"; "databaseAdmin"; "userAdmin"; "backup"; "operator";
             "internal"]) ∧
  (∃ db f, NestedString user ["db"] = Some (db, f) ∧ db ∉ [""; "$external"]) ∧
  ∃ roles, NestedSlice user ["roles"] = Some (roles, true) ∧ roles ≠ [] ∧
    ∀ item, item ∈ roles → ∃ role f1 db f2, item = AMap role ∧
      NestedString role ["name"] = Some ("read", f1) ∧ NestedString role ["db"] = Some (db, f2) ∧
      db ∉ [""; "admin"; "local"; "config"; "$external"].

Lemma len_nil {A} (l : list A) : len l = 0%Z ↔ l = [].
Proof. unfold len. destruct l; simpl; split; try done; lia. Qed.

Lemma not_reserved (s : string) (l : list string) : existsb (λ r, s == r) l = false ↔ s ∉ l.
Proof.
  rewrite <- not_true_iff_false, existsb_exists_elem. split.
  - intros H Hs. apply H. exists s. split; [done|]. by apply bool_decide_true.
  - intros H (r & Hr & Heq). apply bool_decide_eq_true in Heq as ->. done.
Qed.

Lemma percona_role_spec item :
  percona_role item = true ↔ ∃ role f1 db f2, item = AMap role ∧
    NestedString role ["name"] = Some ("read", f1) ∧ NestedString role ["db"] = Some (db, f2) ∧
    db ∉ [""; "admin"; "local"; "config"; "$external"].
Proof.
  unfold percona_role. destruct item as [| | | | | |role]; try (split; [done|naive_solver]).
  destruct (NestedString role ["name"]) as [[n f1]|] eqn:Hn; [|split; [done|naive_solver]].
  case_bool_decide as Hr; cbn [negb]; [|split; [done|naive_solver]].
  destruct (NestedString role ["db"]) as [[db f2]|] eqn:Hd; [|split; [done|naive_solver]].
  rewrite negb_true_iff, (not_reserved db). split.
  - intros H. exists role, f1, db, f2. by subst.
  - intros (r & g1 & d & g2 & [= <-] & ? & ? & H). by simplify_eq.
Qed.

Lemma perconaReadOnlyUser_spec user : perconaReadOnlyUser user = true ↔ read_only_user user.
Proof.
  unfold perconaReadOnlyUser, read_only_user.
  destruct (NestedString user ["name"]) as [[n f]|];
    [|split; [done|]; by intros ((? & ? & ? & _) & _)].
  destruct (NestedString user ["db"]) as [[db f']|].
  2:{ split; [by repeat split_guard|]. by intros (_ & (? & ? & ? & _) & _). }
  destruct (NestedSlice user ["roles"]) as [[roles []]|].
  2,3: split; [by repeat split_guard|]; by intros (_ & _ & ? & ? & _).
  assert (Hroles : forallb percona_role roles = true ↔ ∀ item, item ∈ roles → ∃ role f1 db f2,
    item = AMap role ∧ NestedString role ["name"] = Some ("read", f1) ∧
    NestedString role ["db"] = Some (db, f2) ∧
    db ∉ [""; "admin"; "local"; "config"; "$external"]).
  { rewrite forallb_elem. by setoid_rewrite percona_role_spec. }
  pose proof (len_nil roles) as Hlen. split.
  - case_bool_decide as H1; [done|]. destruct (existsb _ _) eqn:H2; [done|].
    destruct (_ || _) eqn:H3; [done|]. destruct (bool_decide (len roles = 0%Z)) eqn:H4; [done|]. intros H5.
    split_and!; [exists n, f|exists db, f'|exists roles]; split_and!; auto.
    + apply not_reserved in H2. by rewrite not_elem_of_cons.
    + go_bool. set_solver.
    + intros ->. by rewrite bool_decide_true in H4.
    + exact (proj1 Hroles H5).
  - intros ((n' & g & [= <- <-] & Hn) & (d & g' & [= <- <-] & Hd) & (r & [= <-] & Hne & Hr)).
    apply not_elem_of_cons in Hn as [Hn1 Hn2]. rewrite bool_decide_false by done.
    rewrite (proj2 (not_reserved n _) Hn2). rewrite !not_elem_of_cons in Hd.
    rewrite !bool_decide_false by naive_solver. simpl. exact (proj2 Hroles Hr).
Qed.

(** The users of the declaration: all are maps with distinct non-empty names, none has the Secret as
    its connection-string publication, and those whose password is the Secret are read-only. *)
Definition user_fields (item : any) : option (string * string * list (string * any)) :=
  match item with
  | AMap user =>
      match NestedString user ["name"], NestedString user ["passwordSecretRef"; "name"] with
      | Some (name, _), Some (password, _) => Some (name, password, user)
      | _, _ => None
      end
  | _ => None
  end.

Definition field_ok (secret : string) (names : gset string)
    (f : string * string * list (string * any)) : Prop :=
  let '(name, password, user) := f in
  name ≠ "" ∧ (name ∉ names) ∧ (password ≠ "" → secret ≠ password +:+ "-conn-str") ∧
  (password = secret → read_only_user user).

Definition binds (secret : string) (f : string * string * list (string * any)) : bool :=
  f.1.2 == secret.

(** Growing the set of names met so far is the distinctness of the later ones from the new name. *)
Lemma field_ok_insert secret names name (fs : list (string * string * list (string * any))) :
  Forall (field_ok secret ({[name]} ∪ names)) fs ↔
  Forall (field_ok secret names) fs ∧ name ∉ ((λ f, f.1.1) <$> fs).
Proof.
  induction fs as [|[[n p] u] fs IH]; csimpl.
  - split; [|constructor]. intros _. split; [constructor|apply not_elem_of_nil].
  - rewrite !Forall_cons_iff, IH, not_elem_of_cons. simpl.
    rewrite not_elem_of_union, not_elem_of_singleton. naive_solver.
Qed.

Lemma percona_users_spec secret users names m m' :
  percona_users secret users names m = Some m' ↔
  ∃ fs, mapM user_fields users = Some fs ∧ Forall (field_ok secret names) fs ∧
    NoDup ((λ f, f.1.1) <$> fs) ∧ m' = (m + len (List.filter (binds secret) fs))%Z.
Proof.
  revert names m. induction users as [|item users IH]; intros names m; simpl.
  { split.
    - intros [= ->]. exists []. split_and!; [done|constructor|constructor|unfold len; simpl; lia].
    - intros (fs & [= <-] & _ & _ & ->). f_equal. unfold len. simpl. lia. }
  destruct item as [| | | | | |user]; try (split; [done|]; by intros (fs & ? & _)). simpl.
  destruct (NestedString user ["name"]) as [[name f1]|]; [|split; [done|]; by intros (fs & ? & _)].
  destruct (NestedString user ["passwordSecretRef"; "name"]) as [[password f2]|].
  2:{ split; [by repeat split_guard|]. by intros (fs & ? & _). }
  simpl. transitivity (field_ok secret names (name, password, user) ∧
    percona_users secret users ({[name]} ∪ names)
      (m + if password == secret then 1 else 0)%Z = Some m').
  - unfold field_ok. rewrite <- perconaReadOnlyUser_spec.
    case_bool_decide as H1; [split; [done|tauto]|].
    case_bool_decide as H2; [split; [done|tauto]|].
    destruct ((password != "") && _) eqn:H3.
    { split; [done|]. go_bool. tauto. }
    assert (password ≠ "" → secret ≠ password +:+ "-conn-str") as H3'.
    { intros Hp Hs. rewrite bool_decide_false, bool_decide_true in H3 by done. done. }
    clear H3. case_bool_decide as H4; simpl.
    +       destruct (perconaReadOnlyUser user); simpl; [|split; [done|naive_solver]]. naive_solver.
    + rewrite Z.add_0_r. naive_solver.
  - rewrite IH. setoid_rewrite field_ok_insert. split.
    + intros (Hf & fs & Hm & [Hfs Hn] & Hd & ->). exists ((name, password, user) :: fs).
      rewrite Hm. csimpl. split_and!; [done|by constructor|by constructor|].
      unfold binds at 2. simpl. unfold len. destruct (bool_decide (password = secret)); simpl; lia.
    + intros (gs & Hm & Hgs & Hd & ->). destruct (mapM user_fields users) as [fs|]; [|done].
      injection Hm as <-. apply Forall_cons_iff in Hgs as [Hf Hfs]. csimpl in Hd.
      inversion_clear Hd as [|? ? Hn Hd']. split; [done|]. exists fs. split_and!; auto.
      unfold binds. simpl. unfold len. destruct (bool_decide (password = secret)); simpl; lia.
Qed.

(** The declaration binds the Secret to exactly one application user, and no operator publication has
    its name. *)
Definition application_password (cluster : Unstructured) (secret : string) : Prop :=
  secret ≠ perconaSystemPublication ∧ (secret ∉ percona_reserved (GetName cluster)) ∧
  (∀ path, path ∈ percona_paths →
     ∃ name f, NestedString (Object cluster) path = Some (name, f) ∧ name ≠ secret) ∧
  ∃ users fs, NestedSlice (Object cluster) ["spec"; "users"] = Some (users, true) ∧
    mapM user_fields users = Some fs ∧ NoDup ((λ f, f.1.1) <$> fs) ∧
    Forall (field_ok secret ∅) fs ∧ len (List.filter (binds secret) fs) = 1%Z.

Lemma perconaApplicationPassword_spec cluster secret :
  perconaApplicationPassword cluster secret = true ↔ application_password cluster secret.
Proof.
  unfold perconaApplicationPassword, application_password.
  case_bool_decide as H1; [split; [done|]; by intros [? _]|].
  assert (Hpaths : forallb (operator_other (Object cluster) secret) percona_paths = true ↔
    ∀ path, path ∈ percona_paths →
      ∃ name f, NestedString (Object cluster) path = Some (name, f) ∧ name ≠ secret).
  { rewrite forallb_elem. unfold operator_other. split; intros H path Hp; specialize (H path Hp).
    - destruct (NestedString _ path) as [[name f]|]; [|done]. go_bool. eauto.
    - destruct H as (name & f & -> & Hn). go_bool. congruence. }
  rewrite <- Hpaths, <- (not_reserved secret).
  destruct (forallb _ _); cbn [negb]; [|split; [done|]; by intros (_ & _ & ? & _)].
  destruct (existsb _ _); [split; [done|]; by intros (_ & ? & _)|].
  destruct (NestedSlice _ _) as [[users []]|];
    [|split; [done|]; by intros (_ & _ & _ & ? & ? & ? & _)..].
  transitivity (percona_users secret users ∅ 0 = Some 1%Z).
  { destruct (percona_users _ _ _ _); go_bool; naive_solver. }
  rewrite percona_users_spec. split.
  - intros (fs & Hm & Hf & Hd & Hl). split_and!; auto. exists users, fs. split_and!; auto; lia.
  - intros (_ & _ & _ & u & fs & [= <-] & Hm & Hd & Hf & Hl). exists fs. split_and!; auto; lia.
Qed.

(** The supported profile: the pinned version, neither paused nor unmanaged nor sharded, one replica
    set without special members, every requested member ready for the current generation. *)
Definition percona_profile (cluster : Unstructured) : Prop :=
  let object := Object cluster in
  ∃ f1 f2 replica desired f3, NestedString object ["spec"; "crVersion"] = Some ("1.23.0", f1) ∧
    NestedBool object ["spec"; "pause"] = Some (false, f2) ∧ GetUID cluster ≠ "" ∧
    perconaFalse object ["spec"; "unmanaged"] = true ∧
    perconaFalse object ["spec"; "sharding"; "enabled"] = true ∧
    NestedSlice object ["spec"; "replsets"] = Some ([AMap replica], true) ∧
    percona_replica replica = Some desired ∧
    NestedString object ["status"; "state"] = Some ("ready", f3) ∧
    generation_current (NestedInt64 object ["status"; "observedGeneration"]) (GetGeneration cluster)
      = true ∧
    count_is object desired "size" = true ∧ count_is object desired "ready" = true.

Lemma perconaReadiness_spec cluster :
  S_Ready (perconaReadiness cluster) = true ↔ percona_profile cluster.
Proof.
  unfold perconaReadiness, percona_profile. split.
  - destruct (NestedString _ ["spec"; "crVersion"]) as [[v f1]|]; [|done].
    case_bool_decide as Hv; simpl; [|done]. subst v.
    destruct (NestedBool _ ["spec"; "pause"]) as [[[] f2]|]; try done.
    destruct (_ || _) eqn:Hg; [done|]. go_bool. destruct_and!.
    destruct (NestedSlice _ _) as [[[|[| | | | | |r] [|]] []]|]; try done.
    destruct (percona_replica r) as [n|] eqn:Hr; [|done]. unfold percona_status.
    destruct (NestedString _ ["status"; "state"]) as [[st f3]|]; [|done].
    case_bool_decide; [done|]. case_bool_decide; simpl; [|done]. subst st.
    destruct (generation_current _ _); simpl; [|done].
    destruct (count_is _ n "size" && _) eqn:Hc; [|done]. intros _.
    rewrite andb_true_r, andb_true_iff in Hc. destruct_and!.
    exists f1, f2, r, n, f3. by split_and!.
  - intros (f1 & f2 & r & n & f3 & -> & -> & Hu & Hm & Hs & -> & -> & Hst & Hgen & H1 & H2).
    unfold percona_status. rewrite (bool_decide_false (GetUID cluster = "")) by done.
    rewrite Hm, Hs, Hst, Hgen. simpl. by rewrite H1, H2.
Qed.

Definition percona_check (source : ProvisionedSource) (cluster : Unstructured) : Prop :=
  percona_profile cluster ∧
  application_password cluster (CS_Name (Source_ConnectionSecretRef source)).
Definition percona_publish (cluster : Unstructured) (secret : SecretMetadata) : Prop :=
  ∃ owner, owner ∈ secret_OwnerReferences secret ∧ owner_APIVersion owner = "psmdb.percona.com/v1" ∧
    owner_Kind owner = "PerconaServerMongoDB" ∧ owner_Name owner = GetName cluster ∧
    owner_UID owner = GetUID cluster.

Lemma percona_owner_spec cluster secret :
  existsb (percona_owner cluster) (secret_OwnerReferences secret) = true ↔
  percona_publish cluster secret.
Proof.
  rewrite existsb_exists_elem. unfold percona_owner, percona_publish. split.
  - intros (o & Ho & H). go_bool. exists o. destruct_and!. by split_and!.
  - intros (o & Ho & H). exists o. go_bool. destruct_and!. by split_and!.
Qed.

Lemma percona_ready reader ctx namespace source w :
  S_Ready (fst (percona_Observe reader ctx namespace source w)) = true ↔
  percona_invalid namespace source = false ∧
  typed_evidence percona_gv "PerconaServerMongoDB" (percona_check source) percona_publish reader ctx
    namespace source w.
Proof.
  unfold percona_Observe, typed_evidence, percona_check, mbind, st_bind.
  setoid_rewrite <- percona_owner_spec. setoid_rewrite <- perconaReadiness_spec.
  setoid_rewrite <- perconaApplicationPassword_spec.
  destruct (percona_invalid _ _); [split; [done|]; by intros [? _]|].
  destruct reader as [get|]; [|split; [done|]; by intros (_ & ? & ? & ? & ? & ? & ? & _)].
  split.
  - destruct (get_resource _ _ _ _ _ w) as [[r|e] w1] eqn:Hr;
      [|simpl; unfold provider_readFailure; by repeat split_guard].
    destruct (GetDeletionTimestamp r) eqn:Hd; [done|]. simpl.
    destruct (S_Ready (perconaReadiness r)) eqn:Hb; [|simpl; congruence].
    destruct (perconaApplicationPassword _ _) eqn:Hp; [|done]. simpl.
    destruct (get_secret _ _ _ w1) as [[s|e] w2] eqn:Hs;
      [|simpl; unfold provider_readFailure; by repeat split_guard].
    destruct (secret_DeletionTimestamp s) eqn:Hsd; [done|]. simpl.
    destruct (existsb _ _) eqn:Ho; [|done]. intros _. split; [done|].
    exists get, r, w1, s, w2. by split_and!.
  - intros (_ & g & r & w1 & s & w2 & [= <-] & Hr & Hd & (Hb & Hp) & Hs & Hsd & Ho).
    rewrite Hr, Hd. simpl in *. rewrite Hb, Hp. simpl. by rewrite Hs, Hsd, Ho.
Qed.
End Percona.

(** ** Properties *)

Section Properties.
Context `{E : Env} `{U : UnstructuredApi}.

(** C14: a ready document source exposes a least-privilege password.  When the observation of a
    Percona source is ready, its selection is valid and the two objects the reader answered, the
    resource of the declared name and then the declared Secret, both of the product's namespace and
    both live, show: the resource is the pinned profile with every member ready, and the Secret is
    none of the operator's credential names, is owned by that resource, and is the password of exactly
    one user the resource declares, whose roles are all the built-in read role on application
    databases. *)
Theorem percona_ready_least_privilege reader ctx namespace source w :
  S_Ready (fst (percona_Observe reader ctx namespace source w)) = true →
  let secretName := CS_Name (Source_ConnectionSecretRef source) in
  percona_invalid namespace source = false ∧
  ∃ cluster secret users fs name user,
    live_objects percona_gv "PerconaServerMongoDB" reader ctx namespace source w cluster secret ∧
    percona_profile cluster ∧ percona_publish cluster secret ∧
    secretName ≠ perconaSystemPublication ∧
    (secretName ∉ percona_reserved (GetName cluster)) ∧
    (∀ path, path ∈ percona_paths → ∃ other f,
       NestedString (Object cluster) path = Some (other, f) ∧ other ≠ secretName) ∧
    NestedSlice (Object cluster) ["spec"; "users"] = Some (users, true) ∧
    mapM user_fields users = Some fs ∧
    List.filter (binds secretName) fs = [(name, secretName, user)] ∧ read_only_user user.
Proof.
  intros [Hinv (cluster & secret & Hlive & [Hp Ha] & Hpub)%typed_evidence_live]%percona_ready.
  destruct Ha as (H1 & H2 & H3 & users & fs & Hu & Hm & Hd & Hf & Hl). unfold len in Hl.
  destruct (List.filter (binds _) fs) as [|[[name password] user] [|]] eqn:Hfilter;
    simpl in Hl; try lia.
  assert (In (name, password, user) (List.filter (binds (CS_Name (Source_ConnectionSecretRef source))) fs))
    as Hin by (rewrite Hfilter; by left).
  apply filter_In in Hin as [Hin Hb]. unfold binds in Hb. simpl in Hb.
  apply bool_decide_eq_true in Hb as ->.
  rewrite List.Forall_forall in Hf. destruct (Hf _ Hin) as (_ & _ & _ & Hro).
  split; [done|]. exists cluster, secret, users, fs, name, user. split_and!; auto.
Qed.
End Properties.

(** ** Witness *)

#[local] Existing Instances ref_env ref_unstructured.

Definition sample_mongo : RefObject :=
  mkRefObject
    [("spec", AMap [("crVersion", AString "1.23.0");
        ("replsets", ASlice [AMap [("name", AString "rs0"); ("size", AInt 3%Z)]]);
        ("users", ASlice [AMap [("name", AString "reader"); ("db", AString "shop");
           ("passwordSecretRef", AMap [("name", AString "orders-reader")]);
           ("roles", ASlice [AMap [("name", AString "read"); ("db", AString "shop")]])]])]);
     ("status", AMap [("state", AString "ready"); ("size", AInt 3%Z); ("ready", AInt 3%Z)])]
    "orders" "uid-8" "PerconaServerMongoDB" 2%Z None.
Definition sample_mongo_secret : SecretMetadata :=
  mkSecret None [mkOwner "psmdb.percona.com/v1" "PerconaServerMongoDB" "orders" "uid-8"] ∅.
Definition sample_mongo_reader : SourceReader :=
  mkSourceReader (λ _ _ _ _ w, (inl sample_mongo, w)) (λ _ _ w, (inl sample_mongo_secret, w)).
Definition sample_document : ProvisionedSource :=
  mkSource "percona-mongodb/v1" (Some (mkEngine "engine-provider/v1" "document" "native"))
    (mkResourceRef "psmdb.percona.com/v1" "PerconaServerMongoDB" "orders")
    (mkSecretRef "orders-reader").

Lemma percona_ready_least_privilege_witness :
  percona_invalid "shop" sample_document = false ∧
  ∃ cluster secret user,
    live_objects percona_gv "PerconaServerMongoDB" (Some sample_mongo_reader) tt "shop" sample_document
      sample_world cluster secret ∧ read_only_user user.
Proof.
  destruct (percona_ready_least_privilege (Some sample_mongo_reader) tt "shop" sample_document
    sample_world) as (Hi & c & s & us & fs & name & user & Hl & _ & _ & _ & _ & _ & _ & _ & _ & H);
    [vm_compute; reflexivity|].
  split; [exact Hi|]. exists c, s, user. exact (conj Hl H).
Defined.
