(* ===== verification/Arango.v ===== *)
(** * ArangoDB: the graph engine provider

    [internal/provider/v1/arango.go] and [arango_checksum.go].  The typed deployment belongs to the
    operator's own Go module: the record below has the fields and accessor results the provider uses,
    and decoding, JSON encoding and SHA-256 are operations of an interface. *)

From Stdlib Require Import Ascii.
From S2P Require Import Prelude Kube Api Regex GoJson GoStrings Reference Provisioner Cnpg CnpgHybrid Percona.

(** ** The operator's API *)

Record ArangoCondition := mkArangoCondition { AC_Type : string; AC_Status : string }.
Record ImageInfo := mkImageInfo {
  Image_Image : string;
  Image_ImageID : string;
  Image_Version : string;
  Image_Enterprise : bool
}.
Record MemberStatus := mkMember {
  Member_ID : string;
  Member_Phase : string;
  Member_Pod : option (string * string);  (* name and UID *)
  Member_Image : option ImageInfo;
  Member_ImageID : string;
  Member_Version : string;
  Member_Conditions : list ArangoCondition
}.

(** The encodings the checksum is built from; [None] is a non-nil error. *)
Class ArangoApi := {
  RawSpec : Type;  (* the whole [DeploymentSpec] *)
  PVC : Type;
  marshal_spec : RawSpec → option string;
  (** [VolumeClaimTemplate] of each group of [AllServerGroups], in order *)
  claims : RawSpec → list (option PVC);
  marshal_pvc : PVC → option string;
  marshal_metadata : PVC → option string;
  (** the decoding of metadata into the operator's field order, encoded again *)
  legacy_metadata : string → option string;
  sha256_hex : string → string;
  (** The operator's constants. *)
  DeploymentModeSingle : string;
  DeploymentPhaseFailed : string;
  DeploymentPhaseRunning : string;
  MemberPhaseCreated : string;
  ConditionTypeReady : string;
  ConditionTypeSpecAccepted : string;
  ConditionTypeUpToDate : string;
  ConditionTypeBootstrapCompleted : string;
  ConditionTypeBootstrapSucceded : string;
  ConditionTypeUpdateFailed : string;
  ConditionTypeUpgradeFailed : string;
  ConditionTypeSecretsChanged : string;
  ConditionTypeUpdateInProgress : string;
  ConditionTypeUpgradeInProgress : string;
  ConditionTypePendingUpdate : string;
  ConditionTypeUpdating : string;
  ConditionTypeRestart : string;
  ConditionTypePendingRestart : string;
  ConditionTypeTerminating : string;
  ConditionTypeTerminated : string;
  ConditionTypePVCResizePending : string;
  (** [ConditionList.IsTrue] *)
  IsTrue : list ArangoCondition → string → bool;
  (** [MemberStatus.ArangoMemberName] for the single group *)
  ArangoMemberName : MemberStatus → string → string
}.

Record DeploymentSpec `{ArangoApi} := mkArangoSpec {
  A_Raw : RawSpec;
  A_Image : option string;
  A_Mode : option string;
  A_SingleCount : option Z;
  A_IsAuthenticated : bool;
  A_JWTSecretName : string;
  A_CASecretName : string;
  A_MetricsSecretName : string;
  A_LicenseSecretName : string;
  A_EncryptionSecretName : string;
  A_RestoreEncryptionSecret : option string;
  A_SNI : list string;                      (* keys of the mapping *)
  A_ImagePullSecrets : list string;
  A_PasswordSecretNames : list (string * string)  (* user and Secret name *)
}.
Record ArangoDeployment `{ArangoApi} := mkArango {
  A_Name : string;
  A_Spec : DeploymentSpec;
  A_AcceptedSpec : option DeploymentSpec;
  A_AcceptedSpecVersion : option string;
  A_AppliedVersion : string;
  A_Phase : string;
  A_Conditions : list ArangoCondition;
  A_CurrentImage : option ImageInfo;
  A_Members : list MemberStatus
}.

Definition arangoImage : string := "arangodb:3.12.12".
Definition arangoImageDigest : string :=
  "sha256:4bc086d5050ca7ea11c6d00a36d8b910c838bb54ad553f8c1b715769d3499bcf".

(** [arangoSupportedImage]. *)
Definition arangoSupportedImage (image : string) : bool :=
  existsb (λ supported, image == supported)
    [arangoImage; arangoImage +:+ "@" +:+ arangoImageDigest; "arangodb@" +:+ arangoImageDigest;
     "docker.io/library/" +:+ arangoImage +:+ "@" +:+ arangoImageDigest;
     "docker.io/library/arangodb@" +:+ arangoImageDigest].

Definition arangoInvalid : SourceObservation :=
  source_unavailable "SourceInvalid"
    "Use graph/native with arangodb/v1, an authenticated single-server ArangoDeployment and a dedicated application password Secret.".

Definition arangoNotReady : SourceObservation :=
  source_unavailable "SourceNotReady"
    "The current specification must be accepted and applied with successful bootstrap and one ready Graph member; inspect source status.".

(** [arangoCurrentImage]. *)
Definition arangoCurrentImage (image : option ImageInfo) (expected : string) : bool :=
  let enterpriseBuild := HasSuffix expected ("@" +:+ arangoImageDigest) in
  match image with
  | None => false
  | Some i =>
      (Image_Image i == expected) && (Image_ImageID i != "") && (Image_Version i == "3.12.12") &&
      Bool.eqb (Image_Enterprise i) enterpriseBuild
  end.

(** [arangoConditions]: the first loop builds the map, [None] is [return false]. *)
Fixpoint arango_seen (conditions : list ArangoCondition) (seen : gmap string bool)
  : option (gmap string bool) :=
  match conditions with
  | [] => Some seen
  | c :: conditions' =>
      if (AC_Type c == "") || ((AC_Status c != "True") && (AC_Status c != "False")) then None
      else if non_nil (seen !! AC_Type c) then None
      else arango_seen conditions' (<[AC_Type c := AC_Status c == "True"]> seen)
  end.
Definition arangoConditions (conditions : list ArangoCondition) (required : list string) : bool :=
  match arango_seen conditions ∅ with
  | None => false
  | Some seen => forallb (λ kind, default false (seen !! kind)) required
  end.

(** A letter followed by at most 63 letters, digits, underscores or hyphens. *)
Definition arangoApplicationName : re :=
  let letter := λ a, upper a || lower a in
  RCat (RClass letter)
    (RUpTo 63 (RClass (λ a, letter a || digit a || is_char "_" a || is_char "-" a))).

(** [strings.ToLower] on ASCII; the name it is applied to has matched [arangoApplicationName]. *)
Definition lower_byte (a : ascii) : ascii := if upper a then ascii_of_N (N_of_ascii a + 32) else a.
Fixpoint ToLower (s : string) : string :=
  match s with
  | String.EmptyString => ""
  | String.String a s' => String.String (lower_byte a) (ToLower s')
  end.

(** The loop over the collections. *)
Fixpoint arango_collections (collections : list string) (seen : gset string) : bool :=
  match collections with
  | [] => true
  | name :: collections' =>
      if negb (MatchString arangoApplicationName name) || bool_decide (name ∈ seen) then false
      else arango_collections collections' ({[name]} ∪ seen)
  end.

(** [arangoPublication]. *)
Definition arangoPublication (annotations : gmap string string) : bool :=
  let at_ (field : string) := annotation annotations ("data.devantler.tech/" +:+ field) in
  if (at_ "arango-publication" != "v1") || (at_ "arango-access" != "read-only") then false
  else if negb (forallb (λ field, MatchString arangoApplicationName (at_ field))
                  ["arango-user"; "arango-database"; "arango-graph"])
  then false
  else if existsb (λ reserved, ToLower (at_ "arango-user") == reserved)
            ["root"; "operator"; "internal"; "backup"]
  then false
  else
    let collectionNames := at_ "arango-collections" in
    if (64 * 64 + 63 <? slen collectionNames)%Z then false
    else
      let collections := Split collectionNames "," in
      if (64 <? len collections)%Z then false else arango_collections collections ∅.

Section Arango.
Context `{E : Env} `{U : UnstructuredApi} `{A : ArangoApi}.

(** [arangoSpecChecksum]: every complete claim fragment of the encoding is replaced by its encoding
    with the operator's metadata. *)
Definition metadata_key : string := quote_byte +:+ "metadata" +:+ quote_byte +:+ ":".
Fixpoint replace_claims (encoded : string) (groups : list (option PVC)) : option string :=
  match groups with
  | [] => Some encoded
  | None :: groups' => replace_claims encoded groups'
  | Some pvc :: groups' =>
      current ← marshal_pvc pvc;
      metadata ← marshal_metadata pvc;
      legacy ← legacy_metadata metadata;
      let operator := ReplaceFirst current (metadata_key +:+ metadata) (metadata_key +:+ legacy) in
      replace_claims (ReplaceAll encoded current operator) groups'
  end.
Definition arangoSpecChecksum (spec : DeploymentSpec) : option string :=
  encoded ← marshal_spec (A_Raw spec);
  encoded ← replace_claims encoded (claims (A_Raw spec));
  Some (sha256_hex encoded).

Definition pointer_is {T} `{EqDecision T} (p : option T) (x : T) : bool :=
  match p with None => false | Some y => y == x end.

(** The live spec and the accepted one, where the latter may be nil. *)
Definition specs (d : ArangoDeployment) : list DeploymentSpec :=
  A_Spec d :: match A_AcceptedSpec d with Some s => [s] | None => [] end.

(** The accepted specification repeats the supported profile of the live one. *)
Definition accepted_profile (d : ArangoDeployment) (image : string) : bool :=
  match A_AcceptedSpec d with
  | None => false
  | Some s =>
      pointer_is (A_Mode s) DeploymentModeSingle && pointer_is (A_SingleCount s) 1%Z &&
      pointer_is (A_Image s) image && (A_JWTSecretName s != "") && A_IsAuthenticated s
  end.

(** The one member runs the current image and has no pending operation. *)
Definition member_ready (d : ArangoDeployment) (image : string) (member : MemberStatus) : bool :=
  (Member_ID member != "") && (Member_Phase member == MemberPhaseCreated) &&
  match Member_Pod member with None => false | Some (name, uid) => (name != "") && (uid != "") end &&
  arangoCurrentImage (Member_Image member) image &&
  match Member_Image member, A_CurrentImage d with
  | Some m, Some c =>
      (Image_ImageID m == Image_ImageID c) && (Member_ImageID member == Image_ImageID c)
  | _, _ => false
  end &&
  (Member_Version member == "3.12.12") && arangoConditions (Member_Conditions member) [ConditionTypeReady] &&
  negb (existsb (IsTrue (Member_Conditions member))
    [ConditionTypeUpdateFailed; ConditionTypeUpgradeFailed; ConditionTypePendingUpdate; ConditionTypeUpdating; ConditionTypeRestart; ConditionTypePendingRestart;
     ConditionTypeTerminating; ConditionTypeTerminated; ConditionTypePVCResizePending]).

(** [arangoReadiness]. *)
Definition arangoReadiness (d : ArangoDeployment) : SourceObservation :=
  match A_Image (A_Spec d) with
  | Some image =>
      if negb (arangoSupportedImage image) then
        source_unavailable "SourceVersionUnsupported"
          "Use the supported official ArangoDB 3.12.12 image and operator 1.4.5 API profile."
      else if negb (pointer_is (A_Mode (A_Spec d)) DeploymentModeSingle) ||
              negb (pointer_is (A_SingleCount (A_Spec d)) 1%Z) ||
              negb (A_IsAuthenticated (A_Spec d))
      then arangoInvalid
      else if existsb (λ spec, existsb (λ p, fst p != "root") (A_PasswordSecretNames spec)) (specs d)
      then arangoInvalid
      else if (A_Phase d == DeploymentPhaseFailed) ||
              existsb (IsTrue (A_Conditions d))
                [ConditionTypeUpdateFailed; ConditionTypeUpgradeFailed; ConditionTypeSecretsChanged]
      then
        source_unavailable "SourceFailed"
          "The operator reports a source failure; inspect the independently operated source."
      else match arangoSpecChecksum (A_Spec d) with
      | None => arangoNotReady
      | Some checksum =>
          if negb (pointer_is (A_AcceptedSpecVersion d) checksum) then arangoNotReady
          else if (A_AppliedVersion d != checksum) || (A_Phase d != DeploymentPhaseRunning) ||
                  negb (accepted_profile d image) ||
                  existsb (IsTrue (A_Conditions d))
                    [ConditionTypeUpdateInProgress; ConditionTypeUpgradeInProgress] ||
                  negb (arangoConditions (A_Conditions d)
                          [ConditionTypeReady; ConditionTypeSpecAccepted; ConditionTypeUpToDate;
                           ConditionTypeBootstrapCompleted; ConditionTypeBootstrapSucceded])
          then arangoNotReady
          else if negb (arangoCurrentImage (A_CurrentImage d) image) ||
                  (len (A_Members d) != 1%Z)
          then arangoNotReady
          else match A_Members d with
          | [member] => if member_ready d image member then source_ok else arangoNotReady
          | _ => arangoNotReady
          end
      end
  | None =>
      source_unavailable "SourceVersionUnsupported"
        "Use the supported official ArangoDB 3.12.12 image and operator 1.4.5 API profile."
  end.

(** One specification's operator-owned credential names. *)
Definition spec_secrets (spec : DeploymentSpec) : list string :=
  [A_JWTSecretName spec; A_CASecretName spec; A_MetricsSecretName spec; A_LicenseSecretName spec;
   A_EncryptionSecretName spec] ++
  match A_RestoreEncryptionSecret spec with Some s => [s] | None => [] end ++
  A_SNI spec ++ A_ImagePullSecrets spec ++ map snd (A_PasswordSecretNames spec).

Definition arango_suffixes : list string :=
  ["-jwt"; "-jwt-folder"; "-root-password"; "-exporter-jwt-token"; "-ca"; "-rlm"; "-truststore";
   "-encryption-folder"].

(** [arangoOperatorSecret]. *)
Definition arangoOperatorSecret (d : ArangoDeployment) (name : string) : bool :=
  existsb (λ suffix, name == A_Name d +:+ suffix) arango_suffixes ||
  existsb (λ member, name == ArangoMemberName member (A_Name d) +:+ "-tls-keyfile") (A_Members d) ||
  existsb (λ spec, existsb (λ secret, name == secret) (spec_secrets spec)) (specs d).

Definition arango_gv : GroupVersion := mkGV "database.arangodb.com" "v1".

Definition arango_invalid (namespace : string) (source : ProvisionedSource) : bool :=
  let ref := Source_ResourceRef source in
  (namespace == "") || (RR_Name ref == "") || (RR_APIVersion ref != "database.arangodb.com/v1") ||
  (RR_Kind ref != "ArangoDeployment") || (Source_Adapter source != "arangodb/v1") ||
  negb (engine_is source "native" ["graph"]) || (CS_Name (Source_ConnectionSecretRef source) == "").

Definition arango_owner (ref : ProvisionedResourceReference) (resource : Unstructured)
    (owner : OwnerReference) : bool :=
  (owner_APIVersion owner == RR_APIVersion ref) && (owner_Kind owner == RR_Kind ref) &&
  (owner_Name owner == GetName resource) && (owner_UID owner == GetUID resource).

(** [ArangoDB.Observe]; [decode] is [MarshalJSON] followed by [json.Unmarshal]. *)
Definition arango_Observe (decode : Unstructured → option ArangoDeployment)
    (reader : option SourceReader) (ctx : Ctx) (namespace : string) (source : ProvisionedSource)
  : ST World SourceObservation :=
  let ref := Source_ResourceRef source in
  let secretName := CS_Name (Source_ConnectionSecretRef source) in
  if arango_invalid namespace source then mret arangoInvalid
  else match reader with
  | None =>
      mret (source_unavailable "SourceUnavailable"
        "The provider reader is unavailable; check controller configuration.")
  | Some reader =>
      r ← get_resource reader ctx arango_gv "ArangoDeployment" (mkKey namespace (RR_Name ref));
      match r with
      | inr err =>
          mret (provider_readFailure err "SourceNotFound"
            "Install the supported ArangoDB operator and create the referenced ArangoDeployment in this product's namespace.")
      | inl resource =>
          if non_nil (GetDeletionTimestamp resource) then
            mret (source_unavailable "SourceDeleting"
              "The source is being deleted; restore or replace its reference.")
          else if GetUID resource == "" then mret arangoInvalid
          else match decode resource with
          | None => mret arangoInvalid
          | Some deployment =>
              if negb (S_Ready (arangoReadiness deployment)) then mret (arangoReadiness deployment)
              else if arangoOperatorSecret deployment secretName then
                mret (source_unavailable "ConnectionPublicationUnsupported"
                  "Publish a dedicated application password Secret; root and operator credentials are unsupported.")
              else
                s ← get_secret reader ctx (mkKey namespace secretName);
                match s with
                | inr err =>
                    mret (provider_readFailure err "ConnectionNotPublished"
                      "Publish the referenced application password Secret with the Graph publication contract and current source ownership.")
                | inl secret =>
                    if non_nil (secret_DeletionTimestamp secret) then
                      mret (source_unavailable "ConnectionNotPublished"
                        "The application password Secret is being deleted; wait for its publisher.")
                    else if negb (arangoPublication (secret_Annotations secret)) then
                      mret (source_unavailable "ConnectionPublicationUnsupported"
                        "Publish v1 metadata for a dedicated read-only application user, database, graph and explicit collections.")
                    else if existsb (arango_owner ref resource) (secret_OwnerReferences secret) then
                      mret (mkSourceObs true "SourceReady"
                        "The Graph provider reports current-spec readiness and its declared application password is published.")
                    else mret (source_unavailable "ConnectionOwnerMismatch"
                      "The application password Secret must reference the current ArangoDeployment; wait for its publisher to reconcile.")
                end
          end
      end
  end.
End Arango.

(** ** What readiness means *)

Section Spec.
Context `{E : Env} `{U : UnstructuredApi} `{A : ArangoApi}.

(** An unambiguous condition list in which every required type is True. *)
Definition conditions_hold (conditions : list ArangoCondition) (required : list string) : Prop :=
  NoDup (AC_Type <$> conditions) ∧
  Forall (λ c, AC_Type c ≠ "" ∧ (AC_Status c = "True" ∨ AC_Status c = "False")) conditions ∧
  ∀ kind, kind ∈ required → mkArangoCondition kind "True" ∈ conditions.

Lemma arango_seen_spec conditions seen seen' :
  arango_seen conditions seen = Some seen' →
  NoDup (AC_Type <$> conditions) ∧
  Forall (λ c, AC_Type c ≠ "" ∧ (AC_Status c = "True" ∨ AC_Status c = "False") ∧
               seen !! AC_Type c = None) conditions ∧
  ∀ kind b, seen' !! kind = Some b ↔
    seen !! kind = Some b ∨ ∃ c, c ∈ conditions ∧ AC_Type c = kind ∧ b = (AC_Status c == "True").
Proof.
  revert seen. induction conditions as [|c conditions IH]; intros seen; simpl.
  { intros [= ->]. split_and!; [constructor|constructor|]. intros kind b. split; [by left|].
    intros [?|(c & ?%elem_of_nil & _)]; done. }
  destruct (_ || _) eqn:Hg; [done|]. destruct (seen !! AC_Type c) eqn:Hs; [done|]. simpl.
  intros (Hd & Hf & Hl)%IH. csimpl.
  assert (Hc : AC_Type c ≠ "" ∧ (AC_Status c = "True" ∨ AC_Status c = "False")).
  { apply orb_false_iff in Hg as [H1 H2]. apply bool_decide_eq_false in H1. split; [done|].
    destruct (decide (AC_Status c = "True")); [by left|right].
    destruct (decide (AC_Status c = "False")); [done|]. by rewrite !bool_decide_false in H2. }
  assert (Hne : Forall (λ d, AC_Type d ≠ AC_Type c) conditions).
  { eapply Forall_impl; [|exact Hf]. intros d (_ & _ & Hd') Heq.
    rewrite Heq, lookup_insert_eq in Hd'. done. }
  split_and!.
  - constructor; [|done]. intros (d & Heq & Hin)%list_elem_of_fmap.
    rewrite List.Forall_forall in Hne. by apply (Hne d); [apply list_elem_of_In|].
  - constructor; [naive_solver|]. rewrite List.Forall_forall in Hf, Hne |- *. intros d Hin.
    specialize (Hf d Hin) as (H1 & H2 & H3). specialize (Hne d Hin).
    rewrite lookup_insert_ne in H3 by congruence. done.
  - intros kind b. rewrite Hl, lookup_insert_Some. setoid_rewrite elem_of_cons. split.
    + intros [[[<- <-]|[Hk Hb]]|(d & Hd' & H1 & H2)]; [right; exists c; naive_solver|by left|].
      right. exists d. naive_solver.
    + intros [Hb|(d & [->|Hin] & H1 & H2)].
      * left. right. split; [|done]. intros <-. congruence.
      * left. left. by subst.
      * right. by exists d.
Qed.

(** The converse: an unambiguous list is accepted. *)
Lemma arango_seen_total conditions seen :
  NoDup (AC_Type <$> conditions) →
  Forall (λ c, AC_Type c ≠ "" ∧ (AC_Status c = "True" ∨ AC_Status c = "False") ∧
               seen !! AC_Type c = None) conditions →
  is_Some (arango_seen conditions seen).
Proof.
  revert seen. induction conditions as [|c conditions IH]; intros seen Hd Hf; simpl; [by eexists|].
  csimpl in Hd. inversion_clear Hd as [|? ? Hn Hd'].
  apply Forall_cons_iff in Hf as [(H1 & H2 & H3) Hf]. rewrite bool_decide_false by done. simpl.
  rewrite H3. destruct ((AC_Status c != "True") && _) eqn:Hg.
  { destruct H2 as [H2|H2]; rewrite H2 in Hg; done. }
  simpl. apply IH; [done|]. rewrite List.Forall_forall in Hf |- *. intros d Hin.
  specialize (Hf d Hin) as (H4 & H5 & H6). split_and!; auto.
  rewrite lookup_insert_ne; [done|]. intros Heq. apply Hn. rewrite Heq.
  apply list_elem_of_fmap. exists d. split; [done|]. by apply list_elem_of_In.
Qed.

Lemma arangoConditions_spec conditions required :
  arangoConditions conditions required = true ↔ conditions_hold conditions required.
Proof.
  unfold arangoConditions, conditions_hold. split.
  - destruct (arango_seen conditions ∅) as [seen|] eqn:Hs; [|done].
    apply arango_seen_spec in Hs as (Hd & Hf & Hl). rewrite forallb_elem. intros Hr.
    split_and!; [done|eapply Forall_impl; [|exact Hf]; naive_solver|].
    intros kind Hk. specialize (Hr kind Hk). destruct (seen !! kind) as [b|] eqn:Hb; [|done].
    simpl in Hr. subst b. apply Hl in Hb as [Hb|([t st] & Hin & Ht & Hst)]; [by rewrite lookup_empty in Hb|].
    simpl in *. symmetry in Hst. apply bool_decide_eq_true in Hst. by subst.
  - intros (Hd & Hf & Hr).
    destruct (arango_seen_total conditions ∅ Hd) as [seen Hs].
    { eapply Forall_impl; [|exact Hf]. intros c [? ?]. split_and!; auto. }
    rewrite Hs. apply forallb_elem. intros kind Hk.
    apply arango_seen_spec in Hs as (_ & _ & Hl).
    rewrite (proj2 (Hl kind true)); [done|]. right.
    exists (mkArangoCondition kind "True"). split_and!; auto.
Qed.

(** The collections published for the application: distinct valid names. *)
Lemma arango_collections_spec collections seen :
  arango_collections collections seen = true ↔
  NoDup collections ∧
  Forall (λ name, MatchString arangoApplicationName name = true ∧ name ∉ seen) collections.
Proof.
  revert seen. induction collections as [|name collections IH]; intros seen; simpl.
  - split; [|done]. split; constructor.
  - destruct (_ || _) eqn:Hg.
    + split; [done|]. intros [_ [[H1 H2] _]%Forall_cons_iff]. rewrite H1, bool_decide_false in Hg; done.
    + go_bool. destruct Hg as [H1 H2]. rewrite IH, Forall_cons_iff. split.
      * intros [Hd Hf]. rewrite List.Forall_forall in Hf. split.
        -- constructor; [|done]. intros Hin%list_elem_of_In. destruct (Hf name Hin). set_solver.
        -- split; [done|]. apply List.Forall_forall. intros n Hin. destruct (Hf n Hin). set_solver.
      * intros [Hd [_ Hf]]. inversion_clear Hd as [|? ? Hn Hd']. split; [done|].
        rewrite List.Forall_forall in Hf |- *. intros n Hin. destruct (Hf n Hin) as [H3 H4].
        split; [done|]. apply list_elem_of_In in Hin. rewrite not_elem_of_union, not_elem_of_singleton.
        split; [|done]. by intros ->.
Qed.

Lemma arango_publication annotations :
  arangoPublication annotations = true →
  let at_ field := annotation annotations ("data.devantler.tech/" +:+ field) in
  let collections := Split (at_ "arango-collections") "," in
  at_ "arango-access" = "read-only" ∧
  (ToLower (at_ "arango-user") ∉ ["root"; "operator"; "internal"; "backup"]) ∧
  (len collections ≤ 64)%Z ∧ NoDup collections ∧
  Forall (λ name, Matches arangoApplicationName name) collections.
Proof.
  unfold arangoPublication. destruct (_ || _) eqn:H1; [done|].
  destruct (forallb _ _); [|done]. cbn [negb].
  destruct (existsb _ _) eqn:H2; [done|]. destruct (_ <? _)%Z; [done|].
  destruct (_ <? _)%Z eqn:H3; [done|]. intros [Hd Hf]%arango_collections_spec.
  apply not_reserved in H2. go_bool. destruct_and!. split_and!; auto.
  eapply Forall_impl; [|exact Hf]. intros name [Hm _]. by apply MatchString_spec.
Qed.

Lemma pointer_is_spec {T} `{EqDecision T} (p : option T) (x : T) : pointer_is p x = true ↔ p = Some x.
Proof. unfold pointer_is. destruct p; go_bool; naive_solver. Qed.

(** The supported profile: the pinned image in an authenticated single-server mode with no bootstrap
    user but root, no reported failure, the current specification (by its checksum) accepted and
    applied, an unambiguous set of success conditions, and one member on the current image. *)
Definition arango_profile (d : ArangoDeployment) : Prop :=
  ∃ image checksum member, A_Image (A_Spec d) = Some image ∧ arangoSupportedImage image = true ∧
    A_Mode (A_Spec d) = Some DeploymentModeSingle ∧ A_SingleCount (A_Spec d) = Some 1%Z ∧
    A_IsAuthenticated (A_Spec d) = true ∧
    existsb (λ spec, existsb (λ p, fst p != "root") (A_PasswordSecretNames spec)) (specs d) = false ∧
    A_Phase d ≠ DeploymentPhaseFailed ∧
    existsb (IsTrue (A_Conditions d))
      [ConditionTypeUpdateFailed; ConditionTypeUpgradeFailed; ConditionTypeSecretsChanged] = false ∧
    arangoSpecChecksum (A_Spec d) = Some checksum ∧ A_AcceptedSpecVersion d = Some checksum ∧
    A_AppliedVersion d = checksum ∧ A_Phase d = DeploymentPhaseRunning ∧
    accepted_profile d image = true ∧
    existsb (IsTrue (A_Conditions d))
      [ConditionTypeUpdateInProgress; ConditionTypeUpgradeInProgress] = false ∧
    conditions_hold (A_Conditions d)
      [ConditionTypeReady; ConditionTypeSpecAccepted; ConditionTypeUpToDate;
       ConditionTypeBootstrapCompleted; ConditionTypeBootstrapSucceded] ∧
    arangoCurrentImage (A_CurrentImage d) image = true ∧ A_Members d = [member] ∧
    member_ready d image member = true.

#[local] Arguments existsb : simpl never.

Lemma arangoReadiness_spec d : S_Ready (arangoReadiness d) = true ↔ arango_profile d.
Proof.
  unfold arangoReadiness, arango_profile. setoid_rewrite <- arangoConditions_spec. split.
  - destruct (A_Image (A_Spec d)) as [image|]; [|done].
    destruct (arangoSupportedImage image) eqn:H1; [|done]. simpl.
    destruct (_ || _) eqn:H2; [done|]. destruct (existsb _ (specs d)) eqn:H3; [done|].
    destruct (_ || _) eqn:H4 in |- *; [done|].
    destruct (arangoSpecChecksum _) as [checksum|] eqn:H5; [|done].
    destruct (pointer_is (A_AcceptedSpecVersion d) checksum) eqn:H6; [|done]. simpl.
    destruct (_ || _) eqn:H7 in |- *; [done|].
    destruct (arangoCurrentImage _ image) eqn:H8; [|done]. simpl.
    destruct (_ != _) in |- *; [done|].
    destruct (A_Members d) as [|member [|]]; [done| |done].
    destruct (member_ready d image member) eqn:H9; [|done]. intros _.
    go_bool. rewrite pointer_is_spec in *. destruct_and!.
    exists image, checksum, member. split_and!; try done. by apply pointer_is_spec.
  - intros (image & checksum & member & -> & -> & H1 & H2 & H3 & H4 & H5 & H6 & -> & H7 & H8 & H9 &
      H10 & H11 & H12 & H13 & H14 & H15).
    rewrite H1, H2, H3, H4, H6, H7, H8, H10, H11, H12, H13, H14, H15.
    rewrite !bool_decide_false, (bool_decide_true (A_Phase d = DeploymentPhaseRunning)) by done.
    unfold pointer_is. rewrite !bool_decide_true by done. done.
Qed.

Definition arango_check (decode : Unstructured → option ArangoDeployment)
    (source : ProvisionedSource) (resource : Unstructured) : Prop :=
  GetUID resource ≠ "" ∧ ∃ d, decode resource = Some d ∧ arango_profile d ∧
    arangoOperatorSecret d (CS_Name (Source_ConnectionSecretRef source)) = false.
Definition arango_publish (source : ProvisionedSource) (resource : Unstructured)
    (secret : SecretMetadata) : Prop :=
  arangoPublication (secret_Annotations secret) = true ∧
  ∃ owner, owner ∈ secret_OwnerReferences secret ∧
    owner_APIVersion owner = RR_APIVersion (Source_ResourceRef source) ∧
    owner_Kind owner = RR_Kind (Source_ResourceRef source) ∧ owner_Name owner = GetName resource ∧
    owner_UID owner = GetUID resource.

Lemma arango_owner_spec source resource secret :
  arangoPublication (secret_Annotations secret) = true ∧
  existsb (arango_owner (Source_ResourceRef source) resource) (secret_OwnerReferences secret) = true ↔
  arango_publish source resource secret.
Proof.
  rewrite existsb_exists_elem. unfold arango_owner, arango_publish.
  split; intros (Hp & o & Ho & H); (split; [done|]); exists o; go_bool; destruct_and!; by split_and!.
Qed.

Lemma arango_ready decode reader ctx namespace source w :
  S_Ready (fst (arango_Observe decode reader ctx namespace source w)) = true ↔
  arango_invalid namespace source = false ∧
  typed_evidence arango_gv "ArangoDeployment" (arango_check decode source) (arango_publish source)
    reader ctx namespace source w.
Proof.
  unfold arango_Observe, typed_evidence, arango_check, mbind, st_bind.
  setoid_rewrite <- arango_owner_spec. setoid_rewrite <- arangoReadiness_spec.
  destruct (arango_invalid _ _); [split; [done|]; by intros [? _]|].
  destruct reader as [get|]; [|split; [done|]; by intros (_ & ? & ? & ? & ? & ? & ? & _)].
  split.
  - destruct (get_resource _ _ _ _ _ w) as [[r|e] w1] eqn:Hr;
      [|simpl; unfold provider_readFailure; by repeat split_guard].
    destruct (GetDeletionTimestamp r) eqn:Hd; [done|]. simpl.
    destruct (bool_decide (GetUID r = "")) eqn:Hu; [done|]. apply bool_decide_eq_false in Hu.
    destruct (decode r) as [d|] eqn:Hdec; [|done].
    destruct (S_Ready (arangoReadiness d)) eqn:Hb; [|simpl; congruence]. simpl.
    destruct (arangoOperatorSecret d _) eqn:Hop; [done|].
    destruct (get_secret _ _ _ w1) as [[s|e] w2] eqn:Hs;
      [|simpl; unfold provider_readFailure; by repeat split_guard].
    destruct (secret_DeletionTimestamp s) eqn:Hsd; [done|]. simpl.
    destruct (arangoPublication _) eqn:Hp; [|done]. simpl.
    destruct (existsb _ _) eqn:Ho; [|done]. intros _. split; [done|].
    exists get, r, w1, s, w2. split_and!; auto. by exists d.
  - intros (_ & g & r & w1 & s & w2 & [= <-] & Hr & Hd & (Hu & d & Hdec & Hb & Hop) & Hs & Hsd & Hp & Ho).
    rewrite Hr, Hd. simpl. rewrite bool_decide_false by done. rewrite Hdec, Hb. simpl.
    by rewrite Hop, Hs, Hsd, Hp, Ho.
Qed.
End Spec.

(** ** Properties *)

Section Properties.
Context `{E : Env} `{U : UnstructuredApi} `{A : ArangoApi}.

End Properties.

(** ** Witness *)

#[local] Existing Instances ref_env ref_unstructured.

(** An operator API whose encodings are the identity. *)
Definition sample_arango_api : ArangoApi := {|
  RawSpec := string; PVC := string;
  marshal_spec := Some; claims := λ s, [Some s; None]; marshal_pvc := Some;
  marshal_metadata := Some; legacy_metadata := Some; sha256_hex := λ s, s;
  DeploymentModeSingle := "Single"; DeploymentPhaseFailed := "Failed";
  DeploymentPhaseRunning := "Running"; MemberPhaseCreated := "Created";
  ConditionTypeReady := "Ready"; ConditionTypeSpecAccepted := "SpecAccepted";
  ConditionTypeUpToDate := "UpToDate"; ConditionTypeBootstrapCompleted := "BootstrapCompleted";
  ConditionTypeBootstrapSucceded := "BootstrapSucceded";
  ConditionTypeUpdateFailed := "UpdateFailed"; ConditionTypeUpgradeFailed := "UpgradeFailed";
  ConditionTypeSecretsChanged := "SecretsChanged";
  ConditionTypeUpdateInProgress := "UpdateInProgress";
  ConditionTypeUpgradeInProgress := "UpgradeInProgress";
  ConditionTypePendingUpdate := "PendingUpdate"; ConditionTypeUpdating := "Updating";
  ConditionTypeRestart := "Restart"; ConditionTypePendingRestart := "PendingRestart";
  ConditionTypeTerminating := "Terminating"; ConditionTypeTerminated := "Terminated";
  ConditionTypePVCResizePending := "PVCResizePending";
  IsTrue := λ cs t, existsb (λ c, (AC_Type c == t) && (AC_Status c == "True")) cs;
  ArangoMemberName := λ m n, n +:+ "-" +:+ Member_ID m
|}.
#[local] Existing Instance sample_arango_api.

Definition sample_arango_spec : DeploymentSpec :=
  mkArangoSpec _ "spec" (Some arangoImage) (Some "Single") (Some 1%Z) true "jwt" "ca" "metrics" "license"
    "key" None [] [] [("root", "root-password")].
Definition sample_image : ImageInfo := mkImageInfo arangoImage "image-id" "3.12.12" false.
Definition sample_arango : ArangoDeployment :=
  mkArango _ "orders" sample_arango_spec (Some sample_arango_spec) (Some "spec") "spec" "Running"
    (map (λ t, mkArangoCondition t "True")
       ["Ready"; "SpecAccepted"; "UpToDate"; "BootstrapCompleted"; "BootstrapSucceded"])
    (Some sample_image)
    [mkMember "m1" "Created" (Some ("pod", "uid")) (Some sample_image) "image-id" "3.12.12"
       [mkArangoCondition "Ready" "True"]].
Definition sample_graph_reader : SourceReader :=
  mkSourceReader
    (λ _ _ _ _ w, (inl (mkRefObject [] "orders" "uid-9" "ArangoDeployment" 2%Z None), w))
    (λ _ _ w, (inl (mkSecret None
       [mkOwner "database.arangodb.com/v1" "ArangoDeployment" "orders" "uid-9"]
       (list_to_map (map (λ p, ("data.devantler.tech/" +:+ fst p, snd p))
          [("arango-publication", "v1"); ("arango-access", "read-only"); ("arango-user", "reader");
           ("arango-database", "shop"); ("arango-graph", "orders");
           ("arango-collections", "orders,customers")]))), w)).
Definition sample_graph : ProvisionedSource :=
  mkSource "arangodb/v1" (Some (mkEngine "engine-provider/v1" "graph" "native"))
    (mkResourceRef "database.arangodb.com/v1" "ArangoDeployment" "orders")
    (mkSecretRef "orders-reader").

