(* ===== verification/Provider.v ===== *)
(** * Provider registry: dispatch of a source to exactly one observation contract

    [internal/provider/v1/provider.go].  [Provider] is the interface of the Go package: anything that
    observes a source.  The registry validates the selection before any read, bounds the typed
    providers to five seconds and withdraws every result of an expired context. *)

From S2P Require Import Prelude Kube Api Regex GoStrings Reference Provisioner.
From S2P Require Import Cnpg CnpgHybrid Percona Arango.

Section Provider.
Context `{E : Env} `{U : UnstructuredApi} `{A : ArangoApi}.

(** [Provider.Observe]. *)
Definition Provider : Type := Ctx → string → ProvisionedSource → ST World SourceObservation.

Record Registry := mkRegistry {
  Registry_Reader : option SourceReader;
  Registry_LegacyReader : option SourceReader;
  Registry_Mapper : option RESTMapper;
  (** decoding of an ArangoDeployment *)
  Registry_decode : Unstructured → option ArangoDeployment
}.

(** The cases of the switch. *)
Inductive selection := SelectCrossplane | SelectCnpg | SelectHybrid | SelectPercona | SelectArango.

Definition select (source : ProvisionedSource) : option selection :=
  let engine_v1 (t p : string) :=
    match Source_Engine source with
    | None => false
    | Some e =>
        (Engine_APIVersion e == "engine-provider/v1") && (Engine_Type e == t) &&
        (Engine_Provider e == p)
    end in
  let adapter := Source_Adapter source in
  if negb (non_nil (Source_Engine source)) && (adapter == "crossplane/v1") then Some SelectCrossplane
  else if engine_v1 "sql" "native" && (adapter == "cnpg/v1") then Some SelectCnpg
  else if (engine_v1 "document" "cnpg-hybrid" || engine_v1 "graph" "cnpg-hybrid") &&
          (adapter == "cnpg-hybrid/v1") then Some SelectHybrid
  else if engine_v1 "document" "native" && (adapter == "percona-mongodb/v1") then Some SelectPercona
  else if engine_v1 "graph" "native" && (adapter == "arangodb/v1") then Some SelectArango
  else None.

(** The selected implementation. *)
Definition selected (r : Registry) (s : selection) : Provider :=
  match s with
  | SelectCrossplane =>
      crossplane_Observe
        (match Registry_LegacyReader r with Some l => Some l | None => Registry_Reader r end)
        (Registry_Mapper r)
  | SelectCnpg => cnpg_Observe (Registry_Reader r)
  | SelectHybrid => hybrid_Observe (Registry_Reader r)
  | SelectPercona => percona_Observe (Registry_Reader r)
  | SelectArango => arango_Observe (Registry_decode r) (Registry_Reader r)
  end.

(** Only the typed providers run under their own deadline. *)
Definition with_deadline (s : selection) (ctx : Ctx) : ST World Ctx :=
  match s with
  | SelectCrossplane => mret ctx
  | _ => WithTimeout ctx (5 * Second)
  end.

(** [Registry.Observe]. *)
Definition registry_Observe (r : Registry) : Provider := λ ctx namespace source,
  match select source with
  | None =>
      mret (source_unavailable "EngineProviderUnsupported"
        "Select a supported engine type, provider and versioned adapter.")
  | Some s =>
      ctx ← with_deadline s ctx;
      observation ← selected r s ctx namespace source;
      err ← Err ctx;
      mret (if non_nil err then
              source_unavailable "SourceUnavailable"
                "The source observation was cancelled or exceeded its deadline; retry when the Kubernetes API is available."
            else observation)
  end.

(** ** The evidence each selection demands *)

Definition invalid_selection (s : selection) (namespace : string) (source : ProvisionedSource)
  : bool :=
  match s with
  | SelectCrossplane =>
      crossplane_invalid namespace source
        (ParseGroupVersion (RR_APIVersion (Source_ResourceRef source)))
  | SelectCnpg => cnpg_invalid namespace source
  | SelectHybrid => hybrid_invalid namespace source
  | SelectPercona => percona_invalid namespace source
  | SelectArango => arango_invalid namespace source
  end.

Definition evidence (r : Registry) (s : selection) (ctx : Ctx) (namespace : string)
    (source : ProvisionedSource) (w : World) : Prop :=
  let reader := Registry_Reader r in
  match s with
  | SelectCrossplane =>
      crossplane_evidence
        (match Registry_LegacyReader r with Some l => Some l | None => reader end)
        (Registry_Mapper r) ctx namespace source w
  | SelectCnpg =>
      typed_evidence cnpg_gv "Cluster" cnpg_check cnpg_publish reader ctx namespace source w
  | SelectHybrid =>
      typed_evidence cnpg_gv "Cluster" (hybrid_check source) (hybrid_publish source) reader ctx
        namespace source w
  | SelectPercona =>
      typed_evidence percona_gv "PerconaServerMongoDB" (percona_check source) percona_publish reader
        ctx namespace source w
  | SelectArango =>
      typed_evidence arango_gv "ArangoDeployment" (arango_check (Registry_decode r) source)
        (arango_publish source) reader ctx namespace source w
  end.

Lemma selected_ready r s ctx namespace source w :
  S_Ready (fst (selected r s ctx namespace source w)) = true →
  invalid_selection s namespace source = false ∧ evidence r s ctx namespace source w.
Proof.
  destruct s; simpl.
  - intros H%crossplane_ready. split; [|done].
    destruct H as (v & ? & ? & ? & ? & ? & ? & ? & Hv & Hinv & _). by rewrite Hv.
  - apply cnpg_ready.
  - apply hybrid_ready.
  - apply percona_ready.
  - apply arango_ready.
Qed.

(** ** Properties *)

(** C12: a ready source is backed by exactly one contract.  A ready observation of the registry means
    that the selection is supported, the contract it selects found its complete evidence (resource and
    Secret of the product's own namespace, both live, owned and current), and the deadline had not
    passed when the observation ended. *)
Theorem registry_ready_sound r ctx namespace source w :
  S_Ready (fst (registry_Observe r ctx namespace source w)) = true →
  ∃ s ctx' w1 o w2, select source = Some s ∧ with_deadline s ctx w = (ctx', w1) ∧
    selected r s ctx' namespace source w1 = (o, w2) ∧ fst (Err ctx' w2) = None ∧
    invalid_selection s namespace source = false ∧ evidence r s ctx' namespace source w1.
Proof.
  unfold registry_Observe. destruct (select source) as [s|]; [|done]. unfold mbind, st_bind.
  destruct (with_deadline s ctx w) as [ctx' w1] eqn:Hb.
  destruct (selected r s ctx' namespace source w1) as [o w2] eqn:Hs.
  destruct (Err ctx' w2) as [[e|] w3] eqn:He; simpl; [done|]. intros Ho.
  destruct (selected_ready r s ctx' namespace source w1) as [Hi Hv]; [by rewrite Hs|].
  exists s, ctx', w1, o, w2. by rewrite He.
Qed.

(** An API version the marker admits parses to a group that is not empty. *)
Lemma admitted_api_version `{!GroupVersionLaws} s :
  MatchString resourceAPIVersion s = true → ∃ v, ParseGroupVersion s = Some v ∧ gv_Group v ≠ "".
Proof.
  intros (g & s2 & -> & Hg & H2)%MatchString_spec%cat_inv.
  apply cat_inv in H2 as (slash & v & -> & Hs & Hv).
  assert (slash = "/") as ->.
  { inversion Hs as [|f b Hb| | | | |]; subst. by apply Ascii.eqb_eq in Hb as <-. }
  assert (g ≠ "") as Hne.
  { intros ->. apply MatchString_spec in Hg. done. }
  exists (mkGV g v). split; [|done]. apply ParseGroupVersion_parts; [done|..].
  - eapply avoids_spec; [exact Hg|]. by vm_compute.
  - eapply avoids_spec; [exact Hv|]. by vm_compute.
Qed.

Lemma admitted_name name : name_fields name = true → name ≠ "".
Proof. by intros H ->. Qed.
Lemma admitted_kind kind : MatchString resourceKind kind = true → kind ≠ "".
Proof. by intros H ->. Qed.

(** C13: the admission rule and the dispatch agree.  Every source that the admission rule and all
    field markers of the API accept is dispatched, in a named namespace, to a contract whose own
    selection guard accepts it, the guard of the Crossplane contract on the parsed API version
    included; a source that is not dispatched is refused without touching the cluster. *)
Theorem admitted_source_dispatched `{!GroupVersionLaws} r ctx namespace source w :
  (source_rule source = true → source_fields source = true → namespace ≠ "" →
     ∃ s, select source = Some s ∧ invalid_selection s namespace source = false) ∧
  (select source = None →
     registry_Observe r ctx namespace source w =
       (source_unavailable "EngineProviderUnsupported"
          "Select a supported engine type, provider and versioned adapter.", w)).
Proof.
  split.
  - intros Hrule Hfields Hns. destruct source as [adapter engine [rav rk rn] [secret]].
    unfold source_rule, source_fields, resource_fields in *. cbn in Hrule, Hfields.
    apply andb_true_iff in Hfields as [Hfields Hsecret%admitted_name].
    apply andb_true_iff in Hfields as [Hfields [[Hav Hkind%admitted_kind]%andb_true_iff
      Hname%admitted_name]%andb_true_iff].
    destruct engine as [[av t p]|].
    + apply andb_true_iff in Hfields as [_ Hengine].
      unfold engine_fields in Hengine. cbn in Hengine.
      unfold native_rule, hybrid_rule in Hrule. cbn in Hrule. go_bool. destruct_and!. subst av.
      destruct Hrule as [[-> Hrule]|Hrule]; [destruct Hrule as [[Hrule|Hrule]|Hrule]|];
        destruct_and!; subst;
        [exists SelectCnpg|exists SelectPercona|exists SelectArango|exists SelectHybrid].
      4: match goal with H : _ = "document" ∨ _ |- _ => destruct H as [->| ->] end.
      all: split; [reflexivity|].
      all: unfold invalid_selection, cnpg_invalid, percona_invalid, arango_invalid, hybrid_invalid,
        hybridReaderSecret; simpl; go_bool; split_and!; try done.
      all: by rewrite !bool_decide_false by done.
    + go_bool. subst adapter. exists SelectCrossplane. split; [reflexivity|]. cbn.
      destruct (admitted_api_version rav Hav) as (v & -> & Hv). cbn. go_bool. by split_and!.
  - intros Hs. unfold registry_Observe. by rewrite Hs.
Qed.
End Provider.

(** ** Witnesses *)

#[local] Existing Instances ref_env ref_unstructured ref_group_version_laws.

#[local] Existing Instance sample_arango_api.

Definition sample_cluster : RefObject :=
  mkRefObject
    [("spec", AMap [("instances", AInt 3%Z)]);
     ("status", AMap [("instances", AInt 3%Z); ("readyInstances", AInt 3%Z);
        ("currentPrimary", AString "orders-1"); ("targetPrimary", AString "orders-1");
        ("conditions", ASlice [AMap [("type", AString "Ready"); ("status", AString "True")]])])]
    "orders" "uid-7" "Cluster" 2%Z None.
Definition sample_cluster_secret : SecretMetadata :=
  mkSecret None [mkOwner "postgresql.cnpg.io/v1" "Cluster" "orders" "uid-7"] ∅.
Definition sample_registry : Registry :=
  mkRegistry
    (Some (mkSourceReader (λ _ _ _ _ w, (inl sample_cluster, w))
                          (λ _ _ w, (inl sample_cluster_secret, w))))
    None None (λ _, None).
Definition sample_sql : ProvisionedSource :=
  mkSource "cnpg/v1" (Some (mkEngine "engine-provider/v1" "sql" "native"))
    (mkResourceRef "postgresql.cnpg.io/v1" "Cluster" "orders") (mkSecretRef "orders-app").

Lemma registry_ready_sound_witness :
  ∃ s, select sample_sql = Some s ∧ invalid_selection s "shop" sample_sql = false.
Proof.
  destruct (registry_ready_sound sample_registry tt "shop" sample_sql sample_world)
    as (s & ctx' & w1 & o & w2 & H1 & _ & _ & _ & H2 & _); [vm_compute; reflexivity|].
  exists s. split; [exact H1|exact H2].
Defined.

Definition sample_crossplane : ProvisionedSource :=
  mkSource "crossplane/v1" None (mkResourceRef "example.org/v1alpha1" "XDatabase" "orders")
    (mkSecretRef "orders-connection").

Lemma admitted_source_dispatched_witness :
  (∃ s, select sample_sql = Some s ∧ invalid_selection s "shop" sample_sql = false) ∧
  (∃ s, select sample_crossplane = Some s ∧ invalid_selection s "shop" sample_crossplane = false).
Proof.
  split.
  - destruct (admitted_source_dispatched sample_registry tt "shop" sample_sql sample_world) as [H _].
    apply H; [vm_compute; reflexivity|vm_compute; reflexivity|discriminate].
  - destruct (admitted_source_dispatched sample_registry tt "shop" sample_crossplane sample_world)
      as [H _].
    apply H; [vm_compute; reflexivity|vm_compute; reflexivity|discriminate].
Defined.
