(* ===== verification/Contracts.v ===== *)
(** * Contract checks of a product's outputs

    [internal/controller/contracts.go]: at most eight probes, one per distinct output, observed under
    one deadline; the first failing selection is reported. *)

From S2P Require Import Prelude Kube Api GoStrings Reference Connector.

Section Contracts.
Context `{E : Env} `{C : ConditionApi} `{N : NameValidation} `{F : GoFmt}.

(** The contract URL of the first output of that name, or the empty string. *)
Definition contract_target (outputs : list OutputPort) (name : string) : string :=
  match find_first (λ o, Output_Name o == name) outputs with
  | Some o => Output_ContractURL o
  | None => ""
  end.

(** The loop of [checkContracts]; [seen] holds the outputs met so far. *)
Fixpoint check_loop (reader : option (Reader Deployment)) (ctx : Ctx) (product : DataProduct)
    (checks : list ContractCheck) (seen : gset string) : ST World Observation :=
  match checks with
  | [] =>
      mret (mkObs true "ContractsReady"
        "All selected contract probes match the current URLs and are available.")
  | check :: checks' =>
      if bool_decide (Check_Output check ∈ seen) then
        mret (unavailable "ContractChecksInvalid"
          "Select each output only once for contract checks.")
      else
        let target := contract_target (Outputs (Spec product)) (Check_Output check) in
        if target == "" then
          mret (unavailable "ContractOutputNotFound" "Select an existing output with a contract URL.")
        else
          observation ← ObserveContract reader ctx (Namespace (Meta product))
                          (Check_ResourceRef check) target;
          if negb (Ready observation) then
            mret (mkObs (Ready observation) (Reason observation)
              ("Output " +:+ Quote (Check_Output check) +:+ ": " +:+ Message observation))
          else check_loop reader ctx product checks' ({[Check_Output check]} ∪ seen)
  end.

(** [checkContracts]. *)
Definition checkContracts (reader : option (Reader Deployment)) (ctx : Ctx) (product : DataProduct)
  : ST World Observation :=
  if (8 <? len (ContractChecks (Spec product)))%Z then
    mret (unavailable "ContractChecksInvalid"
      "Select at most eight distinct outputs for contract checks.")
  else
    ctx ← WithTimeout ctx (5 * Second);
    check_loop reader ctx product (ContractChecks (Spec product)) ∅.

(** The condition of an observation, bound to the product's generation. *)
Definition observation_condition (kind : string) (product : DataProduct) (o : Observation)
  : Condition :=
  mkCondition kind (if Ready o then ConditionTrue else ConditionFalse) (Generation (Meta product))
    0%Z (Reason o) (Message o).

(** [observeContracts]. *)
Definition observeContracts (reader : option (Reader Deployment)) (ContractsEnabled : Flag)
    (ctx : Ctx) (product : DataProduct) : ST World DataProduct :=
  if (len (ContractChecks (Spec product)) =? 0)%Z then
    mret (set_Conditions
      (RemoveStatusCondition (Conditions (Status product)) ConditionContractsReady) product)
  else
    on ← flag_on ContractsEnabled ctx;
    observation ←
      (if (on : bool) then checkContracts reader ctx product
       else mret (unavailable "ContractFeatureDisabled"
         "Enable contract-readiness to observe the selected contract probes."));
    cs ← set_condition (Conditions (Status product))
           (observation_condition ConditionContractsReady product observation);
    mret (set_Conditions cs product).

(** ** What readiness means *)

(** A probe bound to the output's own contract URL is rolled out. *)
Definition contract_probed (reader : option (Reader Deployment)) (product : DataProduct)
    (check : ContractCheck) : Prop :=
  ∃ output get ctx workload w w', output ∈ Outputs (Spec product) ∧
    Output_Name output = Check_Output check ∧ Output_ContractURL output ≠ "" ∧ reader = Some get ∧
    get ctx (mkKey (Namespace (Meta product)) (CR_Name (Check_ResourceRef check))) w
      = (inl workload, w') ∧
    rolled_out workload ∧ probes workload (Output_ContractURL output).

Lemma ObserveContract_ready reader ctx namespace ref target w :
  Ready (fst (ObserveContract reader ctx namespace ref target w)) = true →
  target ≠ "" ∧ ∃ get ctx' workload w1 w2, reader = Some get ∧
    get ctx' (mkKey namespace (CR_Name ref)) w1 = (inl workload, w2) ∧
    rolled_out workload ∧ probes workload target.
Proof.
  unfold ObserveContract. destruct (_ || _) eqn:Ht; [done|]. go_bool. destruct_and!.
  unfold mbind, st_bind.
  pose proof (observe_ready reader ctx namespace (mkConnector "deployment/v1" ref) target w) as Hr.
  destruct (observe _ _ _ _ _ w) as [o w']. simpl in *. intros Ho. split; [done|].
  destruct (Hr Ho) as (_ & get & ctx' & w1 & workload & w2 & Hrd & _ & Hg & _ & Hro & Hp).
  exists get, ctx', workload, w1, w2. split_and!; auto. by destruct Hp.
Qed.

Lemma check_loop_ready reader ctx product checks seen w :
  Ready (fst (check_loop reader ctx product checks seen w)) = true →
  NoDup (Check_Output <$> checks) ∧ Forall (λ c, Check_Output c ∉ seen) checks ∧
  Forall (contract_probed reader product) checks.
Proof.
  revert seen w. induction checks as [|check checks IH]; intros seen w; simpl.
  { intros _. split_and!; constructor. }
  case_bool_decide as Hs; [done|]. case_bool_decide as Ht; [done|].
  unfold mbind, st_bind.
  pose proof (ObserveContract_ready reader ctx (Namespace (Meta product)) (Check_ResourceRef check)
    (contract_target (Outputs (Spec product)) (Check_Output check)) w) as Hr.
  destruct (ObserveContract _ _ _ _ _ w) as [o w']. simpl in Hr.
  destruct (Ready o) eqn:Ho; simpl; [|congruence]. intros (Hd & Hf & Hp)%IH. csimpl.
  destruct (Hr eq_refl) as (_ & get & ctx' & workload & w1 & w2 & Hrd & Hg & Hro & Hpr).
  split_and!.
  - constructor; [|done]. intros (c & Heq & Hin)%list_elem_of_fmap.
    rewrite List.Forall_forall in Hf. apply (Hf c); [by apply list_elem_of_In|]. set_solver.
  - constructor; [done|]. eapply Forall_impl; [|exact Hf]. set_solver.
  - constructor; [|done]. unfold contract_target in *.
    destruct (find_first _ _) as [output|] eqn:Hout; [|done].
    apply find_first_elem in Hout as [Hin Hname]. apply bool_decide_eq_true in Hname.
    exists output, get, ctx', workload, w1, w2. by split_and!.
Qed.

Lemma checkContracts_ready reader ctx product w :
  Ready (fst (checkContracts reader ctx product w)) = true →
  (len (ContractChecks (Spec product)) ≤ 8)%Z ∧
  NoDup (Check_Output <$> ContractChecks (Spec product)) ∧
  Forall (contract_probed reader product) (ContractChecks (Spec product)).
Proof.
  unfold checkContracts. destruct (_ <? _)%Z eqn:Hn; [done|]. unfold mbind, st_bind.
  destruct (WithTimeout _ _ w) as [ctx' w']. intros (H1 & _ & H2)%check_loop_ready. go_bool. auto.
Qed.

(** The condition left by [observeContracts]. *)
Lemma observeContracts_condition `{!ConditionLaws} reader flag ctx product w :
  let p' := fst (observeContracts reader flag ctx product w) in
  Meta p' = Meta product ∧ Spec p' = Spec product ∧
  (∀ t, t ≠ ConditionContractsReady → FindStatusCondition (Conditions (Status p')) t =
     FindStatusCondition (Conditions (Status product)) t) ∧
  match FindStatusCondition (Conditions (Status p')) ConditionContractsReady with
  | None => ContractChecks (Spec product) = []
  | Some c =>
      ContractChecks (Spec product) ≠ [] ∧ cond_ObservedGeneration c = Generation (Meta product) ∧
      (cond_Status c = ConditionTrue →
         (len (ContractChecks (Spec product)) ≤ 8)%Z ∧
         NoDup (Check_Output <$> ContractChecks (Spec product)) ∧
         Forall (contract_probed reader product) (ContractChecks (Spec product)))
  end.
Proof.
  unfold observeContracts. destruct (_ =? _)%Z eqn:Hn; simpl.
  { rewrite find_remove_eq. split_and!; auto; [intros t Ht; by apply find_remove_ne|].
    by apply len_zero, Z.eqb_eq. }
  assert (Hne : ContractChecks (Spec product) ≠ []) by (intros He; by rewrite He in Hn).
  unfold mbind, st_bind, set_condition. destruct (flag_on flag ctx w) as [on w1].
  set (m := if on then _ else _). assert (Hm : Ready (fst (m w1)) = true → on = true ∧
    Ready (fst (checkContracts reader ctx product w1)) = true) by (unfold m; by destruct on).
  destruct (m w1) as [o w2]. simpl in Hm. unfold mbind, st_bind. destruct (Now w2) as [now w3].
  simpl. split_and!; auto; [intros t Ht; by apply find_set_ne|].
  destruct (find_set_eq now (Conditions (Status product))
    (observation_condition ConditionContractsReady product o)) as (d & Hd & (_ & H2 & H3 & _)).
  simpl in Hd. rewrite Hd. split_and!; auto. rewrite H2. simpl.
  destruct (Ready o); [|done]. intros _. destruct (Hm eq_refl) as [_ Hc].
  by apply (checkContracts_ready _ ctx _ w1).
Qed.
End Contracts.
