(* ===== verification/Reconciler.v ===== *)
(** * Reconciler: one evaluation of a DataProduct

    [internal/controller/dataproduct_controller.go].  The reconciler's fields are a record; the client
    is its three calls.  [Reconcile] mutates the product it read and finally writes the status, so the
    evaluation threads the product explicitly.  A nil dereference is the outcome [None]. *)

From S2P Require Import Prelude Kube Api Regex GoJson GoStrings Composition Reference Connector.
From S2P Require Import Provisioner Cnpg CnpgHybrid Percona Arango Provider Contracts.

Section Reconciler.
Context `{E : Env} `{C : ConditionApi} `{V : VersionApi} `{F : GoFmt} `{N : NameValidation}
  `{U : UnstructuredApi} `{A : ArangoApi}.

Record DataProductReconciler := mkReconciler {
  Client_Get : Reader DataProduct;
  Client_List : Ctx → ST World (list DataProduct + error);
  Status_Update : Ctx → DataProduct → ST World (option error);
  Client_RESTMapper : RESTMapper;
  (** [apiequality.Semantic.DeepEqual] on statuses *)
  DeepEqual : DataProductStatus → DataProductStatus → bool;
  R_SourceReader : option SourceReader;
  R_SourceProvider : option Provider;
  R_decode : Unstructured → option ArangoDeployment;
  SourcesEnabled : Flag;
  EngineProvidersEnabled : Flag;
  ConnectorReader : option (Reader Deployment);
  ConnectorsEnabled : Flag;
  ContractsEnabled : Flag;
  CompositionEnabled : Flag
}.

(** [updateStatusIfChanged]. *)
Definition updateStatusIfChanged (r : DataProductReconciler) (ctx : Ctx) (product : DataProduct)
    (previous : DataProductStatus) : ST World (option error) :=
  if DeepEqual r previous (Status product) then mret None else Status_Update r ctx product.

(** [hasOutput]. *)
Definition hasOutput (product : DataProduct) (outputName : string) : bool :=
  existsb (λ o, Output_Name o == outputName) (Outputs (Spec product)).

(** [setReadiness]: the clock is read once for the condition and once by the set. *)
Definition setReadiness (product : DataProduct) (status why text : string) : ST World DataProduct :=
  let product := set_ObservedGeneration (Generation (Meta product)) product in
  now ← (Now : ST World Time);
  cs ← set_condition (Conditions (Status product))
         (mkCondition ConditionReady status (Generation (Meta product)) now why text);
  mret (set_Conditions cs product).

(** [observeConnector]. *)
Definition observeConnector (r : DataProductReconciler) (ctx : Ctx) (product : DataProduct)
  : ST World DataProduct :=
  match Spec_Connector (Spec product) with
  | None =>
      mret (set_Conditions
        (RemoveStatusCondition (Conditions (Status product)) ConditionConnectorReady) product)
  | Some connector =>
      on ← flag_on (ConnectorsEnabled r) ctx;
      observation ←
        (if (on : bool) then Observe (ConnectorReader r) ctx (Namespace (Meta product)) connector
         else mret (unavailable "ConnectorFeatureDisabled"
           "Enable connector-readiness to observe this product's connector Deployment."));
      cs ← set_condition (Conditions (Status product))
             (observation_condition ConditionConnectorReady product observation);
      mret (set_Conditions cs product)
  end.

(** The provider in use: the configured one, or a registry over the source reader. *)
Definition source_provider (r : DataProductReconciler) : Provider :=
  match R_SourceProvider r with
  | Some p => p
  | None =>
      registry_Observe
        (mkRegistry (R_SourceReader r) None (Some (Client_RESTMapper r)) (R_decode r))
  end.

(** The flags and the provider call of [observeSource]. *)
Definition observe_enabled_source (r : DataProductReconciler) (ctx : Ctx) (product : DataProduct)
    (source : ProvisionedSource) : ST World SourceObservation :=
  on ← flag_on (SourcesEnabled r) ctx;
  if negb on then
    mret (source_unavailable "SourceFeatureDisabled"
      "Enable the provisioned-sources feature to observe this product's source.")
  else
    engines ← (if non_nil (Source_Engine source) then flag_on (EngineProvidersEnabled r) ctx
               else mret true);
    if negb engines then
      mret (source_unavailable "EngineProviderFeatureDisabled"
        "Enable engine-providers to observe this product's selected engine.")
    else source_provider r ctx (Namespace (Meta product)) source.

(** [observeSource]. *)
Definition observeSource (r : DataProductReconciler) (ctx : Ctx) (product : DataProduct)
  : ST World (SourceObservation * DataProduct) :=
  let without := set_Conditions
    (RemoveStatusCondition (Conditions (Status product)) ConditionSourceReady) product in
  match Source (Spec product) with
  | None => mret (mkSourceObs true "" "", without)
  | Some source =>
      let product := match Source_Engine source with None => without | Some _ => product end in
      observation ← observe_enabled_source r ctx product source;
      match Source_Engine source with
      | None => mret (observation, product)
      | Some _ =>
          cs ← set_condition (Conditions (Status product))
                 (mkCondition ConditionSourceReady
                    (if S_Ready observation then ConditionTrue else ConditionFalse)
                    (Generation (Meta product)) 0%Z (S_Reason observation) (S_Message observation));
          mret (observation, set_Conditions cs product)
      end
  end.

(** ** Reconcile *)

(** The evaluated product, the requeue delay and the error to report; [v_settled] marks the path that
    drops the delay when the status cannot be written. *)
Record verdict := mkVerdict {
  v_product : DataProduct;
  v_RequeueAfter : Z;
  v_errors : list error;
  v_settled : bool
}.

Definition blocked (product : DataProduct) (requeue : Z) (errors : list error) (why text : string)
  : ST World (option verdict) :=
  p ← setReadiness product ConditionFalse why text;
  mret (Some (mkVerdict p requeue errors false)).

(** The contracts gate and the final success. *)
Definition settle_contracts (product : DataProduct) (requeue : Z) : ST World (option verdict) :=
  let success :=
    p ← setReadiness product ConditionTrue "DependenciesReady"
          "All referenced data products and output ports are ready.";
    mret (Some (mkVerdict p requeue [] true)) in
  match FindStatusCondition (Conditions (Status product)) ConditionContractsReady with
  | Some contracts =>
      if cond_Status contracts != ConditionTrue
      then blocked product requeue [] (cond_Reason contracts) (cond_Message contracts)
      else success
  | None => success
  end.

(** The connector gate. *)
Definition settle (product : DataProduct) (requeue : Z) : ST World (option verdict) :=
  match FindStatusCondition (Conditions (Status product)) ConditionConnectorReady with
  | Some connector =>
      if cond_Status connector != ConditionTrue
      then blocked product requeue [] (cond_Reason connector) (cond_Message connector)
      else settle_contracts product requeue
  | None => settle_contracts product requeue
  end.

(** The loop over the inputs that composition has not covered. *)
Fixpoint check_inputs (r : DataProductReconciler) (ctx : Ctx) (product : DataProduct) (requeue : Z)
    (inputs : list InputPort) : ST World (option verdict) :=
  match inputs with
  | [] => settle product requeue
  | input :: inputs' =>
      let ref := Input_ProductRef input in
      let namespace :=
        if Ref_Namespace ref == "" then Namespace (Meta product) else Ref_Namespace ref in
      let where_ := namespace +:+ "/" +:+ Ref_Name ref in
      if namespace != Namespace (Meta product) then
        blocked product requeue [] "CrossNamespaceDependencyDenied"
          "Dependencies require producers in the same namespace; cross-namespace producer authorization is not supported."
      else
        d ← Client_Get r ctx (mkKey namespace (Ref_Name ref));
        match d with
        | inr err =>
            if IsNotFound err then
              blocked product requeue [] "DependencyNotFound"
                ("Input " +:+ Quote (Input_Name input) +:+ " references missing DataProduct " +:+
                 where_ +:+ ".")
            else
              blocked product requeue [err] "DependencyUnavailable"
                "A referenced data product could not be observed; check Kubernetes API availability and controller access."
        | inl dependency =>
            if negb (producerReady dependency) then
              blocked product requeue [] "DependencyNotReady"
                ("Input " +:+ Quote (Input_Name input) +:+ " references DataProduct " +:+ where_ +:+
                 ", which is not Ready.")
            else if negb (hasOutput dependency (Ref_Output ref)) then
              blocked product requeue [] "OutputNotFound"
                ("Input " +:+ Quote (Input_Name input) +:+ " references missing output " +:+
                 Quote (Ref_Output ref) +:+ " on DataProduct " +:+ where_ +:+ ".")
            else check_inputs r ctx product requeue inputs'
        end
  end.

(** Everything after the four observations; [composition] is the condition just refreshed. *)
Definition decide_readiness (r : DataProductReconciler) (ctx : Ctx) (product : DataProduct)
    (source : SourceObservation) (compositionError : option error) : ST World (option verdict) :=
  let composition :=
    FindStatusCondition (Conditions (Status product)) ConditionCompositionReady in
  let requeue := if non_nil composition then (30 * Second)%Z else 0%Z in
  match compositionError with
  | Some err =>
      match composition with
      | None => mret None  (* composition.Reason on a nil pointer *)
      | Some c => blocked product requeue [err] (cond_Reason c) (cond_Message c)
      end
  | None =>
      let requeue :=
        if non_nil (Spec_Connector (Spec product)) ||
           (len (ContractChecks (Spec product)) != 0%Z) || non_nil (Source (Spec product))
        then (30 * Second)%Z else requeue in
      if non_nil (Source (Spec product)) && negb (S_Ready source) then
        blocked product requeue [] (S_Reason source) (S_Message source)
      else match composition with
      | Some c =>
          if cond_Status c != ConditionTrue
          then blocked product requeue [] (cond_Reason c) (cond_Message c)
          else check_inputs r ctx product requeue []
      | None => check_inputs r ctx product requeue (Inputs (Spec product))
      end
  end.

(** The evaluation of the product that was read. *)
Definition evaluate (r : DataProductReconciler) (ctx : Ctx) (product : DataProduct)
  : ST World (option verdict) :=
  product ← observeConnector r ctx product;
  product ← observeContracts (ConnectorReader r) (ContractsEnabled r) ctx product;
  observed ← observeSource r ctx product;
  let '(source, product) := observed in
  composed ← observeComposition (Client_Get r) (CompositionEnabled r) ctx product;
  let '(compositionError, product) := composed in
  decide_readiness r ctx product source compositionError.

(** The result of [Reconcile]: the requeue delay and the joined errors, empty for nil. *)
Record ReconcileResult := mkResult { RequeueAfter : Z; Errors : list error }.

(** [Reconcile]; [None] is a panic. *)
Definition Reconcile (r : DataProductReconciler) (ctx : Ctx) (request : ObjectKey)
  : ST World (option ReconcileResult) :=
  p ← Client_Get r ctx request;
  match p with
  | inr err => mret (Some (mkResult 0%Z (if IsNotFound err then [] else [err])))
  | inl product =>
      v ← evaluate r ctx product;
      match v with
      | None => mret None
      | Some v =>
          e ← updateStatusIfChanged r ctx (v_product v) (Status product);
          mret (Some (match e with
            | Some err =>
                mkResult (if v_settled v then 0%Z else v_RequeueAfter v) (v_errors v ++ [err])
            | None => mkResult (v_RequeueAfter v) (v_errors v)
            end))
      end
  end.
End Reconciler.
