(* ===== verification/Requests.v ===== *)
(** * Reverse dependencies: which products an event re-evaluates

    [requestsForDependency] of [internal/controller/dataproduct_controller.go]: a breadth-first walk
    over the reverse edges of all listed products. *)

From S2P Require Import Prelude Kube Api Regex GoJson GoStrings Composition Reference Connector.
From S2P Require Import Provisioner Cnpg CnpgHybrid Percona Arango Provider Contracts Reconciler.

(** The edges [(producer, consumer)] in the order the nested loop meets them. *)
Definition product_edges (consumer : DataProduct) : list (ObjectKey * ObjectKey) :=
  map (λ input, (ref_key (resolvedReference consumer (Input_ProductRef input)),
                 ObjectKeyFromObject consumer)) (Inputs (Spec consumer)).
Definition edges_of (products : list DataProduct) : list (ObjectKey * ObjectKey) :=
  flat_map product_edges products.

(** [consumers[key] = append(consumers[key], consumer)]. *)
Definition add_consumer (m : gmap ObjectKey (list ObjectKey)) (e : ObjectKey * ObjectKey)
  : gmap ObjectKey (list ObjectKey) :=
  <[fst e := default [] (m !! fst e) ++ [snd e]]> m.
Definition consumers_of (products : list DataProduct) : gmap ObjectKey (list ObjectKey) :=
  fold_left add_consumer (edges_of products) ∅.

(** The inner loop over [consumers[key]]. *)
Fixpoint scan (transitive : bool) (cs : list ObjectKey) (seen : gset ObjectKey)
    (requests queue : list ObjectKey) : gset ObjectKey * list ObjectKey * list ObjectKey :=
  match cs with
  | [] => (seen, requests, queue)
  | consumer :: cs' =>
      if bool_decide (consumer ∈ seen) then scan transitive cs' seen requests queue
      else scan transitive cs' ({[consumer]} ∪ seen) (requests ++ [consumer])
             (if transitive then queue ++ [consumer] else queue)
  end.

(** The outer loop; [None] means that the fuel ran out. *)
Fixpoint drain (fuel : nat) (transitive : bool) (consumers : gmap ObjectKey (list ObjectKey))
    (queue : list ObjectKey) (seen : gset ObjectKey) (requests : list ObjectKey)
  : option (list ObjectKey) :=
  match fuel, queue with
  | O, _ => None
  | S _, [] => Some requests
  | S fuel', key :: queue' =>
      let '(seen, requests, queue) :=
        scan transitive (default [] (consumers !! key)) seen requests queue' in
      drain fuel' transitive consumers queue seen requests
  end.

(** Each product is enqueued at most once after the producer. *)
Definition drain_fuel (products : list DataProduct) : nat := S (S (length (edges_of products))).

Section Requests.
Context `{E : Env} `{C : ConditionApi} `{V : VersionApi} `{F : GoFmt} `{N : NameValidation}
  `{U : UnstructuredApi} `{A : ArangoApi}.

(** [requestsForDependency]; an object of another type is [None], and a list error only logs. *)
Definition requestsForDependency (r : DataProductReconciler) (ctx : Ctx) (object : option DataProduct)
  : ST World (list ObjectKey) :=
  match object with
  | None => mret []
  | Some producer =>
      l ← Client_List r ctx;
      match l with
      | inr _ => mret []
      | inl products =>
          transitive ← flag_on (CompositionEnabled r) ctx;
          mret (sort_slice (less_by key_String)
            (default [] (drain (drain_fuel products) transitive (consumers_of products)
                           [ObjectKeyFromObject producer] ∅ [])))
      end
  end.
End Requests.

(** ** Lemmas *)

(** [c] declares an input produced by [k]. *)
Definition consumes (products : list DataProduct) (k c : ObjectKey) : Prop :=
  ∃ p input, p ∈ products ∧ ObjectKeyFromObject p = c ∧ input ∈ Inputs (Spec p) ∧
    k = ref_key (resolvedReference p (Input_ProductRef input)).

Lemma edges_of_spec products k c : (k, c) ∈ edges_of products ↔ consumes products k c.
Proof.
  unfold edges_of, consumes, product_edges. rewrite list_elem_of_In, in_flat_map. split.
  - intros (p & Hp & Hin). apply in_map_iff in Hin as (i & [= <- <-] & Hi).
    exists p, i. apply list_elem_of_In in Hp, Hi. done.
  - intros (p & i & Hp & <- & Hi & ->). exists p. apply list_elem_of_In in Hp, Hi.
    split; [done|]. apply in_map_iff. eauto.
Qed.

Lemma fold_consumers l m k c :
  c ∈ default [] (fold_left add_consumer l m !! k) ↔ c ∈ default [] (m !! k) ∨ (k, c) ∈ l.
Proof.
  revert m. induction l as [|[k' c'] l IH]; intros m; simpl.
  - split; [by left|]. intros [H|H%elem_of_nil]; done.
  - rewrite IH, elem_of_cons. unfold add_consumer. simpl. destruct (decide (k' = k)) as [->|Hne].
    + rewrite lookup_insert_eq. simpl. rewrite elem_of_app, list_elem_of_singleton. naive_solver.
    + rewrite lookup_insert_ne by done. naive_solver.
Qed.

Lemma consumers_of_spec products k c :
  c ∈ default [] (consumers_of products !! k) ↔ consumes products k c.
Proof.
  unfold consumers_of. rewrite fold_consumers, <- edges_of_spec, lookup_empty. simpl.
  split; [|by right]. intros [H%elem_of_nil|H]; done.
Qed.

Lemma seen_skip (c : ObjectKey) (s seen : gset ObjectKey) : c ∈ seen → {[c]} ∪ s ∪ seen = s ∪ seen.
Proof. set_solver. Qed.
Lemma seen_push (c : ObjectKey) (s seen : gset ObjectKey) :
  s ∪ ({[c]} ∪ seen) = {[c]} ∪ s ∪ seen.
Proof. set_solver. Qed.

(** The inner loop appends the fresh consumers, once each. *)
Lemma scan_spec transitive cs seen requests queue :
  ∃ fresh, scan transitive cs seen requests queue =
      (list_to_set cs ∪ seen, requests ++ fresh, if transitive then queue ++ fresh else queue) ∧
    NoDup fresh ∧ ∀ c, c ∈ fresh ↔ c ∈ cs ∧ c ∉ seen.
Proof.
  revert seen requests queue. induction cs as [|c cs IH]; intros seen requests queue; simpl.
  - exists []. rewrite union_empty_l_L, app_nil_r. split; [by destruct transitive; rewrite ?app_nil_r|].
    split; [constructor|]. set_solver.
  - case_bool_decide as Hc.
    + destruct (IH seen requests queue) as (fresh & -> & Hd & Hf). exists fresh.
      split; [by rewrite seen_skip|]. split; [done|]. intros x. rewrite Hf, elem_of_cons.
      split; [tauto|]. intros [[->|Hx] Hn]; done.
    + destruct (IH ({[c]} ∪ seen) (requests ++ [c]) (if transitive then queue ++ [c] else queue))
        as (fresh & -> & Hd & Hf).
      assert (Hnc : c ∉ fresh) by (rewrite Hf; intros [_ Hn]; apply Hn; set_solver).
      exists (c :: fresh). split.
      * rewrite seen_push, <- app_assoc. f_equal. destruct transitive; [by rewrite <- app_assoc|done].
      * split; [by constructor|]. intros x. rewrite !elem_of_cons, Hf, not_elem_of_union,
          not_elem_of_singleton. destruct (decide (x = c)) as [->|]; [tauto|]. tauto.
Qed.

(** ** The breadth-first walk *)

Section Drain.
Context (products : list DataProduct) (root : ObjectKey).
Let consumers := consumers_of products.

(** The walk is sound (every seen product is reached) and pending work is in the queue. *)
Record walk_inv (queue : list ObjectKey) (seen : gset ObjectKey) (requests : list ObjectKey)
  : Prop := {
  wi_requests c : c ∈ requests ↔ c ∈ seen;
  wi_nodup : NoDup requests;
  wi_sound c : c ∈ seen → tc (consumes products) root c;
  wi_queue k : k ∈ queue → k = root ∨ k ∈ seen;
  wi_closed k : k = root ∨ k ∈ seen → k ∈ queue ∨ ∀ c, consumes products k c → c ∈ seen
}.

Lemma walk_inv_init : walk_inv [root] ∅ [].
Proof.
  constructor; [set_solver|constructor|set_solver|set_solver|].
  intros k [->|Hk]; [left; by left|set_solver].
Qed.

Lemma walk_inv_step key queue seen requests seen' requests' queue' :
  walk_inv (key :: queue) seen requests →
  scan true (default [] (consumers !! key)) seen requests queue = (seen', requests', queue') →
  walk_inv queue' seen' requests'.
Proof.
  intros [R D S Q Cl] Hscan.
  destruct (scan_spec true (default [] (consumers !! key)) seen requests queue)
    as (fresh & Heq & Hd & Hf). rewrite Heq in Hscan. injection Hscan as <- <- <-. clear Heq.
  assert (Hcs : ∀ c, c ∈ default [] (consumers !! key) ↔ consumes products key c)
    by apply consumers_of_spec.
  assert (Hkey : ∀ c, consumes products key c → tc (consumes products) root c).
  { intros c Hc. destruct (Q key) as [->|Hs]; [by left|by apply tc_once|].
    eapply tc_r; [by apply S|done]. }
  constructor.
  - intros c. rewrite elem_of_app, Hf, R, elem_of_union, elem_of_list_to_set.
    destruct (decide (c ∈ seen)); tauto.
  - apply list.NoDup_app. split; [done|]. split; [|done]. intros c Hc Hc'. apply Hf in Hc' as [_ Hn].
    by apply Hn, R.
  - intros c. rewrite elem_of_union, elem_of_list_to_set, Hcs. intros [Hc|Hc]; auto.
  - intros k. rewrite elem_of_app, elem_of_union, elem_of_list_to_set. intros [Hk|Hk].
    + destruct (Q k); [by right|by left|]. tauto.
    + apply Hf in Hk as [Hk _]. tauto.
  - intros k Hk. setoid_rewrite elem_of_union. setoid_rewrite elem_of_list_to_set.
    setoid_rewrite Hcs. rewrite elem_of_app, Hf.
    assert (Hcase : (k = root ∨ k ∈ seen) ∨ (k ∈ default [] (consumers !! key) ∧ k ∉ seen)).
    { rewrite elem_of_union, elem_of_list_to_set in Hk. destruct (decide (k ∈ seen)); tauto. }
    destruct Hcase as [Hk'|Hk']; [|tauto].
    destruct (Cl k Hk') as [[->|Hq]%elem_of_cons|Hall]; [right; by left|by left; left|].
    right. intros c Hc. right. by apply Hall.
Qed.

(** An empty queue leaves exactly the transitive consumers. *)
Lemma walk_inv_done seen requests c :
  walk_inv [] seen requests → c ∈ requests ↔ tc (consumes products) root c.
Proof.
  intros [R D S Q Cl]. rewrite R. split; [apply S|].
  assert (Hcl : ∀ k, k = root ∨ k ∈ seen → ∀ c, consumes products k c → c ∈ seen).
  { intros k Hk. destruct (Cl k Hk) as [H%elem_of_nil|H]; done. }
  intros Ht. assert (H : ∀ k, tc (consumes products) k c → k = root ∨ k ∈ seen → c ∈ seen).
  { clear Ht. intros k. induction 1 as [x y Hxy|x y z Hxy Hyz IH]; intros Hx; [by eapply Hcl|].
    apply IH. right. by eapply Hcl. }
  apply (H root); auto.
Qed.
End Drain.

(** ** Fuel: the queue and the unseen consumers shrink *)

Definition universe (products : list DataProduct) : gset ObjectKey :=
  list_to_set (snd <$> edges_of products).

Lemma universe_size products : size (universe products) ≤ length (edges_of products).
Proof.
  unfold universe. rewrite <- (length_fmap snd). generalize (snd <$> edges_of products). intros l.
  induction l as [|k l IH]; [done|].
  change (size ({[k]} ∪ list_to_set l : gset ObjectKey) ≤ S (length l)).
  rewrite size_union_alt, size_singleton.
  assert (size (list_to_set l ∖ {[k]} : gset ObjectKey) ≤ size (list_to_set l : gset ObjectKey))
    by (apply subseteq_size; set_solver).
  lia.
Qed.

Lemma consumers_in_universe products k :
  ∀ c, c ∈ default [] (consumers_of products !! k) → c ∈ universe products.
Proof.
  intros c Hc%consumers_of_spec%edges_of_spec. unfold universe. rewrite elem_of_list_to_set.
  apply list_elem_of_fmap. by exists (k, c).
Qed.

Lemma scan_measure transitive products k seen requests queue seen' requests' queue' :
  scan transitive (default [] (consumers_of products !! k)) seen requests queue
    = (seen', requests', queue') →
  length queue' + size (universe products ∖ seen') ≤ length queue + size (universe products ∖ seen).
Proof.
  destruct (scan_spec transitive (default [] (consumers_of products !! k)) seen requests queue)
    as (fresh & -> & Hd & Hf). intros [= <- <- <-].
  assert (Hsz : size (universe products ∖ (list_to_set (default [] (consumers_of products !! k)) ∪ seen))
    + length fresh ≤ size (universe products ∖ seen)).
  { rewrite <- (size_list_to_set (C := gset ObjectKey) fresh) by done.
    rewrite <- size_union.
    - apply subseteq_size. intros c. rewrite elem_of_union, elem_of_list_to_set, Hf.
      rewrite !elem_of_difference, elem_of_union, elem_of_list_to_set.
      intros [[H1 H2]|[H1 H2]]; [tauto|]. split; [by eapply consumers_in_universe|done].
    - intros c. rewrite elem_of_difference, elem_of_union, !elem_of_list_to_set, Hf. tauto. }
  destruct transitive; rewrite ?length_app; lia.
Qed.

Lemma drain_total fuel transitive products queue seen requests :
  length queue + size (universe products ∖ seen) < fuel →
  is_Some (drain fuel transitive (consumers_of products) queue seen requests).
Proof.
  revert queue seen requests. induction fuel as [|fuel IH]; intros queue seen requests Hf; [lia|].
  destruct queue as [|k queue]; simpl; [by eexists|].
  destruct (scan _ _ seen requests queue) as [[seen' requests'] queue'] eqn:Hs.
  apply IH. apply scan_measure in Hs. simpl in Hf. lia.
Qed.

Lemma drain_transitive fuel products root queue seen requests l :
  walk_inv products root queue seen requests →
  drain fuel true (consumers_of products) queue seen requests = Some l →
  NoDup l ∧ ∀ c, c ∈ l ↔ tc (consumes products) root c.
Proof.
  revert queue seen requests. induction fuel as [|fuel IH]; intros queue seen requests Hi; [done|].
  destruct queue as [|k queue]; simpl.
  - intros [= <-]. split; [apply Hi|]. intros c. by eapply walk_inv_done.
  - destruct (scan _ _ seen requests queue) as [[seen' requests'] queue'] eqn:Hs.
    apply IH. by eapply walk_inv_step.
Qed.

Lemma drain_direct fuel products root l :
  drain (S (S fuel)) false (consumers_of products) [root] ∅ [] = Some l →
  NoDup l ∧ ∀ c, c ∈ l ↔ consumes products root c.
Proof.
  destruct (scan_spec false (default [] (consumers_of products !! root)) ∅ [] [])
    as (fresh & Heq & Hd & Hf).
  simpl. rewrite Heq. simpl. intros [= <-]. split; [done|]. intros c.
  rewrite Hf, consumers_of_spec. set_solver.
Qed.

(** ** Properties *)

Section Properties.
Context `{E : Env} `{C : ConditionApi} `{V : VersionApi} `{F : GoFmt} `{N : NameValidation}
  `{U : UnstructuredApi} `{A : ArangoApi}.

(** C20: an event re-evaluates exactly the affected products.  For every producer and listing, the
    walk over the reverse edges terminates within its fuel and requests, each once and in the order of
    their names, exactly the direct consumers of the producer, or all its transitive consumers (the
    producer itself included when it lies on a cycle) when composition is enabled. *)
Theorem requests_exact r ctx producer w products w1 transitive w2 :
  Client_List r ctx w = (inl products, w1) →
  flag_on (CompositionEnabled r) ctx w1 = (transitive, w2) →
  ∃ requests, requestsForDependency r ctx (Some producer) w = (requests, w2) ∧
    is_Some (drain (drain_fuel products) transitive (consumers_of products)
               [ObjectKeyFromObject producer] ∅ []) ∧
    NoDup requests ∧
    StronglySorted (λ a b, String.leb (key_String a) (key_String b) = true) requests ∧
    ∀ c, c ∈ requests ↔
      if transitive then tc (consumes products) (ObjectKeyFromObject producer) c
      else consumes products (ObjectKeyFromObject producer) c.
Proof.
  intros Hl Hf. unfold requestsForDependency, mbind, st_bind. rewrite Hl, Hf.
  eexists. split; [done|].
  destruct (drain_total (drain_fuel products) transitive products [ObjectKeyFromObject producer] ∅ [])
    as [l Hd].
  { unfold drain_fuel. simpl. rewrite difference_empty_L. pose proof (universe_size products). lia. }
  split; [by rewrite Hd|]. rewrite Hd. simpl.
  assert (Hspec : NoDup l ∧ ∀ c, c ∈ l ↔
    if transitive then tc (consumes products) (ObjectKeyFromObject producer) c
    else consumes products (ObjectKeyFromObject producer) c).
  { destruct transitive; [eapply drain_transitive; [apply walk_inv_init|done]|].
    by eapply drain_direct. }
  destruct Hspec as [Hn Hc]. split; [|split; [apply sort_slice_sorted|]].
  - by rewrite sort_slice_perm.
  - intros c. by rewrite sort_slice_elem.
Qed.
End Properties.
