(* ===== verification/ReconcilerSpec.v ===== *)
(** * Reconciler: the properties

    Totality of an evaluation, the meaning of an aggregate Ready=True, the requeue guarantee and the
    reverse-dependency mapping of events. *)

From S2P Require Import Prelude Kube Api Regex GoJson GoStrings Composition CompositionProofs.
From S2P Require Import CompositionComplete Reference CompositionSpec Connector Provisioner Cnpg.
From S2P Require Import CnpgHybrid Percona Arango Provider Contracts Reconciler Requests.

Section Lemmas.
Context `{E : Env} `{C : ConditionApi} {L : ConditionLaws} `{V : VersionApi} `{F : GoFmt}
  `{N : NameValidation} `{U : UnstructuredApi} `{A : ArangoApi}.

(** ** What each step leaves untouched *)

(** [p'] is [p] up to its status, and outside the condition types [ts] the conditions agree. *)
Definition touches (ts : list string) (p p' : DataProduct) : Prop :=
  Meta p' = Meta p ∧ Spec p' = Spec p ∧
  ∀ t, t ∉ ts → FindStatusCondition (Conditions (Status p')) t =
                FindStatusCondition (Conditions (Status p)) t.

Lemma touches_trans ts1 ts2 p1 p2 p3 :
  touches ts1 p1 p2 → touches ts2 p2 p3 → touches (ts1 ++ ts2) p1 p3.
Proof.
  intros (M1 & S1 & C1) (M2 & S2 & C2). split_and!; [congruence|congruence|].
  intros t Ht. rewrite C2, C1; [done|set_solver..].
Qed.

(** The condition of type [t] in [p], if any. *)
Definition cond (p : DataProduct) (t : string) : option Condition :=
  FindStatusCondition (Conditions (Status p)) t.

Lemma set_condition_found cs c w cs' w' :
  set_condition cs c w = (cs', w') →
  (∃ d, FindStatusCondition cs' (cond_Type c) = Some d ∧ same_condition d c) ∧
  ∀ t, t ≠ cond_Type c → FindStatusCondition cs' t = FindStatusCondition cs t.
Proof.
  unfold set_condition. intros H. step_st H. injection H as <- <-. split.
  - apply find_set_eq.
  - intros t Ht. by apply find_set_ne.
Qed.

(** [setReadiness] records the verdict for the current generation. *)
Lemma setReadiness_spec p status why text w :
  let p' := fst (setReadiness p status why text w) in
  touches [ConditionReady] p p' ∧ ObservedGeneration (Status p') = Generation (Meta p) ∧
  ∃ c, cond p' ConditionReady = Some c ∧ cond_Status c = status ∧ cond_Reason c = why ∧
    cond_ObservedGeneration c = Generation (Meta p).
Proof.
  destruct (setReadiness p status why text w) as [p' w'] eqn:H. simpl. unfold setReadiness in H.
  step_st H. step_st H. injection H as <- <-.
  apply set_condition_found in E1 as [(d & Hd & (H1 & H2 & H3 & H4 & H5)) Ho]. simpl in *.
  split; [split; [done|split; [done|]]; intros t Ht; apply Ho; set_solver|].
  split; [done|]. exists d. by split_and!.
Qed.

(** ** The observations *)

(** The connector condition after [observeConnector]. *)
Definition connector_observed (r : DataProductReconciler) (p p' : DataProduct) : Prop :=
  match cond p' ConditionConnectorReady with
  | None => Spec_Connector (Spec p) = None
  | Some c => ∃ connector, Spec_Connector (Spec p) = Some connector ∧
      cond_ObservedGeneration c = Generation (Meta p) ∧
      (cond_Status c = ConditionTrue → ∃ get ctx workload w w', ConnectorReader r = Some get ∧
         get ctx (mkKey (Namespace (Meta p)) (CR_Name (Connector_ResourceRef connector))) w
           = (inl workload, w') ∧ rolled_out workload)
  end.

Lemma observeConnector_spec r ctx p w :
  let p' := fst (observeConnector r ctx p w) in
  touches [ConditionConnectorReady] p p' ∧ connector_observed r p p'.
Proof.
  unfold observeConnector, connector_observed, cond.
  destruct (Spec_Connector (Spec p)) as [connector|] eqn:Hc; simpl.
  2:{ rewrite find_remove_eq. split; [|done]. split; [done|split; [done|]]. intros t Ht.
      apply find_remove_ne. set_solver. }
  match goal with |- context [fst ?m] => destruct m as [p' w'] eqn:H end. simpl.
  step_st H. step_st H. step_st H. injection H as <- <-.
  assert (Hm : Ready a0 = true →
    Ready (fst (Observe (ConnectorReader r) ctx (Namespace (Meta p)) connector s)) = true).
  { destruct a; [by rewrite E1|]. by injection E1 as <- <-. }
  apply set_condition_found in E2 as [(d & Hd & (H1 & H2 & H3 & H4 & H5)) Ho]. simpl in *.
  rewrite Hd. split; [split; [done|split; [done|]]; intros t Ht; apply Ho; set_solver|].
  exists connector. split_and!; auto. rewrite H2. destruct (Ready a0); [|done]. intros _.
  destruct (observe_ready _ _ _ _ _ _ (Hm eq_refl))
    as (_ & get & ctx' & w4 & workload & w5 & Hg & _ & Hr & _ & Hro & _).
  exists get, ctx', workload, w4, w5. by split_and!.
Qed.

(** The source observation returned by [observeSource]. *)
Definition source_observed (r : DataProductReconciler) (ctx : Ctx) (p : DataProduct)
    (o : SourceObservation) : Prop :=
  match Source (Spec p) with
  | None => True
  | Some source =>
      S_Ready o = true → ∃ w1 w2,
        source_provider r ctx (Namespace (Meta p)) source w1 = (o, w2)
  end.

Lemma observe_enabled_source_ready r ctx p source w :
  S_Ready (fst (observe_enabled_source r ctx p source w)) = true →
  ∃ w1 w2, source_provider r ctx (Namespace (Meta p)) source w1 =
    (fst (observe_enabled_source r ctx p source w), w2).
Proof.
  destruct (observe_enabled_source r ctx p source w) as [o w'] eqn:H. simpl.
  unfold observe_enabled_source in H. step_st H. destruct a; simpl in H; [|by injection H as <- <-].
  step_st H. destruct a; simpl in H; [|by injection H as <- <-]. intros _. eauto.
Qed.

Lemma observeSource_spec r ctx p w :
  let '(o, p') := fst (observeSource r ctx p w) in
  touches [ConditionSourceReady] p p' ∧ source_observed r ctx p o.
Proof.
  unfold observeSource, source_observed.
  assert (Hw : touches [ConditionSourceReady] p (set_Conditions
    (RemoveStatusCondition (Conditions (Status p)) ConditionSourceReady) p)).
  { split; [done|split; [done|]]. intros t Ht. apply find_remove_ne. set_solver. }
  destruct (Source (Spec p)) as [source|] eqn:Hs; [|done].
  unfold mbind at 1, st_bind at 1. destruct (Source_Engine source) as [e|].
  - pose proof (observe_enabled_source_ready r ctx p source w) as Hr.
    destruct (observe_enabled_source r ctx p source w) as [o w1]. simpl in Hr.
    unfold mbind, st_bind. destruct (set_condition _ _ w1) as [cs w2] eqn:Hset. simpl.
    apply set_condition_found in Hset as [_ Ho]. split; [|done]. split; [done|split; [done|]].
    intros t Ht. apply Ho. set_solver.
  - set (p0 := set_Conditions _ p).
    pose proof (observe_enabled_source_ready r ctx p0 source w) as Hr.
    destruct (observe_enabled_source r ctx p0 source w) as [o w1]. done.
Qed.

Lemma observeComposition_spec client flag ctx p w err p' w' :
  observeComposition client flag ctx p w = ((err, p'), w') →
  touches [ConditionCompositionReady] p p' ∧
  (is_Some err → is_Some (cond p' ConditionCompositionReady)) ∧
  (∀ c, cond p' ConditionCompositionReady = Some c →
     cond_ObservedGeneration c = Generation (Meta p)).
Proof.
  intros Hobs.
  destruct (observeComposition_cases _ _ _ _ _ _ _ _ Hobs)
    as [(_ & -> & ->)|[(w1 & o & _ & -> & Hne & Ho & Hset)
       |(ctx' & w1 & o & g & w2 & o2 & l & Hne & _ & Hl & Herr & Hset)]].
  { unfold cond. simpl. rewrite find_remove_eq. split; [|by split; [intros []|]].
    split; [done|split; [done|]]. intros t Ht. simpl. apply find_remove_ne. set_solver. }
  all: destruct (published_condition _ _ _ _ _ Hset) as (HM & HS & _ & Ht & c & Hc & (_ & _ & H3 & _));
    unfold cond; rewrite Hc; (split; [split; [done|split; [done|]]; intros t Ht'; apply Ht; set_solver|]);
    (split; [by eexists|]); by intros ? [= <-].
Qed.

(** ** The verdict *)

(** A verdict on [p]: the Ready condition for the current generation, False or True with [ok]. *)
Definition judged (p : DataProduct) (requeue : Z) (ok : Prop) (v : verdict) : Prop :=
  touches [ConditionReady] p (v_product v) ∧
  ObservedGeneration (Status (v_product v)) = Generation (Meta p) ∧ v_RequeueAfter v = requeue ∧
  ∃ c, cond (v_product v) ConditionReady = Some c ∧
    cond_ObservedGeneration c = Generation (Meta p) ∧
    (cond_Status c = ConditionFalse ∨ cond_Status c = ConditionTrue ∧ ok ∧ v_errors v = []).

Definition reaches (m : ST World (option verdict)) (w : World) (Q : verdict → Prop) : Prop :=
  ∃ v, fst (m w) = Some v ∧ Q v.

Lemma judged_mono p requeue (P Q : Prop) v : (P → Q) → judged p requeue P v → judged p requeue Q v.
Proof.
  intros HPQ (H1 & H2 & H3 & c & H4 & H5 & H6). split; [done|]. split; [done|]. split; [done|].
  exists c. split; [done|]. split; [done|]. destruct H6 as [H6|(H6 & H7 & H8)]; auto.
Qed.

Lemma blocked_judged p requeue errors why text ok w :
  reaches (blocked p requeue errors why text) w (judged p requeue ok).
Proof.
  unfold reaches, blocked, mbind, st_bind.
  pose proof (setReadiness_spec p ConditionFalse why text w) as H.
  destruct (setReadiness p ConditionFalse why text w) as [p' w'].
  destruct H as (Ht & Hg & c & H1 & H2 & _ & H3).
  eexists. split; [done|]. split; [done|]. split; [done|]. split; [done|]. exists c. auto.
Qed.

(** The gate of an independent condition: absent or True. *)
Definition gate_open (p : DataProduct) (t : string) : Prop :=
  ∀ c, cond p t = Some c → cond_Status c = ConditionTrue.

Lemma settle_contracts_judged p requeue w :
  reaches (settle_contracts p requeue) w (judged p requeue (gate_open p ConditionContractsReady)).
Proof.
  unfold settle_contracts, gate_open. fold (cond p ConditionContractsReady).
  set (success := setReadiness _ _ _ _ ≫= _).
  assert (Hs : ∀ ok : Prop, ok → reaches success w (judged p requeue ok)).
  { intros ok Hok. unfold reaches, success, mbind, st_bind.
    match goal with |- context [setReadiness p ?s ?y ?t w] =>
      pose proof (setReadiness_spec p s y t w) as H;
      destruct (setReadiness p s y t w) as [p' w'] end.
    destruct H as (Ht & Hg & c & H1 & H2 & _ & H3).
    eexists. split; [done|]. split; [done|]. split; [done|]. split; [done|]. exists c. auto 10. }
  destruct (cond p ConditionContractsReady) as [c|]; [|by apply Hs].
  case_bool_decide as Hc; simpl; [apply Hs; by intros ? [= <-]|apply blocked_judged].
Qed.

Lemma settle_judged p requeue w :
  reaches (settle p requeue) w
    (judged p requeue (gate_open p ConditionConnectorReady ∧ gate_open p ConditionContractsReady)).
Proof.
  unfold settle. fold (cond p ConditionConnectorReady).
  destruct (settle_contracts_judged p requeue w) as (v & Hv & Hj).
  assert (Hs : gate_open p ConditionConnectorReady → reaches (settle_contracts p requeue) w
    (judged p requeue (gate_open p ConditionConnectorReady ∧ gate_open p ConditionContractsReady))).
  { intros Hg. exists v. split; [done|]. eapply judged_mono; [|exact Hj]. auto. }
  destruct (cond p ConditionConnectorReady) as [c|] eqn:Hc.
  - case_bool_decide as Ht; simpl; [|apply blocked_judged]. apply Hs. intros d Hd. congruence.
  - apply Hs. intros d Hd. congruence.
Qed.

(** One input checked on its own: a ready same-namespace producer with the named output. *)
Definition input_satisfied (r : DataProductReconciler) (p : DataProduct) (input : InputPort) : Prop :=
  let ref := Input_ProductRef input in
  Ref_Namespace (resolvedReference p ref) = Namespace (Meta p) ∧
  ∃ ctx dependency w w', Client_Get r ctx (mkKey (Namespace (Meta p)) (Ref_Name ref)) w
      = (inl dependency, w') ∧
    producerReady dependency = true ∧
    ∃ output, output ∈ Outputs (Spec dependency) ∧ Output_Name output = Ref_Output ref.

Lemma check_inputs_judged r ctx p requeue inputs w :
  reaches (check_inputs r ctx p requeue inputs) w
    (judged p requeue (Forall (input_satisfied r p) inputs ∧
      gate_open p ConditionConnectorReady ∧ gate_open p ConditionContractsReady)).
Proof.
  revert w. induction inputs as [|input inputs IH]; intros w; simpl.
  - destruct (settle_judged p requeue w) as (v & Hv & Hj). exists v. split; [done|].
    eapply judged_mono; [|exact Hj]. intros Hg. split; [constructor|done].
  - set (ns := if _ == "" then _ else _).
    assert (Hns : ns = Ref_Namespace (resolvedReference p (Input_ProductRef input))).
    { unfold ns, resolvedReference. by case_bool_decide. }
    case_bool_decide as Hn; simpl; [|apply blocked_judged].
    unfold reaches, mbind, st_bind.
    destruct (Client_Get r ctx _ w) as [[d|err] w'] eqn:Hget;
      [|destruct (IsNotFound err); apply blocked_judged].
    destruct (producerReady d) eqn:Hp; simpl; [|apply blocked_judged].
    destruct (hasOutput d _) eqn:Ho; simpl; [|apply blocked_judged].
    destruct (IH w') as (v & Hv & Hj). exists v. split; [done|].
    eapply judged_mono; [|exact Hj]. intros [Hf Hg]. split; [|done]. constructor; [|done].
    split; [by rewrite <- Hns|]. rewrite Hn in Hget. exists ctx, d, w, w'. split; [done|].
    split; [done|]. unfold hasOutput in Ho. apply existsb_exists_elem in Ho as (o & Hin & Heq).
    apply bool_decide_eq_true in Heq. by exists o.
Qed.

Lemma blocked_errors p requeue errors why text w v :
  fst (blocked p requeue errors why text w) = Some v → v_errors v = errors.
Proof.
  unfold blocked, mbind, st_bind. destruct (setReadiness _ _ _ _ w) as [p' w'].
  by intros [= <-].
Qed.

(** Whether the spec declares a capability that is polled. *)
Definition polled (p : DataProduct) : Prop :=
  Spec_Connector (Spec p) ≠ None ∨ ContractChecks (Spec p) ≠ [] ∨ Source (Spec p) ≠ None.

(** The inputs are satisfied by the composition condition, or one by one. *)
Definition inputs_ok (r : DataProductReconciler) (p : DataProduct) : Prop :=
  match cond p ConditionCompositionReady with
  | Some c => cond_Status c = ConditionTrue
  | None => Forall (input_satisfied r p) (Inputs (Spec p))
  end.

(** Everything a True verdict on the observed product [p] stands on. *)
Definition ready_facts (r : DataProductReconciler) (p : DataProduct) (source : SourceObservation)
    (err : option error) : Prop :=
  err = None ∧ (Source (Spec p) ≠ None → S_Ready source = true) ∧ inputs_ok r p ∧
  gate_open p ConditionConnectorReady ∧ gate_open p ConditionContractsReady.

(** The delay of a verdict without errors on a polled or composed product. *)
Definition delay_ok (p : DataProduct) (requeue : Z) : Prop :=
  (requeue = 0 ∨ requeue = 30 * Second)%Z ∧
  (polled p ∨ is_Some (cond p ConditionCompositionReady) → requeue = (30 * Second)%Z).

Definition decided (r : DataProductReconciler) (p : DataProduct) (source : SourceObservation)
    (err : option error) (v : verdict) : Prop :=
  ∃ requeue, judged p requeue (ready_facts r p source err) v ∧
    (requeue = 0 ∨ requeue = 30 * Second)%Z ∧ (v_errors v = [] → delay_ok p requeue).

Lemma decided_judged r p source err requeue ok m w :
  delay_ok p requeue → reaches m w (judged p requeue ok) → (ok → ready_facts r p source err) →
  reaches m w (decided r p source err).
Proof.
  intros Hd (v & Hv & Hj) Hok. exists v. split; [done|]. exists requeue.
  split; [by eapply judged_mono|]. split; [apply Hd|done].
Qed.

Lemma requeue_delay p rq0 :
  (rq0 = 0 ∨ rq0 = 30 * Second)%Z →
  (is_Some (cond p ConditionCompositionReady) → rq0 = (30 * Second)%Z) →
  delay_ok p (if non_nil (Spec_Connector (Spec p)) || (len (ContractChecks (Spec p)) != 0%Z) ||
                 non_nil (Source (Spec p)) then (30 * Second)%Z else rq0).
Proof.
  intros H0 Hc. unfold delay_ok. destruct (_ || _) eqn:Hg; [auto|].
  split; [done|]. intros [Hp|Hs]; [|by apply Hc]. exfalso.
  apply orb_false_iff in Hg as [[H1 H2]%orb_false_iff H3]. go_bool. apply len_zero in H2.
  unfold polled in Hp. tauto.
Qed.

Lemma decide_readiness_decided r ctx p source err w :
  (is_Some err → is_Some (cond p ConditionCompositionReady)) →
  reaches (decide_readiness r ctx p source err) w (decided r p source err).
Proof.
  intros Herr. unfold decide_readiness. fold (cond p ConditionCompositionReady).
  set (rq0 := if non_nil (cond p ConditionCompositionReady) then _ else _).
  assert (Hrq0 : (rq0 = 0 ∨ rq0 = 30 * Second)%Z ∧
    (is_Some (cond p ConditionCompositionReady) → rq0 = (30 * Second)%Z)).
  { unfold rq0. destruct (cond p ConditionCompositionReady); simpl; split; auto. by intros []. }
  clearbody rq0. destruct err as [err|].
  { destruct (cond p ConditionCompositionReady) as [c|] eqn:Hc; [|by destruct Herr; eauto].
    destruct (blocked_judged p rq0 [err] (cond_Reason c) (cond_Message c)
      (ready_facts r p source (Some err)) w) as (v & Hv & Hj).
    exists v. split; [done|]. exists rq0. split; [done|]. split; [apply Hrq0|].
    intros He. by rewrite (blocked_errors _ _ _ _ _ _ _ Hv) in He. }
  destruct Hrq0 as [H0 H1]. pose proof (requeue_delay p rq0 H0 H1) as Hd.
  set (rq := if (_ || _ || _) : bool then _ else _) in *. clearbody rq.
  destruct (non_nil (Source (Spec p)) && negb (S_Ready source)) eqn:Hsrc.
  { by apply (decided_judged _ _ _ _ rq False); [|apply blocked_judged|]. }
  assert (Hsource : Source (Spec p) ≠ None → S_Ready source = true).
  { destruct (Source (Spec p)); simpl in Hsrc; [|done]. by destruct (S_Ready source). }
  destruct (cond p ConditionCompositionReady) as [c|] eqn:Hcond.
  - case_bool_decide as Hc; simpl negb.
    2:{ by apply (decided_judged _ _ _ _ rq False); [|apply blocked_judged|]. }
    eapply decided_judged; [exact Hd|apply (check_inputs_judged r ctx p rq [])|].
    intros (_ & H2 & H3). split_and!; auto. unfold inputs_ok. by rewrite Hcond.
  - eapply decided_judged; [exact Hd|apply check_inputs_judged|].
    intros (H2 & H3 & H4). split_and!; auto. unfold inputs_ok. by rewrite Hcond.
Qed.

(** The contracts condition after [observeContracts]. *)
Definition contracts_observed (r : DataProductReconciler) (p p' : DataProduct) : Prop :=
  match cond p' ConditionContractsReady with
  | None => ContractChecks (Spec p) = []
  | Some c =>
      ContractChecks (Spec p) ≠ [] ∧ cond_ObservedGeneration c = Generation (Meta p) ∧
      (cond_Status c = ConditionTrue →
         (len (ContractChecks (Spec p)) ≤ 8)%Z ∧ NoDup (Check_Output <$> ContractChecks (Spec p)) ∧
         Forall (contract_probed (ConnectorReader r) p) (ContractChecks (Spec p)))
  end.

Lemma contract_probed_ext reader p p' check :
  Meta p' = Meta p → Spec p' = Spec p →
  contract_probed reader p' check → contract_probed reader p check.
Proof. unfold contract_probed. by intros -> ->. Qed.

Lemma contracts_observed_from r p p1 p2 :
  Meta p1 = Meta p → Spec p1 = Spec p → contracts_observed r p1 p2 → contracts_observed r p p2.
Proof.
  intros HM HS. unfold contracts_observed. rewrite HM, HS.
  destruct (cond p2 ConditionContractsReady) as [c|]; [|done]. intros (H1 & H2 & H3).
  split_and!; auto. intros Ht. destruct (H3 Ht) as (H4 & H5 & H6). split_and!; auto.
  eapply Forall_impl; [|exact H6]. intros k. by apply contract_probed_ext.
Qed.

Lemma ready_contracts r p p' :
  contracts_observed r p p' → gate_open p' ConditionContractsReady →
  (len (ContractChecks (Spec p)) ≤ 8)%Z ∧ NoDup (Check_Output <$> ContractChecks (Spec p)) ∧
  Forall (contract_probed (ConnectorReader r) p) (ContractChecks (Spec p)).
Proof.
  unfold contracts_observed, gate_open.
  destruct (cond p' ConditionContractsReady) as [c|].
  - intros (_ & _ & H1) H2. apply H1. by apply H2.
  - intros -> _. split; [done|]. split; constructor.
Qed.

(** The types of the four observations. *)
Definition observed_types : list string :=
  [ConditionConnectorReady; ConditionContractsReady; ConditionSourceReady; ConditionCompositionReady].

Lemma evaluate_decided r ctx p w :
  reaches (evaluate r ctx p) w (λ v, ∃ p3 w3 w4 p4 source err,
    touches observed_types p p4 ∧ Meta p3 = Meta p ∧ Spec p3 = Spec p ∧
    observeComposition (Client_Get r) (CompositionEnabled r) ctx p3 w3 = ((err, p4), w4) ∧
    connector_observed r p p4 ∧ contracts_observed r p p4 ∧ source_observed r ctx p source ∧
    decided r p4 source err v).
Proof.
  unfold evaluate. destruct (observeConnector_spec r ctx p w) as [T1 H1].
  unfold reaches, mbind at 1, st_bind at 1. destruct (observeConnector r ctx p w) as [p1 w1].
  simpl in T1, H1.
  pose proof (observeContracts_condition (ConnectorReader r) (ContractsEnabled r) ctx p1 w1)
    as (M2 & S2 & T2 & H2).
  unfold mbind at 1, st_bind at 1. destruct (observeContracts _ _ ctx p1 w1) as [p2 w2]. simpl in *.
  assert (T2' : touches [ConditionContractsReady] p1 p2).
  { split; [done|split; [done|]]. intros t Ht. apply T2. set_solver. }
  pose proof (observeSource_spec r ctx p2 w2) as H3.
  unfold mbind at 1, st_bind at 1. destruct (observeSource r ctx p2 w2) as [[source p3] w3].
  destruct H3 as [T3 H3].
  unfold mbind at 1, st_bind at 1.
  destruct (observeComposition _ _ ctx p3 w3) as [[err p4] w4] eqn:Hcomp.
  destruct (observeComposition_spec _ _ _ _ _ _ _ _ Hcomp) as (T4 & H4 & _).
  destruct (decide_readiness_decided r ctx p4 source err w4 H4) as (v & Hv & Hd).
  exists v. split; [done|].
  pose proof (touches_trans _ _ _ _ _ T1 T2') as T12.
  pose proof (touches_trans _ _ _ _ _ T12 T3) as T13.
  pose proof (touches_trans _ _ _ _ _ T13 T4) as T14.
  pose proof (touches_trans _ _ _ _ _ T3 T4) as T34.
  pose proof (touches_trans _ _ _ _ _ T2' T34) as T24.
  exists p3, w3, w4, p4, source, err. split; [exact T14|].
  destruct T13 as (M3 & S3 & _). destruct T12 as (M12 & S12 & _). destruct T1 as (M1 & S1 & _).
  split_and!; auto.
  - unfold connector_observed, cond in *. by rewrite (proj2 (proj2 T24)) by set_solver.
  - apply (contracts_observed_from r p p1 p4 M1 S1). unfold contracts_observed, cond in *.
    by rewrite (proj2 (proj2 T34)) by set_solver.
  - unfold source_observed in *. by rewrite <- S12, <- M12.
Qed.
End Lemmas.

(** ** Properties *)

Section Properties.
Context `{E : Env} `{C : ConditionApi} {L : ConditionLaws} `{V : VersionApi} `{F : GoFmt}
  `{N : NameValidation} `{U : UnstructuredApi} `{A : ArangoApi}.

(** C17: every evaluation reaches a verdict for the current generation.  Whatever the cluster and the
    flags answer, evaluating a product dereferences no nil condition and ends with the product's
    metadata and spec unchanged, its observed generation and its Ready condition at the current
    generation, Ready either True or False, and no condition outside the five owned types touched. *)
Theorem evaluation_total r ctx p w :
  ∃ v, fst (evaluate r ctx p w) = Some v ∧
    Meta (v_product v) = Meta p ∧ Spec (v_product v) = Spec p ∧
    ObservedGeneration (Status (v_product v)) = Generation (Meta p) ∧
    (∃ c, FindStatusCondition (Conditions (Status (v_product v))) ConditionReady = Some c ∧
       cond_ObservedGeneration c = Generation (Meta p) ∧
       (cond_Status c = ConditionTrue ∨ cond_Status c = ConditionFalse)) ∧
    ∀ t, t ∉ ConditionReady :: observed_types →
      FindStatusCondition (Conditions (Status (v_product v))) t =
      FindStatusCondition (Conditions (Status p)) t.
Proof.
  destruct (evaluate_decided r ctx p w)
    as (v & Hv & p3 & w3 & w4 & p4 & source & err & T4 & _ & _ & _ & _ & _ & _ & rq & Hj & _).
  destruct T4 as (M4 & S4 & C4). destruct Hj as ((MJ & SJ & CJ) & Hg & _ & c & Hc & Hcg & Hst).
  exists v. rewrite M4 in *. split; [done|]. split; [done|]. split; [congruence|]. split; [done|].
  split.
  - exists c. split; [done|]. split; [done|]. tauto.
  - intros t Ht. rewrite CJ, C4; [done|set_solver..].
Qed.

(** C18: an aggregate Ready=True is backed by every declared capability.  When an evaluation ends with
    Ready=True it reports no error; the declared connector was read and is fully rolled out; at most
    eight distinct contract checks were each answered by a rolled-out probe bound to that output's own
    URL; the declared source was reported ready by the provider; and the inputs are satisfied: either
    the composition observation of this very product published CompositionReady=True, or every input
    was found in the product's namespace with a ready producer that has the named output. *)
Theorem ready_backed r ctx p w v c :
  fst (evaluate r ctx p w) = Some v →
  FindStatusCondition (Conditions (Status (v_product v))) ConditionReady = Some c →
  cond_Status c = ConditionTrue →
  v_errors v = [] ∧
  (∀ connector, Spec_Connector (Spec p) = Some connector →
     ∃ get ctx' workload w1 w2, ConnectorReader r = Some get ∧
       get ctx' (mkKey (Namespace (Meta p)) (CR_Name (Connector_ResourceRef connector))) w1
         = (inl workload, w2) ∧ rolled_out workload) ∧
  (len (ContractChecks (Spec p)) ≤ 8)%Z ∧ NoDup (Check_Output <$> ContractChecks (Spec p)) ∧
  Forall (contract_probed (ConnectorReader r) p) (ContractChecks (Spec p)) ∧
  (∀ source, Source (Spec p) = Some source → ∃ o w1 w2, S_Ready o = true ∧
     source_provider r ctx (Namespace (Meta p)) source w1 = (o, w2)) ∧
  ((∃ p3 w3 p4 w4 d, Meta p3 = Meta p ∧ Spec p3 = Spec p ∧
      observeComposition (Client_Get r) (CompositionEnabled r) ctx p3 w3 = ((None, p4), w4) ∧
      FindStatusCondition (Conditions (Status p4)) ConditionCompositionReady = Some d ∧
      cond_Status d = ConditionTrue) ∨
   Forall (input_satisfied r p) (Inputs (Spec p))).
Proof.
  intros Hv Hc Ht.
  destruct (evaluate_decided r ctx p w) as (v' & Hv' & p3 & w3 & w4 & p4 & source & err & T4 & M3 & S3
    & Hcomp & Hcon & Hctr & Hsrc & rq & Hj & _).
  rewrite Hv in Hv'. injection Hv' as <-.
  destruct Hj as (_ & _ & _ & c' & Hc' & _ & Hst). unfold cond in Hc'. rewrite Hc in Hc'.
  injection Hc' as <-. destruct Hst as [Hst|(_ & (-> & Hs & Hin & Hg1 & Hg2) & He)];
    [by rewrite Ht in Hst|].
  destruct T4 as (M4 & S4 & _). split; [done|]. split.
  { intros connector Hconn. unfold connector_observed in Hcon. unfold gate_open in Hg1.
    destruct (cond p4 ConditionConnectorReady) as [d|]; [|congruence].
    destruct Hcon as (k & Hk & _ & Hk'). rewrite Hconn in Hk. injection Hk as <-.
    apply Hk'. by apply Hg1. }
  destruct (ready_contracts r p p4 Hctr Hg2) as (H1 & H2 & H3). split_and!; auto.
  - intros so Hso. unfold source_observed in Hsrc. rewrite Hso in Hsrc. rewrite S4, Hso in Hs.
    destruct (Hsrc (Hs ltac:(done))) as (w1 & w2 & Hobs). exists source, w1, w2. split; [by apply Hs|done].
  - unfold inputs_ok, cond in Hin.
    destruct (FindStatusCondition _ ConditionCompositionReady) as [d|] eqn:Hd.
    + left. exists p3, w3, p4, w4, d. by split_and!.
    + right. rewrite S4 in Hin. eapply Forall_impl; [|exact Hin]. intros i.
      unfold input_satisfied, resolvedReference. by rewrite M4.
Qed.

(** C19: reconciliation is total, polls what it must, and writes the verdict only when it changed.  A
    request always returns; its delay is zero or thirty seconds; an absent product ends silently and a
    failed read is returned as an error; for a product that was read, an error-free result has the
    thirty-second delay whenever the spec declares a connector, a contract check or a source, and the
    cluster's status is written (once, with the evaluated product) exactly when it differs from the one
    that was read. *)
Theorem reconcile_total r ctx request w :
  ∃ res w', Reconcile r ctx request w = (Some res, w') ∧
    (RequeueAfter res = 0 ∨ RequeueAfter res = 30 * Second)%Z ∧
    match Client_Get r ctx request w with
    | (inr e, w1) => w' = w1 ∧ RequeueAfter res = 0%Z ∧ (Errors res = [] ↔ IsNotFound e = true)
    | (inl p, w1) =>
        (Errors res = [] → polled p → RequeueAfter res = (30 * Second)%Z) ∧
        ∃ v w2, evaluate r ctx p w1 = (Some v, w2) ∧
          w' = (if DeepEqual r (Status p) (Status (v_product v)) then w2
                else snd (Status_Update r ctx (v_product v) w2))
    end.
Proof.
  unfold Reconcile, mbind, st_bind. destruct (Client_Get r ctx request w) as [[p|e] w1].
  - destruct (evaluate_decided r ctx p w1) as (v & Hv & p3 & w3 & w4 & p4 & source & err & T4 & _ & _
      & _ & _ & _ & _ & rq & Hj & Hrq & Hd).
    destruct (evaluate r ctx p w1) as [v' w2]. simpl in Hv. subst v'.
    destruct Hj as (_ & _ & <- & _). destruct T4 as (_ & S4 & _).
    assert (Hpoll : v_errors v = [] → polled p → v_RequeueAfter v = (30 * Second)%Z).
    { intros He Hp. apply (Hd He). left. unfold polled in *. by rewrite S4. }
    unfold updateStatusIfChanged.
    destruct (DeepEqual r (Status p) (Status (v_product v))) eqn:Hdeep.
    + do 2 eexists. split; [done|]. split; [done|]. split; [done|]. exists v, w2.
      split; [done|]. by rewrite Hdeep.
    + destruct (Status_Update r ctx (v_product v) w2) as [[err'|] w5] eqn:Hu.
      * do 2 eexists. split; [done|]. split; [simpl; destruct (v_settled v); auto|].
        split; [simpl; by destruct (v_errors v)|]. exists v, w2. split; [done|].
        by rewrite Hdeep, Hu.
      * do 2 eexists. split; [done|]. split; [done|]. split; [done|]. exists v, w2.
        split; [done|]. by rewrite Hdeep, Hu.
  - do 2 eexists. split; [done|]. split; [by left|]. split; [done|]. split; [done|].
    simpl. destruct (IsNotFound e); split; done.
Qed.
End Properties.

(** ** Witnesses *)

#[local] Existing Instances ref_env ref_conditions ref_conditions_laws ref_versions ref_fmt ref_names
  ref_unstructured sample_arango_api.

Definition sample_reconciler : DataProductReconciler := {|
  Client_Get := ref_get;
  Client_List := λ _ w, (inl (map snd (map_to_list (stored w))), w);
  Status_Update := ref_update;
  Client_RESTMapper := sample_mapper;
  DeepEqual := λ a b, bool_decide (a = b);
  R_SourceReader := None;
  R_SourceProvider := Some (registry_Observe sample_registry);
  R_decode := λ _, None;
  SourcesEnabled := flag_true;
  EngineProvidersEnabled := flag_true;
  ConnectorReader := sample_deployments;
  ConnectorsEnabled := flag_true;
  ContractsEnabled := flag_true;
  CompositionEnabled := flag_true
|}.

(** The report with a connector, a contract check and a SQL source. *)
Definition sample_full : DataProduct :=
  mkProduct (Meta sample_report)
    (mkSpec "urn:report" "report" "A product." "v1.2.0" sample_owner "https://docs.example"
       (Inputs (Spec sample_report)) [sample_output] None (Some sample_sql)
       (Some (mkConnector "deployment/v1" sample_connector_ref))
       [mkContractCheck "api" sample_connector_ref])
    (Status sample_report).
Definition sample_evaluated : option verdict :=
  fst (evaluate sample_reconciler tt sample_full sample_world).
Definition sample_verdict : verdict :=
  default (mkVerdict sample_full 0%Z [] false) sample_evaluated.

Lemma evaluation_total_witness :
  ∃ v, fst (evaluate sample_reconciler tt sample_full sample_world) = Some v ∧
    ObservedGeneration (Status (v_product v)) = 3%Z.
Proof.
  destruct (evaluation_total sample_reconciler tt sample_full sample_world)
    as (v & Hv & _ & _ & Hg & _).
  exists v. split; [exact Hv|exact Hg].
Defined.

Lemma ready_backed_witness :
  ∃ c, FindStatusCondition (Conditions (Status (v_product sample_verdict))) ConditionReady = Some c ∧
    cond_Status c = ConditionTrue ∧
    Forall (contract_probed sample_deployments sample_full) (ContractChecks (Spec sample_full)).
Proof.
  eexists. split; [vm_compute; reflexivity|]. split; [reflexivity|].
  eapply (ready_backed sample_reconciler tt sample_full sample_world sample_verdict).
  - vm_compute. reflexivity.
  - vm_compute. reflexivity.
  - reflexivity.
Defined.

Lemma reconcile_total_witness :
  ∃ res w', Reconcile sample_reconciler tt (mkKey "shop" "report") sample_world = (Some res, w') ∧
    (RequeueAfter res = 0 ∨ RequeueAfter res = 30 * Second)%Z.
Proof.
  destruct (reconcile_total sample_reconciler tt (mkKey "shop" "report") sample_world)
    as (res & w' & H1 & H2 & _).
  exists res, w'. split; [exact H1|exact H2].
Defined.

Lemma requests_exact_witness :
  ∃ requests, fst (requestsForDependency sample_reconciler tt (Some sample_users) sample_world)
      = requests ∧ NoDup requests ∧ mkKey "shop" "report" ∈ requests.
Proof.
  destruct (requests_exact sample_reconciler tt sample_users sample_world
    (map snd (map_to_list sample_products)) sample_world true sample_world)
    as (requests & H1 & _ & H2 & _ & H3); [reflexivity|reflexivity|].
  exists requests. split; [rewrite H1; reflexivity|]. split; [exact H2|]. apply H3.
  apply tc_once. exists sample_report, (sample_input "u" "users" "v1.2.0").
  split; [|split; [reflexivity|split; [right; left|reflexivity]]].
  apply list_elem_of_fmap. exists (mkKey "shop" "report", sample_report).
  split; [reflexivity|]. apply elem_of_map_to_list. vm_compute. reflexivity.
Defined.
