(* ===== verification/GoUrl.v ===== *)
(** * [net/url] and [net/netip]

    [url.Parse], the accessors [Hostname] and [Port], and [netip.ParseAddr], as far as the repository
    observes them: whether parsing succeeds, the scheme, the opaque part, the presence of user
    information, the host, the decoded path, the raw query and the decoded fragment of a URL; the
    family, the IPv4 fields and the zone of an address.  The definitions follow the packages of the
    Go release named in [go.mod], which reject a second colon in an HTTP authority and anything but
    an IPv6 literal between brackets. *)

From Stdlib Require Import Ascii.
From stdpp Require Import pretty.
From S2P Require Import Prelude Regex GoJson GoStrings.

(** ** Cutting a string at a byte *)

(** [strings.Cut] at the first [sep]; [None] when there is none. *)
Fixpoint cut_first (sep : ascii) (s : string) : option (string * string) :=
  match s with
  | String.EmptyString => None
  | String.String a s' =>
      if Ascii.eqb a sep then Some ("", s')
      else match cut_first sep s' with
      | Some (l, r) => Some (String.String a l, r)
      | None => None
      end
  end.

(** The two sides of the last [sep]. *)
Fixpoint cut_last (sep : ascii) (s : string) : option (string * string) :=
  match s with
  | String.EmptyString => None
  | String.String a s' =>
      match cut_last sep s' with
      | Some (l, r) => Some (String.String a l, r)
      | None => if Ascii.eqb a sep then Some ("", s') else None
      end
  end.

(** The part before the first [sep], and the rest starting with it. *)
Definition span_until (sep : ascii) (s : string) : string * string :=
  match cut_first sep s with
  | Some (l, r) => (l, String.String sep r)
  | None => (s, "")
  end.

Definition has_byte (a : ascii) (s : string) : bool := non_nil (cut_first a s).

Fixpoint all_bytes (f : ascii → bool) (s : string) : bool :=
  match s with
  | String.EmptyString => true
  | String.String a s' => f a && all_bytes f s'
  end.

(** The sides of the first occurrence of [sub]. *)
Fixpoint split_at (sub s : string) : option (string * string) :=
  if HasPrefix s sub then Some ("", s)
  else match s with
  | String.EmptyString => None
  | String.String a s' =>
      match split_at sub s' with
      | Some (l, r) => Some (String.String a l, r)
      | None => None
      end
  end.

Definition to_lower_byte (a : ascii) : ascii :=
  if upper a then ascii_of_N (N_of_ascii a + 32) else a.
Fixpoint lower_ascii (s : string) : string :=
  match s with
  | String.EmptyString => ""
  | String.String a s' => String.String (to_lower_byte a) (lower_ascii s')
  end.

(** ** Percent decoding *)

Inductive encoding := encodePath | encodeFragment | encodeUserPassword | encodeHost | encodeZone.

Definition unhex (a : ascii) : option N :=
  if digit a then Some (N_of_ascii a - 48)%N
  else if in_range "a" "f" a then Some (N_of_ascii a - 87)%N
  else if in_range "A" "F" a then Some (N_of_ascii a - 55)%N
  else None.

Definition alnum (a : ascii) : bool := lower a || upper a || digit a.

(** [shouldEscape] for the host and zone modes. *)
Definition host_safe (a : ascii) : bool :=
  alnum a || one_of "!$&'()*+,;=:[]<>-_.~" a || Ascii.eqb a (ascii_of_N 34).

(** [unescape]: the decoded string, or [None] for a malformed or forbidden byte. *)
Fixpoint unescape (mode : encoding) (s : string) : option string :=
  match s with
  | String.EmptyString => Some ""
  | String.String a s1 =>
      if Ascii.eqb a "%" then
        match s1 with
        | String.String b (String.String c s3) =>
            match unhex b, unhex c with
            | Some x, Some y =>
                let v := (16 * x + y)%N in
                let percent := (v =? 37)%N in
                let allowed :=
                  match mode with
                  | encodeHost => (8 <=? x)%N || percent
                  | encodeZone => percent || (v =? 32)%N || host_safe (ascii_of_N v)
                  | _ => true
                  end in
                if allowed then
                  match unescape mode s3 with
                  | Some t => Some (String.String (ascii_of_N v) t)
                  | None => None
                  end
                else None
            | _, _ => None
            end
        | _ => None
        end
      else
        let allowed :=
          match mode with
          | encodeHost | encodeZone => byte_in 0x80 0xFF a || host_safe a
          | _ => true
          end in
        if allowed then
          match unescape mode s1 with
          | Some t => Some (String.String a t)
          | None => None
          end
        else None
  end.

(** ** [netip.ParseAddr] *)

Inductive Addr :=
  | Addr4 (fields : list Z)
  | Addr6 (zone : string).

(** [parseIPv4Fields]: [digLen] digits of the current octet have been read with value [val]. *)
Fixpoint ipv4_fields (s : string) (val : Z) (digLen : nat) (acc : list Z) : option (list Z) :=
  match s with
  | String.EmptyString =>
      if (length acc =? 3)%nat && negb (digLen =? 0)%nat then Some (acc ++ [val]) else None
  | String.String a s' =>
      if digit a then
        if (digLen =? 1)%nat && (val =? 0)%Z then None
        else
          let val := (val * 10 + (Z.of_N (N_of_ascii a) - 48))%Z in
          if (255 <? val)%Z then None else ipv4_fields s' val (S digLen) acc
      else if Ascii.eqb a "." then
        if (digLen =? 0)%nat || (length acc =? 3)%nat then None
        else ipv4_fields s' 0 0 (acc ++ [val])
      else None
  end.

(** Up to [n] leading hexadecimal digits: how many there are, and the rest. *)
Fixpoint hex_run (s : string) : nat * string :=
  match s with
  | String.String a s' =>
      if non_nil (unhex a) then let '(n, r) := hex_run s' in (S n, r) else (O, s)
  | String.EmptyString => (O, s)
  end.

(** The loop of [parseIPv6]: [i] bytes of the address are filled.  Each round fills two of sixteen
    bytes, so eight rounds suffice.  The result is the final [i] and whether an ellipsis was seen. *)
Fixpoint ipv6_groups (fuel : nat) (s : string) (i : Z) (ellipsis : bool) : option (Z * bool) :=
  match fuel with
  | O => if s == "" then Some (i, ellipsis) else None
  | S fuel' =>
      let '(off, rest) := hex_run s in
      if (off =? 0)%nat || (4 <? off)%nat then None
      else match rest with
      | String.EmptyString => Some (i + 2, ellipsis)%Z
      | String.String c t =>
          if Ascii.eqb c "." then
            if (negb ellipsis && (i != 12%Z)) || (16 <? i + 4)%Z then None
            else match ipv4_fields s 0 0 [] with
            | Some _ => Some (i + 4, ellipsis)%Z
            | None => None
            end
          else if negb (Ascii.eqb c ":") then None
          else match t with
          | String.EmptyString => None
          | String.String d t' =>
              if Ascii.eqb d ":" then
                if ellipsis then None
                else if t' == "" then Some (i + 2, true)%Z
                else ipv6_groups fuel' t' (i + 2) true
              else ipv6_groups fuel' t (i + 2) ellipsis
          end
      end
  end.

Definition parseIPv6 (s : string) : option Addr :=
  let '(body, zone) :=
    match cut_first "%" s with Some (l, r) => (l, Some r) | None => (s, None) end in
  if zone == Some "" then None
  else
    let addr := Some (Addr6 (default "" zone)) in
    let leading := HasPrefix body "::" in
    let body := if leading then drop_bytes 2 body else body in
    if leading && (body == "") then addr
    else match ipv6_groups 8 body 0 leading with
    | None => None
    | Some (i, ellipsis) =>
        if (i <? 16)%Z then if ellipsis then addr else None
        else if ellipsis then None else addr
    end.

Definition parseIPv4 (s : string) : option Addr :=
  match ipv4_fields s 0 0 [] with Some l => Some (Addr4 l) | None => None end.

(** The first of [.], [:] and [%] decides the syntax. *)
Fixpoint address_kind (s : string) : option ascii :=
  match s with
  | String.EmptyString => None
  | String.String a s' => if one_of ".:%" a then Some a else address_kind s'
  end.

Definition ParseAddr (s : string) : option Addr :=
  match address_kind s with
  | Some a =>
      if Ascii.eqb a "." then parseIPv4 s
      else if Ascii.eqb a ":" then parseIPv6 s
      else None
  | None => None
  end.

Definition Zone (a : Addr) : string := match a with Addr4 _ => "" | Addr6 z => z end.
Definition Is4 (a : Addr) : bool := match a with Addr4 _ => true | Addr6 _ => false end.
(** [Addr.String] of an IPv4 address. *)
Definition string4 (fields : list Z) : string := join "." (map pretty fields).

(** ** [url.Parse] *)

Record URL := mkURL {
  Scheme : string;
  Opaque : string;
  User : bool;  (* a non-nil [User] *)
  Host : string;
  Path : string;
  RawQuery : string;
  Fragment : string;
  RawPath : string;
  RawFragment : string
}.

(** [shouldEscape] for the path and fragment modes. *)
Definition shouldEscape (mode : encoding) (a : ascii) : bool :=
  if alnum a || one_of "-_.~$&+,/:;=@" a then false
  else match mode with
  | encodePath => true
  | encodeFragment => negb (one_of "?!()*" a)
  | _ => true
  end.

Definition upper_hex (n : N) : ascii :=
  ascii_of_N (if (n <? 10)%N then n + 48 else n + 55).

(** [escape] for the path and fragment modes. *)
Fixpoint escape (mode : encoding) (s : string) : string :=
  match s with
  | String.EmptyString => ""
  | String.String a s' =>
      if shouldEscape mode a then
        String.String "%" (String.String (upper_hex (N_of_ascii a / 16))
          (String.String (upper_hex (N_of_ascii a mod 16)) (escape mode s')))
      else String.String a (escape mode s')
  end.

(** [setPath] and [setFragment] keep the text when the default encoding differs from it. *)
Definition raw_form (mode : encoding) (text decoded : string) : string :=
  if text == escape mode decoded then "" else text.

(** [validOptionalPort]: empty, or a colon followed by decimal digits. *)
Definition validOptionalPort (s : string) : bool :=
  match s with
  | String.EmptyString => true
  | String.String a s' => Ascii.eqb a ":" && all_bytes digit s'
  end.

(** The literal between brackets, whose zone is decoded by its own rule. *)
Definition bracket_host (hostname : string) : option string :=
  let decoded :=
    match split_at "%25" hostname with
    | Some (l, r) =>
        match unescape encodeHost l, unescape encodeZone r with
        | Some x, Some y => Some (x +:+ y)
        | _, _ => None
        end
    | None => unescape encodeHost hostname
    end in
  match decoded with
  | Some h =>
      match ParseAddr h with
      | Some a => if Is4 a then None else Some h
      | None => None
      end
  | None => None
  end.

(** [parseHost]; an HTTP authority holds at most one colon outside brackets. *)
Definition parseHost (scheme host : string) : option string :=
  match cut_last "[" host with
  | Some (l, r) =>
      if l != "" then None
      else match cut_last "]" r with
      | None => None
      | Some (hostname, colonPort) =>
          if negb (validOptionalPort colonPort) then None
          else match unescape encodeHost colonPort, bracket_host hostname with
          | Some p, Some h => Some ("[" +:+ h +:+ "]" +:+ p)
          | _, _ => None
          end
      end
  | None =>
      let strict := (scheme == "http") || (scheme == "https") in
      match (if strict then cut_first ":" host else cut_last ":" host) with
      | Some (_, port) =>
          if validOptionalPort (String.String ":" port) then unescape encodeHost host else None
      | None => unescape encodeHost host
      end
  end.

(** [validUserinfo]. *)
Definition validUserinfo (s : string) : bool :=
  all_bytes (λ a, alnum a || one_of "-._:~!$&'()*+,;=%@" a) s.

(** [parseAuthority]: whether user information is present, and the host. *)
Definition parseAuthority (scheme authority : string) : option (bool * string) :=
  match cut_last "@" authority with
  | None =>
      match parseHost scheme authority with Some h => Some (false, h) | None => None end
  | Some (userinfo, host) =>
      match parseHost scheme host with
      | None => None
      | Some h =>
          if negb (validUserinfo userinfo) then None
          else
            let parts :=
              match cut_first ":" userinfo with Some (u, p) => (u, p) | None => (userinfo, "") end in
            match unescape encodeUserPassword (fst parts), unescape encodeUserPassword (snd parts) with
            | Some _, Some _ => Some (true, h)
            | _, _ => None
            end
      end
  end.

(** [getScheme]: [None] for a missing scheme before a colon, else the scheme and the rest. *)
Fixpoint scheme_loop (s whole seen : string) : option (string * string) :=
  match s with
  | String.EmptyString => Some ("", whole)
  | String.String a s' =>
      if lower a || upper a then scheme_loop s' whole (seen +:+ String.String a "")
      else if digit a || one_of "+-." a then
        if seen == "" then Some ("", whole) else scheme_loop s' whole (seen +:+ String.String a "")
      else if Ascii.eqb a ":" then if seen == "" then None else Some (seen, s')
      else Some ("", whole)
  end.
Definition getScheme (s : string) : option (string * string) := scheme_loop s s "".

(** A control byte. *)
Definition ctl_byte (a : ascii) : bool := byte_in 0 0x1F a || Ascii.eqb a (ascii_of_N 0x7F).

(** The unexported [parse], on the URL without its fragment. *)
Definition parse_url (raw : string) : option URL :=
  if negb (all_bytes (λ a, negb (ctl_byte a)) raw) then None
  else if raw == "*" then Some (mkURL "" "" false "" "*" "" "" "" "")
  else match getScheme raw with
  | None => None
  | Some (sch, rest) =>
      let sch := lower_ascii sch in
      let '(rest, query) :=
        match cut_first "?" rest with Some (l, r) => (l, r) | None => (rest, "") end in
      if negb (HasPrefix rest "/") && (sch != "") then
        Some (mkURL sch rest false "" "" query "" "" "")
      else if negb (HasPrefix rest "/") && has_byte ":" (fst (span_until "/" rest)) then None
      else
        let authority :=
          if HasPrefix rest "//" && ((sch != "") || negb (HasPrefix rest "///"))
          then Some (span_until "/" (drop_bytes 2 rest)) else None in
        match authority with
        | None =>
            match unescape encodePath rest with
            | Some p => Some (mkURL sch "" false "" p query "" (raw_form encodePath rest p) "")
            | None => None
            end
        | Some (auth, path) =>
            match parseAuthority sch auth, unescape encodePath path with
            | Some (user, h), Some p => Some (mkURL sch "" user h p query "" (raw_form encodePath path p) "")
            | _, _ => None
            end
        end
  end.

(** [url.Parse]. *)
Definition Parse (raw : string) : option URL :=
  match cut_first "#" raw with
  | None => parse_url raw
  | Some (u, frag) =>
      match parse_url u, unescape encodeFragment frag with
      | Some url, Some f =>
          Some (mkURL (Scheme url) (Opaque url) (User url) (Host url) (Path url) (RawQuery url) f
                  (RawPath url) (raw_form encodeFragment frag f))
      | _, _ => None
      end
  end.

(** [splitHostPort], [URL.Hostname] and [URL.Port]. *)
Definition splitHostPort (hostPort : string) : string * string :=
  let '(host, port) :=
    match cut_last ":" hostPort with
    | Some (l, r) => if validOptionalPort (String.String ":" r) then (l, r) else (hostPort, "")
    | None => (hostPort, "")
    end in
  if HasPrefix host "[" && HasSuffix host "]"
  then (take_bytes (String.length host - 2) (drop_bytes 1 host), port)
  else (host, port).
Definition Hostname (u : URL) : string := fst (splitHostPort (Host u)).
Definition Port (u : URL) : string := snd (splitHostPort (Host u)).

(** ** Cutting strings *)

Lemma all_bytes_app f s t : all_bytes f (s +:+ t) = all_bytes f s && all_bytes f t.
Proof.
  induction s as [|a s IH]; [done|]. rewrite str_app_cons. simpl. by rewrite IH, andb_assoc.
Qed.

Lemma cut_first_Some sep s l r :
  cut_first sep s = Some (l, r) → s = l +:+ String.String sep r ∧ has_byte sep l = false.
Proof.
  revert l r. unfold has_byte. induction s as [|a s IH]; intros l r; simpl; [done|].
  destruct (Ascii.eqb a sep) eqn:Ha.
  - intros [= <- <-]. apply Ascii.eqb_eq in Ha as ->. done.
  - destruct (cut_first sep s) as [[l' r']|] eqn:E; [|done]. intros [= <- <-].
    destruct (IH l' r' eq_refl) as [-> Hl]. split; [done|].
    cbn [cut_first]. rewrite Ha. destruct (cut_first sep l'); done.
Qed.

Lemma cut_first_None sep s : cut_first sep s = None ↔ all_bytes (λ a, negb (Ascii.eqb a sep)) s = true.
Proof.
  induction s as [|a s IH]; simpl; [done|].
  destruct (Ascii.eqb a sep); simpl; [done|]. rewrite <- IH.
  destruct (cut_first sep s) as [[? ?]|]; done.
Qed.

Lemma cut_last_None sep s : cut_last sep s = None ↔ cut_first sep s = None.
Proof.
  induction s as [|a s IH]; simpl; [done|].
  destruct (cut_last sep s) as [[l r]|] eqn:E; destruct (Ascii.eqb a sep);
    destruct (cut_first sep s) as [[? ?]|]; naive_solver.
Qed.

Lemma span_until_spec sep s auth rest : span_until sep s = (auth, rest) →
  s = auth +:+ rest ∧ has_byte sep auth = false ∧ (rest = "" ∨ ∃ t, rest = String.String sep t).
Proof.
  unfold span_until. destruct (cut_first sep s) as [[l r]|] eqn:E; intros [= <- <-].
  - apply cut_first_Some in E as [-> H]. eauto.
  - rewrite str_app_nil_r. unfold has_byte. rewrite E. auto.
Qed.

Lemma all_bytes_impl (f g : ascii → bool) s :
  (∀ a, f a = true → g a = true) → all_bytes f s = true → all_bytes g s = true.
Proof.
  intros Hfg. induction s as [|a s IH]; simpl; [done|].
  rewrite !andb_true_iff. intros [H1 H2]. auto.
Qed.

Lemma has_byte_cons a b s : has_byte a (String.String b s) = Ascii.eqb b a || has_byte a s.
Proof.
  unfold has_byte. cbn [cut_first]. destruct (Ascii.eqb b a); [done|].
  by destruct (cut_first a s) as [[]|].
Qed.

Lemma cut_first_absent a s : has_byte a s = false → cut_first a s = None.
Proof. unfold has_byte. by destruct (cut_first a s). Qed.

Lemma all_bytes_absent f a s : all_bytes f s = true → f a = false → has_byte a s = false.
Proof.
  intros Hs Ha. induction s as [|b s IH]; [done|]. cbn [all_bytes] in Hs.
  apply andb_true_iff in Hs as [Hb Hs]. rewrite has_byte_cons, IH by done.
  destruct (Ascii.eqb_spec b a) as [->|]; [congruence|done].
Qed.

(** Every byte of the strings of a pattern satisfies a condition. *)
Fixpoint within (f : ascii → bool) (r : re) : Prop :=
  match r with
  | REmpty | REps => True
  | RClass g => ∀ a, g a = true → f a = true
  | RCat r1 r2 | RAlt r1 r2 => within f r1 ∧ within f r2
  | RStar r => within f r
  end.
Lemma within_spec f r t : Matches r t → within f r → all_bytes f t = true.
Proof.
  induction 1 as [|g a Hg|r1 r2 t1 t2 _ IH1 _ IH2|r1 r2 t _ IH|r1 r2 t _ IH|r|r a t1 t2 _ IH1 _ IH2];
    cbn [within]; intros Hw; try (done || (destruct Hw; by auto)).
  - cbn. by rewrite (Hw a Hg).
  - destruct Hw. rewrite all_bytes_app, IH1, IH2; done.
  - rewrite all_bytes_app, IH1, IH2; done.
Qed.
Lemma within_up_to f r n : within f r → within f (RUpTo n r).
Proof. intros Hr. induction n as [|n IH]; cbn; auto. Qed.

(** ** Evaluations *)

Example parse_plain : Parse "https://a.example:8443/p%20q?x=1"
  = Some (mkURL "https" "" false "a.example:8443" "/p q" "x=1" "" "" "").
Proof. vm_compute. reflexivity. Qed.
Example parse_user : option_map User (Parse "https://u:p@a.example/") = Some true.
Proof. vm_compute. reflexivity. Qed.
Example parse_bracket : option_map Hostname (Parse "https://[::1]:8443/") = Some "::1".
Proof. vm_compute. reflexivity. Qed.
Example parse_colons : Parse "https://a:80:80/" = None ∧ Parse "https://[a.example]/" = None.
Proof. vm_compute. done. Qed.
Example addresses :
  ParseAddr "192.0.2.1" = Some (Addr4 [192; 0; 2; 1]%Z) ∧ ParseAddr "192.0.2.01" = None ∧
  ParseAddr "1:2:3:4:5:6:7:8" = Some (Addr6 "") ∧ ParseAddr "1:2:3:4:5:6:7" = None ∧
  ParseAddr "fe80::1%eth0" = Some (Addr6 "eth0") ∧ ParseAddr "::ffff:192.0.2.1" = Some (Addr6 "") ∧
  ParseAddr "1::2::3" = None ∧ ParseAddr "::" = Some (Addr6 "") ∧ ParseAddr "12345::" = None.
Proof. vm_compute. done. Qed.
