(* ===== verification/Config.v ===== *)
(** * Process configuration

    [internal/config]: release flags that default to off, and the HTTPS origins a publisher lets host
    its interface.  A Go [(value, error)] result is a sum whose right side is the error's text. *)

From Stdlib Require Import Ascii.
From stdpp Require Import pretty.
From S2P Require Import Prelude Regex GoJson GoStrings GoUrl.

(** ** [strconv] *)

(** [strconv.ParseBool]; [None] is [ErrSyntax]. *)
Definition ParseBool (s : string) : option bool :=
  if existsb (String.eqb s) ["1"; "t"; "T"; "true"; "TRUE"; "True"]%string then Some true
  else if existsb (String.eqb s) ["0"; "f"; "F"; "false"; "FALSE"; "False"]%string then Some false
  else None.

Fixpoint decimal_value (s : string) (acc : Z) : option Z :=
  match s with
  | String.EmptyString => Some acc
  | String.String a s' =>
      if digit a then decimal_value s' (acc * 10 + (Z.of_N (N_of_ascii a) - 48))%Z else None
  end.

(** [strconv.Atoi] on a 64-bit platform: [None] for a syntax or a range error. *)
Definition Atoi (s : string) : option Z :=
  let '(sign, body) :=
    match s with
    | String.String a s' =>
        if Ascii.eqb a "-" then ((-1)%Z, s') else if Ascii.eqb a "+" then (1%Z, s') else (1%Z, s)
    | String.EmptyString => (1%Z, s)
    end in
  if body == "" then None
  else match decimal_value body 0 with
  | Some n => let v := (sign * n)%Z in
              if ((- 2 ^ 63 <=? v) && (v <? 2 ^ 63))%Z then Some v else None
  | None => None
  end.

(** ** Release flags *)

(** The text of the wrapped [strconv.NumError]; [quote] is [strconv.Quote]. *)
Definition parse_bool_error (quote : string → string) (name value : string) : string :=
  "parse " +:+ name +:+ ": strconv.ParseBool: parsing " +:+ quote value +:+ ": invalid syntax".

Section Flags.
Context (quote : string → string).

(** [featureEnabled] defaults an unset flag to false and names invalid settings. *)
Definition featureEnabled (name value : string) : bool + string :=
  if value == "" then inl false
  else match ParseBool value with
  | None => inr (parse_bool_error quote name value)
  | Some enabled => inl enabled
  end.

Definition ProvisionedSourcesEnabled : string → bool + string :=
  featureEnabled "PROVISIONED_SOURCES_ENABLED".
Definition EngineProvidersEnabled : string → bool + string :=
  featureEnabled "ENGINE_PROVIDERS_ENABLED".
Definition ConnectorReadinessEnabled : string → bool + string :=
  featureEnabled "CONNECTOR_READINESS_ENABLED".
Definition ContractReadinessEnabled : string → bool + string :=
  featureEnabled "CONTRACT_READINESS_ENABLED".
Definition CompositionEnabled : string → bool + string := featureEnabled "COMPOSITION_ENABLED".
Definition UIContractEnabled : string → bool + string := featureEnabled "UI_CONTRACT_ENABLED".
Definition UIAppearanceEnabled : string → bool + string := featureEnabled "UI_APPEARANCE_ENABLED".
Definition RegistryDiscoveryEnabled : string → bool + string :=
  featureEnabled "REGISTRY_DISCOVERY_ENABLED".
Definition RegistryLineageEnabled : string → bool + string :=
  featureEnabled "REGISTRY_LINEAGE_ENABLED".
Definition DCATCatalogEnabled : string → bool + string := featureEnabled "DCAT_CATALOG_ENABLED".
End Flags.

(** ** Host origins *)

(** The label pattern: 1 to 63 lowercase letters, digits and inner hyphens. *)
Definition label_edge (a : ascii) : bool := lower a || digit a.
Definition labelPattern : re :=
  RCat (RClass label_edge)
    (ROpt (RCat (RUpTo 61 (RClass (λ a, label_edge a || Ascii.eqb a "-"))) (RClass label_edge))).

(** [strings.Trim(s, digits) == ""]: every byte is a digit. *)
Definition all_digits (s : string) : bool := all_bytes digit s.

(** [validUIHostname].  [strings.ToLower] acts on letters only; a host with bytes outside ASCII is
    refused by the label pattern and by the address parser alike, so lowering ASCII decides it. *)
Definition validUIHostname (host : string) : bool :=
  if (host == "") || (host != lower_ascii host) || HasSuffix host "." then false
  else
    let labels := Split host "." in
    let last := List.last labels "" in
    if all_digits last || HasPrefix last "0x" then
      match ParseAddr host with
      | Some (Addr4 fields) => string4 fields == host
      | _ => false
      end
    else forallb (MatchString labelPattern) labels.

(** [strings.ContainsAny]. *)
Definition ContainsAny (s : string) (f : ascii → bool) : bool := negb (all_bytes (λ a, negb (f a)) s).

(** The bytes no origin may hold: backslash, blanks, wildcard, fragment and query marks. *)
Definition origin_byte (a : ascii) : bool :=
  one_of "\ *#?" a || existsb (Ascii.eqb a) (map ascii_of_N [9; 13; 10]%N).

Definition origin_error : string := "UI_HOST_ORIGINS requires distinct exact HTTPS origins".
Definition hostname_error : string :=
  "UI_HOST_ORIGINS requires lowercase DNS names or canonical IPv4 addresses".
Definition port_error : string :=
  "UI_HOST_ORIGINS requires canonical non-default ports from 1 to 65535".

(** The port of an origin, when its host has a colon. *)
Definition origin_port (parsed : URL) : bool :=
  if has_byte ":" (Host parsed) then
    match Atoi (Port parsed) with
    | None => false
    | Some port =>
        negb ((port <? 1)%Z || (65535 <? port)%Z || (port == 443%Z) || (pretty port != Port parsed))
    end
  else true.

(** The loop over the origins; [seen] holds the earlier ones. *)
Fixpoint origins_loop (origins : list string) (seen : gset string) : option string :=
  match origins with
  | [] => None
  | origin :: rest =>
      match Parse origin with
      | None => Some origin_error
      | Some parsed =>
          if (253 <? slen origin)%Z || ContainsAny origin origin_byte ||
             (Scheme parsed != "https") || User parsed || (Host parsed == "") ||
             (Path parsed != "") || (RawQuery parsed != "") || (Fragment parsed != "") ||
             (Opaque parsed != "") || (origin != "https://" +:+ Host parsed) ||
             bool_decide (origin ∈ seen)
          then Some origin_error
          else if negb (validUIHostname (Hostname parsed)) then Some hostname_error
          else if negb (origin_port parsed) then Some port_error
          else origins_loop rest ({[origin]} ∪ seen)
      end
  end.

(** [UIHostOrigins]. *)
Definition UIHostOrigins (value : string) : list string + string :=
  if value == "" then inl []
  else
    let origins := Split value "," in
    if (16 <? len origins)%Z then inr "UI_HOST_ORIGINS permits at most 16 origins"
    else match origins_loop origins ∅ with
    | Some err => inr err
    | None => inl origins
    end.

Example origins_accepted :
  UIHostOrigins "https://a.example,https://b.example:8443,https://192.0.2.1" =
  inl ["https://a.example"; "https://b.example:8443"; "https://192.0.2.1"]%string.
Proof. vm_compute. reflexivity. Qed.
Example origins_refused :
  map (λ s, negb (match UIHostOrigins s with inl _ => true | inr _ => false end))
    ["https://a.example/"; "https://A.example"; "https://a.example:443"; "https://a.example:08443";
     "https://u@a.example"; "http://a.example"; "https://a.example,https://a.example";
     "https://*.example"; "https://1.2.3"; "https://0x1"]%string = repeat true 10.
Proof. vm_compute. reflexivity. Qed.

(** What an accepted list guarantees of each origin. *)
Definition exact_origin (origin : string) : Prop :=
  ∃ host, origin = "https://" +:+ host ∧ (slen origin <= 253)%Z ∧
    (∃ parsed, Parse origin = Some parsed ∧ Host parsed = host ∧ User parsed = false ∧
       validUIHostname (Hostname parsed) = true ∧ origin_port parsed = true).

Lemma origins_loop_ok origins : ∀ seen, origins_loop origins seen = None →
  Forall exact_origin origins ∧ NoDup origins ∧ ∀ o, o ∈ origins → o ∉ seen.
Proof.
  induction origins as [|o l IH]; intros seen; cbn [origins_loop].
  { intros _. repeat split; try constructor. intros o Ho%elem_of_nil. done. }
  destruct (Parse o) as [parsed|] eqn:HP; [|done].
  match goal with |- context [if ?b then _ else _] => destruct b eqn:Hb; [done|] end.
  destruct (validUIHostname (Hostname parsed)) eqn:Hh; [|done].
  destruct (origin_port parsed) eqn:Hp; [|done]. cbn [negb]. intros (H1 & H2 & H3)%IH.
  repeat match goal with H : _ || _ = false |- _ => apply orb_false_iff in H as [H ?] end.
  go_bool. split; [|split].
  - constructor; [|done]. exists (Host parsed). split; [done|]. split; [lia|].
    exists parsed. done.
  - constructor; [|done]. intros Hin. apply (H3 o Hin). set_solver.
  - intros o' [->|Hin]%elem_of_cons; [done|]. specialize (H3 o' Hin). set_solver.
Qed.

Lemma split_byte_cons sep s cur : ∃ x l, split_byte sep s cur = x :: l.
Proof.
  revert cur. induction s as [|a s IH]; intros cur; simpl; [eauto|].
  destruct (Ascii.eqb a sep); eauto.
Qed.

(** Splitting at a byte loses nothing. *)
Lemma join_split_byte sep s cur : join (one sep) (split_byte sep s cur) = cur +:+ s.
Proof.
  revert cur. induction s as [|a s IH]; intros cur; simpl; [by rewrite str_app_nil_r|].
  destruct (Ascii.eqb a sep) eqn:Ha.
  - apply Ascii.eqb_eq in Ha as ->. specialize (IH "").
    destruct (split_byte_cons sep s "") as (x & l & E). rewrite E in *.
    change (join (one sep) (cur :: x :: l)) with (cur +:+ one sep +:+ join (one sep) (x :: l)).
    rewrite IH. done.
  - rewrite IH. by rewrite <- str_app_assoc.
Qed.

(** The origins a publisher may list: an accepted value holds at most 16 distinct origins and
    nothing else, each exactly [https://] and a host of at most 253 bytes together, with no user
    information, path, query or fragment, a lowercase DNS or canonical IPv4 hostname and, when a port
    is given, a canonical one other than 443. *)
Theorem accepted_origins_exact (value : string) (origins : list string) :
  UIHostOrigins value = inl origins →
  Forall exact_origin origins ∧ NoDup origins ∧ (len origins <= 16)%Z ∧
  join "," origins = value.
Proof.
  unfold UIHostOrigins. case_bool_decide as Hv.
  { intros [= <-]. subst. repeat split; try constructor. unfold len. simpl. lia. }
  destruct (16 <? _)%Z eqn:Hl; [done|].
  destruct (origins_loop _ _) eqn:Hloop; [done|]. intros [= <-].
  destruct (origins_loop_ok _ _ Hloop) as (H1 & H2 & _).
  split; [done|]. split; [done|]. split; [by apply Z.ltb_ge|].
  apply (join_split_byte "," value "").
Qed.

Lemma accepted_origins_exact_witness :
  ∃ origins, UIHostOrigins "https://a.example,https://b.example:8443" = inl origins ∧
    NoDup origins ∧ join "," origins = "https://a.example,https://b.example:8443".
Proof.
  exists ["https://a.example"; "https://b.example:8443"]%string.
  assert (H : UIHostOrigins "https://a.example,https://b.example:8443" =
    inl ["https://a.example"; "https://b.example:8443"]%string) by (vm_compute; reflexivity).
  destruct (accepted_origins_exact _ _ H) as (_ & Hn & _ & Hj). done.
Defined.
