(* ===== verification/Descriptor.v ===== *)
(** * Portable product descriptors

    [internal/registry/descriptor.go], [descriptor_validation.go] and the projection of
    [handler.go]: the public view of a product, the health of each capability, the profile every
    published descriptor satisfies, and its bounded JSON encoding. *)

From Stdlib Require Import Ascii.
From S2P Require Import Prelude Kube Api Regex GoJson GoStrings GoUrl Config Composition.

Definition maxDescriptorBytes : Z := 65536.
Definition maxPortableGeneration : Z := 9007199254740991.

(** ** The projected records *)

Record readinessDescriptor := mkReadiness { RD_Reason : string; RD_Message : string }.

Record productDescriptor := mkDescriptor {
  PD_Namespace : string;
  PD_Name : string;
  PD_ID : string;
  PD_DisplayName : string;
  PD_Description : string;
  PD_Version : string;
  PD_Owner : ProductOwner;
  PD_DocumentationURL : string;
  PD_Inputs : list InputPort;
  PD_Outputs : list OutputPort;
  PD_UI : option ProductUI;
  PD_Ready : bool;
  PD_Readiness : readinessDescriptor;
  PD_Composition : option readinessDescriptor;
  PD_Lineage : list InputStatus
}.

Record healthDimension := mkHealth {
  HD_State : string;
  HD_Message : string;
  HD_Generation : Z;
  HD_ObservedGeneration : Z
}.

(** The [Health] map has four fixed keys, listed in the order the encoder sorts them. *)
Record portableDescriptor := mkPortable {
  P_APIVersion : string;
  P_Kind : string;
  P_Descriptor : productDescriptor;  (* embedded *)
  P_Generation : Z;
  P_ObservedGeneration : Z;
  P_Health : list (string * healthDimension)
}.

(** ** Health of one capability *)

(** [healthExplanation] supplies fixed public wording. *)
Definition healthExplanation (state : string) : string :=
  if state == "ready" then "The controller reported readiness for the current product generation."
  else if state == "not-ready" then
    "The current observation is not ready. The product owner must resolve the reported condition."
  else if state == "stale" then
    "The observation belongs to another product generation. Wait for reconciliation."
  else if state == "disabled" then
    "The observation feature is disabled. The operator controls its rollout."
  else if state == "not-applicable" then "This product does not declare this capability."
  else "No conclusive independent observation is available for this capability.".

(** [disabledCondition] recognizes only the controller's published feature-disabled reasons. *)
Definition disabledCondition (conditionType why : string) : bool :=
  if conditionType == ConditionSourceReady then
    (why == "SourceFeatureDisabled") || (why == "EngineProviderFeatureDisabled")
  else if conditionType == ConditionConnectorReady then why == "ConnectorFeatureDisabled"
  else if conditionType == ConditionContractsReady then why == "ContractFeatureDisabled"
  else if conditionType == ConditionCompositionReady then why == "CompositionFeatureDisabled"
  else if conditionType == ConditionReady then
    (why == "SourceFeatureDisabled") || (why == "EngineProviderFeatureDisabled") ||
    (why == "ConnectorFeatureDisabled") || (why == "ContractFeatureDisabled") ||
    (why == "CompositionFeatureDisabled")
  else false.

Section Projection.
Context `{C : ConditionApi}.

(** [publicHealth]. *)
Definition publicHealth (product : DataProduct) (conditionType : string) (applicable : bool)
  : healthDimension :=
  let generation := Generation (Meta product) in
  let condition := FindStatusCondition (Conditions (Status product)) conditionType in
  let state :=
    if negb applicable then "not-applicable"
    else match condition with
    | None => "unobserved"
    | Some c =>
        if cond_ObservedGeneration c != generation then "stale"
        else if cond_Status c == ConditionTrue then "ready"
        else if cond_Status c == ConditionFalse then
          if disabledCondition conditionType (cond_Reason c) then "disabled" else "not-ready"
        else "unobserved"
    end in
  let observed :=
    match condition with
    | Some c => if applicable then cond_ObservedGeneration c else 0%Z
    | None => 0%Z
    end in
  mkHealth state (healthExplanation state) generation observed.

(** [descriptorFor] withholds readiness and lineage of stale generations. *)
Definition readiness_for (product : DataProduct) : bool * readinessDescriptor :=
  if negb (IsZero (DeletionTimestamp (Meta product))) then
    (false, mkReadiness "ProductDeleting" "The product is being deleted.")
  else match FindStatusCondition (Conditions (Status product)) ConditionReady with
  | None => (false, mkReadiness "Unknown" "The controller has not reported readiness yet.")
  | Some c =>
      if cond_ObservedGeneration c != Generation (Meta product) then
        (false, mkReadiness "StatusStale"
                  "The controller has not reconciled the current product generation.")
      else (cond_Status c == "True", mkReadiness (cond_Reason c) (cond_Message c))
  end.

Definition composition_for (product : DataProduct)
  : option readinessDescriptor * list InputStatus :=
  match FindStatusCondition (Conditions (Status product)) ConditionCompositionReady with
  | None => (None, [])
  | Some observed =>
      if cond_ObservedGeneration observed == Generation (Meta product) then
        (Some (mkReadiness (cond_Reason observed) (cond_Message observed)),
         Status_Inputs (Status product))
      else
        (Some (mkReadiness "StatusStale"
                 "Composition has not been observed for the current product generation."), [])
  end.

Definition descriptorFor (product : DataProduct) : productDescriptor :=
  let spec := Spec product in
  let '(ready, readiness) := readiness_for product in
  let '(composition, lineage) := composition_for product in
  mkDescriptor (Namespace (Meta product)) (Name (Meta product)) (ID spec) (DisplayName spec)
    (Description spec) (Spec_Version spec) (Owner spec) (DocumentationURL spec) (Inputs spec)
    (Outputs spec) (UI spec) ready readiness composition lineage.

(** The copy of one lineage entry with a public reason. *)
Definition public_input (s : InputStatus) : InputStatus :=
  mkInputStatus (IS_Name s) (IS_ProductRef s) (IS_ProductID s) (IS_ObservedGeneration s)
    (IS_Version s) (IS_Owner s) (IS_Output s) (IS_Ready s)
    (if IS_Ready s then "InputReady" else "InputNotReady").

(** The aggregate health of a product; deletion overrides it. *)
Definition aggregate_health (product : DataProduct) : healthDimension :=
  let h := publicHealth product ConditionReady true in
  if negb (IsZero (DeletionTimestamp (Meta product))) then
    mkHealth "not-ready" "The product is being deleted." (HD_Generation h) (HD_ObservedGeneration h)
  else h.

(** [portableDescriptorFor] projects public observation states, never condition reasons or
    messages. *)
Definition portableDescriptorFor (product : DataProduct) : portableDescriptor :=
  let spec := Spec product in
  let d := descriptorFor product in
  let composition :=
    publicHealth product ConditionCompositionReady (len (Inputs spec) != 0%Z) in
  let health :=
    [("composition", composition);
     ("connector", publicHealth product ConditionConnectorReady (non_nil (Spec_Connector spec)));
     ("contracts",
        publicHealth product ConditionContractsReady (len (ContractChecks spec) != 0%Z));
     ("source", publicHealth product ConditionSourceReady (non_nil (Source spec)))]%string in
  let aggregate := aggregate_health product in
  mkPortable "data-product-descriptor/v1" "DataProduct"
    (mkDescriptor (PD_Namespace d) (PD_Name d) (PD_ID d) (PD_DisplayName d) (PD_Description d)
       (PD_Version d) (PD_Owner d) (PD_DocumentationURL d) (PD_Inputs d) (PD_Outputs d) (PD_UI d)
       (HD_State aggregate == "ready")
       (mkReadiness (HD_State aggregate) (HD_Message aggregate))
       (match PD_Composition d with
        | Some _ => Some (mkReadiness (HD_State composition) (HD_Message composition))
        | None => None
        end)
       (map public_input (PD_Lineage d)))
    (Generation (Meta product)) (HD_ObservedGeneration aggregate) health.
End Projection.

(** ** Bounds of the projected value *)

(** A [reflect.Value] of the kinds a descriptor is built from. *)
Unset Elimination Schemes.
Inductive value :=
  | VString (s : string)
  | VPointer (target : option value)
  | VStruct (fields : list value)
  | VSlice (elements : list value)
  | VMap (elements : list value)
  | VScalar  (* booleans and integers *)
  | VInvalid.  (* invalid values, channels, functions and unsafe pointers *)
Set Elimination Schemes.

(** [withinDiscoveryBounds]. *)
Fixpoint withinDiscoveryBounds (v : value) : bool :=
  match v with
  | VString s => (slen s <=? 16384)%Z
  | VPointer None => true
  | VPointer (Some target) => withinDiscoveryBounds target
  | VStruct fields => forallb withinDiscoveryBounds fields
  | VSlice elements => (len elements <=? 1024)%Z && forallb withinDiscoveryBounds elements
  | VMap elements => forallb withinDiscoveryBounds elements
  | VScalar => true
  | VInvalid => false
  end.

(** [reflect.ValueOf] of the descriptor, in field order. *)
Definition owner_value (o : ProductOwner) : value :=
  VStruct [VString (Owner_Name o); VString (Owner_URL o)].
Definition reference_value (r : ProductReference) : value :=
  VStruct [VString (Ref_Name r); VString (Ref_Namespace r); VString (Ref_Output r)].
Definition input_value (i : InputPort) : value :=
  VStruct [VString (Input_Name i); reference_value (Input_ProductRef i);
    VPointer (option_map (λ c, VStruct [VString (MinimumVersion c); VString (Contract_Protocol c)])
                (Input_Contract i))].
Definition output_value (o : OutputPort) : value :=
  VStruct [VString (Output_Name o); VString (Output_Protocol o); VString (Output_URL o);
    VString (Output_ContractURL o); VString (Output_MediaType o)].
Definition contract_value (c : UIContract) : value :=
  VStruct [VString (UI_APIVersion c); VSlice (map VString (UI_HostOrigins c));
    VSlice (map VString (default [] (UI_Capabilities c)))].
Definition ui_value (u : ProductUI) : value :=
  VStruct [VString (UI_URL u); VString (UI_Title u);
    VPointer (option_map contract_value (UI_Contract u))].
Definition readiness_value (r : readinessDescriptor) : value :=
  VStruct [VString (RD_Reason r); VString (RD_Message r)].
Definition status_value (s : InputStatus) : value :=
  VStruct [VString (IS_Name s); reference_value (IS_ProductRef s); VString (IS_ProductID s);
    VScalar; VString (IS_Version s); VPointer (option_map owner_value (IS_Owner s));
    VPointer (option_map output_value (IS_Output s)); VScalar; VString (IS_Reason s)].
Definition health_value (h : healthDimension) : value :=
  VStruct [VString (HD_State h); VString (HD_Message h); VScalar; VScalar].
Definition product_value (d : productDescriptor) : value :=
  VStruct [VString (PD_Namespace d); VString (PD_Name d); VString (PD_ID d);
    VString (PD_DisplayName d); VString (PD_Description d); VString (PD_Version d);
    owner_value (PD_Owner d); VString (PD_DocumentationURL d);
    VSlice (map input_value (PD_Inputs d)); VSlice (map output_value (PD_Outputs d));
    VPointer (option_map ui_value (PD_UI d)); VScalar; readiness_value (PD_Readiness d);
    VPointer (option_map readiness_value (PD_Composition d));
    VSlice (map status_value (PD_Lineage d))].
Definition descriptor_value (p : portableDescriptor) : value :=
  VStruct [VString (P_APIVersion p); VString (P_Kind p); product_value (P_Descriptor p); VScalar;
    VScalar; VMap (map (λ e, health_value (snd e)) (P_Health p))].

(** ** JSON of the descriptor, with the struct tags *)

Definition InputContract_json (c : InputContract) : json :=
  JObject (field "minimumVersion" (JString (MinimumVersion c)) ++
           field "protocol" (JString (Contract_Protocol c))).
Definition InputPort_json (i : InputPort) : json :=
  JObject (field "name" (JString (Input_Name i)) ++
           field "productRef" (ProductReference_json (Input_ProductRef i)) ++
           omit_nil "contract" InputContract_json (Input_Contract i)).
Definition strings_json (l : list string) : json := JArray (map JString l).
(** A nil capability list is encoded as null. *)
Definition UIContract_json (c : UIContract) : json :=
  JObject (field "apiVersion" (JString (UI_APIVersion c)) ++
           field "hostOrigins" (strings_json (UI_HostOrigins c)) ++
           field "capabilities"
             (match UI_Capabilities c with Some l => strings_json l | None => JNull end)).
Definition ProductUI_json (u : ProductUI) : json :=
  JObject (field "url" (JString (UI_URL u)) ++ field "title" (JString (UI_Title u)) ++
           omit_nil "contract" UIContract_json (UI_Contract u)).
Definition readiness_json (r : readinessDescriptor) : json :=
  JObject (field "reason" (JString (RD_Reason r)) ++ field "message" (JString (RD_Message r))).
Definition health_json (h : healthDimension) : json :=
  JObject (field "state" (JString (HD_State h)) ++ field "message" (JString (HD_Message h)) ++
           field "generation" (JInt (HD_Generation h)) ++
           field "observedGeneration" (JInt (HD_ObservedGeneration h))).
Definition product_fields (d : productDescriptor) : list (string * json) :=
  field "namespace" (JString (PD_Namespace d)) ++ field "name" (JString (PD_Name d)) ++
  field "id" (JString (PD_ID d)) ++ field "displayName" (JString (PD_DisplayName d)) ++
  field "description" (JString (PD_Description d)) ++ field "version" (JString (PD_Version d)) ++
  field "owner" (ProductOwner_json (PD_Owner d)) ++
  omit_string "documentationUrl" (PD_DocumentationURL d) ++
  omit_empty "inputs" InputPort_json (PD_Inputs d) ++
  field "outputs" (JArray (map OutputPort_json (PD_Outputs d))) ++
  omit_nil "ui" ProductUI_json (PD_UI d) ++ field "ready" (JBool (PD_Ready d)) ++
  field "readiness" (readiness_json (PD_Readiness d)) ++
  omit_nil "composition" readiness_json (PD_Composition d) ++
  omit_empty "lineage" InputStatus_json (PD_Lineage d).
Definition descriptor_json (p : portableDescriptor) : json :=
  JObject (field "apiVersion" (JString (P_APIVersion p)) ++ field "kind" (JString (P_Kind p)) ++
           product_fields (P_Descriptor p) ++ field "generation" (JInt (P_Generation p)) ++
           field "observedGeneration" (JInt (P_ObservedGeneration p)) ++
           field "health" (JObject (map (λ e, (fst e, health_json (snd e))) (P_Health p)))).

(** ** Runes of a string *)

Definition tail_bits (a : ascii) : N := (N_of_ascii a mod 64)%N.

(** The conversion of a string to runes; an invalid byte is U+FFFD. *)
Fixpoint runes (s : string) : list N :=
  match s with
  | String.EmptyString => []
  | String.String a s1 =>
      match rune_size a s1, s1 with
      | 1, _ => N_of_ascii a :: runes s1
      | 2, String.String b s2 => ((N_of_ascii a mod 32) * 64 + tail_bits b)%N :: runes s2
      | 3, String.String b (String.String c s3) =>
          (((N_of_ascii a mod 16) * 64 + tail_bits b) * 64 + tail_bits c)%N :: runes s3
      | 4, String.String b (String.String c (String.String d s4)) =>
          ((((N_of_ascii a mod 8) * 64 + tail_bits b) * 64 + tail_bits c) * 64 + tail_bits d)%N
            :: runes s4
      | _, _ => 0xFFFD%N :: runes s1
      end
  end.

(** [unicode.IsSpace]: the code points with the White_Space property. *)
Definition IsSpace (r : N) : bool :=
  ((9 <=? r) && (r <=? 13))%N || ((0x2000 <=? r) && (r <=? 0x200A))%N ||
  existsb (N.eqb r) [0x20; 0x85; 0xA0; 0x1680; 0x2028; 0x2029; 0x202F; 0x205F; 0x3000]%N.

(** [len(utf16.Encode(runes))]. *)
Fixpoint utf16_length (l : list N) : Z :=
  match l with
  | [] => 0
  | r :: l' => ((if (0x10000 <=? r)%N then 2 else 1) + utf16_length l')%Z
  end.

(** ** The portable profile *)

Definition portableMinimumVersion : re := stableContractVersion.

(** [urn:] and at least two bytes of the URN vocabulary, the first a letter or a digit. *)
Definition portableURN : re :=
  RCat (RStr "urn:") (RCat (RClass alnum) (RPlus (RClass (λ a, alnum a || one_of ":._-" a)))).

(** [validGeneration] bounds integers to those a JavaScript client compares exactly. *)
Definition validGeneration (n : Z) : bool := (0 <=? n)%Z && (n <=? maxPortableGeneration)%Z.

(** [validPublicProtocol]. *)
Definition validPublicProtocol (protocol : OutputProtocol) : bool :=
  existsb (λ p, protocol == p)
    [ProtocolOpenAPI; ProtocolAsyncAPI; ProtocolGraphQL; ProtocolDCAT; ProtocolArrowFlight].

(** [distinctTracePorts] rejects ambiguous port names; [names] is the set so far. *)
Fixpoint distinct_names (l : list string) (names : gset string) : bool :=
  match l with
  | [] => true
  | n :: l' => if bool_decide (n ∈ names) then false else distinct_names l' ({[n]} ∪ names)
  end.
Definition distinctTracePorts (inputs : list InputPort) (outputs : list OutputPort) : bool :=
  distinct_names (map Input_Name inputs) ∅ && distinct_names (map Output_Name outputs) ∅.

(** A byte that keeps a URL plain: printable ASCII without blanks, backslash and hash. *)
Definition url_byte (a : ascii) : bool :=
  byte_in 0x21 0x7E a && negb (Ascii.eqb a backslash) && negb (Ascii.eqb a "#").

Section Profile.
Context `{N : NameValidation}.

(** [validPublicLabel] and [validProductName]. *)
Definition validPublicLabel (s : string) : bool := (len (IsDNS1123Label s) =? 0)%Z.
Definition validProductName (s : string) : bool :=
  if (253 <? slen s)%Z then false else forallb validPublicLabel (Split s ".").

(** The host rule of [validPublicHTTPS]: an address without zone, or a product-style name whose last
    label a browser does not read as a number. *)
Definition public_host (hostname : string) : bool :=
  match ParseAddr hostname with
  | Some address => Zone address == ""
  | None =>
      let last := List.last (Split hostname ".") "" in
      validProductName hostname && negb (all_digits last || HasPrefix last "0x")
  end.

Definition public_port (port : string) : bool :=
  if port == "" then true
  else match Atoi port with
  | None => false
  | Some number => negb ((number <? 1)%Z || (65535 <? number)%Z)
  end.

(** [validPublicHTTPS]. *)
Definition validPublicHTTPS (s : string) : bool :=
  if negb (HasPrefix s "https://") || negb (all_bytes url_byte s) then false
  else match Parse s with
  | None => false
  | Some parsed =>
      if (Scheme parsed != "https") || (Host parsed == "") || (Hostname parsed == "") ||
         User parsed || (Opaque parsed != "")
      then false
      else if negb (public_host (Hostname parsed)) then false
      else if HasSuffix (Host parsed) ":" then false
      else public_port (Port parsed)
  end.

Definition validPublicIdentity (s : string) : bool :=
  MatchString portableURN s || validPublicHTTPS s.
Definition validPublicReference (r : ProductReference) : bool :=
  validProductName (Ref_Name r) && validPublicLabel (Ref_Output r) &&
  ((Ref_Namespace r == "") || validPublicLabel (Ref_Namespace r)).
Definition validPublicOwner (o : ProductOwner) : bool :=
  (Owner_Name o != "") && ((Owner_URL o == "") || validPublicHTTPS (Owner_URL o)).
Definition validPublicOutput (o : OutputPort) : bool :=
  validPublicLabel (Output_Name o) && validPublicProtocol (Output_Protocol o) &&
  validPublicHTTPS (Output_URL o) && validPublicHTTPS (Output_ContractURL o).

(** The capability loop of [validPublicUI]. *)
Fixpoint ui_capabilities (version : string) (l : list string) (seen : gset string) : bool :=
  match l with
  | [] => true
  | c :: l' =>
      if bool_decide (c ∈ seen) ||
         ((c != "status") && (c != "resize") &&
          ((c != "appearance") || (version != "data-product-ui/v2")))
      then false
      else ui_capabilities version l' ({[c]} ∪ seen)
  end.

Definition validUIContract (contract : UIContract) : bool :=
  match UI_Capabilities contract with
  | None => false
  | Some capabilities =>
      if ((UI_APIVersion contract != "data-product-ui/v1") &&
          (UI_APIVersion contract != "data-product-ui/v2")) ||
         (len (UI_HostOrigins contract) =? 0)%Z || (16 <? len (UI_HostOrigins contract))%Z ||
         (3 <? len capabilities)%Z
      then false
      else match UIHostOrigins (join "," (UI_HostOrigins contract)) with
      | inr _ => false
      | inl _ => ui_capabilities (UI_APIVersion contract) capabilities ∅
      end
  end.

(** [validPublicUI]. *)
Definition validPublicUI (ui : ProductUI) : bool :=
  let title := runes (UI_Title ui) in
  if forallb (λ r, IsSpace r || (r =? 0xFEFF)%N) title || (200 <? utf16_length title)%Z ||
     (2048 <? slen (UI_URL ui))%Z || negb (validPublicHTTPS (UI_URL ui))
  then false
  else if (16384 <? slen (encode (ProductUI_json ui)))%Z then false
  else match UI_Contract ui with
  | None => true
  | Some contract => validUIContract contract
  end.

(** A reference with the namespace of the publishing product filled in. *)
Definition in_namespace (namespace : string) (r : ProductReference) : ProductReference :=
  if Ref_Namespace r == "" then mkProductReference (Ref_Name r) namespace (Ref_Output r) else r.

(** The map from input names to declared references; a later input would overwrite an earlier one. *)
Definition declared_inputs (namespace : string) (inputs : list InputPort)
  : gmap string ProductReference :=
  foldl (λ m i, <[Input_Name i := in_namespace namespace (Input_ProductRef i)]> m) ∅ inputs.

(** The loop that ties every lineage entry to a declared input. *)
Fixpoint lineage_declared (namespace : string) (inputs : gmap string ProductReference)
    (lineage : list InputStatus) (observations : gset string) : bool :=
  match lineage with
  | [] => true
  | edge :: rest =>
      match inputs !! IS_Name edge with
      | None => false
      | Some declared =>
          if bool_decide (IS_Name edge ∈ observations) ||
             (declared != in_namespace namespace (IS_ProductRef edge)) ||
             match IS_Output edge with
             | Some output => Output_Name output != Ref_Output declared
             | None => false
             end
          then false
          else lineage_declared namespace inputs rest ({[IS_Name edge]} ∪ observations)
      end
  end.

Definition validPublicInput (input : InputPort) : bool :=
  validPublicLabel (Input_Name input) && validPublicReference (Input_ProductRef input) &&
  match Input_Contract input with
  | None => true
  | Some c =>
      negb ((64 <? slen (MinimumVersion c))%Z ||
            negb (MatchString portableMinimumVersion (MinimumVersion c)) ||
            negb (validPublicProtocol (Contract_Protocol c)))
  end.

Definition validPublicEdge (edge : InputStatus) : bool :=
  validPublicLabel (IS_Name edge) && validPublicReference (IS_ProductRef edge) &&
  validGeneration (IS_ObservedGeneration edge) &&
  match IS_Owner edge with Some o => validPublicOwner o | None => true end &&
  match IS_Output edge with Some o => validPublicOutput o | None => true end.

(** [validPortableMetadata]. *)
Definition validPortableMetadata (p : portableDescriptor) : bool :=
  let d := P_Descriptor p in
  if negb (distinctTracePorts (PD_Inputs d) (PD_Outputs d)) then false
  else if negb (lineage_declared (PD_Namespace d)
                  (declared_inputs (PD_Namespace d) (PD_Inputs d)) (PD_Lineage d) ∅) then false
  else if negb (validProductName (PD_Name d)) || negb (validPublicLabel (PD_Namespace d)) ||
          negb (validPublicIdentity (PD_ID d)) || (PD_DisplayName d == "") ||
          (PD_Description d == "") || (PD_Version d == "") || negb (validPublicOwner (PD_Owner d)) ||
          (len (PD_Outputs d) =? 0)%Z || negb (validGeneration (P_Generation p)) ||
          negb (validGeneration (P_ObservedGeneration p)) ||
          ((PD_DocumentationURL d != "") && negb (validPublicHTTPS (PD_DocumentationURL d)))
  then false
  else
    forallb (λ e, validGeneration (HD_Generation (snd e)) &&
                  validGeneration (HD_ObservedGeneration (snd e))) (P_Health p) &&
    forallb validPublicOutput (PD_Outputs d) &&
    forallb validPublicInput (PD_Inputs d) &&
    forallb validPublicEdge (PD_Lineage d) &&
    match PD_UI d with None => true | Some ui => validPublicUI ui end.

Definition ValidPublicationUI (ui : ProductUI) : bool := validPublicUI ui.

(** ** Encoding *)

Inductive descriptorError := errDescriptorTooLarge | errInvalidMetadata.

Context `{C : ConditionApi}.

(** [encodePortableDescriptor]; a descriptor holds no value that [json.Marshal] rejects. *)
Definition encodePortableDescriptor (product : DataProduct) : string + descriptorError :=
  let descriptor := portableDescriptorFor product in
  if negb (withinDiscoveryBounds (descriptor_value descriptor)) then inr errDescriptorTooLarge
  else if negb (validPortableMetadata descriptor) then inr errInvalidMetadata
  else
    let data := encode (descriptor_json descriptor) in
    if (maxDescriptorBytes <? slen data)%Z then inr errDescriptorTooLarge else inl data.

(** [PublicationPreview] drops the observations an author may have written. *)
Definition preview_of (product : DataProduct) : DataProduct :=
  let m := Meta product in
  mkProduct (mkObjectMeta (Name m) (Namespace m) 0 None (Annotations m)) (Spec product)
    (mkStatus 0 [] []).
Definition PublicationPreview (product : DataProduct) : string + descriptorError :=
  encodePortableDescriptor (preview_of product).
End Profile.
