(* ===== verification/DescriptorSpec.v ===== *)
(** * What a portable descriptor promises

    Readiness in the registry is the controller's own notion of a ready producer; condition texts
    never reach a portable descriptor; whatever is published satisfies the portable profile, and its
    links are credential-free HTTPS URLs. *)

From Stdlib Require Import Ascii.
From S2P Require Import Prelude Kube Api Regex GoJson GoStrings GoUrl Config Composition Reference.
From S2P Require Import Descriptor.

(** ** Public links *)

(** A credential-free HTTPS URL: an authority without user information, then a path or a query. *)
Definition public_url (s : string) : Prop :=
  ∃ authority rest, s = "https://" +:+ authority +:+ rest ∧ authority ≠ "" ∧
    has_byte "@" authority = false ∧ has_byte "#" s = false ∧
    (rest = "" ∨ ∃ t, rest = String.String "/" t ∨ rest = String.String "?" t).

Lemma parse_https_authority t url : has_byte "#" ("https://" +:+ t) = false →
  Parse ("https://" +:+ t) = Some url → User url = false → Host url ≠ "" →
  ∃ authority rest, t = authority +:+ rest ∧ authority ≠ "" ∧ has_byte "@" authority = false ∧
    (rest = "" ∨ ∃ u, rest = String.String "/" u ∨ rest = String.String "?" u).
Proof.
  unfold has_byte at 1. intros Hh. unfold Parse.
  destruct (cut_first "#" ("https://" +:+ t)) as [?|]; [done|]. clear Hh.
  unfold parse_url. destruct (negb (all_bytes _ _)); [done|].
  rewrite bool_decide_false by done.
  change (getScheme ("https://" +:+ t)) with (Some ("https", "//" +:+ t)). cbv beta iota.
  change (lower_ascii "https") with "https".
  assert (∃ p q, match cut_first "?" ("//" +:+ t) with
                 | Some (l, r) => (l, r) | None => ("//" +:+ t, "") end = ("//" +:+ p, q) ∧
            (t = p +:+ q ∧ q = "" ∨ t = p +:+ String.String "?" q)) as (p & q & -> & Ht).
  { change (cut_first "?" ("//" +:+ t)) with
      (match (match cut_first "?" t with Some (l, r) => Some (String.String "/" l, r) | None => None end)
       with Some (l, r) => Some (String.String "/" l, r) | None => None end).
    destruct (cut_first "?" t) as [[l r]|] eqn:E.
    - apply cut_first_Some in E as [-> _]. exists l, r. auto.
    - exists t, "". rewrite str_app_nil_r. auto. }
  change (HasPrefix ("//" +:+ p) "/") with true. change (HasPrefix ("//" +:+ p) "//") with true.
  change (drop_bytes 2 ("//" +:+ p)) with p.
  rewrite (bool_decide_false ("https" = "")) by done. cbn [negb andb orb].
  destruct (span_until "/" p) as [auth path] eqn:Hs. apply span_until_spec in Hs as (Hpe & _ & Hp); subst p.
  destruct (parseAuthority "https" auth) as [[user h]|] eqn:Ha; [|done].
  destruct (unescape encodePath path); [|done]. intros [= <-]. simpl. intros -> Hhost.
  unfold parseAuthority in Ha. destruct (cut_last "@" auth) as [[ui host]|] eqn:Hat.
  { repeat (split_guard_in Ha; try done). }
  apply cut_last_None in Hat.
  exists auth, (path +:+ (if decide (t = (auth +:+ path) +:+ q ∧ q = "") then "" else String.String "?" q)).
  split; [|split; [|split]].
  - destruct (decide _) as [[Ht1 Ht2]|Hn]; [rewrite Ht1, Ht2; by rewrite !str_app_nil_r|].
    destruct Ht as [?|Ht]; [done|]. rewrite Ht. by rewrite <- str_app_assoc.
  - intros ->. destruct (parseHost "https" "") as [x|] eqn:Hx; [|done].
    vm_compute in Hx. injection Hx as <-. injection Ha as <-. done.
  - unfold has_byte. by rewrite Hat.
  - destruct Hp as [Hp|[u Hp]]; rewrite Hp; simpl; [|eauto].
    destruct (decide _); eauto.
Qed.

Section Promises.
Context `{C : ConditionApi} `{N : NameValidation}.

Lemma public_https s : validPublicHTTPS s = true → public_url s.
Proof.
  unfold validPublicHTTPS. destruct (_ || _) eqn:Hg; [done|].
  apply orb_false_iff in Hg as [H1 H2]. apply negb_false_iff in H1, H2.
  apply HasPrefix_spec in H1 as [t ->].
  assert (Hh : has_byte "#" ("https://" +:+ t) = false).
  { unfold has_byte. rewrite (proj2 (cut_first_None _ _)); [done|].
    eapply all_bytes_impl; [|exact H2]. intros a. unfold url_byte. rewrite !andb_true_iff. tauto. }
  destruct (Parse _) as [url|] eqn:HP; [|done].
  match goal with |- context [if ?b then _ else _] => destruct b eqn:Hg; [done|] end. intros _.
  apply orb_false_iff in Hg as [Hg _]. apply orb_false_iff in Hg as [Hg Hu].
  apply orb_false_iff in Hg as [Hg _]. apply orb_false_iff in Hg as [_ Hhost%bool_decide_eq_false].
  destruct (parse_https_authority t url Hh HP Hu Hhost) as (a & r & -> & Ha & Hat & Hr).
  exists a, r. auto.
Qed.

Lemma publicHealth_ready p t a : HD_State (publicHealth p t a) = "ready" ↔
  a = true ∧ ∃ c, FindStatusCondition (Conditions (Status p)) t = Some c ∧
    cond_ObservedGeneration c = Generation (Meta p) ∧ cond_Status c = ConditionTrue.
Proof.
  unfold publicHealth. cbn [HD_State]. destruct a; cbn [negb]; [|naive_solver].
  destruct (FindStatusCondition _ t) as [c|]; [|naive_solver].
  destruct (decide (cond_ObservedGeneration c = Generation (Meta p))) as [Hg|Hg].
  - rewrite (bool_decide_true _ Hg). cbn [negb].
    destruct (decide (cond_Status c = ConditionTrue)) as [Hs|Hs].
    + rewrite (bool_decide_true _ Hs). naive_solver.
    + rewrite (bool_decide_false _ Hs). split; [|naive_solver].
      intros H. repeat (split_guard_in H; try discriminate).
  - rewrite (bool_decide_false _ Hg). naive_solver.
Qed.

(** Readiness means one thing: the legacy inventory, the portable descriptor and the
    controller's walk over producers agree on which products are ready, and a capability's health is
    [ready] exactly when the product declares it and a condition of the current generation is
    true. *)
Theorem readiness_agrees (p : DataProduct) :
  PD_Ready (descriptorFor p) = producerReady p ∧
  PD_Ready (P_Descriptor (portableDescriptorFor p)) = producerReady p ∧
  ∀ t a, HD_State (publicHealth p t a) = "ready" ↔
    a = true ∧ ∃ c, FindStatusCondition (Conditions (Status p)) t = Some c ∧
      cond_ObservedGeneration c = Generation (Meta p) ∧ cond_Status c = ConditionTrue.
Proof.
  split; [|split; [|apply publicHealth_ready]].
  - unfold descriptorFor, producerReady, readiness_for. destruct (composition_for p).
    destruct (IsZero _); cbn [negb andb PD_Ready]; [|done].
    destruct (FindStatusCondition _ _) as [c|]; [|done].
    destruct (decide (cond_ObservedGeneration c = Generation (Meta p))) as [Hg|Hg].
    + rewrite !(bool_decide_true _ Hg), andb_true_r. done.
    + rewrite !(bool_decide_false _ Hg), andb_false_r. done.
  - unfold portableDescriptorFor. cbn [P_Descriptor PD_Ready]. unfold aggregate_health.
    unfold producerReady. destruct (IsZero _); cbn [negb andb]; [|done].
    apply eq_bool_prop_intro. rewrite !Is_true_true, bool_decide_eq_true, publicHealth_ready.
    destruct (FindStatusCondition _ _) as [c|]; [|naive_solver].
    rewrite andb_true_iff, !bool_decide_eq_true. naive_solver.
Qed.

(** ** Condition texts stay private *)

(** Two conditions a portable descriptor does not distinguish: they differ in their message and
    time, and in their reason unless it is a published feature-disabled one. *)
Definition same_public (t : string) (c d : option Condition) : Prop :=
  match c, d with
  | None, None => True
  | Some x, Some y =>
      cond_Status x = cond_Status y ∧ cond_ObservedGeneration x = cond_ObservedGeneration y ∧
      disabledCondition t (cond_Reason x) = disabledCondition t (cond_Reason y)
  | _, _ => False
  end.

Lemma publicHealth_public p q t a : Generation (Meta p) = Generation (Meta q) →
  same_public t (FindStatusCondition (Conditions (Status p)) t)
    (FindStatusCondition (Conditions (Status q)) t) →
  publicHealth p t a = publicHealth q t a.
Proof.
  unfold publicHealth, same_public. intros ->.
  destruct (FindStatusCondition _ t) as [x|], (FindStatusCondition (Conditions (Status q)) t) as [y|];
    try done. by intros (-> & -> & ->).
Qed.

Lemma composition_for_public p q : Generation (Meta p) = Generation (Meta q) →
  same_public ConditionCompositionReady
    (FindStatusCondition (Conditions (Status p)) ConditionCompositionReady)
    (FindStatusCondition (Conditions (Status q)) ConditionCompositionReady) →
  map public_input (Status_Inputs (Status p)) = map public_input (Status_Inputs (Status q)) →
  non_nil (fst (composition_for p)) = non_nil (fst (composition_for q)) ∧
  map public_input (snd (composition_for p)) = map public_input (snd (composition_for q)).
Proof.
  unfold composition_for, same_public. intros ->.
  destruct (FindStatusCondition _ _) as [x|], (FindStatusCondition (Conditions (Status q)) _) as [y|];
    try done. intros (_ & -> & _) Hl. by case_bool_decide.
Qed.

(** C23.  A portable descriptor carries no controller diagnostics: two products with the same
    identity, specification and generation whose conditions differ in messages, times and
    undisclosed reasons, and whose lineage differs in reasons, have the same descriptor. *)
Theorem descriptor_hides_diagnostics (p q : DataProduct) :
  Meta p = Meta q → Spec p = Spec q →
  (∀ t, same_public t (FindStatusCondition (Conditions (Status p)) t)
          (FindStatusCondition (Conditions (Status q)) t)) →
  map public_input (Status_Inputs (Status p)) = map public_input (Status_Inputs (Status q)) →
  portableDescriptorFor p = portableDescriptorFor q ∧
  encodePortableDescriptor p = encodePortableDescriptor q.
Proof.
  intros HM HS Hc Hl.
  assert (HG : Generation (Meta p) = Generation (Meta q)) by (by rewrite HM).
  assert (portableDescriptorFor p = portableDescriptorFor q) as Heq.
  2:{ split; [done|]. unfold encodePortableDescriptor. by rewrite Heq. }
  destruct (composition_for_public p q HG (Hc _) Hl) as [Hn Hm].
  unfold portableDescriptorFor, aggregate_health, descriptorFor.
  rewrite !(λ t a, publicHealth_public p q t a HG (Hc t)), HM, HS.
  destruct (readiness_for p), (readiness_for q), (composition_for p) as [cp lp],
    (composition_for q) as [cq lq]. simpl in Hn, Hm. cbn.
  rewrite Hm. destruct cp, cq; done.
Qed.

(** ** The published profile *)

Lemma distinct_names_NoDup l : ∀ names, distinct_names l names = true →
  NoDup l ∧ ∀ n, n ∈ l → n ∉ names.
Proof.
  induction l as [|n l IH]; intros names; cbn [distinct_names].
  { intros _. split; [constructor|]. intros n Hn%elem_of_nil. done. }
  case_bool_decide as Hn; [done|]. intros [H1 H2]%IH. split.
  - constructor; [|done]. intros Hin. apply (H2 n Hin). set_solver.
  - intros n' [->|Hin]%elem_of_cons; [done|]. specialize (H2 n' Hin). set_solver.
Qed.

Lemma declared_inputs_lookup ns inputs n r : declared_inputs ns inputs !! n = Some r →
  ∃ i, i ∈ inputs ∧ Input_Name i = n ∧ in_namespace ns (Input_ProductRef i) = r.
Proof.
  unfold declared_inputs.
  cut (∀ m : gmap string ProductReference, foldl (λ m i, <[Input_Name i := in_namespace ns (Input_ProductRef i)]> m) m inputs !! n
         = Some r → m !! n = Some r ∨
       ∃ i, i ∈ inputs ∧ Input_Name i = n ∧ in_namespace ns (Input_ProductRef i) = r).
  { intros Hm H. destruct (Hm ∅ H) as [H0|?]; [|done]. by rewrite lookup_empty in H0. }
  induction inputs as [|i l IH]; intros m; simpl; [auto|]. intros [H|(j & Hj & H)]%IH.
  - destruct (decide (Input_Name i = n)) as [<-|Hn].
    + rewrite lookup_insert_eq in H. injection H as <-. right. exists i. split; [by left|done].
    + rewrite lookup_insert_ne in H by done. auto.
  - right. exists j. split; [by right|done].
Qed.

(** A lineage entry that belongs to one declared input. *)
Definition declared_edge (ns : string) (inputs : list InputPort) (edge : InputStatus) : Prop :=
  ∃ i, i ∈ inputs ∧ Input_Name i = IS_Name edge ∧
    in_namespace ns (Input_ProductRef i) = in_namespace ns (IS_ProductRef edge).

Lemma lineage_declared_ok ns inputs lineage : ∀ seen,
  lineage_declared ns (declared_inputs ns inputs) lineage seen = true →
  Forall (declared_edge ns inputs) lineage ∧ NoDup (map IS_Name lineage) ∧
  ∀ e, e ∈ lineage → IS_Name e ∉ seen.
Proof.
  induction lineage as [|e l IH]; intros seen; cbn [lineage_declared].
  { intros _. repeat split; try constructor. intros n Hn%elem_of_nil. done. }
  destruct (declared_inputs ns inputs !! IS_Name e) as [r|] eqn:Hr; [|done].
  destruct (_ || _) eqn:Hg; [done|]. intros (H1 & H2 & H3)%IH.
  apply orb_false_iff in Hg as [Hg _]. apply orb_false_iff in Hg as [Hs Hd].
  apply bool_decide_eq_false in Hs. apply negb_false_iff, bool_decide_eq_true in Hd as ->.
  apply declared_inputs_lookup in Hr. split; [|split].
  - constructor; [exact Hr|done].
  - simpl. constructor; [|done]. intros Hin. apply list_elem_of_fmap in Hin as (e' & He & Hin).
    apply (H3 e' Hin). set_solver.
  - intros e' [->|Hin]%elem_of_cons; [done|]. specialize (H3 e' Hin). set_solver.
Qed.

(** The links of a descriptor that consumers follow. *)
Definition links (d : productDescriptor) : list string :=
  concat (map (λ o, [Output_URL o; Output_ContractURL o]) (PD_Outputs d)) ++
  List.filter (λ s, s != "") [Owner_URL (PD_Owner d); PD_DocumentationURL d] ++
  match PD_UI d with Some ui => [UI_URL ui] | None => [] end.

Lemma validPublicUI_url ui : validPublicUI ui = true → public_url (UI_URL ui).
Proof.
  unfold validPublicUI. destruct (_ || _) eqn:Hg; [done|]. intros _.
  apply orb_false_iff in Hg as [_ Hg]. apply negb_false_iff in Hg. by apply public_https.
Qed.

Lemma valid_links p : validPortableMetadata p = true → Forall public_url (links (P_Descriptor p)).
Proof.
  unfold validPortableMetadata. destruct (distinctTracePorts _ _); [|done].
  destruct (lineage_declared _ _ _ _); [|done]. cbn [negb].
  match goal with |- context [if ?b then _ else _] => destruct b eqn:Hg; [done|] end.
  rewrite !andb_true_iff. intros ((((_ & Ho) & _) & _) & Hui).
  apply orb_false_iff in Hg as [Hg Hd].
  do 3 apply orb_false_iff in Hg as [Hg _]. apply orb_false_iff in Hg as [_ Hown].
  apply negb_false_iff in Hown. unfold validPublicOwner in Hown.
  apply andb_true_iff in Hown as [_ Hown].
  unfold links. apply Forall_app; split; [|apply Forall_app; split].
  - apply List.Forall_forall. intros s Hs. apply in_concat in Hs as (l & Hl & Hs).
    apply in_map_iff in Hl as (o & <- & Hin). apply forallb_forall with (x := o) in Ho; [|done].
    unfold validPublicOutput in Ho. rewrite !andb_true_iff in Ho. destruct Ho as ((_ & H1) & H2).
    destruct Hs as [<-|[<-|[]]]; by apply public_https.
  - apply List.Forall_forall. intros s Hs. apply filter_In in Hs as [Hs Hne].
    apply negb_true_iff, bool_decide_eq_false in Hne.
    destruct Hs as [<-|[<-|[]]]; apply public_https.
    + apply orb_true_iff in Hown as [H%bool_decide_eq_true|H]; done.
    + apply andb_false_iff in Hd as [H|H]; apply negb_false_iff in H; [|done].
      by apply bool_decide_eq_true in H.
  - destruct (PD_UI _) as [ui|]; constructor; [|constructor]. by apply validPublicUI_url.
Qed.

(** The names of a descriptor's ports and observed inputs. *)
Definition coherent_ports (d : productDescriptor) : Prop :=
  NoDup (map Input_Name (PD_Inputs d)) ∧ NoDup (map Output_Name (PD_Outputs d)) ∧
  PD_Outputs d ≠ [] ∧ NoDup (map IS_Name (PD_Lineage d)) ∧
  Forall (declared_edge (PD_Namespace d) (PD_Inputs d)) (PD_Lineage d).

Lemma valid_ports p : validPortableMetadata p = true →
  coherent_ports (P_Descriptor p) ∧ validGeneration (P_Generation p) = true.
Proof.
  unfold validPortableMetadata, distinctTracePorts.
  destruct (distinct_names _ _) eqn:H1; [|done]. destruct (distinct_names (map Output_Name _) _) eqn:H2;
    [|done]. destruct (lineage_declared _ _ _ _) eqn:H3; [|done]. cbn [negb andb].
  match goal with |- context [if ?b then _ else _] => destruct b eqn:Hg; [done|] end. intros _.
  apply orb_false_iff in Hg as [Hg _]. apply orb_false_iff in Hg as [Hg _].
  apply orb_false_iff in Hg as [Hg Hgen]. apply orb_false_iff in Hg as [_ Hout].
  apply distinct_names_NoDup in H1 as [H1 _]. apply distinct_names_NoDup in H2 as [H2 _].
  apply lineage_declared_ok in H3 as (H3 & H4 & _). apply negb_false_iff in Hgen.
  split; [|done]. repeat split; try done. intros E. by rewrite E in Hout.
Qed.

(** Whatever is published satisfies the portable profile: the bytes are the encoding of the
    projected descriptor and at most 64 KiB; every link is a credential-free HTTPS URL; port names
    are distinct and there is an output; every lineage entry belongs to a declared input with the same
    reference, none twice; and the generation is one a JavaScript client represents exactly. *)
Theorem published_descriptor_profile (p : DataProduct) (data : string) :
  encodePortableDescriptor p = inl data →
  data = encode (descriptor_json (portableDescriptorFor p)) ∧ (slen data <= 65536)%Z ∧
  Forall public_url (links (P_Descriptor (portableDescriptorFor p))) ∧
  coherent_ports (P_Descriptor (portableDescriptorFor p)) ∧
  (0 <= P_Generation (portableDescriptorFor p) < 2 ^ 53)%Z.
Proof.
  unfold encodePortableDescriptor. destruct (withinDiscoveryBounds _); [|done].
  destruct (validPortableMetadata _) eqn:HV; [|done]. cbn [negb].
  destruct (maxDescriptorBytes <? _)%Z eqn:HL; [done|]. intros [= <-].
  apply Z.ltb_ge in HL. destruct (valid_ports _ HV) as [H1 H2].
  split; [done|]. split; [exact HL|]. split; [by apply valid_links|]. split; [done|].
  unfold validGeneration, maxPortableGeneration in H2. go_bool. lia.
Qed.
End Promises.

(** ** Witnesses *)

#[local] Existing Instance ref_conditions.
#[local] Existing Instance ref_names.

Definition with_text (why text : string) : DataProduct :=
  set_Conditions [mkCondition ConditionReady ConditionFalse 3%Z 9%Z why text] sample_users.

Lemma descriptor_hides_diagnostics_witness :
  portableDescriptorFor (with_text "SourceNotReady" "secret backend detail") =
  portableDescriptorFor (with_text "ConnectorNotReady" "").
Proof.
  destruct (descriptor_hides_diagnostics (with_text "SourceNotReady" "secret backend detail")
    (with_text "ConnectorNotReady" "")) as [H _].
  - reflexivity.
  - reflexivity.
  - intros t. simpl. case_bool_decide as Ht; [|exact I]. subst t. by vm_compute.
  - reflexivity.
  - exact H.
Defined.

Lemma published_descriptor_profile_witness :
  ∃ data, encodePortableDescriptor sample_orders = inl data ∧ (slen data <= 65536)%Z ∧
    Forall public_url (links (P_Descriptor (portableDescriptorFor sample_orders))).
Proof.
  assert (∃ data, encodePortableDescriptor sample_orders = inl data) as [data H]
    by (eexists; vm_compute; reflexivity).
  exists data. destruct (published_descriptor_profile sample_orders data H) as (_ & H1 & H2 & _).
  done.
Defined.
