(* ===== verification/Lineage.v ===== *)
(** * Dependency traces of the registry

    [internal/registry/lineage.go]: a read-only walk over declared inputs that records every edge it
    inspected, even behind a gap, and says whether the picture is complete.  Unlike the controller's
    composition walk it never stops at the first problem.  The walk mutates a [lineageWalk] and reads
    products through the client; it runs in a state monad over both.  The recursion is on fuel; 65
    levels always suffice (file LineageSpec). *)

From S2P Require Import Prelude Kube Api Regex GoJson GoStrings GoUrl Config Composition.
From S2P Require Import Descriptor.

Definition maxTraceProducts : Z := 256.
Definition maxTraceEdges : Z := 1024.
Definition maxTraceDepth : Z := 64.
Definition maxTraceMetadata : Z := 1048576.
Definition maxDiscoveryResponseBytes : Z := 2097152.

Record lineageNode := mkNode {
  Node_Key : string;
  Node_State : string;
  Node_ID : string;
  Node_DisplayName : string;
  Node_Version : string;
  Node_Owner : option ProductOwner;
  Node_Generation : Z;
  Node_ObservedGeneration : Z;
  Node_Health : list (string * healthDimension)
}.

Record lineageEdge := mkEdge {
  From : string;
  To : string;
  Edge_Input : string;
  Edge_Output : string;
  Edge_Depth : Z;
  Edge_State : string;
  Edge_Compatibility : string;
  Edge_Requirement : option InputContract
}.

Record lineageTrace := mkTrace {
  Trace_APIVersion : string;
  Trace_Root : string;
  Complete : bool;
  Trace_Issues : list string;
  Trace_Nodes : list lineageNode;
  Trace_Edges : list lineageEdge
}.

(** The reader and the compatibility callback of the Go struct are arguments of the operations. *)
Record lineageWalk := mkWalk {
  trace : lineageTrace;
  lw_products : gmap string DataProduct;
  lw_nodes : gmap string lineageNode;
  lw_visiting : gset string;
  lw_visited : gset string;
  lw_heights : gmap string Z;
  lw_issues : gset string;
  retained : Z
}.

Definition lw_height (g : lineageWalk) (k : string) : Z := default 0%Z (lw_heights g !! k).

(** *** Assignments to the walk's fields *)
Definition set_Edges (l : list lineageEdge) (g : lineageWalk) : lineageWalk :=
  let t := trace g in
  mkWalk (mkTrace (Trace_APIVersion t) (Trace_Root t) (Complete t) (Trace_Issues t) (Trace_Nodes t) l)
    (lw_products g) (lw_nodes g) (lw_visiting g) (lw_visited g) (lw_heights g) (lw_issues g)
    (retained g).
Definition add_retained (n : Z) (g : lineageWalk) : lineageWalk :=
  mkWalk (trace g) (lw_products g) (lw_nodes g) (lw_visiting g) (lw_visited g) (lw_heights g)
    (lw_issues g) (retained g + n).
Definition put_product (k : string) (p : DataProduct) (g : lineageWalk) : lineageWalk :=
  mkWalk (trace g) (<[k := p]> (lw_products g)) (lw_nodes g) (lw_visiting g) (lw_visited g)
    (lw_heights g) (lw_issues g) (retained g).
Definition put_node (k : string) (n : lineageNode) (g : lineageWalk) : lineageWalk :=
  mkWalk (trace g) (lw_products g) (<[k := n]> (lw_nodes g)) (lw_visiting g) (lw_visited g)
    (lw_heights g) (lw_issues g) (retained g).
Definition put_visiting (k : string) (g : lineageWalk) : lineageWalk :=
  mkWalk (trace g) (lw_products g) (lw_nodes g) ({[k]} ∪ lw_visiting g) (lw_visited g)
    (lw_heights g) (lw_issues g) (retained g).
Definition drop_visiting (k : string) (g : lineageWalk) : lineageWalk :=
  mkWalk (trace g) (lw_products g) (lw_nodes g) (lw_visiting g ∖ {[k]}) (lw_visited g)
    (lw_heights g) (lw_issues g) (retained g).
Definition put_visited (k : string) (g : lineageWalk) : lineageWalk :=
  mkWalk (trace g) (lw_products g) (lw_nodes g) (lw_visiting g) ({[k]} ∪ lw_visited g)
    (lw_heights g) (lw_issues g) (retained g).
Definition put_height (k : string) (h : Z) (g : lineageWalk) : lineageWalk :=
  mkWalk (trace g) (lw_products g) (lw_nodes g) (lw_visiting g) (lw_visited g)
    (<[k := h]> (lw_heights g)) (lw_issues g) (retained g).

(** [incomplete] retains each distinct gap. *)
Definition incomplete (why : string) (g : lineageWalk) : lineageWalk :=
  let t := trace g in
  mkWalk (mkTrace (Trace_APIVersion t) (Trace_Root t) false (Trace_Issues t) (Trace_Nodes t)
            (Trace_Edges t))
    (lw_products g) (lw_nodes g) (lw_visiting g) (lw_visited g) (lw_heights g)
    ({[why]} ∪ lw_issues g) (retained g).

(** A node for which nothing was read. *)
Definition bare_node (id state : string) : lineageNode :=
  mkNode id state "" "" "" None 0 0 [].

(** The public declarations kept for traversal and compatibility. *)
Definition retained_product (p : DataProduct) : DataProduct :=
  mkProduct (mkObjectMeta (Name (Meta p)) (Namespace (Meta p)) 0 None ∅)
    (mkSpec "" "" "" (Spec_Version (Spec p)) (mkProductOwner "" "") "" (Inputs (Spec p))
       (Outputs (Spec p)) None None None [])
    (mkStatus 0 [] []).

(** The compatibility text of an edge, or [None] for a result the registry does not know. *)
Definition edge_compatibility (why : string) : option string :=
  if why == "" then Some "compatible"
  else if why == "OutputNotFound" then Some "output-missing"
  else if why == "ContractIncompatible" then Some "contract-incompatible"
  else None.

Section Walk.
Context `{E : Env} `{C : ConditionApi} `{N : NameValidation}.

Definition Tr (A : Type) : Type := ST (lineageWalk * World) A.
Definition get_walk : Tr lineageWalk := λ s, (fst s, s).
Definition update (f : lineageWalk → lineageWalk) : Tr unit := λ s, (tt, (f (fst s), snd s)).
Definition outside {A} (m : ST World A) : Tr A :=
  λ s, let '(a, w) := m (snd s) in (a, (fst s, w)).

(** The node of a product that was read, and its retained copy when it may be traversed; [g] is the
    walk before the read. *)
Definition classify (g : lineageWalk) (id : string) (key : ObjectKey) (p0 : DataProduct)
  : lineageNode * option (Z * DataProduct) :=
  if (Namespace (Meta p0) != key_Namespace key) || (Name (Meta p0) != key_Name key)
  then (bare_node id "identity-mismatch", None)
  else
    let p := set_Status_Inputs [] p0 in
    match encodePortableDescriptor p with
    | inr _ => (bare_node id "invalid", None)
    | inl data =>
        if negb (distinctTracePorts (Inputs (Spec p)) (Outputs (Spec p)))
        then (bare_node id "invalid", None)
        else if (maxTraceMetadata - retained g <? slen data)%Z
        then (bare_node id "metadata-limit", None)
        else
          let d := portableDescriptorFor p in
          let pd := P_Descriptor d in
          let state :=
            if negb (IsZero (DeletionTimestamp (Meta p))) then "deleting"
            else RD_Reason (PD_Readiness pd) in
          (mkNode id state (PD_ID pd) (PD_DisplayName pd) (PD_Version pd) (Some (PD_Owner pd))
             (P_Generation d) (P_ObservedGeneration d) (P_Health d),
           Some (slen data, retained_product p))
    end.

(** [read] caches failures as well as public projections: the product, or the state that explains
    its absence. *)
Definition read (reader : Reader DataProduct) (ctx : Ctx) (key : ObjectKey)
  : Tr (option DataProduct * string) :=
  let id := key_String key in
  g ← get_walk;
  match lw_nodes g !! id with
  | Some node => mret (lw_products g !! id, Node_State node)
  | None =>
      err ← outside (Err ctx);
      match err with
      | Some _ => _ ← update (incomplete "timeout"); mret (None, "timeout")
      | None =>
          if (maxTraceProducts <=? Z.of_nat (size (lw_nodes g)))%Z then
            _ ← update (incomplete "product-limit"); mret (None, "product-limit")
          else
            r ← outside (reader ctx key);
            late ← outside (Err ctx);
            let '(node, kept) :=
              match late with
              | Some _ => (bare_node id "timeout", None)
              | None =>
                  match r with
                  | inr e =>
                      (bare_node id (if IsNotFound e then "missing" else "unavailable"), None)
                  | inl p => classify g id key p
                  end
              end in
            _ ← update (match kept with
                        | Some (n, p) => λ g, put_product id p (add_retained n g)
                        | None => λ g, g
                        end);
            _ ← update (put_node id node);
            g' ← get_walk;
            _ ← update (match lw_products g' !! id with
                        | None => incomplete (Node_State node)
                        | Some _ => λ g, g
                        end);
            mret (lw_products g' !! id, Node_State node)
      end
  end.

(** The edge of one input, before it is inspected. *)
Definition new_edge (p : DataProduct) (key : string) (depth : Z) (input : InputPort) : lineageEdge :=
  let ref := resolvedReference p (Input_ProductRef input) in
  mkEdge key (Ref_Namespace ref +:+ "/" +:+ Ref_Name ref) (Input_Name input) (Ref_Output ref)
    (depth + 1) "resolved" "not-evaluated" (Input_Contract input).
Definition edge_with (state compat : string) (e : lineageEdge) : lineageEdge :=
  mkEdge (From e) (To e) (Edge_Input e) (Edge_Output e) (Edge_Depth e) state compat
    (Edge_Requirement e).

(** The [switch] that inspects one edge; [rec] is the recursive call of [visit]. *)
Definition inspect_edge (rec : DataProduct → Z → Tr (option string))
    (reader : Reader DataProduct) (compatibility : InputPort → DataProduct → string) (ctx : Ctx)
    (p : DataProduct) (key : string) (depth : Z) (input : InputPort) : Tr (option lineageEdge) :=
  let ref := resolvedReference p (Input_ProductRef input) in
  let edge := new_edge p key depth input in
  let gap (state : string) : Tr (option lineageEdge) :=
    _ ← update (incomplete state);
    mret (Some (edge_with state (Edge_Compatibility edge) edge)) in
  if Ref_Namespace ref != Namespace (Meta p) then gap "cross-namespace"
  else if (maxTraceDepth <=? depth + 1)%Z then gap "depth-limit"
  else
    found ← read reader ctx (ref_key ref);
    match found with
    | (None, state) => mret (Some (edge_with state (Edge_Compatibility edge) edge))
    | (Some producer, _) =>
        let raise_height : Tr unit :=
          update (λ g, put_height key (Z.max (lw_height g key) (1 + lw_height g (To edge))) g) in
        match edge_compatibility (compatibility input producer) with
        | None =>
            _ ← update (incomplete "unavailable");
            _ ← raise_height;
            mret (Some (edge_with "unavailable" (Edge_Compatibility edge) edge))
        | Some compat =>
            result ← rec producer (depth + 1)%Z;
            match result with
            | None => mret None
            | Some state =>
                _ ← raise_height;
                mret (Some (edge_with state compat edge))
            end
        end
    end.

(** The loop over the sorted inputs; [Some tt] is a completed or broken loop. *)
Fixpoint visit_edges (rec : DataProduct → Z → Tr (option string))
    (reader : Reader DataProduct) (compatibility : InputPort → DataProduct → string) (ctx : Ctx)
    (p : DataProduct) (key : string) (depth : Z) (inputs : list InputPort) : Tr (option unit) :=
  match inputs with
  | [] => mret (Some tt)
  | input :: rest =>
      g ← get_walk;
      let index := length (Trace_Edges (trace g)) in
      if (maxTraceEdges <=? Z.of_nat index)%Z then
        _ ← update (incomplete "edge-limit"); mret (Some tt)
      else
        err ← outside (Err ctx);
        match err with
        | Some _ => _ ← update (incomplete "timeout"); mret (Some tt)
        | None =>
            _ ← update (λ g, set_Edges (Trace_Edges (trace g) ++ [new_edge p key depth input]) g);
            inspected ← inspect_edge rec reader compatibility ctx p key depth input;
            match inspected with
            | None => mret None
            | Some edge =>
                _ ← update (λ g, set_Edges (<[index := edge]> (Trace_Edges (trace g))) g);
                visit_edges rec reader compatibility ctx p key depth rest
            end
        end
  end.

(** [visit] evaluates every inspected edge independently of producer readiness; [None] means that
    the fuel ran out. *)
Fixpoint lineage_visit (fuel : nat) (reader : Reader DataProduct)
    (compatibility : InputPort → DataProduct → string) (ctx : Ctx) (p : DataProduct) (depth : Z)
  : Tr (option string) :=
  match fuel with
  | O => mret None
  | S fuel' =>
      let key := Namespace (Meta p) +:+ "/" +:+ Name (Meta p) in
      err ← outside (Err ctx);
      match err with
      | Some _ => _ ← update (incomplete "timeout"); mret (Some "timeout")
      | None =>
          g ← get_walk;
          if bool_decide (key ∈ lw_visiting g) then
            _ ← update (incomplete "cycle"); mret (Some "cycle")
          else if (maxTraceDepth <=? depth)%Z ||
                  (bool_decide (key ∈ lw_visited g) &&
                   (maxTraceDepth <=? depth + lw_height g key)%Z) then
            _ ← update (incomplete "depth-limit"); mret (Some "depth-limit")
          else if bool_decide (key ∈ lw_visited g) then mret (Some "resolved")
          else
            _ ← update (put_visiting key);
            looped ← visit_edges (lineage_visit fuel' reader compatibility ctx) reader compatibility ctx p
                       key depth (sort_slice (less_by Input_Name) (Inputs (Spec p)));
            match looped with
            | None => mret None
            | Some _ =>
                _ ← update (put_visited key);
                _ ← update (drop_visiting key);  (* defer delete(g.visiting, key) *)
                mret (Some "resolved")
            end
      end
  end.

Definition trace_fuel : nat := 65.

Definition new_walk (key : ObjectKey) : lineageWalk :=
  mkWalk (mkTrace "data-product-lineage/v1" (key_String key) true [] [] []) ∅ ∅ ∅ ∅ ∅ ∅ 0.
End Walk.

(** ** The response *)

Definition lineageNode_json (n : lineageNode) : json :=
  JObject (field "key" (JString (Node_Key n)) ++ field "state" (JString (Node_State n)) ++
           omit_string "id" (Node_ID n) ++ omit_string "displayName" (Node_DisplayName n) ++
           omit_string "version" (Node_Version n) ++
           omit_nil "owner" ProductOwner_json (Node_Owner n) ++
           field "generation" (JInt (Node_Generation n)) ++
           field "observedGeneration" (JInt (Node_ObservedGeneration n)) ++
           match Node_Health n with
           | [] => []
           | h => field "health" (JObject (map (λ e, (fst e, health_json (snd e))) h))
           end).
Definition lineageEdge_json (e : lineageEdge) : json :=
  JObject (field "from" (JString (From e)) ++ field "to" (JString (To e)) ++
           field "input" (JString (Edge_Input e)) ++ field "output" (JString (Edge_Output e)) ++
           field "depth" (JInt (Edge_Depth e)) ++ field "state" (JString (Edge_State e)) ++
           field "compatibility" (JString (Edge_Compatibility e)) ++
           omit_nil "requirement" InputContract_json (Edge_Requirement e)).
Definition lineageTrace_json (t : lineageTrace) : json :=
  JObject (field "apiVersion" (JString (Trace_APIVersion t)) ++
           field "root" (JString (Trace_Root t)) ++ field "complete" (JBool (Complete t)) ++
           field "issues" (strings_json (Trace_Issues t)) ++
           field "nodes" (JArray (map lineageNode_json (Trace_Nodes t))) ++
           field "edges" (JArray (map lineageEdge_json (Trace_Edges t)))).

(** The order of the published edges. *)
Definition edge_less (a b : lineageEdge) : bool :=
  if From a != From b then String.ltb (From a) (From b)
  else String.ltb (Edge_Input a) (Edge_Input b).

(** The walk's maps are appended to the trace in any order and then sorted. *)
Definition publish (g : lineageWalk) : lineageTrace :=
  let t := trace g in
  mkTrace (Trace_APIVersion t) (Trace_Root t) (Complete t)
    (sort_slice String.ltb (Trace_Issues t ++ elements (lw_issues g)))
    (sort_slice (less_by Node_Key) (Trace_Nodes t ++ map snd (map_to_list (lw_nodes g))))
    (sort_slice edge_less (Trace_Edges t)).

(** What a handler answers: [http.NotFound], a public failure code, or buffered JSON. *)
Inductive Response :=
  | NotFound
  | Failure (status : Z) (code text : string)
  | Success (data : string).

(** The parts of an [http.Request] the registry reads. *)
Record Request := mkRequest {
  ContentLength : Z;
  TransferEncoding : list string;
  Request_RawQuery : string;
  PathNamespace : string;
  PathName : string
}.

Section Handler.
Context `{E : Env} `{C : ConditionApi} `{N : NameValidation}.

Record server := mkServer {
  reader : Reader DataProduct;
  discoveryEnabled : Flag;
  lineageEnabled : Flag;
  server_inputCompatibility : option (InputPort → DataProduct → string)
}.

(** [lineageAvailable] requires both release grants and the compatibility evaluator. *)
Definition lineageAvailable (s : server) (ctx : Ctx) : ST World bool :=
  discovery ← flag_on (discoveryEnabled s) ctx;
  if negb discovery then mret false
  else
    lineage ← flag_on (lineageEnabled s) ctx;
    mret (lineage && non_nil (server_inputCompatibility s)).

Definition root_failure (state : string) : Response :=
  Failure (if state == "invalid" then 422 else if state == "missing" then 404 else 502)
    "trace-root-unavailable"
    "The selected product cannot be traced. Refresh its descriptor or ask its owner to correct public metadata.".

(** The root could not be read, for the given reason, or the walk over it returned; [None] is a walk
    that ran out of fuel. *)
Inductive traceOutcome :=
  | RootUnavailable (state : string)
  | Traced (result : option string).

(** The trace of one root: the read of the root, then the walk. *)
Definition trace_root (s : server) (compatibility : InputPort → DataProduct → string) (ctx : Ctx)
    (key : ObjectKey) : ST World (traceOutcome * lineageWalk) :=
  λ w,
    let '((root, state), (g, w1)) := read (reader s) ctx key (new_walk key, w) in
    match root with
    | None => ((RootUnavailable state, g), w1)
    | Some p =>
        let '(result, (g', w2)) :=
          lineage_visit trace_fuel (reader s) compatibility ctx p 0 (g, w1) in
        ((Traced result, g'), w2)
    end.

(** [productLineage]; [slot] says whether the only trace slot is free, and it is released when the
    handler returns. *)
Definition productLineage (s : server) (slot : bool) (ctx : Ctx) (r : Request)
  : ST World Response :=
  on ← lineageAvailable s ctx;
  match on, server_inputCompatibility s with
  | true, Some compatibility =>
      if (ContentLength r != 0%Z) || (len (TransferEncoding r) != 0%Z) ||
         (Request_RawQuery r != "") || negb (validPublicLabel (PathNamespace r)) ||
         negb (validProductName (PathName r))
      then mret (Failure 400 "invalid-trace"
                   "Use an exact namespace and product name without a body or query.")
      else if negb slot then
        mret (Failure 429 "trace-busy" "A trace is in progress. Try again.")
      else
        ctx' ← WithTimeout ctx (5 * Second);
        traced ← trace_root s compatibility ctx' (mkKey (PathNamespace r) (PathName r));
        match traced with
        | (RootUnavailable state, _) => mret (root_failure state)
        | (Traced _, g) =>
            let data := encode (lineageTrace_json (publish g)) in
            if (maxDiscoveryResponseBytes <? slen data)%Z then
              mret (Failure 413 "trace-too-large"
                      "The trace exceeds the response bound. Split the product inputs.")
            else mret (Success data)
        end
  | _, _ => mret NotFound
  end.
End Handler.
