(* ===== verification/LineageProofs.v ===== *)
(** * Invariants of the dependency trace

    What every state of the walk satisfies, and how one call changes it: [inv] holds the bounds and
    the agreement of nodes, products and issues; [grows] says what a call may add; [closed] says that
    in a walk without gaps every finished product has all its edges resolved, towards finished
    products of smaller height. *)

From S2P Require Import Prelude Kube Api Regex GoJson GoStrings GoUrl Config Composition.
From S2P Require Import Descriptor Lineage.

Abbreviation recorded g := (Trace_Edges (trace g)).
Abbreviation complete g := (Complete (trace g)).

Definition product_id (p : DataProduct) : string := key_String (ObjectKeyFromObject p).

(** The integers of a node are ones a JavaScript client compares exactly. *)
Definition node_exact (n : lineageNode) : bool :=
  validGeneration (Node_Generation n) && validGeneration (Node_ObservedGeneration n) &&
  forallb (λ e, validGeneration (HD_Generation (snd e)) && validGeneration (HD_ObservedGeneration (snd e)))
    (Node_Health n).

(** The bounds of a trace and the agreement of its maps, for a root in namespace [ns]. *)
Record inv (ns : string) (g : lineageWalk) : Prop := {
  i_edges : (Z.of_nat (length (recorded g)) <= 1024)%Z;
  i_nodes : (Z.of_nat (size (lw_nodes g)) <= 256)%Z;
  i_retained : (0 <= retained g <= 1048576)%Z;
  i_products : ∀ id p, lw_products g !! id = Some p →
    Namespace (Meta p) = ns ∧ id = product_id p ∧ is_Some (lw_nodes g !! id);
  i_keys : ∀ id n, lw_nodes g !! id = Some n → Node_Key n = id ∧ ∃ name, id = ns +:+ "/" +:+ name;
  i_complete : complete g = true → ∀ id, is_Some (lw_nodes g !! id) → is_Some (lw_products g !! id);
  i_issues : complete g = true ↔ lw_issues g = ∅;
  i_disjoint : lw_visiting g ## lw_visited g;
  i_exact : ∀ id n, lw_nodes g !! id = Some n → node_exact n = true
}.

(** An edge of the trace: its depth is in range, and it is one that a retained product declares. *)
Definition edge_ok (g : lineageWalk) (e : lineageEdge) : Prop :=
  (1 <= Edge_Depth e <= 64)%Z ∧ ∃ p input depth state compat,
    lw_products g !! From e = Some p ∧ input ∈ Inputs (Spec p) ∧
    e = edge_with state compat (new_edge p (From e) depth input).
(** An edge that was followed and evaluated. *)
Definition edge_resolved (e : lineageEdge) : Prop :=
  Edge_State e = "resolved" ∧ Edge_Compatibility e ≠ "not-evaluated".

(** The parts of the trace that only its publication fills in or reads. *)
Definition header (t : lineageTrace) : string * string * list string * list lineageNode :=
  (Trace_APIVersion t, Trace_Root t, Trace_Issues t, Trace_Nodes t).

(** What a call may change: [own] are the products whose height it computes. *)
Record grows (own : gset string) (g g' : lineageWalk) : Prop := {
  gr_products : lw_products g ⊆ lw_products g';
  gr_visited : lw_visited g ⊆ lw_visited g';
  gr_visiting : lw_visiting g' = lw_visiting g;
  gr_heights : ∀ k, k ∈ lw_visited g ∪ lw_visiting g → k ∉ own → lw_height g' k = lw_height g k;
  gr_edges : ∃ new, recorded g' = recorded g ++ new ∧ Forall (edge_ok g') new ∧
    (complete g' = true → Forall edge_resolved new);
  gr_complete : complete g' = true → complete g = true;
  gr_header : header (trace g') = header (trace g)
}.

Lemma grows_refl own g : grows own g g.
Proof.
  constructor; try done. exists []. rewrite app_nil_r. repeat split; try done.
Qed.

Lemma edge_ok_mono g g' e : lw_products g ⊆ lw_products g' → edge_ok g e → edge_ok g' e.
Proof.
  intros Hp (Hd & p & i & d & s & c & Hl & H). split; [done|]. exists p, i, d, s, c.
  split; [by eapply lookup_weaken|done].
Qed.

Lemma grows_trans own g1 g2 g3 : grows own g1 g2 → grows own g2 g3 → grows own g1 g3.
Proof.
  intros [A1 A2 A3 A4 (n1 & A5 & A6 & A7) A8] [B1 B2 B3 B4 (n2 & B5 & B6 & B7) B8].
  constructor; try (by etrans); try congruence; auto.
  - intros k Hk Ho. rewrite B4, A4; try done. rewrite A3. set_solver.
  - exists (n1 ++ n2). rewrite B5, A5, app_assoc. split; [done|].
    split; [apply Forall_app_2; [|done]|].
    + eapply Forall_impl; [|exact A6]. intros e. by apply edge_ok_mono.
    + intros Hc. apply Forall_app_2; auto.
Qed.

Lemma grows_own own own' g g' : own ⊆ own' → grows own g g' → grows own' g g'.
Proof. intros Ho [A1 A2 A3 A4 A5 A6]. constructor; auto. Qed.

(** A finished product [k] of the trace: each declared input has an edge that was followed and
    evaluated with the callback, towards a finished product of smaller height. *)
Definition finished (compatibility : InputPort → DataProduct → string) (g : lineageWalk) (k : string)
  : Prop :=
  ∃ p, lw_products g !! k = Some p ∧ ∀ input, input ∈ Inputs (Spec p) →
    ∃ depth producer compat,
      let e := edge_with "resolved" compat (new_edge p k depth input) in
      e ∈ recorded g ∧ lw_products g !! To e = Some producer ∧ To e ∈ lw_visited g ∧
      edge_compatibility (compatibility input producer) = Some compat ∧
      (lw_height g (To e) < lw_height g k)%Z.

Definition closed (compatibility : InputPort → DataProduct → string) (g : lineageWalk) : Prop :=
  complete g = true → ∀ k, k ∈ lw_visited g → finished compatibility g k.

(** Evaluated edges differ from the placeholder the loop appends first. *)
Lemma compat_evaluated why c : edge_compatibility why = Some c → c ≠ "not-evaluated".
Proof. unfold edge_compatibility. intros H. repeat (split_guard_in H; simplify_eq); discriminate. Qed.

(** A finished product stays finished while evaluated edges are kept. *)
Lemma finished_mono compatibility own g g' k :
  lw_products g ⊆ lw_products g' → lw_visited g ⊆ lw_visited g' →
  (∀ j, j ∈ lw_visited g → j ∉ own → lw_height g' j = lw_height g j) →
  (∀ e, e ∈ recorded g → Edge_Compatibility e ≠ "not-evaluated" → e ∈ recorded g') →
  own ## lw_visited g → k ∈ lw_visited g →
  finished compatibility g k → finished compatibility g' k.
Proof.
  intros Hp Hv Hh He Ho Hk (p & Hpk & Hin). exists p. split; [by eapply lookup_weaken|].
  intros input Hi. destruct (Hin input Hi) as (d & q & c & H1 & H2 & H3 & H4 & H5).
  exists d, q, c. cbn zeta. split; [|split; [|split; [|split]]].
  - apply He; [done|]. simpl. by eapply compat_evaluated.
  - by eapply lookup_weaken.
  - by apply Hv.
  - done.
  - rewrite !Hh; set_solver.
Qed.

Lemma closed_grows compatibility own g g' : grows own g g' → own ## lw_visited g →
  lw_visited g' = lw_visited g → closed compatibility g → closed compatibility g'.
Proof.
  intros [A1 A2 A3 A4 (n & A5 & _) A8] Ho Hv Hc Hcomp k Hk. rewrite Hv in Hk.
  eapply (finished_mono _ own g g'); eauto.
  - intros j Hj. apply A4. set_solver.
  - intros e He _. rewrite A5. set_solver.
Qed.

(** Runs the monadic steps of the goal up to the next opaque call. *)
Ltac run_tr := cbv beta iota delta [mbind st_bind mret st_ret outside get_walk update fst snd].

Section Steps.
Context `{E : Env} `{C : ConditionApi} `{N : NameValidation}.

(** *** Gaps *)
Lemma incomplete_inv ns why g : inv ns g → inv ns (incomplete why g).
Proof.
  intros [A1 A2 A3 A4 A5 A6 A7 A8 A9]. constructor; simpl; try done.
  split; [done|]. intros H. exfalso. assert (why ∈ (∅ : gset string)) by (rewrite <- H; set_solver).
  set_solver.
Qed.

Lemma incomplete_grows own why g : grows own g (incomplete why g).
Proof.
  constructor; try done. exists []. rewrite app_nil_r. by repeat split.
Qed.

Lemma incomplete_closed compatibility why g : closed compatibility (incomplete why g).
Proof. by intros Hc. Qed.

(** The state after a successful or failed read. *)
(** A published descriptor holds exact integers only. *)
Lemma encoded_exact p data : encodePortableDescriptor p = inl data →
  let d := portableDescriptorFor p in
  validGeneration (P_Generation d) = true ∧ validGeneration (P_ObservedGeneration d) = true ∧
  forallb (λ e, validGeneration (HD_Generation (snd e)) && validGeneration (HD_ObservedGeneration (snd e)))
    (P_Health d) = true.
Proof.
  unfold encodePortableDescriptor. cbv zeta. generalize (portableDescriptorFor p). intros d.
  destruct (negb (withinDiscoveryBounds _)); [done|]. destruct (validPortableMetadata d) eqn:Hv; [|done].
  intros _. revert Hv. unfold validPortableMetadata. cbv zeta.
  destruct (negb (distinctTracePorts _ _)); [done|]. destruct (negb (lineage_declared _ _ _ _)); [done|].
  match goal with |- (if ?b then _ else _) = _ → _ => destruct b eqn:Hb; [done|] end.
  rewrite !orb_false_iff, !negb_false_iff in Hb. rewrite !andb_true_iff. tauto.
Qed.

Lemma classify_cases g id key p n kept : classify g id key p = (n, kept) →
  Node_Key n = id ∧ node_exact n = true ∧
  match kept with
  | None => True
  | Some (size, q) =>
      q = retained_product (set_Status_Inputs [] p) ∧ ObjectKeyFromObject q = key ∧
      (0 <= size)%Z ∧ (size <= 1048576 - retained g)%Z
  end.
Proof.
  unfold classify. destruct (_ || _) eqn:Hg; [intros [= <- <-]; done|].
  apply orb_false_iff in Hg as [H1 H2]. apply negb_false_iff, bool_decide_eq_true in H1, H2.
  destruct (encodePortableDescriptor _) as [data|] eqn:He; [|intros [= <- <-]; done].
  destruct (distinctTracePorts _ _); cbn [negb]; [|intros [= <- <-]; done].
  destruct (maxTraceMetadata - retained g <? slen data)%Z eqn:HL; [intros [= <- <-]; done|].
  intros [= <- <-]. split; [done|]. apply encoded_exact in He as (H3 & H4 & H5).
  split; [apply andb_true_iff; split; [apply andb_true_iff; split; [exact H3|exact H4]|exact H5]|].
  split; [done|].
  split; [by unfold ObjectKeyFromObject; simpl; rewrite H1, H2; destruct key|].
  apply Z.ltb_ge in HL. unfold maxTraceMetadata, slen in *. split; lia.
Qed.

(** *** One read *)

Lemma no_node_no_product ns g id : inv ns g → lw_nodes g !! id = None → lw_products g !! id = None.
Proof.
  intros I Hn. destruct (lw_products g !! id) as [p|] eqn:Hp; [|done].
  apply (i_products _ _ I) in Hp as (_ & _ & [n Hs]). congruence.
Qed.

Lemma size_fresh (m : gmap string lineageNode) id n : m !! id = None →
  (maxTraceProducts <=? Z.of_nat (size m))%Z = false →
  (Z.of_nat (size (<[id := n]> m)) <= 256)%Z.
Proof.
  intros Hn Hs. rewrite map_size_insert_None by done. unfold maxTraceProducts in Hs.
  apply Z.leb_gt in Hs. lia.
Qed.

Definition keep (id : string) (n : lineageNode) (size : Z) (q : DataProduct) (g : lineageWalk)
  : lineageWalk := put_node id n (put_product id q (add_retained size g)).

Lemma keep_inv ns id n size q g : inv ns g → lw_nodes g !! id = None →
  (maxTraceProducts <=? Z.of_nat (base.size (lw_nodes g)))%Z = false →
  Node_Key n = id → node_exact n = true → Namespace (Meta q) = ns → id = product_id q →
  (0 <= size)%Z → (size <= 1048576 - retained g)%Z → inv ns (keep id n size q g).
Proof.
  intros I Hn Hs Hk Hx Hns Hid H1 H2. destruct I as [A1 A2 A3 A4 A5 A6 A7 A8 A9].
  constructor; simpl; try done.
  - by apply size_fresh.
  - lia.
  - intros j p. destruct (decide (j = id)) as [->|Hj].
    + rewrite !lookup_insert_eq. intros [= <-]. eauto.
    + rewrite !lookup_insert_ne by done. apply A4.
  - intros j m. destruct (decide (j = id)) as [->|Hj].
    + rewrite lookup_insert_eq. intros [= <-]. split; [done|]. exists (Name (Meta q)).
      rewrite Hid. unfold product_id, key_String. simpl. by rewrite Hns.
    + rewrite lookup_insert_ne by done. apply A5.
  - intros Hc j. destruct (decide (j = id)) as [->|Hj]; [by rewrite !lookup_insert_eq|].
    rewrite !lookup_insert_ne by done. by apply A6.
  - intros j m [[_ <-]|[_ Hm]]%lookup_insert_Some; [done|by apply A9 in Hm].
Qed.

Lemma keep_grows ns own id n size q g : inv ns g → lw_nodes g !! id = None →
  grows own g (keep id n size q g).
Proof.
  intros I Hn. pose proof (no_node_no_product _ _ _ I Hn) as Hp.
  constructor; simpl; try done; [by apply insert_subseteq|].
  exists []. rewrite app_nil_r. by repeat split.
Qed.

Definition fail (id : string) (n : lineageNode) (g : lineageWalk) : lineageWalk :=
  incomplete (Node_State n) (put_node id n g).

Lemma fail_inv ns id n g : inv ns g → lw_nodes g !! id = None →
  (maxTraceProducts <=? Z.of_nat (size (lw_nodes g)))%Z = false →
  Node_Key n = id → node_exact n = true → (∃ name, id = ns +:+ "/" +:+ name) → inv ns (fail id n g).
Proof.
  intros I Hn Hs Hk Hx Hid. destruct I as [A1 A2 A3 A4 A5 A6 A7 A8 A9].
  assert (inv ns (incomplete (Node_State n) g)) as I' by (by apply incomplete_inv).
  constructor; simpl; try done; [by apply size_fresh| | |apply I'|].
  - intros j p Hp. destruct (A4 j p Hp) as (? & ? & [m Hm]). split; [done|]. split; [done|].
    rewrite lookup_insert_ne by congruence. eauto.
  - intros j m. destruct (decide (j = id)) as [->|Hj].
    + rewrite lookup_insert_eq. intros [= <-]. done.
    + rewrite lookup_insert_ne by done. apply A5.
  - intros j m [[_ <-]|[_ Hm]]%lookup_insert_Some; [done|by apply A9 in Hm].
Qed.

Lemma fail_grows own id n g : grows own g (fail id n g).
Proof. constructor; simpl; try done. exists []. rewrite app_nil_r. by repeat split. Qed.

(** The outcome of [read]: the walk grew by at most one node; the product is the cached one, and its
    absence is a recorded gap. *)
Record read_post (ns id : string) (g : lineageWalk) (res : option DataProduct) (g' : lineageWalk)
  : Prop := {
  rp_inv : inv ns g';
  rp_grows : ∀ own, grows own g g';
  rp_edges : recorded g' = recorded g;
  rp_visited : lw_visited g' = lw_visited g;
  rp_res : res = lw_products g' !! id;
  rp_gap : res = None → complete g' = false;
  rp_dom : dom (lw_products g') ⊆ {[id]} ∪ dom (lw_products g)
}.

Lemma read_post_gap ns id why g : inv ns g → lw_products g !! id = None →
  read_post ns id g None (incomplete why g).
Proof.
  intros I Hp. constructor; try done; [by apply incomplete_inv| |set_solver].
  intros own. apply incomplete_grows.
Qed.

Lemma read_spec ns reader ctx key g w res st g' w' : inv ns g → key_Namespace key = ns →
  read reader ctx key (g, w) = ((res, st), (g', w')) →
  read_post ns (key_String key) g res g'.
Proof.
  intros I Hns. unfold read. set (id := key_String key).
  run_tr.
  destruct (lw_nodes g !! id) as [node|] eqn:Hn.
  { intros [= <- <- <- <-]. constructor; try done; [intros; apply grows_refl| |set_solver].
    intros Hp. destruct (complete g) eqn:Hc; [|done].
    destruct (i_complete _ _ I Hc id) as [p ?]; [by eexists|congruence]. }
  pose proof (no_node_no_product _ _ _ I Hn) as Hp.
  destruct (Err ctx w) as [[e|] w1]; run_tr.
  { intros [= <- <- <- <-]. by apply read_post_gap. }
  destruct (maxTraceProducts <=? _)%Z eqn:Hs.
  { intros [= <- <- <- <-]. by apply read_post_gap. }
  destruct (reader ctx key w1) as [r w2]; run_tr. destruct (Err ctx w2) as [late w3]; run_tr.
  match goal with |- context [let '(node, kept) := ?x in _] => destruct x as [node kept] eqn:Hx end.
  assert (Node_Key node = id ∧ node_exact node = true ∧ match kept with None => True | Some (size, q) =>
    ObjectKeyFromObject q = key ∧ (0 <= size)%Z ∧ (size <= 1048576 - retained g)%Z end) as (Hk & Hex & Hq).
  { destruct late; [by injection Hx as <- <-|]. destruct r as [p|e].
    - apply classify_cases in Hx as (? & ? & Hx). split; [done|]. split; [done|]. destruct kept as [[size q]|]; tauto.
    - by injection Hx as <- <-. }
  destruct kept as [[size q]|].
  - destruct Hq as (Hkey & H1 & H2). run_tr.
    replace (lw_products _ !! id) with (Some q) by (simpl; by rewrite lookup_insert_eq).
    intros [= <- <- <- <-]. constructor; try done.
    + apply keep_inv; try done; [by rewrite <- Hns, <- Hkey|unfold id, product_id; by rewrite Hkey].
    + intros own. by apply (keep_grows ns).
    + simpl. by rewrite lookup_insert_eq.
    + simpl. by rewrite dom_insert_L.
  - run_tr.
    replace (lw_products _ !! id) with (@None DataProduct) by (simpl; by rewrite Hp).
    intros [= <- <- <- <-]. constructor; try done.
    + apply fail_inv; try done. exists (key_Name key). unfold id, key_String. by rewrite Hns.
    + intros own. apply fail_grows.
    + simpl. set_solver.
Qed.

(** *** Heights, edges and finished products *)

Lemma inv_same ns g g' : inv ns g → lw_products g' = lw_products g → lw_nodes g' = lw_nodes g →
  retained g' = retained g → complete g' = complete g → lw_issues g' = lw_issues g →
  lw_visiting g' ## lw_visited g' → (Z.of_nat (length (recorded g')) <= 1024)%Z → inv ns g'.
Proof.
  intros [A1 A2 A3 A4 A5 A6 A7 A8 A9] E1 E2 E3 E4 E5 HD HE.
  constructor; rewrite ?E1, ?E2, ?E3, ?E4, ?E5; done.
Qed.

Lemma put_height_inv ns k h g : inv ns g → inv ns (put_height k h g).
Proof. intros I. eapply (inv_same _ g); try done; apply I. Qed.

Lemma put_height_grows k h g : grows {[k]} g (put_height k h g).
Proof.
  constructor; try done.
  - intros j _ Hj. unfold lw_height. simpl. rewrite lookup_insert_ne; [done|set_solver].
  - exists []. rewrite app_nil_r. by repeat split.
Qed.

Lemma put_height_closed compatibility k h g : k ∉ lw_visited g →
  closed compatibility g → closed compatibility (put_height k h g).
Proof.
  intros Hk Hc. eapply (closed_grows _ {[k]} g); [apply put_height_grows|set_solver|done|done].
Qed.

(** The edge of one input, inspected and followed. *)
Definition edge_done (compatibility : InputPort → DataProduct → string) (p : DataProduct)
    (key : string) (depth : Z) (input : InputPort) (e : lineageEdge) (g : lineageWalk) : Prop :=
  ∃ producer compat, e = edge_with "resolved" compat (new_edge p key depth input) ∧
    lw_products g !! To e = Some producer ∧ To e ∈ lw_visited g ∧
    edge_compatibility (compatibility input producer) = Some compat ∧
    (lw_height g (To e) < lw_height g key)%Z.

Lemma edge_done_mono compatibility p key depth input e g g' :
  lw_products g ⊆ lw_products g' → lw_visited g ⊆ lw_visited g' →
  (∀ j, j ∈ lw_visited g → lw_height g' j = lw_height g j) →
  (lw_height g key <= lw_height g' key)%Z →
  edge_done compatibility p key depth input e g → edge_done compatibility p key depth input e g'.
Proof.
  intros Hp Hv Hh Hk (q & c & -> & H2 & H3 & H4 & H5). exists q, c.
  split; [done|]. split; [by eapply lookup_weaken|]. split; [by apply Hv|]. split; [done|].
  rewrite Hh by done. lia.
Qed.

(** Every retained product is being visited or finished, [pending] aside. *)
Definition covered (pending : gset string) (g : lineageWalk) : Prop :=
  complete g = true → dom (lw_products g) ⊆ pending ∪ lw_visited g ∪ lw_visiting g.

(** The outcome of a visit of [key]. *)
Record visit_post (compatibility : InputPort → DataProduct → string) (ns key : string)
    (g : lineageWalk) (res : option string) (g' : lineageWalk) : Prop := {
  vp_inv : inv ns g';
  vp_closed : closed compatibility g';
  vp_grows : grows ∅ g g';
  vp_res : ∃ r, res = Some r ∧ (complete g' = true → r = "resolved" ∧ key ∈ lw_visited g');
  vp_covered : covered ∅ g'
}.

(** The outcome of the inspection of one edge of [key], and of the whole loop. *)
Record inspect_post (compatibility : InputPort → DataProduct → string) (ns : string)
    (p : DataProduct) (key : string) (depth : Z) (input : InputPort)
    (g : lineageWalk) (res : option lineageEdge) (g' : lineageWalk) : Prop := {
  ip_inv : inv ns g';
  ip_closed : closed compatibility g';
  ip_grows : grows {[key]} g g';
  ip_height : (lw_height g key <= lw_height g' key)%Z;
  ip_res : ∃ e, res = Some e ∧ (∃ s c, e = edge_with s c (new_edge p key depth input)) ∧
    (complete g' = true → edge_done compatibility p key depth input e g');
  ip_covered : covered ∅ g'
}.

Record loop_post (compatibility : InputPort → DataProduct → string) (ns : string)
    (p : DataProduct) (key : string) (depth : Z) (inputs : list InputPort)
    (g : lineageWalk) (res : option unit) (g' : lineageWalk) : Prop := {
  lp_inv : inv ns g';
  lp_closed : closed compatibility g';
  lp_grows : grows {[key]} g g';
  lp_height : (lw_height g key <= lw_height g' key)%Z;
  lp_res : res = Some tt ∧ (complete g' = true → ∀ input, input ∈ inputs →
    ∃ e, e ∈ recorded g' ∧ edge_done compatibility p key depth input e g');
  lp_covered : covered ∅ g'
}.

(** What the recursive call promises for [n] levels. *)
Definition visits (reader : Reader DataProduct) (compatibility : InputPort → DataProduct → string)
    (ns : string) (n : Z) (rec : DataProduct → Z → Tr (option string)) : Prop :=
  ∀ p depth g w res g' w', (0 <= depth <= 64)%Z → (64 - depth < n)%Z →
    inv ns g → closed compatibility g → covered {[product_id p]} g →
    lw_products g !! product_id p = Some p →
    rec p depth (g, w) = (res, (g', w')) → visit_post compatibility ns (product_id p) g res g'.

Section Edge.
Context (reader : Reader DataProduct) (compatibility : InputPort → DataProduct → string) (ctx : Ctx).
Context (ns : string) (n : Z) (rec : DataProduct → Z → Tr (option string)).
Context (Hrec : visits reader compatibility ns n rec).
Context (p : DataProduct) (key : string) (depth : Z).
Context (Hns : Namespace (Meta p) = ns) (Hd : (0 <= depth < 64)%Z) (Hn : (64 - depth <= n)%Z).

Definition loop_pre (g : lineageWalk) : Prop :=
  inv ns g ∧ closed compatibility g ∧ covered ∅ g ∧ key ∈ lw_visiting g ∧
  lw_products g !! key = Some p.

Lemma loop_pre_fresh g : loop_pre g → key ∉ lw_visited g.
Proof. intros (I & _ & _ & Hk & _). pose proof (i_disjoint _ _ I). set_solver. Qed.

Lemma inspect_gap input why g : loop_pre g → ∀ e,
  (∃ s c, e = edge_with s c (new_edge p key depth input)) →
  inspect_post compatibility ns p key depth input g (Some e) (incomplete why g).
Proof.
  intros (I & _) e He. constructor; try done.
  - by apply incomplete_inv.
  - apply incomplete_grows.
  - exists e. split; [done|]. split; [done|]. by intros Hc.
Qed.

(** After a follow-up call, the height of [key] covers the producer's. *)
Definition raised (id : string) (g : lineageWalk) : lineageWalk :=
  put_height key (Z.max (lw_height g key) (1 + lw_height g id)) g.

Lemma raised_height id g : (lw_height g key <= lw_height (raised id g) key)%Z ∧
  (id ≠ key → (lw_height (raised id g) id < lw_height (raised id g) key)%Z).
Proof.
  assert (Hk : lw_height (raised id g) key = Z.max (lw_height g key) (1 + lw_height g id))
    by (unfold lw_height at 1; simpl; by rewrite lookup_insert_eq).
  split; [lia|]. intros Hi.
  assert (Hid : lw_height (raised id g) id = lw_height g id)
    by (unfold lw_height at 1; simpl; by rewrite lookup_insert_ne).
  lia.
Qed.

Lemma inspect_spec input g w res g' w' : loop_pre g →
  inspect_edge rec reader compatibility ctx p key depth input (g, w) = (res, (g', w')) →
  inspect_post compatibility ns p key depth input g res g'.
Proof.
  intros Hpre. pose proof (loop_pre_fresh _ Hpre) as Hfresh.
  assert (He : ∀ s c, ∃ s' c', edge_with s c (new_edge p key depth input) =
    edge_with s' c' (new_edge p key depth input)) by eauto.
  unfold inspect_edge. run_tr.
  destruct (Ref_Namespace _ != _) eqn:Hx; run_tr.
  { intros [= <- <- <-]. by apply inspect_gap. }
  apply negb_false_iff, bool_decide_eq_true in Hx.
  destruct (maxTraceDepth <=? depth + 1)%Z eqn:Hmax; run_tr.
  { intros [= <- <- <-]. by apply inspect_gap. }
  apply Z.leb_gt in Hmax. unfold maxTraceDepth in Hmax.
  destruct Hpre as (I & Hcl & Hcov & Hk & _).
  destruct (read reader ctx _ (g, w)) as [[found state] [g1 w1]] eqn:HR.
  apply (read_spec ns) in HR; [|done|by rewrite <- Hns].
  destruct HR as [I1 G1 E1 V1 R1 Gap1 D1].
  assert (Hcl1 : closed compatibility g1)
    by (by eapply (closed_grows _ ∅ g); [apply G1|set_solver|done|]).
  assert (Hvis1 : lw_visiting g1 = lw_visiting g) by apply (gr_visiting ∅ _ _ (G1 ∅)).
  destruct found as [producer|]; run_tr.
  2:{ intros [= <- <- <-]. specialize (Gap1 eq_refl). constructor; try done.
      - rewrite (gr_heights ∅ _ _ (G1 ∅)); [lia|set_solver|set_solver].
      - eexists. split; [done|]. split; [apply He|]. congruence.
      - intros Hc. congruence. }
  symmetry in R1. destruct (i_products _ _ I1 _ _ R1) as (Hpns & Hid & _).
  assert (Hcov1 : covered {[product_id producer]} g1).
  { intros Hc. specialize (Hcov (gr_complete ∅ _ _ (G1 ∅) Hc)). rewrite V1, Hvis1, <- Hid.
    set_solver. }
  destruct (edge_compatibility _) as [compat|] eqn:Hcompat; run_tr.
  2:{ intros [= <- <- <-].
      assert (I2 := incomplete_inv ns "unavailable" g1 I1). constructor.
      - by apply put_height_inv.
      - by intros Hc.
      - eapply grows_trans; [apply G1|]. eapply grows_trans; [apply (incomplete_grows _ "unavailable")|].
        apply put_height_grows.
      - etrans; [|apply (raised_height _ (incomplete "unavailable" g1))].
        change (lw_height (incomplete _ g1) key) with (lw_height g1 key).
        rewrite (gr_heights ∅ _ _ (G1 ∅)); [lia|set_solver|set_solver].
      - eexists. split; [done|]. split; [apply He|]. by intros Hc.
      - by intros Hc. }
  destruct (rec producer (depth + 1)%Z (g1, w1)) as [result [g2 w2]] eqn:HV.
  rewrite Hid in R1.
  apply Hrec in HV; [|lia|lia|done|done|done|done].
  destruct HV as [I2 Hcl2 G2 (r & -> & Hr) Hcov2]. run_tr. intros [= <- <- <-].
  assert (Hvis2 : lw_visiting g2 = lw_visiting g) by (by rewrite (gr_visiting _ _ _ G2)).
  assert (Hfresh2 : key ∉ lw_visited g2) by (pose proof (i_disjoint _ _ I2); set_solver).
  constructor.
  - by apply put_height_inv.
  - by apply put_height_closed.
  - eapply grows_trans; [apply G1|]. eapply grows_trans; [apply (grows_own ∅); [set_solver|done]|].
    apply put_height_grows.
  - etrans; [|apply raised_height].
    rewrite (gr_heights _ _ _ G2), (gr_heights ∅ _ _ (G1 ∅)); [lia|set_solver..].
  - eexists. split; [done|]. split; [apply He|]. intros Hc. destruct (Hr Hc) as [-> Hin].
    exists producer, compat. split; [done|].
    change (To _) with (key_String (ref_key (resolvedReference p (Input_ProductRef input)))).
    split; [|split; [by rewrite Hid|split; [done|]]].
    + rewrite Hid. simpl. eapply lookup_weaken; [exact R1|apply G2].
    + apply (proj2 (raised_height (key_String (ref_key (resolvedReference p (Input_ProductRef input))))
        g2)). intros Heq. apply Hfresh2. by rewrite <- Heq, Hid.
  - intros Hc. simpl. exact (Hcov2 Hc).
Qed.

(** *** The loop *)

Definition place (e : lineageEdge) (g : lineageWalk) : lineageWalk :=
  set_Edges (recorded g ++ [e]) g.
Definition put_edge (index : nat) (e : lineageEdge) (g : lineageWalk) : lineageWalk :=
  set_Edges (<[index := e]> (recorded g)) g.

(** A change of the edges alone that keeps the evaluated ones. *)
Lemma set_Edges_closed l g : closed compatibility g →
  (∀ e, e ∈ recorded g → Edge_Compatibility e ≠ "not-evaluated" → e ∈ l) →
  closed compatibility (set_Edges l g).
Proof.
  intros Hc Hl Hcomp k Hk.
  apply (finished_mono _ ∅ g); [done..|exact Hl|set_solver|done|by apply Hc].
Qed.

Lemma set_Edges_inv l g : inv ns g → (Z.of_nat (length l) <= 1024)%Z → inv ns (set_Edges l g).
Proof. intros I Hl. eapply (inv_same _ g); try done. apply I. Qed.

Lemma place_pre input g : loop_pre g →
  (maxTraceEdges <=? Z.of_nat (length (recorded g)))%Z = false →
  loop_pre (place (new_edge p key depth input) g).
Proof.
  intros (I & Hc & Hcov & Hk & Hp) Hl. apply Z.leb_gt in Hl. unfold maxTraceEdges in Hl.
  split; [|split; [|split; [exact Hcov|split; [exact Hk|exact Hp]]]].
  - apply set_Edges_inv; [done|]. rewrite length_app. simpl. lia.
  - apply set_Edges_closed; [done|]. intros e He _. set_solver.
Qed.

(** Between placing and settling an edge the walk grows by that edge and the nested ones. *)
Lemma put_edge_grows g ph e g2 : grows {[key]} (place ph g) g2 → edge_ok g2 e →
  (complete g2 = true → edge_resolved e) → grows {[key]} g (put_edge (length (recorded g)) e g2).
Proof.
  intros [A1 A2 A3 A4 (new & A5 & A6 & A7) A8] He Hr.
  constructor; try done. exists (e :: new). cbn [put_edge set_Edges trace Trace_Edges Complete].
  simpl in A5. split; [|split].
  - rewrite A5, <- app_assoc. simpl. rewrite insert_app_r_alt by lia. by rewrite Nat.sub_diag.
  - by constructor.
  - intros Hc. constructor; auto.
Qed.

Lemma put_edge_edges g ph e g2 : grows {[key]} (place ph g) g2 →
  ∃ new, recorded g2 = recorded g ++ ph :: new ∧
    recorded (put_edge (length (recorded g)) e g2) = recorded g ++ e :: new.
Proof.
  intros [_ _ _ _ (new & A5 & _) _]. simpl in A5. exists new.
  cbn [put_edge set_Edges trace Trace_Edges]. rewrite A5, <- app_assoc. simpl. split; [done|].
  rewrite insert_app_r_alt by lia. by rewrite Nat.sub_diag.
Qed.

Lemma put_edge_closed g ph e g2 : grows {[key]} (place ph g) g2 → closed compatibility g2 →
  Edge_Compatibility ph = "not-evaluated" →
  closed compatibility (put_edge (length (recorded g)) e g2).
Proof.
  intros G Hc Hph. destruct (put_edge_edges g ph e g2 G) as (new & E2 & E3).
  apply set_Edges_closed; [done|]. intros e' He' Hne.
  change (<[length (recorded g) := e]> (recorded g2)) with
    (recorded (put_edge (length (recorded g)) e g2)).
  rewrite E3. rewrite E2 in He'. apply elem_of_app in He' as [?|He']; [set_solver|].
  apply elem_of_cons in He' as [->|?]; [done|set_solver].
Qed.

Lemma edge_done_resolved input e g : edge_done compatibility p key depth input e g → edge_resolved e.
Proof.
  intros (q & c & -> & _ & _ & Hc & _). split; [done|]. simpl. by eapply compat_evaluated.
Qed.

Lemma loop_gap why inputs g : loop_pre g →
  loop_post compatibility ns p key depth inputs g (Some tt) (incomplete why g).
Proof.
  intros (I & _). constructor; try done; [by apply incomplete_inv|apply incomplete_grows].
Qed.

Lemma edge_declared g g2 input s c : loop_pre g → grows {[key]} g g2 → input ∈ Inputs (Spec p) →
  edge_ok g2 (edge_with s c (new_edge p key depth input)).
Proof.
  intros (_ & _ & _ & _ & Hp) G Hi. split; [simpl; lia|]. exists p, input, depth, s, c.
  split; [|done]. eapply lookup_weaken; [exact Hp|apply G].
Qed.

(** One round of the loop: the edge is settled, and the next round may start. *)
Lemma round_spec input g w1 e g2 w2 : loop_pre g → input ∈ Inputs (Spec p) →
  (maxTraceEdges <=? Z.of_nat (length (recorded g)))%Z = false →
  inspect_edge rec reader compatibility ctx p key depth input
    (place (new_edge p key depth input) g, w1) = (Some e, (g2, w2)) →
  let g3 := put_edge (length (recorded g)) e g2 in
  loop_pre g3 ∧ grows {[key]} g g3 ∧ (lw_height g key <= lw_height g3 key)%Z ∧
  e ∈ recorded g3 ∧ (complete g3 = true → edge_done compatibility p key depth input e g3).
Proof.
  intros Hpre Hin Hl HI. pose proof (place_pre input g Hpre Hl) as Hpre1.
  apply inspect_spec in HI; [|done].
  destruct HI as [I2 Hc2 G2 Hh2 (e' & [= <-] & (s0 & c0 & He) & Hdone) Hcov2].
  assert (G3 : grows {[key]} g (put_edge (length (recorded g)) e g2)).
  { eapply put_edge_grows; [exact G2| |].
    { rewrite He. by eapply edge_declared. }
    intros Hc. by eapply edge_done_resolved, Hdone. }
  cbn zeta. split; [|split; [done|split; [exact Hh2|split; [|exact Hdone]]]].
  - split; [|split; [|split; [|split]]].
    + apply set_Edges_inv; [done|]. rewrite length_insert. apply I2.
    + by eapply put_edge_closed.
    + exact Hcov2.
    + rewrite (gr_visiting _ _ _ G3). apply Hpre.
    + eapply lookup_weaken; [apply Hpre|apply G3].
  - destruct (put_edge_edges g _ e g2 G2) as (new & _ & ->). set_solver.
Qed.

Lemma inspect_returns input g w res g' w' : loop_pre g →
  inspect_edge rec reader compatibility ctx p key depth input (g, w) = (res, (g', w')) →
  is_Some res.
Proof. intros Hpre HI. apply inspect_spec in HI as [_ _ _ _ (e & -> & _) _]; eauto. Qed.

Lemma loop_spec inputs : ∀ g w res g' w', loop_pre g →
  (∀ input, input ∈ inputs → input ∈ Inputs (Spec p)) →
  visit_edges rec reader compatibility ctx p key depth inputs (g, w) = (res, (g', w')) →
  loop_post compatibility ns p key depth inputs g res g'.
Proof.
  induction inputs as [|input rest IH]; intros g w res g' w' Hpre Hins; cbn [visit_edges]; run_tr.
  { intros [= <- <- <-]. destruct Hpre as (I & Hc & Hcov & _). constructor; try done.
    - apply grows_refl.
    - split; [done|]. intros _ i Hi%elem_of_nil. done. }
  destruct (maxTraceEdges <=? _)%Z eqn:Hl; run_tr.
  { intros [= <- <- <-]. by apply loop_gap. }
  destruct (Err ctx w) as [[?|] w1]; run_tr.
  { intros [= <- <- <-]. by apply loop_gap. }
  change (set_Edges (recorded g ++ _) g) with (place (new_edge p key depth input) g).
  destruct (inspect_edge _ _ _ _ _ _ _ _ _) as [inspected [g2 w2]] eqn:HI.
  pose proof (place_pre input g Hpre Hl) as Hpre1.
  destruct (inspect_returns _ _ _ _ _ _ Hpre1 HI) as [e ->]. run_tr.
  change (set_Edges (<[_ := e]> (recorded g2)) g2) with (put_edge (length (recorded g)) e g2).
  apply round_spec in HI as (Hpre3 & G3 & Hh3 & He & Hdone); [|done|apply Hins; by left|done].
  intros HL. apply IH in HL; [|done|intros i Hi; apply Hins; by right].
  destruct HL as [I4 Hc4 G4 Hh4 [-> Hall] Hcov4].
  constructor; try done; [by eapply grows_trans|by etrans|].
  split; [done|]. intros Hc i [->|Hi]%elem_of_cons; [|by apply Hall].
  exists e. split.
  - destruct G4 as [_ _ _ _ (new & E4 & _) _]. rewrite E4. clear -He. set_solver.
  - eapply (edge_done_mono _ _ _ _ _ _ (put_edge (length (recorded g)) e g2)); try apply G4;
      [|done|apply Hdone, G4, Hc].
    intros j Hj. apply (gr_heights _ _ _ G4); [clear -Hj; set_solver|].
    pose proof (loop_pre_fresh _ Hpre3) as Hf. clear -Hj Hf. set_solver.
Qed.
End Edge.


(** *** A visit *)

(** The states around the loop of a product: entered, and finished. *)
Definition finish (key : string) (g : lineageWalk) : lineageWalk :=
  drop_visiting key (put_visited key g).

Lemma enter_pre compatibility ns p key g : inv ns g → closed compatibility g → covered {[key]} g →
  key ∉ lw_visited g → lw_products g !! key = Some p →
  loop_pre compatibility ns p key (put_visiting key g).
Proof.
  intros I Hc Hcov Hv Hp. split; [|split; [|split; [|split; [|exact Hp]]]].
  - eapply (inv_same _ g); try done; [|apply I]. simpl. pose proof (i_disjoint _ _ I). set_solver.
  - exact Hc.
  - intros Hcomp. specialize (Hcov Hcomp). simpl. set_solver.
  - simpl. set_solver.
Qed.

Lemma finish_grows key g g' : key ∉ lw_visiting g → key ∉ lw_visited g →
  grows {[key]} (put_visiting key g) g' → grows ∅ g (finish key g').
Proof.
  intros Hvi Hv [A1 A2 A3 A4 A5 A6]. simpl in *. constructor; simpl; try done.
  - set_solver.
  - rewrite A3. set_solver.
  - intros k Hk _. apply A4; set_solver.
Qed.

Lemma finish_inv ns key g : inv ns g → inv ns (finish key g).
Proof.
  intros I. eapply (inv_same _ g); try done; [|apply I]. simpl.
  pose proof (i_disjoint _ _ I). set_solver.
Qed.

Lemma finish_closed compatibility ns p depth g g' : lw_products g !! product_id p = Some p →
  product_id p ∉ lw_visited g' →
  grows {[product_id p]} (put_visiting (product_id p) g) g' → closed compatibility g' →
  (complete g' = true → ∀ input, input ∈ sort_slice (less_by Input_Name) (Inputs (Spec p)) →
    ∃ e, e ∈ recorded g' ∧ edge_done compatibility p (product_id p) depth input e g') →
  inv ns g' → closed compatibility (finish (product_id p) g').
Proof.
  intros Hp Hv G Hc Hall I Hcomp k Hk. simpl in Hk.
  assert (Hmono : ∀ j, finished compatibility g' j → finished compatibility (finish (product_id p) g') j).
  { intros j (q & Hq & Hin). exists q. split; [exact Hq|]. intros i Hi.
    destruct (Hin i Hi) as (d & r & c & H1 & H2 & H3 & H4 & H5). exists d, r, c.
    repeat split; try done. simpl. set_solver. }
  apply Hmono. apply elem_of_union in Hk as [->%elem_of_singleton|Hk]; [|by apply Hc].
  exists p. split; [eapply lookup_weaken; [exact Hp|apply G]|].
  intros input Hi. destruct (Hall Hcomp input) as (e & He & q & c & -> & H2 & H3 & H4 & H5).
  { by apply sort_slice_elem. }
  exists depth, q, c. by repeat split.
Qed.

Lemma visit_gap compatibility ns key why g r : inv ns g →
  visit_post compatibility ns key g (Some r) (incomplete why g).
Proof.
  intros I. constructor; try done; [by apply incomplete_inv|apply incomplete_grows|].
  exists r. split; [done|]. by intros Hc.
Qed.

Lemma lineage_visit_spec reader compatibility ctx ns fuel :
  visits reader compatibility ns (Z.of_nat fuel) (lineage_visit fuel reader compatibility ctx).
Proof.
  induction fuel as [|fuel IH]; intros p depth g w res g' w' Hd Hf I Hc Hcov Hp.
  { exfalso. lia. }
  cbn [lineage_visit]. change (Namespace (Meta p) +:+ "/" +:+ Name (Meta p)) with (product_id p).
  run_tr. destruct (Err ctx w) as [[?|] w1]; run_tr.
  { intros [= <- <- <-]. by apply visit_gap. }
  case_bool_decide as Hvi; run_tr.
  { intros [= <- <- <-]. by apply visit_gap. }
  destruct (_ || _) eqn:Hmax; run_tr.
  { intros [= <- <- <-]. by apply visit_gap. }
  apply orb_false_iff in Hmax as [Hmax _]. apply Z.leb_gt in Hmax. unfold maxTraceDepth in Hmax.
  case_bool_decide as Hv; run_tr.
  { intros [= <- <- <-]. constructor; try done; [apply grows_refl|by eexists|].
    intros Hcomp. specialize (Hcov Hcomp). set_solver. }
  destruct (i_products _ _ I _ _ Hp) as (Hns & _ & _).
  pose proof (enter_pre _ _ _ _ _ I Hc Hcov Hv Hp) as Hpre.
  destruct (visit_edges _ _ _ _ _ _ _ _ _) as [looped [g2 w2]] eqn:HL.
  apply (loop_spec reader compatibility ctx ns (Z.of_nat fuel)) in HL;
    [|done|done|lia|lia|done|by intros i ?%sort_slice_elem].
  destruct HL as [I2 Hc2 G2 Hh2 [-> Hall] Hcov2]. run_tr.
  change (drop_visiting _ (put_visited _ g2)) with (finish (product_id p) g2).
  intros [= <- <- <-].
  assert (Hv2 : product_id p ∉ lw_visited g2).
  { pose proof (i_disjoint _ _ I2). pose proof (gr_visiting _ _ _ G2) as E2. simpl in E2. set_solver. }
  constructor.
  - by apply finish_inv.
  - by eapply finish_closed.
  - by apply finish_grows.
  - eexists. split; [done|]. intros _. split; [done|]. simpl. set_solver.
  - intros Hcomp. specialize (Hcov2 Hcomp). simpl in *.
    pose proof (gr_visiting _ _ _ G2) as E2. simpl in E2. rewrite E2 in *.
    intros x Hx. specialize (Hcov2 x Hx). destruct (decide (x = product_id p)); set_solver.
Qed.
End Steps.
