(* ===== verification/LineageSpec.v ===== *)
(** * What a dependency trace promises

    Every trace is bounded and its walk returns; a trace that calls itself complete is a full and
    acyclic picture of the declared graph; and a trace never depends on another namespace. *)

From S2P Require Import Prelude Kube Api Regex GoJson GoStrings GoUrl Config Composition.
From S2P Require Import Reference Descriptor Lineage LineageProofs.

Section Traces.
Context `{E : Env} `{C : ConditionApi} `{N : NameValidation}.

Lemma new_walk_inv key : inv (key_Namespace key) (new_walk key).
Proof.
  constructor; simpl; try done; try lia.
  intros _ id [n Hn]. by rewrite lookup_empty in Hn.
Qed.

Lemma fuel_enough : (64 - 0 < Z.of_nat trace_fuel)%Z.
Proof. reflexivity. Qed.

Lemma zero_depth : (0 <= 0 <= 64)%Z.
Proof. lia. Qed.

(** The states of a trace: after the read of the root, and after the walk. *)
Lemma trace_root_spec (s : server) compatibility ctx key w outcome g w' :
  trace_root s compatibility ctx key w = ((outcome, g), w') →
  inv (key_Namespace key) g ∧ grows ∅ (new_walk key) g ∧
  match outcome with
  | RootUnavailable _ => complete g = false
  | Traced result =>
      closed compatibility g ∧ covered ∅ g ∧ lw_visiting g = ∅ ∧
      ∃ r, result = Some r ∧ (complete g = true → r = "resolved")
  end.
Proof.
  unfold trace_root.
  destruct (read _ _ _ _) as [[root state] [g1 w1]] eqn:HR.
  apply (read_spec (key_Namespace key)) in HR; [|apply new_walk_inv|done].
  destruct HR as [I1 G1 E1 V1 R1 Gap1 D1].
  destruct root as [p|]; [|by intros [= <- <- <-]; auto].
  destruct (lineage_visit _ _ _ _ _ _ _) as [result [g2 w2]] eqn:HV. intros [= <- <- <-].
  symmetry in R1. destruct (i_products _ _ I1 _ _ R1) as (_ & Hid & _). rewrite Hid in R1, D1.
  simpl in V1, D1.
  assert (Hcl1 : closed compatibility g1) 
    by (intros _ k Hk; rewrite V1 in Hk; by apply elem_of_empty in Hk).
  assert (Hcov1 : covered {[product_id p]} g1) by (clear -D1; intros _; set_solver).
  pose proof (lineage_visit_spec (reader s) compatibility ctx (key_Namespace key) trace_fuel p 0%Z g1 w1
    result g2 w2 zero_depth fuel_enough I1 Hcl1 Hcov1 R1 HV) as HV'.
  destruct HV' as [I2 Hc2 G2 (r & -> & Hr) Hcov2].
  pose proof (grows_trans _ _ _ _ (G1 ∅) G2) as G.
  split; [done|]. split; [done|]. split; [done|]. split; [done|]. split.
  - by rewrite (gr_visiting _ _ _ G).
  - exists r. split; [done|]. intros Hc. by apply Hr.
Qed.

(** C25.  Every trace is bounded and every walk returns: within 65 levels of recursion the walk
    yields a result; it recorded at most 1024 edges, each at a depth from 1 to 64 and each declared by
    a product it read, at most 256 products, all in the namespace of the root, and at most 1 MiB of
    metadata; and it is complete exactly when no gap was recorded. *)
Theorem trace_bounded (s : server) compatibility ctx key w outcome g w' :
  trace_root s compatibility ctx key w = ((outcome, g), w') →
  outcome ≠ Traced None ∧
  (Z.of_nat (length (recorded g)) <= 1024)%Z ∧ Forall (edge_ok g) (recorded g) ∧
  (Z.of_nat (size (lw_nodes g)) <= 256)%Z ∧
  (∀ id n, lw_nodes g !! id = Some n → ∃ name, id = key_Namespace key +:+ "/" +:+ name) ∧
  (0 <= retained g <= 1048576)%Z ∧
  (complete g = true ↔ lw_issues g = ∅).
Proof.
  intros H. destruct (trace_root_spec _ _ _ _ _ _ _ _ H) as (I & G & Ho).
  destruct G as [_ _ _ _ (new & E5 & E6 & _) _]. simpl in E5. rewrite E5.
  split; [|split; [|split; [done|split; [apply I|split; [|split; [apply I|apply I]]]]]].
  - destruct outcome as [|result]; [done|]. destruct Ho as (_ & _ & _ & r & -> & _). done.
  - rewrite <- E5. apply I.
  - intros id n Hn. by apply (i_keys _ _ I) in Hn as [_ ?].
Qed.

(** ** Complete traces *)

(** [a] declares an input from [b] among the products of the trace. *)
Definition declares (g : lineageWalk) (a b : string) : Prop :=
  ∃ p input, lw_products g !! a = Some p ∧ input ∈ Inputs (Spec p) ∧
    b = To (new_edge p a 0 input).

Lemma declares_height compatibility g a b :
  (∀ k, is_Some (lw_nodes g !! k) → finished compatibility g k) →
  (∀ k, is_Some (lw_products g !! k) → is_Some (lw_nodes g !! k)) →
  tc (declares g) a b → (lw_height g b < lw_height g a)%Z.
Proof.
  intros Hf Hn. induction 1 as [a b (p & i & Hp & Hi & ->)|a b c (p & i & Hp & Hi & ->) _ IH];
    destruct (Hf a) as (q & Hq & Hin); eauto;
    rewrite Hp in Hq; injection Hq as <-;
    destruct (Hin i Hi) as (d & r & x & _ & _ & _ & _ & Hh); simpl in *; lia.
Qed.

(** C26.  A complete trace is the whole picture: when no gap was recorded, every product of the trace
    was read and each input it declares appears as an edge that was followed and evaluated with the
    callback, towards another product of the trace; every recorded edge was; and the declared graph
    has no cycle. *)
Theorem complete_trace_sound (s : server) compatibility ctx key w result g w' :
  trace_root s compatibility ctx key w = ((Traced result, g), w') →
  complete g = true →
  result = Some "resolved" ∧ lw_issues g = ∅ ∧
  (∀ k, is_Some (lw_nodes g !! k) → finished compatibility g k) ∧
  Forall edge_resolved (recorded g) ∧
  (∀ k, ¬ tc (declares g) k k).
Proof.
  intros H Hc. destruct (trace_root_spec _ _ _ _ _ _ _ _ H) as (I & G & Hcl & Hcov & Hvis & r & -> & Hr).
  assert (Hf : ∀ k, is_Some (lw_nodes g !! k) → finished compatibility g k).
  { intros k Hk. apply Hcl; [done|]. apply (i_complete _ _ I Hc) in Hk.
    apply elem_of_dom in Hk. apply (Hcov Hc) in Hk. rewrite Hvis in Hk. set_solver. }
  split; [by rewrite Hr|]. split; [by apply (i_issues _ _ I)|]. split; [done|]. split.
  - destruct G as [_ _ _ _ (new & -> & _ & E7) _]. simpl. by apply E7.
  - intros k Hk. apply (declares_height compatibility) in Hk; [lia|done|].
    intros j [p Hp]. by apply (i_products _ _ I) in Hp as (_ & _ & ?).
Qed.

(** ** Namespace isolation *)

Section Isolation.
Context (ns : string) (r1 r2 : Reader DataProduct).
Context (Hagree : ∀ ctx key w, key_Namespace key = ns → r1 ctx key w = r2 ctx key w).

Lemma read_ext ctx key sw : key_Namespace key = ns → read r1 ctx key sw = read r2 ctx key sw.
Proof.
  intros Hk. destruct sw as [g w]. unfold read. run_tr.
  destruct (lw_nodes g !! _); [done|]. destruct (Err ctx w) as [[?|] w1]; [done|]. run_tr.
  destruct (maxTraceProducts <=? _)%Z; [done|]. run_tr. by rewrite Hagree.
Qed.

Section Edge.
Context (compatibility : InputPort → DataProduct → string) (ctx : Ctx) (n : Z).
Context (rec1 rec2 : DataProduct → Z → Tr (option string)).
Context (Hrec1 : visits r1 compatibility ns n rec1).
Context (Hrec : ∀ p depth g w, (0 <= depth <= 64)%Z → (64 - depth < n)%Z →
  inv ns g → closed compatibility g → covered {[product_id p]} g →
  lw_products g !! product_id p = Some p → rec1 p depth (g, w) = rec2 p depth (g, w)).
Context (p : DataProduct) (key : string) (depth : Z).
Context (Hns : Namespace (Meta p) = ns) (Hd : (0 <= depth < 64)%Z) (Hn : (64 - depth <= n)%Z).

Lemma inspect_ext input g w : loop_pre compatibility ns p key g →
  inspect_edge rec1 r1 compatibility ctx p key depth input (g, w) =
  inspect_edge rec2 r2 compatibility ctx p key depth input (g, w).
Proof.
  intros (I & Hcl & Hcov & Hk & _). unfold inspect_edge. run_tr.
  destruct (Ref_Namespace _ != _) eqn:Hx; [done|]. apply negb_false_iff, bool_decide_eq_true in Hx.
  destruct (maxTraceDepth <=? depth + 1)%Z eqn:Hmax; [done|]. run_tr.
  apply Z.leb_gt in Hmax. unfold maxTraceDepth in Hmax.
  rewrite <- read_ext by (by rewrite <- Hns).
  destruct (read r1 _ _ _) as [[found state] [g1 w1]] eqn:HR.
  apply (read_spec ns) in HR; [|done|by rewrite <- Hns].
  destruct HR as [I1 G1 E1 V1 R1 Gap1 D1]. destruct found as [q|]; [|done].
  destruct (edge_compatibility _); [|done]. run_tr.
  symmetry in R1. destruct (i_products _ _ I1 _ _ R1) as (_ & Hid & _). rewrite Hid in R1, D1.
  rewrite Hrec; [done|lia|lia|done| | |done].
  - eapply (closed_grows _ ∅ g); [apply G1|set_solver|done|done].
  - intros Hc. specialize (Hcov (gr_complete ∅ _ _ (G1 ∅) Hc)).
    rewrite V1, (gr_visiting ∅ _ _ (G1 ∅)). clear -Hcov D1. set_solver.
Qed.

Lemma loop_ext inputs : ∀ g w, loop_pre compatibility ns p key g →
  (∀ input, input ∈ inputs → input ∈ Inputs (Spec p)) →
  visit_edges rec1 r1 compatibility ctx p key depth inputs (g, w) =
  visit_edges rec2 r2 compatibility ctx p key depth inputs (g, w).
Proof.
  induction inputs as [|input rest IH]; intros g w Hpre Hins; cbn [visit_edges]; [done|]. run_tr.
  destruct (maxTraceEdges <=? _)%Z eqn:Hl; [done|].
  destruct (Err ctx w) as [[?|] w1]; [done|]. run_tr.
  change (set_Edges (recorded g ++ _) g) with (place (new_edge p key depth input) g).
  assert (Hpre1 : loop_pre compatibility ns p key (place (new_edge p key depth input) g))
    by (eapply place_pre; eassumption).
  rewrite <- (inspect_ext _ _ _ Hpre1).
  destruct (inspect_edge _ _ _ _ _ _ _ _ _) as [inspected [g2 w2]] eqn:HI.
  destruct inspected as [e|]; [|done]. run_tr.
  change (set_Edges (<[_ := e]> (recorded g2)) g2) with (put_edge (length (recorded g)) e g2).
  apply IH; [|intros i Hi; apply Hins; by right].
  eapply (round_spec r1 compatibility ctx ns n rec1) in HI as [HI _]; try done; apply Hins; by left.
Qed.
End Edge.

Lemma visit_ext compatibility ctx fuel : ∀ p depth g w,
  (0 <= depth <= 64)%Z → (64 - depth < Z.of_nat fuel)%Z →
  inv ns g → closed compatibility g → covered {[product_id p]} g →
  lw_products g !! product_id p = Some p →
  lineage_visit fuel r1 compatibility ctx p depth (g, w) =
  lineage_visit fuel r2 compatibility ctx p depth (g, w).
Proof.
  induction fuel as [|fuel IH]; intros p depth g w Hd Hf I Hc Hcov Hp; [done|].
  cbn [lineage_visit]. change (Namespace (Meta p) +:+ "/" +:+ Name (Meta p)) with (product_id p).
  run_tr. destruct (Err ctx w) as [[?|] w1]; [done|]. run_tr.
  case_bool_decide as Hvi; [done|]. destruct (_ || _) eqn:Hmax; [done|].
  apply orb_false_iff in Hmax as [Hmax _]. apply Z.leb_gt in Hmax. unfold maxTraceDepth in Hmax.
  case_bool_decide as Hv; [done|]. run_tr.
  destruct (i_products _ _ I _ _ Hp) as (Hns & _ & _).
  erewrite loop_ext; [done|apply lineage_visit_spec|exact IH|done|lia|lia| |by intros i ?%sort_slice_elem].
  by apply enter_pre.
Qed.

Lemma trace_root_ext (s1 s2 : server) compatibility ctx key w :
  reader s1 = r1 → reader s2 = r2 → key_Namespace key = ns →
  trace_root s1 compatibility ctx key w = trace_root s2 compatibility ctx key w.
Proof.
  intros E1 E2 Hk. unfold trace_root. rewrite E1, E2, <- read_ext by done.
  destruct (read r1 _ _ _) as [[root state] [g1 w1]] eqn:HR.
  apply (read_spec ns) in HR; [|rewrite <- Hk; apply new_walk_inv|done].
  destruct HR as [I1 G1 E3 V1 R1 Gap1 D1]. destruct root as [p|]; [|done].
  symmetry in R1. destruct (i_products _ _ I1 _ _ R1) as (_ & Hid & _). rewrite Hid in R1, D1.
  simpl in V1, D1.
  rewrite (visit_ext compatibility ctx trace_fuel p 0 g1 w1); try done.
  - intros _ k Hkv. rewrite V1 in Hkv. by apply elem_of_empty in Hkv.
  - intros _. clear -D1. set_solver.
Qed.
End Isolation.

(** A trace stays in its namespace: what the endpoint answers, and what it does to the outside
    world, is the same for any two inventories that agree on the namespace named by the request, so
    no reference in a product authorizes a read elsewhere. *)
Theorem trace_namespace_isolated (r1 r2 : Reader DataProduct) (discovery lineage : Flag)
    (compatibility : option (InputPort → DataProduct → string)) (slot : bool) ctx request w :
  (∀ ctx' key w', key_Namespace key = PathNamespace request → r1 ctx' key w' = r2 ctx' key w') →
  productLineage (mkServer r1 discovery lineage compatibility) slot ctx request w =
  productLineage (mkServer r2 discovery lineage compatibility) slot ctx request w.
Proof.
  intros Hagree. unfold productLineage, lineageAvailable. run_tr. simpl.
  destruct (flag_on discovery ctx w) as [[] w1]; [|done]. simpl.
  destruct (flag_on lineage ctx w1) as [[] w2]; [|done]. simpl.
  destruct compatibility as [f|]; [|done]. simpl.
  destruct (_ || _); [done|]. destruct slot; [|done]. simpl.
  destruct (WithTimeout _ _ w2) as [ctx' w3].
  by rewrite (trace_root_ext _ _ _ Hagree _ (mkServer r2 discovery lineage (Some f))).
Qed.
End Traces.

(** ** Witnesses: a trace of two products *)

#[local] Existing Instance ref_env.
#[local] Existing Instance ref_conditions.
#[local] Existing Instance ref_names.
#[local] Existing Instance ref_versions.

Definition sample_server : server :=
  mkServer ref_get flag_true flag_true (Some DeclaredInputCompatibility).
Definition orders_trace : traceOutcome * lineageWalk * RefWorld :=
  trace_root sample_server DeclaredInputCompatibility tt (mkKey "shop" "orders") sample_world.

Lemma orders_trace_complete : Complete (trace (snd (fst orders_trace))) = true ∧
  fst (fst orders_trace) = Traced (Some "resolved").
Proof. vm_compute. done. Qed.

Lemma trace_bounded_witness :
  length (Trace_Edges (trace (snd (fst orders_trace)))) = 1 ∧
  lw_issues (snd (fst orders_trace)) = ∅.
Proof.
  split; [vm_compute; reflexivity|].
  apply (trace_bounded sample_server DeclaredInputCompatibility tt (mkKey "shop" "orders")
    sample_world (fst (fst orders_trace)) (snd (fst orders_trace)) (snd orders_trace));
    vm_compute; reflexivity.
Defined.

Lemma complete_trace_sound_witness :
  Forall edge_resolved (Trace_Edges (trace (snd (fst orders_trace)))) ∧
  ¬ tc (declares (snd (fst orders_trace))) "shop/orders" "shop/orders".
Proof.
  destruct (complete_trace_sound sample_server DeclaredInputCompatibility tt (mkKey "shop" "orders")
    sample_world (Some "resolved") (snd (fst orders_trace)) (snd orders_trace)) as (_ & _ & _ & H1 & H2).
  - vm_compute. reflexivity.
  - vm_compute. reflexivity.
  - split; [exact H1|apply H2].
Defined.

(** The same cluster without the products of other namespaces. *)
Definition shop_only : Reader DataProduct := λ c k w,
  if key_Namespace k == "shop" then ref_get c k w else (inr ROther, w).

Lemma trace_namespace_isolated_witness :
  productLineage sample_server true tt (mkRequest 0 [] "" "shop" "orders") sample_world =
  productLineage (mkServer shop_only flag_true flag_true (Some DeclaredInputCompatibility)) true tt
    (mkRequest 0 [] "" "shop" "orders") sample_world.
Proof.
  apply trace_namespace_isolated. intros c k w Hk. unfold shop_only. cbn in Hk.
  rewrite bool_decide_true; [reflexivity|exact Hk].
Defined.

(** A chain of two products answers a complete trace; an unknown root answers 404. *)
Example orders_answer :
  match fst (productLineage sample_server true tt (mkRequest 0 [] "" "shop" "orders") sample_world) with
  | Success data => Contains data "complete" | _ => false
  end = true.
Proof. vm_compute. reflexivity. Qed.
Example absent_answer : ∃ text,
  fst (productLineage sample_server true tt (mkRequest 0 [] "" "shop" "absent") sample_world) =
  Failure 404 "trace-root-unavailable" text.
Proof. eexists. vm_compute. reflexivity. Qed.
