(* ===== verification/Sha256.v ===== *)
(** * SHA-256

    [crypto/sha256.Sum256] on byte strings (FIPS 180-4), words as [N] below 2^32, and its hexadecimal
    rendering by the [%x] verb. *)

From Stdlib Require Import Ascii.
From S2P Require Import Prelude.

Definition word_mod : N := 4294967296.
Definition add32 (x y : N) : N := ((x + y) mod word_mod)%N.
Definition rotr (n x : N) : N := N.lor (N.shiftr x n) (N.shiftl x (32 - n) mod word_mod).
Definition not32 (x : N) : N := N.lxor x 4294967295.

Definition big_sigma0 (x : N) : N := N.lxor (rotr 2 x) (N.lxor (rotr 13 x) (rotr 22 x)).
Definition big_sigma1 (x : N) : N := N.lxor (rotr 6 x) (N.lxor (rotr 11 x) (rotr 25 x)).
Definition small_sigma0 (x : N) : N := N.lxor (rotr 7 x) (N.lxor (rotr 18 x) (N.shiftr x 3)).
Definition small_sigma1 (x : N) : N := N.lxor (rotr 17 x) (N.lxor (rotr 19 x) (N.shiftr x 10)).

(** The constants of the standard: the first 32 bits of the fractional parts of the cube roots of the
    first 64 primes, and of the square roots of the first 8. *)
Definition is_prime (n : N) : bool :=
  forallb (λ d, negb (n mod N.of_nat d =? 0)%N) (seq 2 (N.to_nat n - 2)).
Definition primes : list N := filter (λ n, is_prime n = true) (map N.of_nat (seq 2 310)).
Definition cube_root (n : N) : N :=
  foldl (λ r i, let r' := (r + N.shiftl 1 i)%N in if (r' * r' * r' <=? n)%N then r' else r) 0%N
    (map N.of_nat (rev (seq 0 36))).

Definition round_constants : list N :=
  Eval vm_compute in map (λ p, cube_root (N.shiftl p 96) mod word_mod)%N primes.
Definition initial_hash : list N :=
  Eval vm_compute in map (λ p, N.sqrt (N.shiftl p 64) mod word_mod)%N (take 8 primes).

(** The last sixteen words of the schedule, newest last, and the word that follows them. *)
Definition next_word (w : list N) : N :=
  let at_ i := nth i w 0%N in
  add32 (add32 (small_sigma1 (at_ 14)) (at_ 9)) (add32 (small_sigma0 (at_ 1)) (at_ 0)).

(** One round on the working variables. *)
Definition round (v : list N) (k w : N) : list N :=
  match v with
  | [a; b; c; d; e; f; g; h] =>
      let ch := N.lxor (N.land e f) (N.land (not32 e) g) in
      let maj := N.lxor (N.land a b) (N.lxor (N.land a c) (N.land b c)) in
      let t1 := add32 (add32 h (big_sigma1 e)) (add32 ch (add32 k w)) in
      let t2 := add32 (big_sigma0 a) maj in
      [add32 t1 t2; a; b; c; add32 d t1; e; f; g]
  | _ => v
  end.

(** The rounds; the window slides over the schedule. *)
Fixpoint rounds (ks : list N) (window v : list N) : list N :=
  match ks with
  | [] => v
  | k :: ks' =>
      rounds ks' (drop 1 window ++ [next_word window]) (round v k (nth 0 window 0%N))
  end.

Definition word_of (bytes : list N) : N := foldl (λ acc b, acc * 256 + b)%N 0%N bytes.
Fixpoint words (n : nat) (bytes : list N) : list N :=
  match n with
  | O => []
  | S n' => word_of (take 4 bytes) :: words n' (drop 4 bytes)
  end.

Definition compress (hash : list N) (block : list N) : list N :=
  zip_with add32 hash (rounds round_constants (words 16 block) hash).

Fixpoint blocks (n : nat) (bytes : list N) (hash : list N) : list N :=
  match n with
  | O => hash
  | S n' => blocks n' (drop 64 bytes) (compress hash (take 64 bytes))
  end.

(** The low [n] bytes of a number, most significant first. *)
Fixpoint big_endian (n : nat) (x : N) : list N :=
  match n with
  | O => []
  | S n' => big_endian n' (x / 256)%N ++ [(x mod 256)%N]
  end.

Definition pad (bytes : list N) : list N :=
  let zeros := ((55 - Z.of_nat (length bytes)) mod 64)%Z in
  bytes ++ [128%N] ++ replicate (Z.to_nat zeros) 0%N ++
  big_endian 8 (8 * N.of_nat (length bytes))%N.

Definition Sum256 (s : string) : list N :=
  let bytes := pad (map N_of_ascii (String.list_ascii_of_string s)) in
  concat (map (big_endian 4) (blocks (length bytes / 64) bytes initial_hash)).

(** The [%x] verb on bytes. *)
Definition hex_nibble (n : N) : ascii := ascii_of_N (if (n <? 10)%N then n + 48 else n + 87).
Fixpoint hex_bytes (bytes : list N) : string :=
  match bytes with
  | [] => ""
  | b :: bytes' =>
      String.String (hex_nibble (b / 16)) (String.String (hex_nibble (b mod 16)) (hex_bytes bytes'))
  end.

(** The published test vectors. *)
Example sha256_empty : hex_bytes (Sum256 "")
  = "e3b0c44298fc1c149afbf4c8996fb92427ae41e4649b934ca495991b7852b855".
Proof. vm_compute. reflexivity. Qed.
Example sha256_abc : hex_bytes (Sum256 "abc")
  = "ba7816bf8f01cfea414140de5dae2223b00361a396177a9cb410ff61f20015ad".
Proof. vm_compute. reflexivity. Qed.
Example sha256_two_blocks :
  hex_bytes (Sum256 "abcdbcdecdefdefgefghfghighijhijkijkljklmklmnlmnomnopnopq")
  = "248d6a61d20638b8e5c026930c3e6039a33ce45964ff2167f6ecedd419db06c1".
Proof. vm_compute. reflexivity. Qed.
