(* ===== verification/Catalog.v ===== *)
(** * The DCAT catalog

    [internal/catalog/catalog.go]: the bounded read of published products, their validation, and the
    projection to one JSON-LD graph.  A Go error is its text; SHA-256 is [Sha256]. *)

From Stdlib Require Import Ascii.
From S2P Require Import Prelude Kube Api Regex GoJson GoStrings GoUrl Config Descriptor Sha256.

Definition profileAnnotation : string := "data.devantler.tech/dcat-type".
Definition maxProducts : Z := 256.
Definition pageSize : Z := 16.
Definition maxOutputs : Z := 1024.
Definition maxMetadata : Z := 1048576.
Definition maxResponse : Z := 2097152.

(** [urnPattern]. *)
Definition urn_letter : re := RClass alnum.
Definition urnPattern : re :=
  RCat (RStr "urn:") (RCat urn_letter
    (RCat (RUpTo 30 (RClass (λ a, alnum a || Ascii.eqb "-" a)))
      (RCat urn_letter (RCat (RChr ":") (RPlus (RClass (λ a, alnum a || one_of ":._-" a))))))).

(** [unicode.IsControl]. *)
Definition IsControl (r : N) : bool := ((r <? 0x20) || ((0x7F <=? r) && (r <? 0xA0)))%N.

Definition contains_any (s chars : string) : bool := existsb (λ a, has_byte a s) (String.list_ascii_of_string chars).
Definition forbidden_iri : string :=
  String.String backslash ("<>" +:+ quote_byte +:+ "{}|^`").

(** [validIRI]. *)
Definition validIRI (value : string) : bool :=
  if (value == "") || (2048 <? slen value)%Z || negb (ValidString value) ||
     contains_any value forbidden_iri ||
     existsb (λ r, IsSpace r || IsControl r) (runes value)
  then false
  else match Parse value with
  | None => false
  | Some parsed =>
      if User parsed then false
      else if Scheme parsed == "urn" then MatchString urnPattern value
      else if contains_any (RawPath parsed +:+ RawQuery parsed +:+ RawFragment parsed) "[]" then false
      else if HasSuffix (Host parsed) ":" then false
      else
        let port := Port parsed in
        let port_ok :=
          if port != "" then
            match Atoi port with
            | None => false
            | Some number => negb ((number <? 1) || (65535 <? number))%Z
            end
          else true in
        if negb port_ok then false
        else (Scheme parsed == "https") && (Hostname parsed != "") && (Opaque parsed == "")
  end.

(** [validHTTPS]. *)
Definition validHTTPS (value : string) : bool := HasPrefix value "https://" && validIRI value.

(** ** Validation of one product *)

Definition too_large : string :=
  "catalog exceeds the 16-KiB field or 1-MiB metadata limit, or contains invalid UTF-8".

(** The last loop of [validateMetadata]: the size so far, and the error. *)
Fixpoint measure_fields (fields : list string) (size : Z) : option string * Z :=
  match fields with
  | [] => (None, size)
  | value :: fields' =>
      let size := (size + slen value)%Z in
      if (16384 <? slen value)%Z || (maxMetadata <? size)%Z || negb (ValidString value)
      then (Some too_large, size)
      else measure_fields fields' size
  end.

Definition port_fields (port : OutputPort) : list string :=
  [Output_Name port; Output_URL port; Output_ContractURL port; Output_MediaType port].
Definition spec_fields (spec : DataProductSpec) : list string :=
  [ID spec; DisplayName spec; Description spec; Spec_Version spec; Owner_Name (Owner spec);
   Owner_URL (Owner spec); DocumentationURL spec].
Definition optional_link_ok (value : string) : bool := (value == "") || validHTTPS value.
Definition port_ok (port : OutputPort) : bool :=
  (Output_Name port != "") && validHTTPS (Output_URL port) && validHTTPS (Output_ContractURL port).

(** [validateMetadata]: the error and the updated size. *)
Definition validateMetadata (spec : DataProductSpec) (size : Z) : option string * Z :=
  if (DisplayName spec == "") || (Description spec == "") || (Spec_Version spec == "") ||
     (Owner_Name (Owner spec) == "") || (len (Outputs spec) =? 0)%Z ||
     (maxOutputs <? len (Outputs spec))%Z
  then (Some "dataset profile requires identity, title, description, version, owner and bounded named outputs",
        size)
  else if negb (optional_link_ok (Owner_URL (Owner spec)) && optional_link_ok (DocumentationURL spec))
  then (Some "catalog documentation and owner links must be absolute public HTTPS URLs", size)
  else if negb (forallb port_ok (Outputs spec))
  then (Some "catalog outputs require names and absolute public HTTPS endpoint and contract URLs", size)
  else measure_fields (spec_fields spec ++ concat (map port_fields (Outputs spec))) size.

(** [validatePublication]: whether the product is declared, the error and the size. *)
Definition validatePublication (product : DataProduct) (metadata : Z)
  : bool * option string * Z :=
  match Annotations (Meta product) !! profileAnnotation with
  | None => (false, None, metadata)
  | Some profile =>
      if profile != "Dataset" then
        (true, Some "catalog profile must be Dataset; remove the annotation to exclude a product",
         metadata)
      else if negb (validIRI (ID (Spec product))) then
        (true, Some "catalog contains an invalid product identity", metadata)
      else let '(err, metadata) := validateMetadata (Spec product) metadata in (true, err, metadata)
  end.

(** [ValidatePublication]; [None] is a nil error. *)
Definition ValidatePublication (product : DataProduct) : option string :=
  let '(_, err, _) := validatePublication product 0 in err.

(** ** The projected graph *)

(** [reference] is the [@id] of a node. *)
Record publisher := mkPublisher { pub_Type : string; pub_Name : string; pub_Page : option string }.
Record distribution := mkDistribution {
  dist_ID : string;
  dist_Type : string;
  dist_Title : string;
  dist_AccessURL : string;
  dist_AccessService : string;
  dist_Format : string
}.
Record service := mkService {
  svc_ID : string;
  svc_Type : list string;
  svc_Title : string;
  svc_Endpoint : string;
  svc_Contract : string;
  svc_Dataset : string
}.
Record dataset := mkDataset {
  ds_ID : string;
  ds_Type : list string;
  ds_Identifier : string;
  ds_Title : string;
  ds_Description : string;
  ds_Version : string;
  ds_Publisher : publisher;
  ds_LandingPage : option string;
  ds_Distributions : list distribution
}.
Record catalogDocument := mkCatalog {
  cat_Context : list (string * string);
  cat_ID : string;
  cat_Type : string;
  cat_Datasets : list dataset;
  cat_Services : list service
}.

(** [entityID]. *)
Definition entityID (kind product output : string) : string :=
  let tuple := encode (JArray [JString kind; JString product; JString output]) in
  "https://devantler.tech/.well-known/data-product/" +:+ kind +:+ "/" +:+ hex_bytes (Sum256 tuple).

(** [optionalReference]. *)
Definition optionalReference (value : string) : option string :=
  if value == "" then None else Some value.

(** The loop over the sorted ports of one product: its distributions and services so far. *)
Fixpoint project_ports (spec : DataProductSpec) (ports : list OutputPort) (identities : gset string)
    (dists : list distribution) (services : list service)
  : (list distribution * list service * gset string) + string :=
  match ports with
  | [] => inl (dists, services, identities)
  | port :: ports' =>
      let distributionID := entityID "distribution" (ID spec) (Output_Name port) in
      let serviceID := entityID "service" (ID spec) (Output_Name port) in
      if bool_decide (distributionID ∈ identities) || bool_decide (serviceID ∈ identities)
      then inr "catalog contains conflicting output identities"
      else
        project_ports spec ports' ({[serviceID]} ∪ ({[distributionID]} ∪ identities))
          (dists ++ [mkDistribution distributionID "dcat:Distribution" (Output_Name port)
                       (Output_URL port) serviceID (Output_MediaType port)])
          (services ++ [mkService serviceID ["dcat:DataService"; "dcat:Resource"] (Output_Name port)
                          (Output_URL port) (Output_ContractURL port) (ID spec)])
  end.

Definition project_dataset (spec : DataProductSpec) (dists : list distribution) : dataset :=
  mkDataset (ID spec) ["dcat:Dataset"; "dcat:Resource"] (ID spec) (DisplayName spec)
    (Description spec) (Spec_Version spec)
    (mkPublisher "foaf:Agent" (Owner_Name (Owner spec)) (optionalReference (Owner_URL (Owner spec))))
    (optionalReference (DocumentationURL spec)) dists.

(** The loop over the sorted products. *)
Fixpoint project_products (products : list DataProductSpec) (identities : gset string)
    (datasets : list dataset) (services : list service) : (list dataset * list service) + string :=
  match products with
  | [] => inl (datasets, services)
  | spec :: products' =>
      if negb (validIRI (ID spec)) || bool_decide (ID spec ∈ identities)
      then inr "catalog contains an invalid or conflicting product identity"
      else
        match project_ports spec (sort_slice (less_by Output_Name) (Outputs spec))
                ({[ID spec]} ∪ identities) [] services with
        | inr err => inr err
        | inl (dists, services, identities) =>
            project_products products' identities (datasets ++ [project_dataset spec dists]) services
        end
  end.

Definition catalog_context : list (string * string) :=
  [("dcat", "http://www.w3.org/ns/dcat#"); ("dcterms", "http://purl.org/dc/terms/");
   ("foaf", "http://xmlns.com/foaf/0.1/")]%string.

(** [project]. *)
Definition project (id : string) (products : list DataProductSpec) : catalogDocument + string :=
  match project_products (sort_slice (less_by ID) products) {[id]} [] [] with
  | inr err => inr err
  | inl (datasets, services) => inl (mkCatalog catalog_context id "dcat:Catalog" datasets services)
  end.

(** ** JSON of the graph *)

Definition reference_json (id : string) : json := JObject (field "@id" (JString id)).
Definition publisher_json (p : publisher) : json :=
  JObject (field "@type" (JString (pub_Type p)) ++ field "foaf:name" (JString (pub_Name p)) ++
           omit_nil "foaf:page" reference_json (pub_Page p)).
Definition distribution_json (d : distribution) : json :=
  JObject (field "@id" (JString (dist_ID d)) ++ field "@type" (JString (dist_Type d)) ++
           field "dcterms:title" (JString (dist_Title d)) ++
           field "dcat:accessURL" (reference_json (dist_AccessURL d)) ++
           field "dcat:accessService" (reference_json (dist_AccessService d)) ++
           omit_string "dcterms:format" (dist_Format d)).
Definition service_json (s : service) : json :=
  JObject (field "@id" (JString (svc_ID s)) ++ field "@type" (JArray (map JString (svc_Type s))) ++
           field "dcterms:title" (JString (svc_Title s)) ++
           field "dcat:endpointURL" (reference_json (svc_Endpoint s)) ++
           field "dcat:endpointDescription" (reference_json (svc_Contract s)) ++
           field "dcat:servesDataset" (reference_json (svc_Dataset s))).
Definition dataset_json (d : dataset) : json :=
  JObject (field "@id" (JString (ds_ID d)) ++ field "@type" (JArray (map JString (ds_Type d))) ++
           field "dcterms:identifier" (JString (ds_Identifier d)) ++
           field "dcterms:title" (JString (ds_Title d)) ++
           field "dcterms:description" (JString (ds_Description d)) ++
           field "dcat:version" (JString (ds_Version d)) ++
           field "dcterms:publisher" (publisher_json (ds_Publisher d)) ++
           omit_nil "dcat:landingPage" reference_json (ds_LandingPage d) ++
           field "dcat:distribution" (JArray (map distribution_json (ds_Distributions d)))).
Definition catalog_json (c : catalogDocument) : json :=
  JObject (field "@context" (JObject (map (λ e, (fst e, JString (snd e))) (cat_Context c))) ++
           field "@id" (JString (cat_ID c)) ++ field "@type" (JString (cat_Type c)) ++
           field "dcat:dataset" (JArray (map dataset_json (cat_Datasets c))) ++
           field "dcat:service" (JArray (map service_json (cat_Services c)))).

(** ** Reading and serving the catalog *)

Section Serve.
Context `{E : Env}.

(** [client.Reader.List] with a limit and a continuation: the items and the next continuation, or an
    error. *)
Definition ListReader : Type := Ctx → Z → string → ST World (list DataProduct * string + error).

(** The public part of a specification that is kept. *)
Definition published_spec (spec : DataProductSpec) : DataProductSpec :=
  mkSpec (ID spec) (DisplayName spec) (Description spec) (Spec_Version spec) (Owner spec)
    (DocumentationURL spec) [] (Outputs spec) None None None [].

(** The running totals of [readProducts]. *)
Record readState := mkRead {
  rs_products : list DataProductSpec;
  rs_metadata : Z;
  rs_outputs : Z
}.

(** The loop over one page: an error with its status, or the new totals. *)
Fixpoint read_items (items : list DataProduct) (s : readState) : readState + Z * string :=
  match items with
  | [] => inl s
  | product :: items' =>
      match validatePublication product (rs_metadata s) with
      | (_, Some err, _) => inr (422%Z, err)
      | (false, None, metadata) => read_items items' (mkRead (rs_products s) metadata (rs_outputs s))
      | (true, None, metadata) =>
          let outputs := (rs_outputs s + len (Outputs (Spec product)))%Z in
          if (maxOutputs <? outputs)%Z then inr (422%Z, "catalog exceeds the 1,024-output limit")
          else read_items items'
                 (mkRead (rs_products s ++ [published_spec (Spec product)]) metadata outputs)
      end
  end.

(** The loop over the pages; [pages] are left. *)
Fixpoint read_pages (pages : nat) (reader : ListReader) (ctx : Ctx) (continuation : string)
    (scanned : Z) (s : readState) : ST World (list DataProductSpec + Z * string) :=
  match pages with
  | O => mret (inr (413%Z, "catalog exceeds the bounded page scan; no partial catalog is returned"))
  | S pages' =>
      let limit := Z.min pageSize (maxProducts - scanned + 1) in
      r ← reader ctx limit continuation;
      let unavailable :=
        mret (inr (503%Z, "unable to read the catalog. Retry after the product API recovers")) in
      match r with
      | inr _ => unavailable
      | inl (items, next) =>
          err ← Err ctx;
          if non_nil err then unavailable
          else
            let scanned := (scanned + len items)%Z in
            if (limit <? len items)%Z || (maxProducts <? scanned)%Z then
              mret (inr (413%Z,
                "catalog exceeds the 256-product scan limit; no partial catalog is returned"))
            else match read_items items s with
            | inr failure => mret (inr failure)
            | inl s =>
                if next == "" then mret (inl (rs_products s))
                else read_pages pages' reader ctx next scanned s
            end
      end
  end.

(** [readProducts]: [page <= maxProducts/pageSize] allows 17 pages. *)
Definition readProducts (reader : ListReader) (ctx : Ctx)
  : ST World (list DataProductSpec + Z * string) :=
  read_pages (Z.to_nat (maxProducts / pageSize) + 1) reader ctx "" 0 (mkRead [] 0 0).

(** An HTTP response: not found, an error text with its status and whether a retry is advised, or the
    document. *)
Inductive catalogResponse :=
  | CatalogNotFound
  | CatalogError (status : Z) (text : string) (retry : bool)
  | CatalogBody (body : string).

(** [NewHandler] rejects an invalid identity. *)
Definition NewHandler (id : string) : option string :=
  if (id != "") && negb (validIRI id) then
    Some "DCAT_CATALOG_ID must be an absolute HTTPS or URN identifier without credentials or whitespace"
  else None.

(** The part of the handler that holds the slot. *)
Definition serve_document (reader : ListReader) (id : string) (ctx : Ctx)
  : ST World catalogResponse :=
  ctx' ← WithTimeout ctx (5 * Second);
  r ← readProducts reader ctx';
  match r with
  | inr (status, text) => mret (CatalogError status text false)
  | inl products =>
      match project id products with
      | inr text => mret (CatalogError 422 text false)
      | inl document =>
          let body := encode (catalog_json document) in
          if (maxResponse <? slen body + 1)%Z then
            mret (CatalogError 413
              "Catalog exceeds the 2-MiB response limit; no partial catalog is returned." false)
          else mret (CatalogBody (body +:+ String.String (ascii_of_N 10) ""))
      end
  end.

(** The handler; [free] tells whether the only slot was free when the request asked for it. *)
Definition catalog_handler (reader : ListReader) (id : string) (enabled : Flag) (free : bool)
    (ctx : Ctx) : ST World catalogResponse :=
  on ← flag_on enabled ctx;
  if negb on then mret CatalogNotFound
  else if id == "" then
    mret (CatalogError 503 "Configure DCAT_CATALOG_ID before enabling the catalog." false)
  else if negb free then mret (CatalogError 503 "Catalog is busy. Retry shortly." true)
  else serve_document reader id ctx.
End Serve.
