(* ===== verification/CatalogSpec.v ===== *)
(** * The DCAT catalog: what is guaranteed

    The projection is exact: it succeeds precisely when all node identities are valid and distinct, and
    then it is the documented graph.  A served catalog covers one complete inventory within every
    limit. *)

From Stdlib Require Import Ascii.
From S2P Require Import Prelude Kube Api Regex GoJson GoStrings GoUrl Config Descriptor Sha256 Reference Catalog.

(** ** The projection in closed form *)

Definition distribution_id (spec : DataProductSpec) (port : OutputPort) : string :=
  entityID "distribution" (ID spec) (Output_Name port).
Definition service_id (spec : DataProductSpec) (port : OutputPort) : string :=
  entityID "service" (ID spec) (Output_Name port).
Definition port_distribution (spec : DataProductSpec) (port : OutputPort) : distribution :=
  mkDistribution (distribution_id spec port) "dcat:Distribution" (Output_Name port) (Output_URL port)
    (service_id spec port) (Output_MediaType port).
Definition port_service (spec : DataProductSpec) (port : OutputPort) : service :=
  mkService (service_id spec port) ["dcat:DataService"; "dcat:Resource"]%string (Output_Name port)
    (Output_URL port) (Output_ContractURL port) (ID spec).

Definition sorted_ports (spec : DataProductSpec) : list OutputPort :=
  sort_slice (less_by Output_Name) (Outputs spec).
Definition dataset_of (spec : DataProductSpec) : dataset :=
  project_dataset spec (map (port_distribution spec) (sorted_ports spec)).
Definition catalog_of (id : string) (products : list DataProductSpec) : catalogDocument :=
  let sorted := sort_slice (less_by ID) products in
  mkCatalog catalog_context id "dcat:Catalog" (map dataset_of sorted)
    (concat (map (λ spec, map (port_service spec) (sorted_ports spec)) sorted)).

(** Every [@id] of the graph. *)
Definition node_ids (c : catalogDocument) : list string :=
  cat_ID c :: concat (map (λ d, ds_ID d :: map dist_ID (ds_Distributions d)) (cat_Datasets c)) ++
  map svc_ID (cat_Services c).

Definition port_ids (spec : DataProductSpec) (ports : list OutputPort) : list string :=
  concat (map (λ port, [distribution_id spec port; service_id spec port]) ports).
Definition product_ids (spec : DataProductSpec) : list string :=
  ID spec :: port_ids spec (sorted_ports spec).

Lemma distribution_service_ne spec port spec' port' :
  distribution_id spec port ≠ service_id spec' port'.
Proof.
  unfold distribution_id, service_id, entityID. generalize (hex_bytes (Sum256
    (encode (JArray [JString "distribution"; JString (ID spec); JString (Output_Name port)])))).
  generalize (hex_bytes (Sum256
    (encode (JArray [JString "service"; JString (ID spec'); JString (Output_Name port')])))).
  intros s t H. apply str_app_inj_r in H. discriminate H.
Qed.

(** The loops accept exactly fresh, distinct identities. *)
Definition fresh (ids : list string) (seen : gset string) : Prop :=
  NoDup ids ∧ ∀ x, x ∈ ids → x ∉ seen.

Lemma fresh_cons x ids seen : fresh (x :: ids) seen ↔ (x ∉ seen) ∧ fresh ids ({[x]} ∪ seen).
Proof.
  unfold fresh. rewrite list.NoDup_cons. split.
  - intros [[H1 H2] H3]. split_and!; auto; [apply H3; by left|]. intros y Hy.
    apply not_elem_of_union. split; [set_solver|apply H3; by right].
  - intros (H1 & H2 & H3). split_and!; auto.
    + intros Hx. apply (H3 x Hx). set_solver.
    + intros y [->|Hy]%elem_of_cons; [done|]. specialize (H3 y Hy). set_solver.
Qed.

Lemma fresh_app ids ids' seen :
  fresh (ids ++ ids') seen ↔ fresh ids seen ∧ fresh ids' (list_to_set ids ∪ seen).
Proof.
  revert seen. induction ids as [|x ids IH]; intros seen; cbn [app list_to_set].
  - rewrite union_empty_l_L. split; [|by intros []]. intros H. split; [|done].
    split; [constructor|]. by intros ? ?%elem_of_nil.
  - rewrite !fresh_cons, IH.
    replace (({[x]} ∪ list_to_set ids) ∪ seen) with (list_to_set ids ∪ ({[x]} ∪ seen) : gset string)
      by set_solver. tauto.
Qed.

Lemma project_ports_spec spec ports : ∀ seen dists services,
  match project_ports spec ports seen dists services with
  | inl (dists', services', seen') =>
      fresh (port_ids spec ports) seen ∧ dists' = dists ++ map (port_distribution spec) ports ∧
      services' = services ++ map (port_service spec) ports ∧
      seen' = list_to_set (port_ids spec ports) ∪ seen
  | inr _ => ¬ fresh (port_ids spec ports) seen
  end.
Proof.
  induction ports as [|port ports IH]; intros seen dists services; cbn [project_ports].
  - rewrite !app_nil_r. split_and!; auto; [|set_solver]. split; [constructor|]. by intros ? ?%elem_of_nil.
  - fold (distribution_id spec port) (service_id spec port).
    assert (fresh (port_ids spec (port :: ports)) seen ↔ (distribution_id spec port ∉ seen) ∧
      (service_id spec port ∉ {[distribution_id spec port]} ∪ seen) ∧ fresh (port_ids spec ports)
        ({[service_id spec port]} ∪ ({[distribution_id spec port]} ∪ seen))) as Hf.
    { change (port_ids spec (port :: ports)) with
        (distribution_id spec port :: service_id spec port :: port_ids spec ports).
      by rewrite !fresh_cons. }
    destruct (bool_decide (distribution_id spec port ∈ seen)) eqn:H1; go_bool; cbn [orb]; [tauto|].
    destruct (bool_decide (service_id spec port ∈ seen)) eqn:H2; go_bool; cbn [orb].
    { rewrite Hf. intros (_ & H & _). set_solver. }
    specialize (IH ({[service_id spec port]} ∪ ({[distribution_id spec port]} ∪ seen))
      (dists ++ [port_distribution spec port]) (services ++ [port_service spec port])).
    destruct (project_ports spec ports _ _ _) as [[[d s] i]|err]; [|tauto].
    destruct IH as (F & -> & -> & ->). rewrite <- !app_assoc. split_and!; auto; [|set_solver].
    apply Hf. split_and!; auto. apply not_elem_of_union. split; [|done].
    intros Hx%elem_of_singleton. by apply (distribution_service_ne spec port spec port).
Qed.

Lemma project_products_spec products : ∀ seen datasets services,
  match project_products products seen datasets services with
  | inl (datasets', services') =>
      Forall (λ spec, validIRI (ID spec) = true) products ∧
      fresh (concat (map product_ids products)) seen ∧
      datasets' = datasets ++ map dataset_of products ∧
      services' = services ++
        concat (map (λ spec, map (port_service spec) (sorted_ports spec)) products)
  | inr _ => ¬ (Forall (λ spec, validIRI (ID spec) = true) products ∧
      fresh (concat (map product_ids products)) seen)
  end.
Proof.
  induction products as [|spec products IH]; intros seen datasets services; cbn [project_products].
  - rewrite !app_nil_r. split_and!; auto. split; [constructor|]. by intros ? ?%elem_of_nil.
  - assert (Forall (λ spec, validIRI (ID spec) = true) (spec :: products) ∧
        fresh (concat (map product_ids (spec :: products))) seen ↔
      (validIRI (ID spec) = true ∧ Forall (λ spec, validIRI (ID spec) = true) products) ∧
      (ID spec ∉ seen) ∧ fresh (port_ids spec (sorted_ports spec)) ({[ID spec]} ∪ seen) ∧
      fresh (concat (map product_ids products))
        (list_to_set (port_ids spec (sorted_ports spec)) ∪ ({[ID spec]} ∪ seen))) as Hf.
    { rewrite Forall_cons_iff. cbn [map concat]. unfold product_ids at 1.
      change ((ID spec :: ?a) ++ ?b) with (ID spec :: a ++ b). by rewrite fresh_cons, fresh_app. }
    destruct (negb (validIRI (ID spec))) eqn:Hv; go_bool; cbn [orb]; [rewrite Hf, Hv; by intros [[] _]|].
    destruct (bool_decide (ID spec ∈ seen)) eqn:Hs; go_bool; cbn [orb]; [tauto|].
    pose proof (project_ports_spec spec (sorted_ports spec) ({[ID spec]} ∪ seen) [] services) as Hp.
    unfold sorted_ports at 1 in Hp.
    destruct (project_ports spec _ _ _ _) as [[[d s] i]|err]; [|tauto].
    destruct Hp as (F & -> & -> & ->). fold (dataset_of spec).
    specialize (IH (list_to_set (port_ids spec (sorted_ports spec)) ∪ ({[ID spec]} ∪ seen))
      (datasets ++ [dataset_of spec]) (services ++ map (port_service spec) (sorted_ports spec))).
    destruct (project_products products _ _ _) as [[ds ss]|err]; [|tauto].
    destruct IH as (V & Fr & -> & ->). rewrite <- !app_assoc. split_and!; auto; tauto.
Qed.

Lemma port_ids_perm spec ports :
  port_ids spec ports ≡ₚ map dist_ID (map (port_distribution spec) ports) ++
    map svc_ID (map (port_service spec) ports).
Proof.
  induction ports as [|port ports IH]; [done|].
  change (port_ids spec (port :: ports)) with
    (distribution_id spec port :: service_id spec port :: port_ids spec ports).
  cbn [map app]. apply Permutation_skip. rewrite IH. apply Permutation_middle.
Qed.

Lemma node_ids_perm id products :
  node_ids (catalog_of id products) ≡ₚ
  id :: concat (map product_ids (sort_slice (less_by ID) products)).
Proof.
  unfold node_ids, catalog_of. cbn [cat_ID cat_Datasets cat_Services]. apply Permutation_skip.
  induction (sort_slice (less_by ID) products) as [|spec l IH]; [done|].
  cbn [map concat]. rewrite map_app, <- IH. unfold product_ids, dataset_of at 1 2.
  cbn [ds_ID ds_Distributions project_dataset]. rewrite port_ids_perm. cbn [app].
  apply Permutation_skip. rewrite <- !app_assoc. apply Permutation_app_head.
  rewrite !app_assoc. apply Permutation_app_tail, Permutation_app_comm.
Qed.

Lemma project_closed id products :
  match project id products with
  | inl c => c = catalog_of id products ∧ NoDup (node_ids c) ∧
      Forall (λ spec, validIRI (ID spec) = true) products
  | inr _ => ¬ (NoDup (node_ids (catalog_of id products)) ∧
      Forall (λ spec, validIRI (ID spec) = true) products)
  end.
Proof.
  unfold project.
  pose proof (project_products_spec (sort_slice (less_by ID) products) {[id]} [] []) as H.
  set (valid := Forall (λ spec, validIRI (ID spec) = true) products).
  assert (Forall (λ spec, validIRI (ID spec) = true) (sort_slice (less_by ID) products) ↔ valid) as Hv
    by (by rewrite sort_slice_perm).
  assert (fresh (concat (map product_ids (sort_slice (less_by ID) products))) {[id]} ↔
    NoDup (node_ids (catalog_of id products))) as Hf.
  { rewrite node_ids_perm, list.NoDup_cons. unfold fresh. split.
    - intros [H1 H2]. split; [|done]. intros Hid. apply (H2 id Hid). set_solver.
    - intros [H1 H2]. split; [done|]. intros x Hx E%elem_of_singleton. by subst. }
  destruct (project_products _ _ _ _) as [[ds ss]|err].
  - destruct H as (H1 & H2 & -> & ->). split; [done|]. split; [by apply Hf|by apply Hv].
  - by rewrite <- Hv, <- Hf, (and_comm (fresh _ _)).
Qed.

(** Every reference between the nodes of a projected graph leads to the node it means. *)
Lemma catalog_of_linked id products :
  let c := catalog_of id products in
  (∀ d dist, d ∈ cat_Datasets c → dist ∈ ds_Distributions d →
    ∃ s, s ∈ cat_Services c ∧ svc_ID s = dist_AccessService dist ∧ svc_Dataset s = ds_ID d ∧
         svc_Title s = dist_Title dist ∧ svc_Endpoint s = dist_AccessURL dist) ∧
  (∀ s, s ∈ cat_Services c → ∃ d, d ∈ cat_Datasets c ∧ ds_ID d = svc_Dataset s).
Proof.
  cbn [cat_Datasets cat_Services catalog_of]. set (sorted := sort_slice (less_by ID) products). split.
  - intros d dist (spec & -> & Hs)%list_elem_of_fmap (port & -> & Hp)%list_elem_of_fmap.
    exists (port_service spec port). split_and!; auto. apply list_elem_of_In, in_concat.
    exists (map (port_service spec) (sorted_ports spec)).
    split; apply list_elem_of_In; apply list_elem_of_fmap; eauto.
  - intros s Hs. apply list_elem_of_In, in_concat in Hs as (l & Hl & Hs).
    apply list_elem_of_In, list_elem_of_fmap in Hl as (spec & -> & Hspec).
    apply list_elem_of_In, list_elem_of_fmap in Hs as (port & -> & _).
    exists (dataset_of spec). split; [by apply list_elem_of_fmap_2|done].
Qed.

(** ** Complete inventories *)

Section Inventory.
Context `{E : Env} (reader : ListReader) (ctx : Ctx).

(** [inventory cont scanned items]: from the continuation, some sequence of successful pages, each
    within its limit, delivers [items] and ends the list. *)
Inductive inventory : string → Z → list DataProduct → Prop :=
  | inventory_last cont scanned items w :
      fst (reader ctx (Z.min pageSize (maxProducts - scanned + 1)) cont w) = inl (items, "") →
      inventory cont scanned items
  | inventory_page cont scanned items next rest w :
      fst (reader ctx (Z.min pageSize (maxProducts - scanned + 1)) cont w) = inl (items, next) →
      next ≠ "" → inventory next (scanned + len items) rest →
      inventory cont scanned (items ++ rest).

(** A product with the publication annotation. *)
Definition declared (product : DataProduct) : bool :=
  non_nil (Annotations (Meta product) !! profileAnnotation).
Definition published (items : list DataProduct) : list DataProductSpec :=
  map (λ p, published_spec (Spec p)) (List.filter declared items).

(** The declared profile of one product, without the shared budget. *)
Record spec_ok (spec : DataProductSpec) : Prop := {
  so_id : validIRI (ID spec) = true;
  so_title : DisplayName spec ≠ "";
  so_description : Description spec ≠ "";
  so_version : Spec_Version spec ≠ "";
  so_owner : Owner_Name (Owner spec) ≠ "";
  so_links : optional_link_ok (Owner_URL (Owner spec)) = true ∧
             optional_link_ok (DocumentationURL spec) = true;
  so_outputs : Outputs spec ≠ [];
  so_ports : forallb port_ok (Outputs spec) = true;
  so_fields : Forall (λ v, ValidString v = true ∧ (slen v ≤ 16384)%Z)
    (spec_fields spec ++ concat (map port_fields (Outputs spec)))
}.
Definition profile_ok (product : DataProduct) : Prop :=
  declared product = true →
  Annotations (Meta product) !! profileAnnotation = Some "Dataset" ∧ spec_ok (Spec product).

Definition metadata_size (spec : DataProductSpec) : Z :=
  foldr Z.add 0%Z (map slen (spec_fields spec ++ concat (map port_fields (Outputs spec)))).
Definition total_metadata (specs : list DataProductSpec) : Z := foldr Z.add 0%Z (map metadata_size specs).
Definition total_outputs (specs : list DataProductSpec) : Z :=
  foldr Z.add 0%Z (map (λ s, len (Outputs s)) specs).

Lemma measure_fields_ok fields : ∀ size size', measure_fields fields size = (None, size') →
  Forall (λ v, ValidString v = true ∧ (slen v ≤ 16384)%Z) fields ∧
  size' = (size + foldr Z.add 0 (map slen fields))%Z ∧ (fields ≠ [] → (size' ≤ maxMetadata)%Z).
Proof.
  induction fields as [|v fields IH]; intros size size'; cbn [measure_fields].
  - intros [= <-]. cbn. split_and!; [constructor|lia|done].
  - destruct (_ || _) eqn:Hb; [done|]. go_bool. destruct Hb as [[H1 H2] H3].
    intros (F & -> & Hle)%IH. cbn [map foldr]. split_and!; [by constructor|lia|].
    intros _. destruct fields as [|v' fields]; [cbn; lia|]. by apply Hle.
Qed.

Lemma validatePublication_ok product size size' b :
  validatePublication product size = (b, None, size') →
  b = declared product ∧ profile_ok product ∧
  (if b then size' = size + metadata_size (Spec product) ∧ size' ≤ maxMetadata
   else size' = size)%Z.
Proof.
  unfold validatePublication, profile_ok, declared.
  destruct (Annotations (Meta product) !! profileAnnotation) as [profile|]; [|by intros [= <- <-]].
  destruct (profile != "Dataset") eqn:Hp; [done|].
  destruct (negb (validIRI (ID (Spec product)))) eqn:Hi; [done|].
  unfold validateMetadata. destruct (_ || _) eqn:H0; [done|].
  destruct (negb (_ && _)) eqn:Hlinks; [done|]. destruct (negb (forallb _ _)) eqn:Hports; [done|].
  destruct (measure_fields _ size) as [err sz] eqn:Hm. intros [= <- -> <-].
  apply measure_fields_ok in Hm as (F & -> & Hle). go_bool. destruct H0 as [[[[[H1 H2] H3] H4] H5] _].
  split; [done|]. split.
  - intros _. subst profile. split; [done|]. constructor; auto. intros Ho. by rewrite Ho in H5.
  - split; [done|]. apply Hle. done.
Qed.

Lemma read_items_ok items : ∀ s s', read_items items s = inl s' →
  Forall profile_ok items ∧ rs_products s' = rs_products s ++ published items ∧
  rs_outputs s' = (rs_outputs s + total_outputs (published items))%Z ∧
  rs_metadata s' = (rs_metadata s + total_metadata (published items))%Z ∧
  ((rs_outputs s ≤ maxOutputs)%Z → (rs_outputs s' ≤ maxOutputs)%Z) ∧
  ((rs_metadata s ≤ maxMetadata)%Z → (rs_metadata s' ≤ maxMetadata)%Z).
Proof.
  induction items as [|p items IH]; intros s s'; cbn [read_items].
  - intros [= <-]. unfold published, total_outputs, total_metadata. cbn. rewrite app_nil_r.
    split_and!; [constructor|done|lia|lia|done|done].
  - destruct (validatePublication p (rs_metadata s)) as [[b [err|]] size] eqn:Hv.
    { by destruct b. }
    apply validatePublication_ok in Hv as (-> & Hp & Hsize).
    unfold published. cbn [List.filter]. destruct (declared p) eqn:Hd.
    + destruct (maxOutputs <? _)%Z eqn:Ho; [done|]. go_bool. destruct Hsize as [-> Hm].
      intros (F & H1 & H2 & H3 & H4 & H5)%IH. cbn [rs_products rs_outputs rs_metadata] in H1, H2, H3, H4, H5.
      fold (published items). cbn [map]. fold (published items).
      unfold total_outputs, total_metadata in *. cbn [map foldr].
      split_and!; [by constructor|by rewrite H1, <- app_assoc|..].
      * rewrite H2. change (Outputs (published_spec (Spec p))) with (Outputs (Spec p)). lia.
      * rewrite H3. change (metadata_size (published_spec (Spec p))) with (metadata_size (Spec p)). lia.
      * intros _. apply H4. lia.
      * intros _. apply H5. lia.
    + subst size. intros (F & H)%IH. split; [by constructor|exact H].
Qed.

Lemma read_pages_ok pages : ∀ cont scanned s w products w',
  read_pages pages reader ctx cont scanned s w = (inl products, w') →
  ∃ items, inventory cont scanned items ∧ (scanned + len items ≤ maxProducts)%Z ∧
    Forall profile_ok items ∧ products = rs_products s ++ published items ∧
    ((rs_outputs s ≤ maxOutputs)%Z → (rs_outputs s + total_outputs (published items) ≤ maxOutputs)%Z) ∧
    ((rs_metadata s ≤ maxMetadata)%Z →
     (rs_metadata s + total_metadata (published items) ≤ maxMetadata)%Z).
Proof.
  induction pages as [|pages IH]; intros cont scanned s w products w'; cbn [read_pages]; [done|].
  unfold mbind, st_bind.
  destruct (reader ctx _ cont w) as [[[items next]|e] w1] eqn:Hr; [|done].
  destruct (Err ctx w1) as [err w2]. destruct (non_nil err); [done|].
  destruct (_ || _) eqn:Hlim; [done|]. go_bool. destruct Hlim as [Hl1 Hl2].
  destruct (read_items items s) as [s1|] eqn:Hi; [|done].
  apply read_items_ok in Hi as (F & H1 & H2 & H3 & H4 & H5).
  destruct (next == "") eqn:Hn.
  - go_bool. subst next. intros [= <- _]. exists items.
    split_and!; auto; [|lia..].
    econstructor. by rewrite Hr.
  - go_bool. intros (rest & I1 & I2 & I3 & -> & I5 & I6)%IH. exists (items ++ rest).
    rewrite len_app. unfold published, total_outputs, total_metadata in *.
    rewrite filter_app, !map_app, !foldr_app.
    split_and!.
    + eapply inventory_page; [by rewrite Hr|done|done].
    + lia.
    + by apply Forall_app_2.
    + by rewrite H1, <- app_assoc.
    + intros Hx. rewrite foldr_add_init. specialize (I5 (H4 Hx)). lia.
    + intros Hx. rewrite foldr_add_init. specialize (I6 (H5 Hx)). lia.
Qed.
End Inventory.

Lemma published_ok items : Forall profile_ok items → Forall spec_ok (published items).
Proof.
  intros H. rewrite list.Forall_forall in H. apply list.Forall_forall.
  intros spec (p & -> & Hp)%list_elem_of_fmap. apply list_elem_of_In, filter_In in Hp as [Hp Hd].
  apply list_elem_of_In in Hp. destruct (H p Hp Hd) as [_ []]. by constructor.
Qed.

Lemma published_length items : (len (published items) <= len items)%Z.
Proof.
  unfold published, len. rewrite length_map. pose proof (List.filter_length_le declared items). lia.
Qed.

Lemma slen_newline s : slen (s +:+ String.String (ascii_of_N 10) "") = (slen s + 1)%Z.
Proof. apply slen_app. Qed.

(** What is behind a body. *)
Lemma catalog_body `{E : Env} reader id enabled free ctx w body w' :
  catalog_handler reader id enabled free ctx w = (CatalogBody body, w') →
  free = true ∧ id ≠ "" ∧ ∃ ctx' items,
    inventory reader ctx' "" 0 items ∧ (len items ≤ 256)%Z ∧ Forall profile_ok items ∧
    (total_outputs (published items) ≤ 1024)%Z ∧ (total_metadata (published items) ≤ 1048576)%Z ∧
    let c := catalog_of id (published items) in
    project id (published items) = inl c ∧
    body = encode (catalog_json c) +:+ String.String (ascii_of_N 10) "" ∧ (slen body ≤ 2097152)%Z ∧
    NoDup (node_ids c).
Proof.
  intros Hserved.
  unfold catalog_handler, mbind, st_bind in Hserved. destruct (flag_on enabled ctx w) as [[] w1]; [|done].
  cbn [negb] in Hserved. case_bool_decide as Hid; [done|]. destruct free; [|done]. cbn [negb] in Hserved.
  split; [done|]. split; [done|].
  unfold serve_document, mbind, st_bind in Hserved.
  destruct (WithTimeout ctx (5 * Second) w1) as [ctx' w2].
  destruct (readProducts reader ctx' w2) as [[products|[status text]] w3] eqn:Hread; [|done].
  pose proof (project_closed id products) as Hproj.
  destruct (project id products) as [c|] eqn:Hc; [|done]. destruct Hproj as (-> & Hnd & _).
  destruct (maxResponse <? _)%Z eqn:Hlen; [done|]. go_bool. rewrite <- slen_newline in Hlen. injection Hserved as <- _.
  apply read_pages_ok in Hread as (items & Hinv & Hn & Hok & -> & Ho & Hm).
  cbn [rs_products rs_outputs rs_metadata app] in *. exists ctx', items.
  split; [exact Hinv|]. split; [exact Hn|]. split; [exact Hok|]. split; [exact (Ho ltac:(done))|].
  split; [exact (Hm ltac:(done))|]. cbv zeta. split; [exact Hc|]. split; [done|].
  split; [exact Hlen|]. exact Hnd.
Qed.

(** C33: a served catalog is complete, unambiguous and bounded.  A body is written only while the one
    slot is held; it encodes the graph of every annotated product of one whole paged inventory of at
    most 256 products, all of which satisfy the dataset profile, with at most 1024 outputs and 1 MiB of
    metadata, in at most 2 MiB; all node identities are distinct, every distribution leads to its
    service and every service to its dataset.  Anything else, an ambiguous identity included, is an
    error without a partial catalog. *)
Theorem catalog_served `{E : Env} reader id enabled free ctx w body w'
    (Hserved : catalog_handler reader id enabled free ctx w = (CatalogBody body, w')) :
  free = true ∧ id ≠ "" ∧ ∃ ctx' items,
    inventory reader ctx' "" 0 items ∧ (len items ≤ 256)%Z ∧ Forall profile_ok items ∧
    (total_outputs (published items) ≤ 1024)%Z ∧ (total_metadata (published items) ≤ 1048576)%Z ∧
    let c := catalog_of id (published items) in
    project id (published items) = inl c ∧
    body = encode (catalog_json c) +:+ String.String (ascii_of_N 10) "" ∧ (slen body ≤ 2097152)%Z ∧
    NoDup (node_ids c) ∧
    (∀ d dist, d ∈ cat_Datasets c → dist ∈ ds_Distributions d →
      ∃ s, s ∈ cat_Services c ∧ svc_ID s = dist_AccessService dist ∧ svc_Dataset s = ds_ID d ∧
           svc_Title s = dist_Title dist ∧ svc_Endpoint s = dist_AccessURL dist) ∧
    (∀ s, s ∈ cat_Services c → ∃ d, d ∈ cat_Datasets c ∧ ds_ID d = svc_Dataset s).
Proof.
  destruct (catalog_body _ _ _ _ _ _ _ _ Hserved)
    as (Hf & Hid & ctx' & items & H1 & H2 & H3 & H4 & H5 & H6 & H7 & H8 & H9).
  split; [exact Hf|]. split; [exact Hid|]. exists ctx', items.
  repeat (split; [assumption|]). apply catalog_of_linked.
Qed.

#[local] Existing Instance ref_env.

(** A catalog of one published product with two outputs, and one that is not published. *)
Definition sample_dataset : DataProduct :=
  mkProduct
    (mkObjectMeta "users" "shop" 1 None {[profileAnnotation := "Dataset"%string]})
    (mkSpec "urn:example:users" "Users" "All users." "v1.0.0" (mkProductOwner "Team" "")
       "https://docs.example/users" []
       [mkOutputPort "bulk" ProtocolArrowFlight "https://api.example/bulk"
          "https://api.example/bulk/contract" "";
        mkOutputPort "api" ProtocolOpenAPI "https://api.example/users" "https://api.example/contract"
          "application/json"]
       None None None []) (mkStatus 0 [] []).
Definition sample_list : ListReader := λ _ _ _ w, (inl ([sample_users; sample_dataset], ""), w).
Definition sample_catalog : catalogResponse * RefWorld :=
  catalog_handler sample_list "https://catalog.example/" flag_true true tt sample_world.
Definition sample_body : string :=
  match fst sample_catalog with CatalogBody body => body | _ => "" end.

Lemma catalog_served_witness :
  project "https://catalog.example/" (published [sample_users; sample_dataset]) =
    inl (catalog_of "https://catalog.example/" (published [sample_users; sample_dataset])) ∧
  len (node_ids (catalog_of "https://catalog.example/" (published [sample_users; sample_dataset]))) = 6%Z ∧
  ∃ ctx' items, inventory sample_list ctx' "" 0 items ∧
    NoDup (node_ids (catalog_of "https://catalog.example/" (published items))).
Proof.
  split; [vm_compute; reflexivity|]. split; [vm_compute; reflexivity|].
  assert (catalog_handler sample_list "https://catalog.example/" flag_true true tt sample_world =
          (CatalogBody sample_body, snd sample_catalog)) as H by (vm_compute; reflexivity).
  destruct (catalog_served sample_list _ _ _ _ _ _ _ H)
    as (_ & _ & ctx' & items & Hinv & _ & _ & _ & _ & _ & _ & _ & Hnd & _).
  exists ctx', items. split; [exact Hinv|exact Hnd].
Defined.
