(* ===== verification/Report.v ===== *)
(** * Preflight reports

    The data of [internal/preflight]: positions, documents and the two report versions, and the
    operations that add findings ([report.go] and the end of [check.go]).  Every finding is counted;
    at most 128 are displayed; texts are fixed and contain no submitted value. *)

From Stdlib Require Import Ascii.
From S2P Require Import Prelude Kube Api GoStrings GoUrl.

(** [Position]; the unexported [path] carries the schema path of an unknown field. *)
Record Position := mkPosition {
  Pos_Source : Z;
  Pos_Document : Z;
  Pos_Line : Z;
  Pos_Column : Z;
  Pos_path : string
}.
Definition no_position : Position := mkPosition 0 0 0 0 "".

Record SourceSummary := mkSummary {
  Summary_Source : Z;
  Summary_Documents : Z;
  Summary_Products : Z
}.

Record WitnessStep := mkStep {
  Step_Source : Z;
  Step_Document : Z;
  Step_Path : string
}.
#[export] Instance WitnessStep_eq_dec : EqDecision WitnessStep.
Proof. solve_decision. Defined.

Record BundleDiagnostic := mkBundleDiagnostic {
  BD_Position : Position;
  BD_Severity : string;
  BD_Code : string;
  BD_Path : string;
  BD_Message : string;
  BD_Witness : list WitnessStep;
  BD_WitnessTruncated : bool
}.

Record DiagnosticCounts := mkCounts {
  Total : Z;
  ErrorCount : Z;
  Warnings : Z;
  Omitted : Z
}.

Record ProductFeatures := mkProductFeatures {
  PF_Source : Z;
  PF_Document : Z;
  PF_RequiredFeatures : list string
}.

Record PlanProduct := mkPlanProduct {
  PP_Key : string;
  PP_Source : Z;
  PP_Document : Z
}.

Record PlanEdge := mkPlanEdge {
  PE_Consumer : string;
  PE_Producer : string;
  PE_Input : string;
  PE_InputIndex : Z;
  PE_Output : string;
  PE_Source : Z;
  PE_Document : Z
}.

Record ReviewPlan := mkPlan {
  Plan_Order : list PlanProduct;
  Plan_Edges : list PlanEdge
}.

(** [document]: the typed product, the decoded object it came from and where its fields are. *)
Record document := mkDocument {
  doc_product : DataProduct;
  doc_object : list (string * any);
  doc_origin : Position;
  doc_fields : gmap string Position
}.

(** [Diagnostic] of the first report version. *)
Record Diagnostic := mkDiagnostic {
  D_Document : Z;
  D_Severity : string;
  D_Code : string;
  D_Path : string;
  D_Message : string
}.

(** [Report]; descriptors are encoded JSON. *)
Record Report := mkReport {
  Valid : bool;
  Report_Complete : bool;
  Products : Z;
  RequiredFeatures : list string;
  Diagnostics : list Diagnostic;
  Descriptors : list string;
  documents : list document;
  report_sources : list SourceSummary;
  details : list BundleDiagnostic;
  counts : DiagnosticCounts;
  failure : Position;
  productFeatures : list ProductFeatures;
  report_plan : option ReviewPlan;
  apiOnly : bool
}.

(** The report before anything is checked. *)
Definition new_report (api_only : bool) : Report :=
  mkReport true true 0 [] [] [] [] [] [] (mkCounts 0 0 0 0) no_position [] None api_only.

(** ** Texts *)

Definition message_table : list (string * string) :=
  [("NoProducts", "Provide at least one DataProduct document.");
   ("SourceLimit", "Select at most 32 local input files.");
   ("DocumentLimit", "The selection exceeds 4096 physical documents.");
   ("ReadFailed", "The selected input could not be read.");
   ("InputLimit", "The selected inputs exceed 2 MiB in total.");
   ("ProductLimit", "The bundle exceeds 256 products.");
   ("DepthLimit", "The document exceeds 64 nesting levels.");
   ("InvalidDocument",
    "Use unambiguous YAML or JSON without aliases, duplicate keys or trailing content.");
   ("UnsupportedResource", "Use data.devantler.tech/v1alpha1 DataProduct documents only.");
   ("UnknownField", "Remove fields outside the delivered DataProduct API.");
   ("AdmissionInvalid",
    "The declaration does not satisfy the delivered API schema or cross-field rules.");
   ("InvalidField", "The field does not satisfy the delivered API schema.");
   ("RequiredField", "Provide this required field.");
   ("DuplicateListItem", "List items must have unique declared identities.");
   ("CrossFieldInvalid", "The declaration does not satisfy the delivered cross-field rules.");
   ("NamespaceRequired", "Set metadata.namespace or explicitly select --namespace.");
   ("InvalidNamespace", "Select a canonical Kubernetes namespace.");
   ("IdentityConflict",
    "Each namespace/name and stable product ID must be unique in this bundle.");
   ("InvalidPublicMetadata",
    "Public metadata must satisfy the descriptor URI, field and encoded limits.");
   ("InvalidUI",
    "The UI declaration must satisfy the portable host, title and capability profile.");
   ("ContractOutputNotFound", "Contract checks must select a declared output.");
   ("ProducerUnresolved",
    "The producer is absent from this local bundle; its live existence and readiness are unverified.");
   ("OutputNotFound", "The supplied producer does not declare the selected output.");
   ("ContractIncompatible",
    "The supplied output does not satisfy the declared protocol and stable version requirement.");
   ("CrossNamespaceInput", "Composition is limited to the consuming product's namespace.");
   ("CompositionCycle", "The supplied products form a composition cycle.");
   ("CompositionLimit", "The bundle exceeds the composition input or depth budget.");
   ("ValidationLimit", "Validation was canceled or exceeded its time or cost budget.");
   ("ValidationUnavailable", "The embedded admission validator could not be initialized.");
   ("PreviewLimit", "The complete public report exceeds 2 MiB; select a smaller bundle.")]%string.

(** [diagnosticMessage]: a missing key of the Go map reads as the empty string. *)
Definition diagnosticMessage (code : string) : string :=
  match find_first (λ e, fst e == code) message_table with
  | Some (_, text) => text
  | None => ""
  end.

(** [message]. *)
Definition report_message (r : Report) (code : string) : string :=
  if apiOnly r && (code == "InvalidUI")
  then "Remove spec.ui for the API-only publication profile; consumers own their UIs."
  else diagnosticMessage code.

(** ** Findings *)

(** The loop that walks a path upwards to the nearest recorded field; each step shortens the path,
    so its length is enough fuel. *)
Fixpoint resolve_position (fuel : nat) (fields : gmap string Position) (candidate : string)
    (position : Position) : Position :=
  match fuel with
  | O => position
  | S fuel' =>
      if candidate == "" then position
      else match fields !! candidate with
      | Some at_ => at_
      | None =>
          match cut_last "/" candidate with
          | None => position
          | Some (parent, _) => resolve_position fuel' fields parent position
          end
      end
  end.

(** [r.documents[document-1]], when the number names one. *)
Definition numbered (r : Report) (number : Z) : option document :=
  if ((0 <? number) && (number <=? len (documents r)))%Z
  then documents r !! Z.to_nat (number - 1) else None.

Definition finding_position (r : Report) (number : Z) (path : string) : Position :=
  match numbered r number with
  | Some doc => resolve_position (S (String.length path)) (doc_fields doc) path (doc_origin doc)
  | None => failure r
  end.

(** [addDetail] counts every finding before it limits the displayed ones. *)
Definition addDetail (number : Z) (severity code path : string) (witness : list WitnessStep)
    (truncated : bool) (r : Report) : Report :=
  let c := counts r in
  let is_error := severity == "error" in
  let full := (128 <=? len (details r))%Z in
  mkReport (if is_error then false else Valid r) false (Products r) (RequiredFeatures r)
    (Diagnostics r) (Descriptors r) (documents r) (report_sources r)
    (if full then details r
     else details r ++
       [mkBundleDiagnostic (finding_position r number path) severity code path
          (report_message r code) witness truncated])
    (mkCounts (Total c + 1)
       (if is_error then ErrorCount c + 1 else ErrorCount c)
       (if is_error then Warnings c else Warnings c + 1)
       (if full then Omitted c + 1 else Omitted c))
    (failure r) (productFeatures r) (report_plan r) (apiOnly r).

(** [appendLegacy]. *)
Definition appendLegacy (number : Z) (severity code path : string) (r : Report) : Report :=
  if (len (Diagnostics r) <? 128)%Z then
    mkReport (Valid r) (Report_Complete r) (Products r) (RequiredFeatures r)
      (Diagnostics r ++ [mkDiagnostic number severity code path (report_message r code)])
      (Descriptors r) (documents r) (report_sources r) (details r) (counts r) (failure r)
      (productFeatures r) (report_plan r) (apiOnly r)
  else r.

(** [addAt] and [add]. *)
Definition addAt (number : Z) (severity code legacyPath path : string) (r : Report) : Report :=
  addDetail number severity code path [] false (appendLegacy number severity code legacyPath r).
Definition add (number : Z) (code path : string) (r : Report) : Report :=
  addAt number "error" code path
    (if path == "" then "" else "/" +:+ ReplaceAll path "." "/") r.

(** [finding]. *)
Record finding := mkFinding { finding_code : string; finding_path : string }.

(** [addAdmission] on a non-empty list of findings; the code reads the first without a check. *)
Definition addAdmission (number : Z) (legacyPath : string) (findings : list finding) (r : Report)
  : option Report :=
  match findings with
  | [] => None
  | first :: _ =>
      let legacy := if finding_code first == "UnknownField" then "UnknownField"
                    else "AdmissionInvalid" in
      Some (foldl (λ r f, addDetail number "error" (finding_code f) (finding_path f) [] false r)
              (appendLegacy number "error" legacy legacyPath r) findings)
  end.

Create HintDb report.

(** ** The accounting invariant *)

(** A report whose counters agree with its flags and lists. *)
Record accounted (r : Report) : Prop := {
  ac_details : (len (details r) <= 128)%Z;
  ac_legacy : (len (Diagnostics r) <= 128)%Z;
  ac_total : Total (counts r) = (ErrorCount (counts r) + Warnings (counts r))%Z;
  ac_omitted : (Total (counts r) = len (details r) + Omitted (counts r))%Z;
  ac_nonneg : (0 <= ErrorCount (counts r) ∧ 0 <= Warnings (counts r) ∧ 0 <= Omitted (counts r))%Z;
  ac_hidden : (0 < Omitted (counts r))%Z → len (details r) = 128%Z;
  ac_valid : Valid r = true ↔ ErrorCount (counts r) = 0%Z;
  ac_complete : Report_Complete r = true ↔ Total (counts r) = 0%Z;
  ac_errors : (len (List.filter (λ d, BD_Severity d == "error") (details r))
               <= ErrorCount (counts r))%Z;
  ac_texts : Forall (λ d, BD_Message d = report_message r (BD_Code d)) (details r)
}.

Lemma new_report_accounted b : accounted (new_report b).
Proof. constructor; simpl; try lia; try done; unfold len; simpl; lia. Qed.

Lemma addDetail_accounted number severity code path witness truncated r :
  accounted r → accounted (addDetail number severity code path witness truncated r).
Proof.
  intros [A1 A2 A3 A4 A5 A6 A7 A8 A9 A10]. unfold addDetail.
  destruct (128 <=? len (details r))%Z eqn:Hf; [apply Z.leb_le in Hf|apply Z.leb_gt in Hf];
    case_bool_decide as Hs; constructor; cbn -[Z.add]; rewrite ?len_app; unfold len in *;
    rewrite ?filter_app, ?length_app; cbn -[Z.add]; rewrite ?Hs; try lia; try done;
    try (rewrite A7; lia); try (split; [done|lia]).
  - rewrite bool_decide_true by done. cbn. lia.
  - apply Forall_app_2; [done|]. by repeat constructor.
  - rewrite bool_decide_false by done. cbn. lia.
  - apply Forall_app_2; [done|]. by repeat constructor.
Qed.

Lemma appendLegacy_accounted number severity code path r :
  accounted r → accounted (appendLegacy number severity code path r).
Proof.
  intros [A1 A2 A3 A4 A5 A6 A7 A8 A9 A10]. unfold appendLegacy.
  destruct (len (Diagnostics r) <? 128)%Z eqn:Hf; [|by constructor].
  apply Z.ltb_lt in Hf. constructor; cbn; try done.
  rewrite len_app. unfold len in *. cbn. lia.
Qed.

Lemma addAt_accounted number severity code legacyPath path r :
  accounted r → accounted (addAt number severity code legacyPath path r).
Proof. intros H. by apply addDetail_accounted, appendLegacy_accounted. Qed.

Lemma add_accounted number code path r : accounted r → accounted (add number code path r).
Proof. apply addAt_accounted. Qed.

Lemma addAdmission_accounted number legacyPath findings r r' :
  accounted r → addAdmission number legacyPath findings r = Some r' → accounted r'.
Proof.
  intros H. destruct findings as [|f l]; [done|]. intros [= <-].
  match goal with |- accounted (foldl ?g ?r0 ?fs) =>
    assert (H0 : accounted r0) by (by apply addDetail_accounted, appendLegacy_accounted);
    revert H0; generalize r0 end.
  induction l as [|x l IH]; intros r0 H0; [done|]. cbn. by apply IH, addDetail_accounted.
Qed.
#[export] Hint Resolve new_report_accounted addDetail_accounted appendLegacy_accounted
  addAt_accounted add_accounted : report.

(** Findings leave everything but the diagnostics, the counters and the flags alone. *)
Record same_state (r r' : Report) : Prop := {
  ss_documents : documents r' = documents r;
  ss_descriptors : Descriptors r' = Descriptors r;
  ss_plan : report_plan r' = report_plan r;
  ss_features : productFeatures r' = productFeatures r;
  ss_sources : report_sources r' = report_sources r;
  ss_api : apiOnly r' = apiOnly r
}.
#[export] Instance same_state_refl : Reflexive same_state.
Proof. by constructor. Qed.
#[export] Instance same_state_trans : Transitive same_state.
Proof. intros x y z [] []. constructor; congruence. Qed.

Lemma addAt_state number severity code legacyPath path r :
  same_state r (addAt number severity code legacyPath path r).
Proof. unfold addAt, addDetail, appendLegacy. destruct (_ <? _)%Z; by constructor. Qed.
#[export] Hint Resolve addAt_state : report.

(** An error makes a report invalid, and any finding makes it incomplete, for good. *)
Lemma addAt_flags number severity code legacyPath path r :
  Report_Complete (addAt number severity code legacyPath path r) = false ∧
  Valid (addAt number severity code legacyPath path r) =
    if severity == "error" then false else Valid r.
Proof.
  unfold addAt, addDetail, appendLegacy. simpl. split; [done|].
  case_bool_decide; [done|]. by destruct (_ <? _)%Z.
Qed.
