(* ===== verification/Plan.v ===== *)
(** * The static review plan

    [internal/preflight/plan.go]: an order of the submitted products in which every producer comes
    before its consumers, built by repeatedly taking the least product whose producers are all placed,
    and the declared edges.  The loop is on fuel, one step per product. *)

From S2P Require Import Prelude Kube Api GoStrings GoUrl Reference Report.

(** [productKey]. *)
Definition productKey (doc : document) : string :=
  Namespace (Meta (doc_product doc)) +:+ "/" +:+ Name (Meta (doc_product doc)).

(** The key of the producer an input names, relative to the declaring product. *)
Definition producer_key (doc : document) (input : InputPort) : string :=
  let ref := Input_ProductRef input in
  (if Ref_Namespace ref == "" then Namespace (Meta (doc_product doc)) else Ref_Namespace ref)
  +:+ "/" +:+ Ref_Name ref.
Definition doc_inputs (doc : document) : list InputPort := Inputs (Spec (doc_product doc)).

(** The first loop: the last document of each key, the producers each key needs, and the edges. *)
Definition by_key (docs : list document) : gmap string document :=
  fill productKey id docs ∅.
Definition needs_of (docs : list document) : gmap string (gset string) :=
  fill productKey (λ doc, list_to_set (map (producer_key doc) (doc_inputs doc))) docs ∅.
Definition plan_edge (doc : document) (index : nat) (input : InputPort) : PlanEdge :=
  mkPlanEdge (productKey doc) (producer_key doc input) (Input_Name input) (Z.of_nat index)
    (Ref_Output (Input_ProductRef input)) (Pos_Source (doc_origin doc))
    (Pos_Document (doc_origin doc)).
Definition doc_edges (doc : document) : list PlanEdge := imap (plan_edge doc) (doc_inputs doc).

(** The products that need nothing more, in the order of [sort.Strings]. *)
Definition ready_keys (needs : gmap string (gset string)) : list string :=
  sort_slice String.ltb
    (map fst (List.filter (λ e : string * gset string, bool_decide (snd e = ∅)) (map_to_list needs))).

(** [delete(needs, key)], and from every remaining set. *)
Definition take_key (key : string) (needs : gmap string (gset string))
  : gmap string (gset string) := (λ s : gset string, s ∖ {[key]}) <$> delete key needs.

(** The outer loop: the order of keys, [Some None] when some products can never be placed, and [None]
    when the fuel runs out. *)
Fixpoint order_loop (fuel : nat) (needs : gmap string (gset string)) (acc : list string)
  : option (option (list string)) :=
  if bool_decide (needs = ∅) then Some (Some acc)
  else match fuel with
  | O => None
  | S fuel' =>
      match ready_keys needs with
      | [] => Some None
      | key :: _ => order_loop fuel' (take_key key needs) (acc ++ [key])
      end
  end.

(** The order of the edges. *)
Definition plan_edge_less (a b : PlanEdge) : bool :=
  if PE_Consumer a != PE_Consumer b then String.ltb (PE_Consumer a) (PE_Consumer b)
  else if PE_Input a != PE_Input b then String.ltb (PE_Input a) (PE_Input b)
  else if PE_Producer a != PE_Producer b then String.ltb (PE_Producer a) (PE_Producer b)
  else String.ltb (PE_Output a) (PE_Output b).

Definition plan_product (docs : list document) (key : string) : PlanProduct :=
  let origin := match by_key docs !! key with
                | Some doc => doc_origin doc | None => no_position end in
  mkPlanProduct key (Pos_Source origin) (Pos_Document origin).

(** [reviewPlan]; [None] is a nil plan. *)
Definition reviewPlan (docs : list document) : option ReviewPlan :=
  let needs := needs_of docs in
  match order_loop (size needs) needs [] with
  | Some (Some order) =>
      Some (mkPlan (map (plan_product docs) order)
              (sort_slice plan_edge_less (concat (map doc_edges docs))))
  | _ => None
  end.

(** ** Orders as a specification

    [planned needs order]: at each step the least product without open needs is placed. *)
Inductive planned : gmap string (gset string) → list string → Prop :=
  | planned_nil : planned ∅ []
  | planned_cons key needs order :
      needs !! key = Some ∅ →
      (∀ k, needs !! k = Some ∅ → String.leb key k = true) →
      planned (take_key key needs) order →
      planned needs (key :: order).

(** No product can be placed although some are left. *)
Definition stuck (needs : gmap string (gset string)) : Prop :=
  needs ≠ ∅ ∧ ∀ k s, needs !! k = Some s → s ≠ ∅.

Lemma lookup_take_key key needs k :
  take_key key needs !! k =
  if decide (k = key) then None else (λ s : gset string, s ∖ {[key]}) <$> needs !! k.
Proof.
  unfold take_key. rewrite lookup_fmap. case_decide as Hk.
  - subst. by rewrite lookup_delete_eq.
  - by rewrite lookup_delete_ne.
Qed.

Lemma size_take_key key needs s : needs !! key = Some s →
  size needs = S (size (take_key key needs)).
Proof.
  intros Hk. unfold take_key. rewrite map_size_fmap, map_size_delete, Hk. simpl.
  assert (size needs ≠ 0); [|lia]. intros H0%map_size_empty_inv. by rewrite H0, lookup_empty in Hk.
Qed.

Lemma elem_ready_keys needs k : k ∈ ready_keys needs ↔ needs !! k = Some ∅.
Proof.
  unfold ready_keys. rewrite sort_slice_elem. split.
  - intros Hk. apply list_elem_of_fmap in Hk as ([k' s] & -> & Hin).
    apply list_elem_of_In, filter_In in Hin as [Hin Hs]. apply list_elem_of_In in Hin.
    apply elem_of_map_to_list in Hin. apply bool_decide_eq_true in Hs. simpl in *. by subst.
  - intros Hk. apply list_elem_of_fmap. exists (k, ∅). split; [done|].
    apply list_elem_of_In, filter_In. split; [|by apply bool_decide_eq_true].
    by apply list_elem_of_In, elem_of_map_to_list.
Qed.

(** The head of a sorted list is its least element. *)
Lemma ready_head needs key l : ready_keys needs = key :: l →
  needs !! key = Some ∅ ∧ ∀ k, needs !! k = Some ∅ → String.leb key k = true.
Proof.
  intros H. split.
  - apply elem_ready_keys. rewrite H. by left.
  - intros k Hk%elem_ready_keys. pose proof (sort_slice_sorted id
      (map fst (List.filter (λ e : string * gset string, bool_decide (snd e = ∅)) (map_to_list needs)))) as Hs.
    change (sort_slice (less_by id)) with (sort_slice String.ltb) in Hs.
    unfold ready_keys in H, Hk. rewrite H in Hs, Hk. inversion_clear Hs as [|? ? _ Hl].
    apply elem_of_cons in Hk as [->|Hk].
    + apply str_ltb_false, str_ltb_irrefl.
    + rewrite List.Forall_forall in Hl. apply Hl. by apply list_elem_of_In.
Qed.

(** The loop computes the specified order, or stops at a stuck remainder. *)
Lemma order_loop_spec fuel : ∀ needs acc, size needs ≤ fuel →
  (∃ order, order_loop fuel needs acc = Some (Some (acc ++ order)) ∧ planned needs order) ∨
  (order_loop fuel needs acc = Some None ∧
   ∃ placed rest, stuck rest ∧ rest = foldl (λ n k, take_key k n) needs placed).
Proof.
  induction fuel as [|fuel IH]; intros needs acc Hs; cbn [order_loop];
    case_bool_decide as Hne.
  - left. exists []. rewrite app_nil_r. subst. split; [done|constructor].
  - exfalso. apply Hne, map_size_empty_inv. lia.
  - left. exists []. rewrite app_nil_r. subst. split; [done|constructor].
  - destruct (ready_keys needs) as [|key l] eqn:Hr.
    + right. split; [done|]. exists [], needs. split; [|done]. split; [done|].
      intros k s Hk ->. assert (k ∈ ready_keys needs) by (by apply elem_ready_keys).
      rewrite Hr in *. by apply elem_of_nil in H.
    + destruct (ready_head _ _ _ Hr) as [Hk Hmin].
      pose proof (size_take_key _ _ _ Hk).
      destruct (IH (take_key key needs) (acc ++ [key])) as [(order & -> & Ho)|(-> & p & r & Hr' & ->)];
        [lia| |].
      * left. exists (key :: order). rewrite <- app_assoc. split; [done|]. by econstructor.
      * right. split; [done|]. exists (key :: p). eexists. split; [exact Hr'|reflexivity].
Qed.

(** ** What a planned order satisfies *)

Lemma planned_elements needs order : planned needs order →
  NoDup order ∧ ∀ k, k ∈ order ↔ is_Some (needs !! k).
Proof.
  induction 1 as [|key needs order Hk Hmin _ [IH1 IH2]].
  - split; [constructor|]. intros k. rewrite lookup_empty. split; [by intros ?%elem_of_nil|by intros []].
  - split.
    + constructor; [|done]. rewrite IH2, lookup_take_key, decide_True by done. by intros [].
    + intros k. rewrite elem_of_cons, IH2, lookup_take_key. case_decide as Hd.
      * subst. rewrite Hk. split; [by eexists|auto].
      * rewrite fmap_is_Some. naive_solver.
Qed.

(** [before l a b]: some occurrence of [a] precedes the rest after it, where [b] is. *)
Definition before {A} (l : list A) (a b : A) : Prop := ∃ l1 l2, l = l1 ++ a :: l2 ∧ b ∈ l2.

Lemma before_cons {A} (x : A) l a b : before l a b → before (x :: l) a b.
Proof. intros (l1 & l2 & -> & Hb). by exists (x :: l1), l2. Qed.

Lemma before_prefix {A} (a b l1 l2 : list A) p x :
  NoDup (l1 ++ x :: l2) → l1 ++ x :: l2 = a ++ p :: b → x ∈ b → p ∈ l1.
Proof.
  revert a. induction l1 as [|y l1 IH]; intros [|z a]; cbn; intros [Hn Hnd]%list.NoDup_cons E Hx;
    injection E as E1 E2; subst.
  - done.
  - exfalso. apply Hn. set_solver.
  - by left.
  - right. by eapply IH.
Qed.

Lemma planned_before needs order : planned needs order →
  ∀ k s p, needs !! k = Some s → p ∈ s → before order p k.
Proof.
  induction 1 as [|key needs order Hk Hmin Hpl IH]; intros k s p Hs Hp.
  - by rewrite lookup_empty in Hs.
  - destruct (decide (k = key)) as [->|Hne].
    + rewrite Hk in Hs. injection Hs as <-. set_solver.
    + destruct (decide (p = key)) as [->|Hpk].
      * exists [], order. split; [done|]. apply (planned_elements _ _ Hpl).
        rewrite lookup_take_key, decide_False by done. rewrite Hs. by eexists.
      * apply before_cons. eapply (IH k (s ∖ {[key]})); [|set_solver].
        rewrite lookup_take_key, decide_False by done. by rewrite Hs.
Qed.

(** Among the products whose producers are placed, the least is taken. *)
Lemma planned_least needs order : planned needs order →
  ∀ l1 k l2 k' s', order = l1 ++ k :: l2 → k' ∈ l2 → needs !! k' = Some s' →
    (∀ p, p ∈ s' → p ∈ l1) → String.leb k k' = true.
Proof.
  induction 1 as [|key needs order Hk Hmin Hpl IH]; intros l1 k l2 k' s' E Hk' Hs' Hp.
  - by destruct l1.
  - destruct l1 as [|x l1]; injection E as -> E.
    + apply Hmin. rewrite Hs'. f_equal. apply set_eq. intros p. split; [|set_solver].
      intros Hps. by apply Hp, elem_of_nil in Hps.
    + assert (k' ≠ x).
      { intros ->. assert (x ∈ order) as Hx by (rewrite E; set_solver).
        apply (planned_elements _ _ Hpl) in Hx. rewrite lookup_take_key, decide_True in Hx by done.
        by destruct Hx. }
      eapply (IH l1 k l2 k' (s' ∖ {[x]}) E Hk').
      * rewrite lookup_take_key, decide_False by done. by rewrite Hs'.
      * intros p Hps. apply elem_of_difference in Hps as [Hps Hpx].
        specialize (Hp p Hps). set_solver.
Qed.

(** The specified order is unique. *)
Lemma planned_unique needs order order' : planned needs order → planned needs order' →
  order = order'.
Proof.
  intros H. revert order'. induction H as [|key needs order Hk Hmin _ IH]; intros order' H'.
  - inversion H' as [|key ? ? Hk]; [done|]. by rewrite lookup_empty in Hk.
  - inversion H' as [E|key' ? order0 Hk' Hmin' Hpl]; subst.
    + by rewrite lookup_empty in Hk.
    + assert (key = key') as <-.
      { specialize (Hmin key' Hk'). specialize (Hmin' key Hk). by apply String.leb_antisym. }
      f_equal. by apply IH.
Qed.

Lemma lookup_placed placed : ∀ needs k,
  foldl (λ n k, take_key k n) needs placed !! k =
  if decide (k ∈ placed) then None
  else (λ s : gset string, s ∖ list_to_set placed) <$> (needs !! k : option (gset string)).
Proof.
  induction placed as [|x placed IH]; intros needs k; cbn [foldl].
  - rewrite decide_False by apply not_elem_of_nil. destruct (needs !! k); [|done]. simpl.
    f_equal. set_solver.
  - rewrite IH, lookup_take_key. repeat case_decide; set_solver || (try done).
    destruct (needs !! k); [|done]. simpl. f_equal. set_solver.
Qed.

(** ** Tables of the documents *)

Section tables.
Context (docs : list document) (Hkeys : NoDup (map productKey docs)).

Lemma by_key_lookup doc : doc ∈ docs → by_key docs !! productKey doc = Some doc.
Proof. intros Hd. by apply (fill_lookup productKey id). Qed.

Lemma needs_lookup doc : doc ∈ docs →
  needs_of docs !! productKey doc = Some (list_to_set (map (producer_key doc) (doc_inputs doc))).
Proof. intros Hd. by apply (fill_lookup productKey (λ doc, list_to_set _)). Qed.

Lemma needs_domain k : is_Some (needs_of docs !! k) ↔ k ∈ map productKey docs.
Proof.
  unfold needs_of. rewrite fill_domain, lookup_empty. split; [by intros [|[]]|auto].
Qed.

Lemma needs_inv k s : needs_of docs !! k = Some s → ∃ doc, doc ∈ docs ∧ k = productKey doc ∧
  s = list_to_set (map (producer_key doc) (doc_inputs doc)).
Proof.
  intros Hs. assert (is_Some (needs_of docs !! k)) as (doc & -> & Hd)%needs_domain%list_elem_of_fmap
    by (by eexists).
  exists doc. rewrite (needs_lookup _ Hd) in Hs. by injection Hs as <-.
Qed.

(** An order in which every product stands once, after each of its producers. *)
Definition topological (order : list string) : Prop :=
  order ≡ₚ map productKey docs ∧
  ∀ doc input, doc ∈ docs → input ∈ doc_inputs doc →
    before order (producer_key doc input) (productKey doc).

Lemma planned_topological order : planned (needs_of docs) order → topological order.
Proof.
  intros Hp. destruct (planned_elements _ _ Hp) as [Hnd Hin]. split.
  - apply NoDup_Permutation; [done..|]. intros k. by rewrite Hin, needs_domain.
  - intros doc input Hd Hi. eapply (planned_before _ _ Hp); [by apply needs_lookup|].
    apply elem_of_list_to_set, list_elem_of_fmap. by exists input.
Qed.

(** A stuck remainder rules out every topological order. *)
Lemma stuck_no_topological placed order :
  stuck (foldl (λ n k, take_key k n) (needs_of docs) placed) → topological order → False.
Proof.
  set (rest := foldl _ _ placed). intros [Hne Hst] [Hperm Hbefore].
  assert (∃ k, k ∈ order ∧ is_Some (rest !! k)) as (k & Hk & Hr).
  { apply map_choose in Hne as (k & s & Hk). exists k. split; [|by eexists].
    rewrite Hperm. apply needs_domain. unfold rest in Hk. rewrite lookup_placed in Hk.
    case_decide; [done|]. apply fmap_Some in Hk as (s0 & -> & _). by eexists. }
  assert (∀ l1 l2, order = l1 ++ l2 → ∀ k, k ∈ l1 → rest !! k = None) as Hall.
  { induction l1 as [|x l1 IH] using rev_ind; intros l2 E y Hy; [by apply elem_of_nil in Hy|].
    apply elem_of_app in Hy as [Hy| ->%list_elem_of_singleton].
    - rewrite <- app_assoc in E. by eapply IH.
    - rewrite <- app_assoc in E. specialize (IH _ E).
      destruct (rest !! x) as [s|] eqn:Hx; [|done]. exfalso. apply (Hst x s Hx).
      unfold rest in Hx. rewrite lookup_placed in Hx. case_decide; [done|].
      apply fmap_Some in Hx as (s0 & Hs0 & ->).
      apply needs_inv in Hs0 as (doc & Hd & -> & ->).
      apply set_eq. intros p. split; [|set_solver].
      intros [Hp Hnp]%elem_of_difference. exfalso. apply Hnp.
      apply elem_of_list_to_set, list_elem_of_fmap in Hp as (input & -> & Hi).
      destruct (Hbefore doc input Hd Hi) as (a & b & Eo & Hb).
      assert (NoDup order) as Hnd by (by rewrite Hperm).
      assert (producer_key doc input ∈ l1) as Hl1.
      { rewrite E in Eo, Hnd. by eapply before_prefix. }
      specialize (IH _ Hl1). unfold rest in IH. rewrite lookup_placed in IH.
      apply elem_of_list_to_set. case_decide; [done|]. exfalso.
      assert (is_Some (needs_of docs !! producer_key doc input)) as [s Hs].
      { apply needs_domain. rewrite <- Hperm, E. set_solver. }
      by rewrite Hs in IH. }
  rewrite (Hall order [] ltac:(by rewrite app_nil_r) k Hk) in Hr. by destruct Hr.
Qed.
End tables.

(** ** The order of the edges is total *)

Fixpoint lex_ltb (a b : list string) : bool :=
  match a, b with
  | x :: a', y :: b' => if x != y then String.ltb x y else lex_ltb a' b'
  | _, _ => false
  end.
Definition edge_key (e : PlanEdge) : list string :=
  [PE_Consumer e; PE_Input e; PE_Producer e; PE_Output e].

Lemma plan_edge_less_lex a b : plan_edge_less a b = lex_ltb (edge_key a) (edge_key b).
Proof.
  unfold plan_edge_less. cbn. repeat (case_bool_decide; cbn; try done).
  rewrite H2. by rewrite str_ltb_irrefl.
Qed.

Lemma lex_ltb_asym : ∀ a b, lex_ltb a b = true → lex_ltb b a = false.
Proof.
  induction a as [|x a IH]; intros [|y b]; cbn; try done.
  destruct (decide (x = y)) as [->|Hne].
  - rewrite bool_decide_true by done. cbn. apply IH.
  - rewrite !bool_decide_false by congruence. cbn. intros H.
    destruct (String.ltb y x) eqn:E; [|done].
    pose proof (str_ltb_trans _ _ _ H E) as Hx. by rewrite str_ltb_irrefl in Hx.
Qed.

Lemma lex_ltb_trans : ∀ a b c, length a = length b → length b = length c →
  lex_ltb b a = false → lex_ltb c b = false → lex_ltb c a = false.
Proof.
  induction a as [|x a IH]; intros [|y b] [|z c]; cbn; try done. intros [= L1] [= L2].
  destruct (decide (x = y)) as [->|Hxy], (decide (y = z)) as [->|Hyz];
    rewrite ?(bool_decide_true (_ = _)) by done; cbn.
  - by apply IH.
  - rewrite !bool_decide_false by congruence. by cbn.
  - rewrite !bool_decide_false by congruence. by cbn.
  - rewrite !(bool_decide_false (y = x)), !(bool_decide_false (z = y)) by congruence. cbn.
    intros H1 H2. assert (z ≠ x).
    { intros ->. destruct (str_ltb_total x y Hxy); congruence. }
    rewrite bool_decide_false by done. cbn. apply str_ltb_false in H1, H2. apply str_ltb_false.
    destruct (String.ltb z x) eqn:E; [|by apply str_ltb_false].
    destruct (str_ltb_total x y Hxy) as [H3|H3]; [|by apply str_ltb_false in H1; congruence].
    pose proof (str_ltb_trans _ _ _ E H3) as H4. apply str_ltb_false in H2. congruence.
Qed.

Lemma sort_edges_sorted l :
  StronglySorted (not_after plan_edge_less) (sort_slice plan_edge_less l).
Proof.
  apply Sorted_StronglySorted.
  - intros x y z. unfold not_after. rewrite !plan_edge_less_lex. by apply lex_ltb_trans.
  - apply Sorted_merge_sort. intros x y. unfold not_after. rewrite !plan_edge_less_lex.
    destruct (lex_ltb (edge_key y) (edge_key x)) eqn:E; [|by left].
    right. by apply lex_ltb_asym.
Qed.

(** ** Properties *)

(** C28: the plan refines topological ordering: for products with distinct keys a plan is returned
    exactly when an order exists in which every product stands once and after each of its producers;
    the returned order is such an order, always continues with the least product whose producers are
    all placed, names where each product was declared, and the edges are the declared inputs in the
    documented order. *)
Theorem reviewPlan_refines (docs : list document) (Hkeys : NoDup (map productKey docs)) :
  match reviewPlan docs with
  | Some plan =>
      let order := map PP_Key (Plan_Order plan) in
      topological docs order ∧
      (∀ l1 k l2 doc, order = l1 ++ k :: l2 → doc ∈ docs → productKey doc ∈ l2 →
        (∀ input, input ∈ doc_inputs doc → producer_key doc input ∈ l1) →
        String.leb k (productKey doc) = true) ∧
      (∀ doc, doc ∈ docs →
        mkPlanProduct (productKey doc) (Pos_Source (doc_origin doc)) (Pos_Document (doc_origin doc))
          ∈ Plan_Order plan) ∧
      Plan_Edges plan ≡ₚ concat (map doc_edges docs) ∧
      StronglySorted (not_after plan_edge_less) (Plan_Edges plan)
  | None => ∀ order, ¬ topological docs order
  end.
Proof.
  unfold reviewPlan.
  destruct (order_loop_spec (size (needs_of docs)) (needs_of docs) []) as
    [(order & -> & Hp)|(-> & placed & rest & Hst & ->)]; [done| |].
  - cbn. rewrite map_map, map_id. destruct (planned_elements _ _ Hp) as [_ Hin].
    split_and!.
    + by apply planned_topological.
    + intros l1 k l2 doc E Hd Hl2 Hi.
      eapply (planned_least _ _ Hp); [done..|by apply needs_lookup|].
      intros p (input & -> & Hin')%elem_of_list_to_set%list_elem_of_fmap. by apply Hi.
    + intros doc Hd. apply list_elem_of_fmap. exists (productKey doc). unfold plan_product.
      rewrite by_key_lookup by done. split; [done|].
      apply Hin, needs_domain. apply list_elem_of_fmap. by exists doc.
    + apply sort_slice_perm.
    + apply sort_edges_sorted.
  - intros order Ht. by eapply stuck_no_topological.
Qed.

(** Three documents: a report on orders, orders on users, and users. *)
Definition sample_document (product : DataProduct) (source number : Z) : document :=
  mkDocument product [] (mkPosition source number 1 1 "") ∅.
Definition sample_docs : list document :=
  [sample_document sample_report 1 1; sample_document sample_orders 1 2;
   sample_document sample_users 2 1].

Lemma reviewPlan_refines_witness :
  reviewPlan sample_docs ≠ None ∧
  match reviewPlan sample_docs with
  | Some plan => map PP_Key (Plan_Order plan) = ["shop/users"; "shop/orders"; "shop/report"]
      ∧ topological sample_docs (map PP_Key (Plan_Order plan))
  | None => False
  end.
Proof.
  assert (NoDup (map productKey sample_docs)) as H by (vm_compute; apply (bool_decide_unpack _); vm_compute; exact I).
  pose proof (reviewPlan_refines sample_docs H) as T.
  destruct (reviewPlan sample_docs) as [plan|] eqn:E; [|vm_compute in E; discriminate E].
  split; [discriminate|]. split; [|exact (proj1 T)].
  vm_compute in E. injection E as <-. reflexivity.
Defined.
