(* ===== verification/Witness.v ===== *)
(** * Cycles and depth of a submitted bundle

    [internal/preflight/witness.go]: one depth-first walk over the declared inputs that finds a cycle
    or a path of 64 inputs, and returns the declarations along it as a witness.  The walk keeps the
    active products with the depth they were entered at, the current path, and the longest path from
    every finished product.  The recursion is on fuel; 65 levels always suffice. *)

From stdpp Require Import pretty.
From S2P Require Import Prelude Kube Api GoStrings GoUrl Reference Report Plan.

(** The step of one declared input. *)
Definition witness_step (doc : document) (index : nat) : WitnessStep :=
  mkStep (Pos_Source (doc_origin doc)) (Pos_Document (doc_origin doc))
    ("/spec/inputs/" +:+ pretty index +:+ "/productRef").

(** The variables the closure [visit] shares. *)
Record witnessState := mkWitness {
  active : gmap string nat;
  suffixes : gmap string (list WitnessStep);
  stack : list WitnessStep
}.
Definition witness_start : witnessState := mkWitness ∅ ∅ [].

(** A suffix, a code and a witness. *)
Record outcome := mkOutcome {
  out_suffix : list WitnessStep;
  out_code : string;
  out_witness : list WitnessStep
}.

Section Witness.
Context `{E : Env} (ctx : Ctx) (byKey : gmap string document).

Definition Walker (A : Type) : Type := ST (witnessState * World) A.
Definition get_witness : Walker witnessState := λ s, (fst s, s).
Definition update (f : witnessState → witnessState) : Walker unit :=
  λ s, (tt, (f (fst s), snd s)).
Definition ask {A} (m : ST World A) : Walker A :=
  λ s, let '(a, w) := m (snd s) in (a, (fst s, w)).

Definition activate (key : string) (g : witnessState) : witnessState :=
  mkWitness (<[key := length (stack g)]> (active g)) (suffixes g) (stack g).
Definition push_step (step : WitnessStep) (g : witnessState) : witnessState :=
  mkWitness (active g) (suffixes g) (stack g ++ [step]).
(** [stack[:len(stack)-1]]. *)
Definition pop_step (g : witnessState) : witnessState :=
  mkWitness (active g) (suffixes g) (take (length (stack g) - 1) (stack g)).
Definition complete_key (key : string) (longest : list WitnessStep) (g : witnessState)
  : witnessState :=
  mkWitness (delete key (active g)) (<[key := longest]> (suffixes g)) (stack g).

(** The loop over the inputs of one product. *)
Fixpoint witness_inputs (rec : string → Walker (option outcome)) (doc : document) (index : nat)
    (inputs : list InputPort) (longest : list WitnessStep) : Walker (option outcome) :=
  match inputs with
  | [] => mret (Some (mkOutcome longest "" []))
  | input :: inputs' =>
      let producer := producer_key doc input in
      match byKey !! producer with
      | None => witness_inputs rec doc (S index) inputs' longest
      | Some _ =>
          let step := witness_step doc index in
          _ ← update (push_step step);
          result ← rec producer;
          _ ← update pop_step;
          match result with
          | None => mret None
          | Some r =>
              if out_code r != "" then mret (Some (mkOutcome [] (out_code r) (out_witness r)))
              else
                let candidate := step :: out_suffix r in
                witness_inputs rec doc (S index) inputs'
                  (if Nat.ltb (length longest) (length candidate) then candidate else longest)
          end
      end
  end.

(** [visit]; [None] means that the fuel ran out. *)
Fixpoint witness_visit (fuel : nat) (key : string) : Walker (option outcome) :=
  match fuel with
  | O => mret None
  | S fuel' =>
      err ← ask (Err ctx);
      g ← get_witness;
      if non_nil err then mret (Some (mkOutcome [] "ValidationLimit" []))
      else match active g !! key with
      | Some index => mret (Some (mkOutcome [] "CompositionCycle" (drop index (stack g))))
      | None =>
          match suffixes g !! key with
          | Some cached =>
              if Nat.leb 64 (length (stack g) + length cached)
              then mret (Some (mkOutcome [] "CompositionLimit" (stack g ++ cached)))
              else mret (Some (mkOutcome cached "" []))
          | None =>
              if Nat.leb 64 (length (stack g))
              then mret (Some (mkOutcome [] "CompositionLimit" (stack g)))
              else
                _ ← update (activate key);
                result ← match byKey !! key with
                         | Some doc =>
                             witness_inputs (witness_visit fuel') doc 0 (doc_inputs doc) []
                         | None => mret (Some (mkOutcome [] "" []))
                         end;
                match result with
                | None => mret None
                | Some r =>
                    if out_code r != "" then mret (Some r)
                    else
                      _ ← update (complete_key key (out_suffix r));
                      mret (Some (mkOutcome (out_suffix r) "" []))
                end
          end
      end
  end.

Definition witness_fuel : nat := 65.

(** The loop over the sorted keys: the key and outcome of the first failing visit. *)
Fixpoint witness_keys (keys : list string) : Walker (option (option (string * outcome))) :=
  match keys with
  | [] => mret (Some None)
  | key :: keys' =>
      result ← witness_visit witness_fuel key;
      match result with
      | None => mret None
      | Some r => if out_code r != "" then mret (Some (Some (key, r))) else witness_keys keys'
      end
  end.
End Witness.

(** [ordinals[key]]: the number of the last document with the key. *)
Definition ordinals (docs : list document) : gmap string nat :=
  fill (λ e : nat * document, productKey (snd e)) (λ e, S (fst e)) (imap pair docs) ∅.

(** The first document declared where the witness starts. *)
Fixpoint declared_at (step : WitnessStep) (docs : list document) (index : nat) : option nat :=
  match docs with
  | [] => None
  | doc :: docs' =>
      if (Pos_Source (doc_origin doc) == Step_Source step) &&
         (Pos_Document (doc_origin doc) == Step_Document step)
      then Some (S index) else declared_at step docs' (S index)
  end.

(** What [graphWitness] returns. *)
Record witnessResult := mkResult {
  res_number : nat;
  res_code : string;
  res_witness : list WitnessStep;
  res_truncated : bool
}.
Definition witness_result (docs : list document) (key : string) (r : outcome) : witnessResult :=
  let number := default 0 (ordinals docs !! key) in
  let number := match out_witness r with
                | first :: _ => default number (declared_at first docs 0)
                | [] => number
                end in
  let truncated := Nat.ltb 64 (length (out_witness r)) in
  mkResult number (out_code r)
    (if truncated then take 64 (out_witness r) else out_witness r) truncated.

(** [graphWitness]; [None] would mean that the fuel ran out. *)
Definition graphWitness `{Env} (ctx : Ctx) (docs : list document)
  : ST World (option witnessResult) := λ w,
  let keys := sort_slice String.ltb (map productKey docs) in
  let '(r, (_, w')) := witness_keys ctx (by_key docs) keys (witness_start, w) in
  (match r with
   | None => None
   | Some None => Some (mkResult 0 "" [] false)
   | Some (Some (key, r)) => Some (witness_result docs key r)
   end, w').

(** ** Paths of the declared graph *)

Section Paths.
Context (byKey : gmap string document).

(** The input number [index] of the product [a] names [b], and [b] is in the bundle. *)
Definition link (a : string) (step : WitnessStep) (b : string) : Prop :=
  ∃ doc index input, byKey !! a = Some doc ∧ doc_inputs doc !! index = Some input ∧
    b = producer_key doc input ∧ is_Some (byKey !! b) ∧ step = witness_step doc index.

Inductive route : string → list WitnessStep → string → Prop :=
  | route_nil a : route a [] a
  | route_cons a step b l c : link a step b → route b l c → route a (step :: l) c.

Lemma route_app a l b l' c : route a l b → route b l' c → route a (l ++ l') c.
Proof. induction 1 as [|a s b l d Hl _ IH]; [done|]. intros H. econstructor; eauto. Qed.

Lemma route_snoc a l b step c : route a l b → link b step c → route a (l ++ [step]) c.
Proof. intros H1 H2. eapply route_app; [done|]. econstructor; [done|constructor]. Qed.

Lemma route_from a l b : route a l b → is_Some (byKey !! a) → is_Some (byKey !! b).
Proof. induction 1 as [|a s b l c (d & i & inp & H1 & H2 & H3 & H4 & H5) _ IH]; auto. Qed.

(** A longest path from [a]. *)
Definition longest_route (a : string) (l : list WitnessStep) : Prop :=
  (∃ b, route a l b) ∧ ∀ l' b, route a l' b → length l' ≤ length l.

(** Repeating a cycle gives arbitrarily long paths. *)
Lemma cycle_unbounded a l : route a l a → l ≠ [] →
  ∀ n, ∃ l', route a l' a ∧ n ≤ length l'.
Proof.
  intros Hl Hne n. induction n as [|n (l' & Hr & IH)]; [by exists []; split; [constructor|simpl; lia]|].
  exists (l ++ l'). split; [by eapply route_app|]. rewrite length_app.
  destruct l; simpl; [done|lia].
Qed.

Lemma longest_no_cycle a l b c : longest_route a l → route a b c → ∀ d, route c d c → d = [].
Proof.
  intros [_ Hmax] Hab d Hd. destruct d as [|s d]; [done|]. exfalso.
  destruct (cycle_unbounded _ _ Hd ltac:(done) (S (length l))) as (l' & Hr & Hlen).
  specialize (Hmax _ _ (route_app _ _ _ _ _ Hab Hr)). rewrite length_app in Hmax. lia.
Qed.
End Paths.

(** ** What a visit establishes *)

Section VisitSpec.
Context `{E : Env} (ctx : Ctx) (byKey : gmap string document) (root : string).

(** The path leads from the root to the current product, every active product lies on it where the
    table says, and finished products have their longest paths. *)
Record walking (key : string) (g : witnessState) : Prop := {
  wk_stack : route byKey root (stack g) key;
  wk_active k i : active g !! k = Some i →
    i ≤ length (stack g) ∧ route byKey k (drop i (stack g)) key;
  wk_suffix k l : suffixes g !! k = Some l → longest_route byKey k l
}.

Definition entering (key : string) (g : witnessState) : Prop :=
  walking key g ∧ is_Some (byKey !! key) ∧ length (stack g) ≤ 64 ∧
  ∀ k i, active g !! k = Some i → i < length (stack g).

(** A failing outcome is backed by the graph or by the context. *)
Definition explained (r : outcome) : Prop :=
  (out_code r = "CompositionCycle" ∧ length (out_witness r) ≤ 64 ∧
   ∃ k, route byKey k (out_witness r) k ∧ out_witness r ≠ []) ∨
  (out_code r = "CompositionLimit" ∧ (∃ k, route byKey root (out_witness r) k) ∧
   64 ≤ length (out_witness r)) ∨
  (out_code r = "ValidationLimit" ∧ out_witness r = [] ∧ ∃ w, fst (Err ctx w) ≠ None).

(** What a successful step keeps. *)
Record kept (g g' : witnessState) : Prop := {
  kp_active : active g' = active g;
  kp_stack : stack g' = stack g;
  kp_suffixes : suffixes g ⊆ suffixes g';
  kp_longest k l : suffixes g' !! k = Some l → longest_route byKey k l
}.

(** Every input below [index] that names a product of the bundle is covered by [longest]. *)
Definition covers (doc : document) (index : nat) (g : witnessState) (longest : list WitnessStep)
  : Prop :=
  ∀ j input, j < index → doc_inputs doc !! j = Some input →
    is_Some (byKey !! producer_key doc input) →
    ∃ l, suffixes g !! producer_key doc input = Some l ∧ S (length l) ≤ length longest.

Definition visited_ok (key : string) (g : witnessState) (r : option outcome) (g' : witnessState)
  : Prop :=
  ∃ o, r = Some o ∧ (explained o ∨ (out_code o = "" ∧ kept g g' ∧
    suffixes g' !! key = Some (out_suffix o) ∧ length (stack g) + length (out_suffix o) < 64)).

Lemma explained_code o : explained o → out_code o ≠ "".
Proof. by intros [[-> _]|[[-> _]|[-> _]]]. Qed.

Lemma pop_push step g : pop_step (push_step step g) = g.
Proof.
  destruct g as [a s st]. unfold pop_step, push_step. cbn. f_equal.
  rewrite length_app. cbn. rewrite Nat.add_sub. by rewrite take_app_length.
Qed.

Lemma walking_push key step producer g : walking key g → link byKey key step producer →
  length (stack g) < 64 → entering producer (push_step step g).
Proof.
  intros [W1 W2 W3] Hl Hs. split_and!.
  - constructor; cbn.
    + by eapply route_snoc.
    + intros k i [Hi Hr]%W2. rewrite length_app. split; [lia|].
      rewrite drop_app_le by done. by eapply route_snoc.
    + done.
  - by destruct Hl as (d & i & inp & H1 & H2 & H3 & H4 & H5).
  - cbn. rewrite length_app. cbn. lia.
  - cbn. intros k i [Hi _]%W2. rewrite length_app. cbn. lia.
Qed.

Lemma kept_pop step g g' : kept (push_step step g) g' → kept g (pop_step g').
Proof.
  intros [K1 K2 K3 K4]. assert (pop_step g' = mkWitness (active g) (suffixes g') (stack g)) as ->.
  { pose proof (pop_push step g) as H. unfold pop_step in *. rewrite K1, K2. cbn in *.
    destruct g; cbn in *. by injection H as ->. }
  by constructor.
Qed.

Lemma kept_trans g1 g2 g3 : kept g1 g2 → kept g2 g3 → kept g1 g3.
Proof. intros [] []. constructor; try congruence; try done. by etrans. Qed.

Lemma kept_refl key g : walking key g → kept g g.
Proof. intros []. by constructor. Qed.

Lemma walking_kept key g g' : walking key g → kept g g' → walking key g'.
Proof. intros [] []. constructor; rewrite ?kp_active0, ?kp_stack0; done. Qed.

Lemma covers_kept doc index g g' longest : covers doc index g longest → kept g g' →
  covers doc index g' longest.
Proof.
  intros Hc Hk j input Hj Hi Hp. destruct (Hc j input Hj Hi Hp) as (l & Hl & Hlen).
  exists l. split; [|done]. eapply lookup_weaken; [done|apply Hk].
Qed.

(** The outcome of the loop: a failure that is explained, or a path at least as long as one input
    plus the longest path of its producer. *)
Definition inputs_ok (doc : document) (key : string) (g : witnessState) (r : option outcome)
    (g' : witnessState) : Prop :=
  ∃ o, r = Some o ∧ (explained o ∨ (out_code o = "" ∧ kept g g' ∧
    (∃ b, route byKey key (out_suffix o) b) ∧ covers doc (length (doc_inputs doc)) g' (out_suffix o) ∧
    length (stack g) + length (out_suffix o) < 64)).

Lemma witness_inputs_spec rec doc key depth :
  byKey !! key = Some doc → depth < 64 →
  (∀ producer g w, entering producer g → length (stack g) = S depth →
     visited_ok producer g (fst (rec producer (g, w))) (fst (snd (rec producer (g, w))))) →
  ∀ inputs index longest g w,
    drop index (doc_inputs doc) = inputs → walking key g → length (stack g) = depth →
    (∃ b, route byKey key longest b) → covers doc index g longest →
    depth + length longest < 64 →
    let '(r, (g', _)) := witness_inputs byKey rec doc index inputs longest (g, w) in
    inputs_ok doc key g r g'.
Proof.
  intros Hdoc Hdepth Hrec. induction inputs as [|input inputs IH];
    intros index longest g w Hin Hg Hst Hl Hc Hlen; cbn [witness_inputs].
  - exists (mkOutcome longest "" []). split; [done|]. right. cbn. split_and!; auto.
    + by eapply kept_refl.
    + intros j i Hj. apply Hc. apply (f_equal length) in Hin. rewrite length_drop in Hin.
      cbn in Hin. lia.
    + by rewrite Hst.
  - assert (doc_inputs doc !! index = Some input) as Hi.
    { rewrite <- (Nat.add_0_r index), <- lookup_drop, Hin. done. }
    assert (drop (S index) (doc_inputs doc) = inputs) as Hin'.
    { rewrite <- Nat.add_1_r, <- drop_drop, Hin. done. }
    destruct (byKey !! producer_key doc input) as [d|] eqn:Hp.
    2:{ apply IH; auto. intros j i Hj Hji Hs. destruct (decide (j = index)) as [->|].
        - rewrite Hi in Hji. injection Hji as <-. rewrite Hp in Hs. by destruct Hs.
        - apply (Hc j i); [lia|done..]. }
    set (step := witness_step doc index). set (producer := producer_key doc input) in *.
    assert (link byKey key step producer) as Hlink.
    { exists doc, index, input. split_and!; eauto. }
    unfold mbind, st_bind, update. cbn [fst snd].
    specialize (Hrec producer (push_step step g) w
      (walking_push _ _ _ _ Hg Hlink ltac:(lia))).
    destruct (rec producer (push_step step g, w)) as [r [g1 w1]]. cbn [fst snd] in Hrec |- *.
    destruct Hrec as (o & -> & Ho).
    { cbn. rewrite length_app. cbn. lia. }
    destruct Ho as [Ho|(Hcode & Hk & Hsuf & Hol)].
    + rewrite bool_decide_false by (by apply explained_code). cbn.
      exists (mkOutcome [] (out_code o) (out_witness o)). split; [done|]. by left.
    + rewrite bool_decide_true by done. cbn [negb].
      apply kept_pop in Hk. pose proof (walking_kept _ _ _ Hg Hk) as Hg1.
      cbn in Hol. rewrite length_app in Hol. cbn in Hol.
      assert (suffixes (pop_step g1) !! producer = Some (out_suffix o)) as Hsuf' by done.
      destruct (kp_longest _ _ Hk _ _ Hsuf') as [[b Hb] _].
      match goal with |- context [witness_inputs _ _ _ _ _ ?l] => set (longest' := l) end.
      assert (length longest ≤ length longest' ∧ S (length (out_suffix o)) ≤ length longest' ∧
              (∃ b, route byKey key longest' b) ∧ depth + length longest' < 64) as (L1 & L2 & L3 & L4).
      { subst longest'. destruct (Nat.ltb_spec (length longest) (length (step :: out_suffix o)));
          cbn in *; split_and!; auto; try lia. exists b. by econstructor. }
      specialize (IH (S index) longest' (pop_step g1) w1 Hin' Hg1).
      destruct (witness_inputs byKey rec doc (S index) inputs longest' (pop_step g1, w1))
        as [r' [g' w']].
      destruct IH as (o' & -> & Ho'); auto.
      * by rewrite (kp_stack _ _ Hk).
      * intros j i Hj Hji Hs. destruct (decide (j = index)) as [->|].
        -- rewrite Hi in Hji. injection Hji as <-. by exists (out_suffix o).
        -- destruct (covers_kept _ _ _ _ _ Hc Hk j i ltac:(lia) Hji Hs) as (l & ? & ?).
           exists l. split; [done|lia].
      * exists o'. split; [done|]. destruct Ho' as [Ho'|(H1 & H2 & H3 & H4 & H5)]; [by left|].
        right. split_and!; auto; [by eapply kept_trans|]. by rewrite <- (kp_stack _ _ Hk).
Qed.

(** The loop's result is a longest path of the product. *)
Lemma covers_longest doc key g l : byKey !! key = Some doc →
  (∀ k l, suffixes g !! k = Some l → longest_route byKey k l) →
  (∃ b, route byKey key l b) → covers doc (length (doc_inputs doc)) g l →
  longest_route byKey key l.
Proof.
  intros Hdoc Hs Hb Hc. split; [done|]. intros l' c Hr.
  inversion Hr as [|a s b t d (doc' & index & input & Hd & Hi & -> & Hp & ->) Ht]; subst.
  - cbn. lia.
  - rewrite Hdoc in Hd. injection Hd as <-.
    destruct (Hc index input) as (x & Hx & Hlen); auto; [by eapply lookup_lt_Some|].
    destruct (Hs _ _ Hx) as [_ Hmax]. specialize (Hmax _ _ Ht). cbn. lia.
Qed.

Lemma witness_visit_spec fuel : ∀ key g w,
  entering key g → 65 ≤ fuel + length (stack g) →
  let '(r, (g', _)) := witness_visit ctx byKey fuel key (g, w) in visited_ok key g r g'.
Proof.
  induction fuel as [|fuel IH]; intros key g w (Hg & [doc Hdoc] & Hst & Hact) Hf; [lia|].
  cbn [witness_visit]. unfold mbind, st_bind, ask, get_witness, update. cbn [fst snd].
  destruct (Err ctx w) as [e w1] eqn:He. cbn [fst snd].
  destruct e as [e|]; cbn [non_nil].
  { eexists. split; [done|]. left. right; right. cbn. split_and!; auto. exists w. by rewrite He. }
  destruct (active g !! key) as [i|] eqn:Ha.
  { eexists. split; [done|]. left. left. cbn. split; [done|]. split; [rewrite length_drop; lia|]. exists key.
    split; [by apply (wk_active _ _ Hg)|].
    intros H0%(f_equal length). rewrite length_drop in H0. specialize (Hact _ _ Ha). cbn in H0. lia. }
  destruct (suffixes g !! key) as [l|] eqn:Hs.
  { destruct (Nat.leb_spec 64 (length (stack g) + length l)); (eexists; split; [done|]).
    - left. right; left. cbn. rewrite length_app. split_and!; auto.
      destruct (wk_suffix _ _ Hg _ _ Hs) as [[b Hb] _]. exists b.
      eapply route_app; [apply Hg|done].
    - right. cbn. split_and!; auto. by eapply kept_refl. }
  destruct (Nat.leb_spec 64 (length (stack g))).
  { eexists. split; [done|]. left. right; left. cbn. split_and!; auto. exists key. apply Hg. }
  rewrite Hdoc. cbn [fst snd].
  assert (walking key (activate key g)) as Hg1.
  { destruct Hg as [W1 W2 W3]. constructor; cbn; auto. intros k i Hki.
    destruct (decide (k = key)) as [->|Hne].
    - rewrite lookup_insert_eq in Hki. injection Hki as <-. split; [done|].
      rewrite drop_all. constructor.
    - rewrite lookup_insert_ne in Hki by done. auto. }
  pose proof (witness_inputs_spec (witness_visit ctx byKey fuel) doc key (length (stack g)) Hdoc
    ltac:(done)) as Hin.
  specialize (Hin ltac:(intros producer g0 w0 Hg0 Hl0; specialize (IH producer g0 w0 Hg0 ltac:(lia));
    destruct (witness_visit ctx byKey fuel producer (g0, w0)) as [? [? ?]]; exact IH)).
  specialize (Hin (doc_inputs doc) 0 [] (activate key g) w1 eq_refl Hg1 eq_refl
    ltac:(exists key; constructor) ltac:(intros j i Hj; lia) ltac:(cbn; lia)).
  destruct (witness_inputs byKey (witness_visit ctx byKey fuel) doc 0 (doc_inputs doc) []
    (activate key g, w1)) as [r [g' w']].
  destruct Hin as (o & -> & Ho). destruct Ho as [Ho|(Hcode & Hk & Hr & Hc & Hlen)].
  - rewrite bool_decide_false by (by apply explained_code). cbn. exists o. split; [done|]. by left.
  - rewrite bool_decide_true by done. cbn.
    eexists. split; [done|]. right. cbn. split; [done|].
    destruct Hk as [K1 K2 K3 K4]. split_and!; auto; [|by rewrite lookup_insert_eq].
    constructor; cbn; auto.
    + rewrite K1. cbn. apply delete_insert_id. done.
    + by apply insert_subseteq_r.
    + intros k l Hkl. destruct (decide (k = key)) as [->|Hne].
      * rewrite lookup_insert_eq in Hkl. injection Hkl as <-. by eapply covers_longest.
      * rewrite lookup_insert_ne in Hkl by done. by apply K4.
Qed.
End VisitSpec.

(** ** The walk over all products *)

Section KeysSpec.
Context `{E : Env} (ctx : Ctx) (byKey : gmap string document).

(** Between two products of the outer loop. *)
Record resting (g : witnessState) : Prop := {
  rs_active : active g = ∅;
  rs_stack : stack g = [];
  rs_suffix k l : suffixes g !! k = Some l → longest_route byKey k l
}.

Lemma witness_start_resting : resting witness_start.
Proof. constructor; [done..|]. intros k l. cbn. by rewrite lookup_empty. Qed.

Lemma resting_entering key g : resting g → is_Some (byKey !! key) → entering byKey key key g.
Proof.
  intros [R1 R2 R3] Hk. split_and!; auto; [|rewrite R2; cbn; lia|].
  - constructor; rewrite ?R1, ?R2; auto; [constructor|]. intros k i. by rewrite lookup_empty.
  - intros k i. by rewrite R1, lookup_empty.
Qed.

Lemma resting_kept g g' : resting g → kept byKey g g' → resting g'.
Proof. intros [] []. constructor; congruence || done. Qed.

(** Every product is finished with a short longest path, or one visit failed for a reason. *)
Definition keys_ok (keys : list string) (r : option (option (string * outcome)))
    (g : witnessState) : Prop :=
  match r with
  | None => False
  | Some None =>
      (∀ k l, suffixes g !! k = Some l → longest_route byKey k l) ∧
      ∀ k, k ∈ keys → ∃ l, suffixes g !! k = Some l ∧ length l < 64
  | Some (Some (key, o)) => key ∈ keys ∧ explained ctx byKey key o
  end.

Lemma witness_keys_spec keys : ∀ g w,
  resting g → (∀ k, k ∈ keys → is_Some (byKey !! k)) →
  let '(r, (g', _)) := witness_keys ctx byKey keys (g, w) in
  keys_ok keys r g' ∧ (r = Some None → suffixes g ⊆ suffixes g').
Proof.
  induction keys as [|key keys IH]; intros g w Hg Hk; cbn [witness_keys].
  - split; [|done]. split; [apply Hg|]. by intros k ?%elem_of_nil.
  - unfold mbind, st_bind.
    pose proof (witness_visit_spec ctx byKey key witness_fuel key g w
      (resting_entering _ _ Hg (Hk key ltac:(by left)))
      ltac:(unfold witness_fuel; lia)) as Hv.
    destruct (witness_visit ctx byKey witness_fuel key (g, w)) as [r [g1 w1]].
    destruct Hv as (o & -> & [Ho|(Hcode & Hkept & Hsuf & Hlen)]).
    + rewrite bool_decide_false by (by eapply explained_code). cbn.
      split; [|done]. split; [by left|done].
    + rewrite bool_decide_true by done. cbn [negb].
      specialize (IH g1 w1 (resting_kept _ _ Hg Hkept) ltac:(intros k ?; apply Hk; by right)).
      destruct (witness_keys ctx byKey keys (g1, w1)) as [r' [g' w']].
      destruct IH as [IH Hsub].
      destruct r' as [[[key' o']|]|]; [| |done].
      * destruct IH as [IH1 IH2]. split; [|done]. split; [by right|done].
      * specialize (Hsub eq_refl). destruct IH as [IH1 IH2]. split.
        -- split; [done|]. intros k [->|Hkk]%elem_of_cons; [|by apply IH2].
           exists (out_suffix o). split; [by eapply lookup_weaken|].
           rewrite (rs_stack _ Hg) in Hlen. cbn in Hlen. lia.
        -- intros _. etrans; [apply Hkept|done].
Qed.
End KeysSpec.

(** ** Numbers of documents *)

Lemma declared_at_some step docs : ∀ index,
  (∃ doc, doc ∈ docs ∧ Pos_Source (doc_origin doc) = Step_Source step ∧
          Pos_Document (doc_origin doc) = Step_Document step) →
  ∃ i doc, declared_at step docs index = Some (S (index + i)) ∧ docs !! i = Some doc ∧
    Pos_Source (doc_origin doc) = Step_Source step ∧
    Pos_Document (doc_origin doc) = Step_Document step.
Proof.
  induction docs as [|d docs IH]; intros index (doc & Hd & H1 & H2); [by apply elem_of_nil in Hd|].
  cbn [declared_at]. destruct ((_ == _) && _) eqn:Hm.
  - go_bool. destruct Hm. exists 0, d. rewrite Nat.add_0_r. by split_and!.
  - apply elem_of_cons in Hd as [->|Hd].
    + rewrite H1, H2, !bool_decide_true in Hm by done. done.
    + destruct (IH (S index)) as (i & e & -> & He & ?); [by exists doc|].
      exists (S i), e. split; [do 2 f_equal; lia|]. by split.
Qed.

Lemma by_key_inv docs k doc : by_key docs !! k = Some doc → doc ∈ docs ∧ k = productKey doc.
Proof.
  intros [(x & Hx & -> & ->)|He]%fill_inv; [done|]. by rewrite lookup_empty in He.
Qed.

Lemma route_start docs k step l b : route (by_key docs) k (step :: l) b →
  ∃ doc, doc ∈ docs ∧ k = productKey doc ∧ Pos_Source (doc_origin doc) = Step_Source step ∧
    Pos_Document (doc_origin doc) = Step_Document step.
Proof.
  inversion 1 as [|? ? ? ? ? (doc & i & input & Hd & _ & _ & _ & ->)]; subst.
  apply by_key_inv in Hd as [Hd ->]. by exists doc.
Qed.

(** The number a result names is that of a document declared where its witness starts. *)
Definition numbers_start (docs : list document) (r : witnessResult) : Prop :=
  ∃ doc step rest, res_witness r = step :: rest ∧
    docs !! (res_number r - 1) = Some doc ∧ 0 < res_number r ∧
    Pos_Source (doc_origin doc) = Step_Source step ∧
    Pos_Document (doc_origin doc) = Step_Document step.

Lemma witness_result_number docs key o k b :
  route (by_key docs) k (out_witness o) b → out_witness o ≠ [] →
  numbers_start docs (witness_result docs key o).
Proof.
  destruct (out_witness o) as [|step rest] eqn:Ho; [done|]. intros Hr _.
  destruct (route_start _ _ _ _ _ Hr) as (doc & Hd & _ & H1 & H2).
  destruct (declared_at_some step docs 0) as (i & d & Hi & Hdi & H3 & H4); [by exists doc|].
  unfold numbers_start, witness_result. rewrite Ho, Hi.
  exists d, step. destruct (Nat.ltb 64 _).
  - exists (take 63 rest). cbn. rewrite Nat.sub_0_r. split_and!; auto; lia.
  - exists rest. cbn. rewrite Nat.sub_0_r. split_and!; auto; lia.
Qed.

(** The walk of [graphWitness] with the final state it discards. *)
Lemma graphWitness_spec `{E : Env} (ctx : Ctx) (docs : list document) w :
  ∃ r g w', graphWitness ctx docs w = (Some r, w') ∧
    ((r = mkResult 0 "" [] false ∧
      (∀ k l, suffixes g !! k = Some l → longest_route (by_key docs) k l) ∧
      ∀ k, k ∈ map productKey docs → ∃ l, suffixes g !! k = Some l ∧ length l < 64) ∨
     ∃ key o, r = witness_result docs key o ∧ key ∈ map productKey docs ∧
       explained ctx (by_key docs) key o).
Proof.
  pose proof (witness_keys_spec ctx (by_key docs) (sort_slice String.ltb (map productKey docs))
    witness_start w (witness_start_resting _)) as H.
  unfold graphWitness.
  destruct (witness_keys ctx (by_key docs) _ (witness_start, w)) as [r [g w']].
  destruct H as [H _].
  { intros k Hk%sort_slice_elem%list_elem_of_fmap. destruct Hk as (doc & -> & Hd).
    apply (proj2 (fill_domain productKey id docs ∅ _)). left. by apply list_elem_of_fmap_2. }
  destruct r as [[[key o]|]|]; [| |done]; cbn in H; eexists _, g, w'; (split; [reflexivity|]).
  - right. exists key, o. destruct H as [H1 H2]. split_and!; auto. by apply sort_slice_elem in H1.
  - left. destruct H as [H1 H2]. split_and!; auto. intros k Hk. apply H2. by apply sort_slice_elem.
Qed.

(** C29: the walk always returns, within 65 levels, with one of four exact outcomes: nothing, and then
    every path of declared inputs inside the bundle has fewer than 64 inputs, so none of them is a
    cycle; a cycle, and the witness is one in full; a depth violation, and the witness is the first 64
    steps of a path of at least 64 inputs; or an expired context.  In both graph violations the
    reported number is that of the document where the witness starts.  A bundle without long paths is
    accepted unless the context expires. *)
Theorem graphWitness_exact `{E : Env} (ctx : Ctx) (docs : list document) w :
  ∃ r w', graphWitness ctx docs w = (Some r, w') ∧
   ((res_code r = "" ∧ res_witness r = [] ∧
     (∀ k l b, is_Some (by_key docs !! k) → route (by_key docs) k l b →
        length l < 64 ∧ (k = b → l = []))) ∨
    (res_code r = "CompositionCycle" ∧ res_truncated r = false ∧ res_witness r ≠ [] ∧
     (∃ k, route (by_key docs) k (res_witness r) k) ∧ numbers_start docs r) ∨
    (res_code r = "CompositionLimit" ∧
     (∃ k l b, route (by_key docs) k l b ∧ 64 ≤ length l ∧ res_witness r = take 64 l ∧
        res_truncated r = Nat.ltb 64 (length l)) ∧ numbers_start docs r) ∨
    (res_code r = "ValidationLimit" ∧ res_witness r = [] ∧ ∃ w0, fst (Err ctx w0) ≠ None)).
Proof.
  destruct (graphWitness_spec ctx docs w) as (r & g & w' & Hr & H). exists r, w'.
  split; [exact Hr|]. destruct H as [(-> & Hl & Hall)|(key & o & -> & Hk & Ho)].
  - left. split_and!; auto. intros k l b [doc [Hd ->]%by_key_inv] Hrt.
    destruct (Hall (productKey doc)) as (m & Hm & Hlen); [by apply list_elem_of_fmap_2|].
    specialize (Hl _ _ Hm). split.
    + destruct Hl as [_ Hmax]. specialize (Hmax _ _ Hrt). lia.
    + intros <-. eapply longest_no_cycle; [exact Hl|constructor|exact Hrt].
  - right. destruct Ho as [(H1 & H2 & k & H3 & H4)|[(H1 & [b H2] & H3)|(H1 & H2 & H3)]].
    + left. pose proof (witness_result_number docs key o _ _ H3 H4) as Hn.
      assert (Nat.ltb 64 (length (out_witness o)) = false) as Ht by (apply Nat.ltb_ge; lia).
      unfold witness_result in *. rewrite Ht in *. cbn in *. split_and!; auto. by exists k.
    + right; left.
      assert (out_witness o ≠ []) as Hne by (intros H0; rewrite H0 in H3; cbn in H3; lia).
      split; [done|]. split; [|by eapply witness_result_number].
      exists key, (out_witness o), b. unfold witness_result.
      cbn [res_witness res_truncated]. split_and!; auto.
      destruct (Nat.ltb_spec 64 (length (out_witness o))); [done|].
      symmetry. apply take_ge. lia.
    + right; right. unfold witness_result. rewrite H2. by split_and!.
Qed.
