(* ===== verification/Graph.v ===== *)
(** * The dependency check of a submitted bundle

    [internal/preflight/graph.go]: every declared input must stay in its namespace and match the
    output of a submitted producer; then the walk of [Witness] looks for cycles and depth violations.
    The lemmas relate an accepted bundle to the composition walk of the controller. *)

From Stdlib Require Import Ascii.
From stdpp Require Import pretty.
From S2P Require Import Prelude Kube Api Regex GoJson GoStrings GoUrl Composition CompositionProofs CompositionComplete Reference Report Plan Witness.

Section Graph.
Context `{V : VersionApi}.

(** [products]: the last product of each key. *)
Definition bundle_products (docs : list document) : gmap string DataProduct :=
  fill productKey doc_product docs ∅.

Definition edge_total (docs : list document) : Z :=
  foldr Z.add 0%Z (map (λ doc, len (doc_inputs doc)) docs).

(** One input of the document with the number [number]. *)
Definition check_input (docs : list document) (doc : document) (number : Z) (inputIndex : nat)
    (input : InputPort) (report : Report) : Report :=
  let path := "/spec/inputs/" +:+ pretty inputIndex +:+ "/productRef" in
  let ref := Input_ProductRef input in
  let namespace := if Ref_Namespace ref == "" then Namespace (Meta (doc_product doc))
                   else Ref_Namespace ref in
  if namespace != Namespace (Meta (doc_product doc)) then
    addAt number "error" "CrossNamespaceInput" "spec.inputs" path report
  else match bundle_products docs !! (namespace +:+ "/" +:+ Ref_Name ref) with
  | None => addAt number "warning" "ProducerUnresolved" "spec.inputs" path report
  | Some producer =>
      let code := DeclaredInputCompatibility input producer in
      if code != "" then
        let path := if code == "OutputNotFound" then path +:+ "/output"
                    else "/spec/inputs/" +:+ pretty inputIndex +:+ "/contract" in
        addAt number "error" code "spec.inputs" path report
      else report
  end.
Fixpoint check_inputs (docs : list document) (doc : document) (number : Z) (index : nat)
    (inputs : list InputPort) (report : Report) : Report :=
  match inputs with
  | [] => report
  | input :: inputs' =>
      check_inputs docs doc number (S index) inputs' (check_input docs doc number index input report)
  end.
Fixpoint check_documents (docs rest : list document) (number : Z) (report : Report) : Report :=
  match rest with
  | [] => report
  | doc :: rest' =>
      check_documents docs rest' (number + 1)
        (check_inputs docs doc number 0 (doc_inputs doc) report)
  end.

(** [checkGraph]; [None] would mean that the walk ran out of fuel. *)
Definition checkGraph `{Env} (ctx : Ctx) (docs : list document) (report : Report)
  : ST World (option Report) :=
  if (1024 <? edge_total docs)%Z then
    mret (Some (add 0 "CompositionLimit" "spec.inputs" report))
  else
    let report := check_documents docs docs 1 report in
    if negb (Valid report) then mret (Some report)
    else
      r ← graphWitness ctx docs;
      match r with
      | None => mret None
      | Some res =>
          let number := Z.of_nat (res_number res) in
          if res_code res != "" then
            let path := match res_witness res with
                        | first :: _ => Step_Path first | [] => "/spec/inputs" end in
            mret (Some (addDetail number "error" (res_code res) path (res_witness res)
                          (res_truncated res)
                          (appendLegacy number "error" (res_code res) "spec.inputs" report)))
          else mret (Some report)
      end.

(** ** What the pass over the inputs leaves *)

(** An input without findings: its namespace, and a compatible producer in the bundle. *)
Definition input_sound (docs : list document) (doc : document) (input : InputPort) : Prop :=
  let ref := Input_ProductRef input in
  (if Ref_Namespace ref == "" then Namespace (Meta (doc_product doc)) else Ref_Namespace ref)
    = Namespace (Meta (doc_product doc)) ∧
  ∃ producer, bundle_products docs !! producer_key doc input = Some producer ∧
    DeclaredInputCompatibility input producer = "".

Lemma check_input_complete docs doc number index input r :
  Report_Complete (check_input docs doc number index input r) = true →
  input_sound docs doc input ∧ Report_Complete r = true ∧
  check_input docs doc number index input r = r.
Proof.
  unfold check_input, input_sound, producer_key.
  destruct (_ != Namespace _) eqn:Hn; [by rewrite (proj1 (addAt_flags _ _ _ _ _ _))|].
  go_bool. destruct (bundle_products docs !! _) as [p|] eqn:Hp;
    [|by rewrite (proj1 (addAt_flags _ _ _ _ _ _))].
  destruct (DeclaredInputCompatibility input p != "") eqn:Hc;
    [by rewrite (proj1 (addAt_flags _ _ _ _ _ _))|].
  go_bool. intros Hr. split; [|done]. split; [done|]. by exists p.
Qed.

Lemma check_inputs_complete docs doc number inputs : ∀ index r,
  Report_Complete (check_inputs docs doc number index inputs r) = true →
  Forall (input_sound docs doc) inputs ∧ check_inputs docs doc number index inputs r = r.
Proof.
  induction inputs as [|input inputs IH]; intros index r; cbn; [done|].
  intros Hr. destruct (IH _ _ Hr) as [Hf He]. rewrite He in Hr |- *.
  destruct (check_input_complete _ _ _ _ _ _ Hr) as (H1 & _ & H2). split; [by constructor|done].
Qed.

Lemma check_documents_complete docs rest : ∀ number r,
  Report_Complete (check_documents docs rest number r) = true →
  (∀ doc input, doc ∈ rest → input ∈ doc_inputs doc → input_sound docs doc input) ∧
  check_documents docs rest number r = r.
Proof.
  induction rest as [|doc rest IH]; intros number r; cbn.
  - intros _. split; [by intros ? ? ?%elem_of_nil|done].
  - intros Hr. destruct (IH _ _ Hr) as [Hf He]. rewrite He in Hr |- *.
    destruct (check_inputs_complete _ _ _ _ _ _ Hr) as [H1 H2]. split; [|done].
    intros d input [->|Hd]%elem_of_cons Hi; [|by eapply Hf].
    rewrite List.Forall_forall in H1. apply H1. by apply list_elem_of_In.
Qed.

Lemma check_input_kept docs doc number index input r : accounted r →
  accounted (check_input docs doc number index input r) ∧
  same_state r (check_input docs doc number index input r).
Proof.
  intros Hr. unfold check_input. repeat split_guard; auto with report; split; auto with report.
  all: reflexivity.
Qed.

Lemma check_documents_kept docs rest : ∀ number r, accounted r →
  accounted (check_documents docs rest number r) ∧
  same_state r (check_documents docs rest number r).
Proof.
  assert (∀ doc number inputs index r, accounted r →
    accounted (check_inputs docs doc number index inputs r) ∧
    same_state r (check_inputs docs doc number index inputs r)) as H.
  { intros doc number. induction inputs as [|input inputs IH]; intros index r Hr; cbn; [done|].
    destruct (check_input_kept docs doc number index input r Hr) as [H1 H2].
    destruct (IH (S index) _ H1) as [H3 H4]. split; [done|]. by etrans. }
  induction rest as [|doc rest IH]; intros number r Hr; cbn; [done|].
  destruct (H doc number (doc_inputs doc) 0 r Hr) as [H1 H2].
  destruct (IH (number + 1)%Z _ H1) as [H3 H4]. split; [done|]. by etrans.
Qed.

Lemma checkGraph_kept `{Env} ctx docs r w : accounted r →
  ∃ r' w', checkGraph ctx docs r w = (Some r', w') ∧ accounted r' ∧ same_state r r'.
Proof.
  intros Hr. unfold checkGraph. destruct (1024 <? _)%Z.
  { do 2 eexists. split; [done|]. unfold add. split; auto with report. }
  destruct (check_documents_kept docs docs 1 r Hr) as [H1 H2].
  set (r1 := check_documents docs docs 1 r) in *.
  destruct (negb (Valid r1)); [by exists r1, w|].
  unfold mbind, st_bind. destruct (graphWitness_spec ctx docs w) as (res & g & w1 & -> & _).
  destruct (res_code res != ""); [|by exists r1, w1].
  do 2 eexists. split; [done|]. split; [auto with report|].
  etrans; [exact H2|]. unfold addDetail, appendLegacy. destruct (_ <? _)%Z; by constructor.
Qed.
End Graph.

(** ** An accepted bundle is a sound snapshot of the composition walk *)

Section Accepted.
Context `{V : VersionApi}.

Definition no_slash (s : string) : Prop := "/"%char ∉ String.list_ascii_of_string s.

Lemma key_split ns ns' n n' : no_slash ns → no_slash ns' →
  ns +:+ "/" +:+ n = ns' +:+ "/" +:+ n' → ns = ns' ∧ n = n'.
Proof.
  unfold no_slash. revert ns'. induction ns as [|a ns IH]; intros [|b ns'] Ha Hb; cbn in Ha, Hb;
    rewrite ?str_app_nil, ?str_app_cons, ?str_app_nil.
  - by intros [= ->].
  - intros [= <- _]. exfalso. apply Hb. by left.
  - intros [= -> _]. exfalso. apply Ha. by left.
  - intros [= -> E].
    destruct (IH ns') as [-> ->]; auto; intros ?; [apply Ha|apply Hb]; by right.
Qed.

Definition product_key (doc : document) : ObjectKey := ObjectKeyFromObject (doc_product doc).
Definition bundle_snapshot (docs : list document) : gmap ObjectKey DataProduct :=
  fill product_key doc_product docs ∅.

Context (docs : list document).
Context (Hkeys : NoDup (map productKey docs)).
Context (Hslash : ∀ doc, doc ∈ docs → no_slash (Namespace (Meta (doc_product doc)))).

Lemma product_key_string doc : key_String (product_key doc) = productKey doc.
Proof. reflexivity. Qed.

Lemma product_keys_nodup : NoDup (map product_key docs).
Proof.
  apply (NoDup_fmap_1 key_String). change (NoDup (map key_String (map product_key docs))).
  by rewrite map_map.
Qed.

Lemma snapshot_lookup doc : doc ∈ docs → bundle_snapshot docs !! product_key doc = Some (doc_product doc).
Proof. apply (fill_lookup product_key doc_product), product_keys_nodup. Qed.

Lemma snapshot_inv k p : bundle_snapshot docs !! k = Some p →
  ∃ doc, doc ∈ docs ∧ k = product_key doc ∧ p = doc_product doc.
Proof. intros [?|He]%fill_inv; [done|]. by rewrite lookup_empty in He. Qed.

Lemma bundle_products_inv k p : bundle_products docs !! k = Some p →
  ∃ doc, doc ∈ docs ∧ k = productKey doc ∧ p = doc_product doc.
Proof. intros [?|He]%fill_inv; [done|]. by rewrite lookup_empty in He. Qed.

Lemma producer_key_resolved doc input :
  producer_key doc input =
  key_String (ref_key (resolvedReference (doc_product doc) (Input_ProductRef input))).
Proof.
  unfold producer_key, resolvedReference. by case_bool_decide.
Qed.

Lemma snapshot_total : ∀ l : list document, NoDup (map product_key l) →
  let snap := fill product_key doc_product l ∅ in
  total (λ k, match snap !! k with Some p => len (Inputs (Spec p)) | None => 0%Z end) (dom snap)
  = edge_total l ∧ size snap = length l.
Proof.
  clear. intros l. rewrite <- (reverse_involutive l). generalize (reverse l) as m. clear l.
  induction m as [|doc m IH]; [done|]. rewrite reverse_cons. intros Hnd snap.
  rewrite map_app in Hnd. cbn in Hnd.
  assert (NoDup (map product_key (reverse m)) ∧ product_key doc ∉ map product_key (reverse m))
    as [Hm Hn].
  { apply list.NoDup_app in Hnd as (H1 & H2 & _). split; [done|]. intros H.
    apply (H2 _ H). by left. }
  destruct (IH Hm) as [IH1 IH2]. set (s0 := fill product_key doc_product (reverse m) ∅) in *.
  assert (snap = <[product_key doc := doc_product doc]> s0) as Es.
  { subst snap s0. unfold fill. by rewrite foldl_app. }
  assert (s0 !! product_key doc = None) as H0.
  { subst s0. rewrite fill_other by done. apply lookup_empty. }
  rewrite Es. split.
  - rewrite dom_insert_L, total_insert by (by apply not_elem_of_dom).
    rewrite lookup_insert_eq.
    rewrite (total_ext _ (λ k, match s0 !! k with Some p => len (Inputs (Spec p)) | None => 0%Z end)).
    + rewrite IH1. unfold edge_total. rewrite map_app, foldr_app. cbn.
      rewrite (foldr_add_init _ (_ + 0)%Z). unfold doc_inputs. lia.
    + intros k Hk. rewrite lookup_insert_ne; [done|]. intros <-. by apply not_elem_of_dom in H0.
  - rewrite map_size_insert_None by done. rewrite length_app. cbn. lia.
Qed.

Lemma key_unique doc doc' : doc ∈ docs → doc' ∈ docs → productKey doc = productKey doc' → doc = doc'.
Proof.
  intros H H' E. pose proof (by_key_lookup docs Hkeys doc H) as L.
  rewrite E, (by_key_lookup docs Hkeys doc' H') in L. by injection L.
Qed.

(** The producer a sound input names. *)
Lemma input_sound_edge doc input : doc ∈ docs → input_sound docs doc input →
  let ref := resolvedReference (doc_product doc) (Input_ProductRef input) in
  ∃ doc', doc' ∈ docs ∧ Ref_Namespace ref = Namespace (Meta (doc_product doc)) ∧
    ref_key ref = product_key doc' ∧ producer_key doc input = productKey doc' ∧
    inputCompatibility input (doc_product doc') = "".
Proof.
  intros Hd [Hns (p & Hp & Hc)] ref. apply bundle_products_inv in Hp as (doc' & Hd' & Hk & ->).
  exists doc'. assert (Ref_Namespace ref = Namespace (Meta (doc_product doc))) as Hr.
  { rewrite <- Hns. unfold ref, resolvedReference. by case_bool_decide. }
  split_and!; auto.
  pose proof Hk as E. rewrite producer_key_resolved in E. fold ref in E. unfold key_String, ref_key in E.
  cbn in E. unfold productKey in E.
  apply key_split in E as [E1 E2]; [|rewrite Hr; by apply Hslash|by apply Hslash].
  unfold product_key, ObjectKeyFromObject, ref_key. by rewrite E1, E2.
Qed.

Lemma accepted_snapshot `{Env} ctx r r' w w' :
  (len docs ≤ 256)%Z → Valid r = true →
  checkGraph ctx docs r w = (Some r', w') → Report_Complete r' = true →
  ∃ rank, snapshot_ok (bundle_snapshot docs) rank.
Proof.
  intros Hlen Hv. unfold checkGraph. destruct (Z.ltb_spec 1024 (edge_total docs)) as [|Hedges].
  { intros [= <- <-]. unfold add. by rewrite (proj1 (addAt_flags _ _ _ _ _ _)). }
  set (r1 := check_documents docs docs 1 r).
  intros Hrun Hcomplete.
  assert (Report_Complete r1 = true ∧ ∃ g : witnessState,
    (∀ k l, suffixes g !! k = Some l → longest_route (by_key docs) k l) ∧
    ∀ k, k ∈ map productKey docs → ∃ l, suffixes g !! k = Some l ∧ length l < 64)
    as (Hc1 & g & Hlong & Hfin).
  { assert (Report_Complete r1 = true → r1 = r) as Hr1 by
      (intros Hx; apply (check_documents_complete docs docs 1 r Hx)).
    destruct (negb (Valid r1)) eqn:Hv1.
    - injection Hrun as <- <-. apply Hr1 in Hcomplete as Hx. rewrite Hx, Hv in Hv1. done.
    - unfold mbind, st_bind in Hrun.
      destruct (graphWitness_spec ctx docs w) as (res & g & w1 & Hg & Hres). rewrite Hg in Hrun.
      destruct (res_code res != "") eqn:Hcode.
      + injection Hrun as <- <-. done.
      + injection Hrun as <- <-. split; [done|]. exists g.
        destruct Hres as [(_ & H1 & H2)|(key & o & -> & _ & Hex)]; [done|].
        apply explained_code in Hex. go_bool. done. }
  destruct (check_documents_complete docs docs 1 r Hc1) as [Hsound _].
  destruct (snapshot_total docs product_keys_nodup) as [Htot Hsize].
  exists (λ k, length (default [] (suffixes g !! key_String k))). constructor.
  - intros k p (doc & _ & -> & ->)%snapshot_inv. done.
  - unfold bundle_snapshot. rewrite Hsize. exact Hlen.
  - unfold bundle_snapshot. rewrite Htot. exact Hedges.
  - intros k p input (doc & Hd & -> & ->)%snapshot_inv Hi.
    destruct (input_sound_edge doc input Hd (Hsound doc input Hd Hi)) as (doc' & Hd' & Hns & Hrk & Hpk & Hc).
    split; [done|]. rewrite Hrk. split.
    + destruct (Hfin (productKey doc)) as (l & Hl & _); [by apply list_elem_of_fmap_2|].
      destruct (Hfin (productKey doc')) as (l' & Hl' & _); [by apply list_elem_of_fmap_2|].
      change (ObjectKeyFromObject (doc_product doc)) with (product_key doc).
      rewrite !product_key_string, Hl, Hl'. cbn.
      destruct (Hlong _ _ Hl) as [_ Hmax]. destruct (Hlong _ _ Hl') as [[b Hb] _].
      apply list_elem_of_lookup_1 in Hi as [index Hi].
      assert (route (by_key docs) (productKey doc) (witness_step doc index :: l') b) as Hroute.
      { econstructor; [|exact Hb]. exists doc, index, input. split_and!; auto.
        - by apply by_key_lookup.
        - rewrite by_key_lookup by done. by eexists. }
      specialize (Hmax _ _ Hroute). cbn in Hmax. lia.
    + exists (doc_product doc'). split; [by apply snapshot_lookup|done].
  - intros k [p (doc & Hd & -> & ->)%snapshot_inv].
    destruct (Hfin (productKey doc)) as (l & Hl & Hlt); [by apply list_elem_of_fmap_2|].
    rewrite product_key_string, Hl. cbn. unfold maxCompositionDepth. lia.
Qed.
End Accepted.
