(* ===== verification/Admission.v ===== *)
(** * Admission of submitted declarations

    [internal/preflight/admission.go]: the embedded schema rules and the projection of validator errors
    into fixed categories and schema-known paths.  Pruning, OpenAPI, list and CEL validation are
    libraries; they are operations of [AdmissionApi] and of the loaded validator. *)

From Stdlib Require Import Ascii.
From stdpp Require Import pretty.
From S2P Require Import Prelude Kube GoStrings GoUrl Config Report.

(** [structural.Structural] as far as paths are concerned: [Properties] is a Go map, [Items] a pointer. *)
Unset Elimination Schemes.
Inductive Structural := mkStructural {
  Properties : list (string * Structural);
  Items : option Structural
}.
Set Elimination Schemes.

Definition property (shape : Structural) (name : string) : option Structural :=
  snd <$> find_first (λ e, fst e == name) (Properties shape).

(** [field.Error]. *)
Record FieldError := mkFieldError { Error_Type : string; Error_Field : string }.
Definition ErrorTypeRequired : string := "FieldValueRequired".
Definition ErrorTypeDuplicate : string := "FieldValueDuplicate".

(** [raw] before the first dot or opening bracket, and the rest: [strings.IndexAny] and two slices. *)
Fixpoint split_name (raw : string) : string * string :=
  match raw with
  | String.EmptyString => ("", "")
  | String.String a raw' =>
      if Ascii.eqb a "." || Ascii.eqb a "[" then ("", raw)
      else let '(name, rest) := split_name raw' in (String.String a name, rest)
  end.

(** The digits between the brackets at the head of [raw] when they are a canonical index of at most
    4095, and what follows the closing bracket. *)
Definition bracket_index (raw : string) : option (Z * string) :=
  match cut_first "]" raw with
  | None => None
  | Some (l, rest) =>
      if (slen l <? 2)%Z then None
      else
        let text := drop_bytes 1 l in
        match Atoi text with
        | None => None
        | Some index =>
            if ((index <? 0) || (4095 <? index))%Z || (pretty index != text) then None
            else Some (index, rest)
        end
  end.

(** The loop of [safeAdmissionPath]; every round shortens [raw] ([safe_loop_fuel]). *)
Fixpoint safe_loop (fuel : nat) (raw : string) (shape : Structural) (path : string) : string :=
  match fuel with
  | O => path
  | S fuel' =>
      let '(name, rest) := split_name raw in
      let step :=
        if name == "" then Some (shape, path)
        else match property shape name with
             | None => None
             | Some child => Some (child, path +:+ "/" +:+ name)
             end in
      match step with
      | None => path
      | Some (shape, path) =>
          match rest with
          | String.EmptyString => path
          | String.String a rest' =>
              if Ascii.eqb a "." then safe_loop fuel' rest' shape path
              else if negb (Ascii.eqb a "[") then path
              else match Items shape with
              | None => path
              | Some items =>
                  match bracket_index rest with
                  | None => path
                  | Some (index, after) =>
                      safe_loop fuel' (TrimPrefix after ".") items (path +:+ "/" +:+ pretty index)
                  end
              end
          end
      end
  end.

(** [safeAdmissionPath]. *)
Definition safeAdmissionPath (raw : string) (shape : Structural) : string :=
  if raw == "manifest" then ""
  else let raw := TrimPrefix raw "manifest." in safe_loop (S (String.length raw)) raw shape "".

(** [admissionFindings]. *)
Definition admission_finding (shape : Structural) (category : string) (err : FieldError) : finding :=
  let code := if Error_Type err == ErrorTypeRequired then "RequiredField" else category in
  let code := if Error_Type err == ErrorTypeDuplicate then "DuplicateListItem" else code in
  mkFinding code (safeAdmissionPath (Error_Field err) shape).
Definition admissionFindings (errs : list FieldError) (shape : Structural) (category : string)
  : list finding := map (admission_finding shape category) errs.

(** A decoded object. *)
Definition object := list (string * any).

Section Validate.
Context `{E : Env}.

(** [admission]: the structural schema, the OpenAPI validator and the CEL validator, which may be
    nil.  The CEL validator spends a budget and watches the context. *)
Record admission := mkAdmission {
  adm_schema : Structural;
  openAPI : object → list FieldError;
  adm_cel : option (Ctx → object → Z → ST World (list FieldError * Z))
}.

(** [pruning.PruneWithOptions] removes the unknown fields of the object and returns their paths;
    [listtype.ValidateListSetsAndMaps]; [celconfig.RuntimeCELCostBudget] is the cost one selection may
    spend. *)
Class AdmissionApi := {
  RuntimeCELCostBudget : Z;
  PruneWithOptions : object → Structural → list string * object;
  ValidateListSetsAndMaps : Structural → object → list FieldError
}.
Context `{A : AdmissionApi}.

(** [validate]: the findings and the remaining budget. *)
Definition validate (a : admission) (ctx : Ctx) (obj : object) (budget : Z)
  : ST World (list finding * Z) :=
  let '(unknown, obj) := PruneWithOptions obj (adm_schema a) in
  if (0 <? len unknown)%Z then
    mret (map (λ path, mkFinding "UnknownField" (safeAdmissionPath path (adm_schema a))) unknown,
          budget)
  else
    let errs := openAPI a obj ++ ValidateListSetsAndMaps (adm_schema a) obj in
    if (0 <? len errs)%Z then mret (admissionFindings errs (adm_schema a) "InvalidField", budget)
    else match adm_cel a with
    | None => mret ([], budget)
    | Some cel =>
        checked ← cel ctx obj budget;
        let '(errs, remaining) := checked in
        if (len errs =? 0)%Z then mret ([], remaining)
        else mret (admissionFindings errs (adm_schema a) "CrossFieldInvalid", remaining)
    end.
End Validate.

(** ** Paths of the schema

    A path made of property names of the schema and of list indices. *)
Inductive schema_path : Structural → string → Prop :=
  | schema_root shape : schema_path shape ""
  | schema_property shape name child p :
      property shape name = Some child → schema_path child p →
      schema_path shape ("/" +:+ name +:+ p)
  | schema_item shape child (index : nat) p :
      Items shape = Some child → schema_path child p →
      schema_path shape ("/" +:+ pretty index +:+ p).

(** [leads shape p child]: appending a path of [child] to [p] gives a path of [shape]. *)
Definition leads (shape : Structural) (p : string) (child : Structural) : Prop :=
  ∀ q, schema_path child q → schema_path shape (p +:+ q).

Lemma leads_root shape : leads shape "" shape.
Proof. by intros q. Qed.
Lemma leads_path shape p child : leads shape p child → schema_path shape p.
Proof. intros H. rewrite <- (str_app_nil_r p). apply H. constructor. Qed.
Lemma leads_property shape p child name c : leads shape p child → property child name = Some c →
  leads shape (p +:+ "/" +:+ name) c.
Proof.
  intros H Hn q Hq. rewrite <- str_app_assoc, <- str_app_assoc. apply H. by econstructor.
Qed.
Lemma leads_item shape p child (index : nat) c : leads shape p child → Items child = Some c →
  leads shape (p +:+ "/" +:+ pretty index) c.
Proof.
  intros H Hn q Hq. rewrite <- str_app_assoc, <- str_app_assoc. apply H. by eapply schema_item.
Qed.
#[export] Hint Resolve leads_root leads_path leads_property leads_item : report.

Lemma pretty_Z_nat (z : Z) : (0 ≤ z)%Z → pretty z = pretty (Z.to_nat z).
Proof.
  intros Hz. destruct z as [|p|p]; [done| |lia].
  unfold pretty, pretty_Z, pretty_nat. f_equal. rewrite Z2Nat.inj_pos, positive_nat_N. done.
Qed.

Lemma safe_loop_path shape0 fuel : ∀ raw shape path,
  leads shape0 path shape → schema_path shape0 (safe_loop fuel raw shape path).
Proof.
  induction fuel as [|fuel IH]; intros raw shape path Hp; cbn [safe_loop]; [eauto with report|].
  destruct (split_name raw) as [name rest].
  destruct (if name == "" then Some (shape, path) else _) as [[shape1 path1]|] eqn:Hstep;
    [|eauto with report].
  assert (leads shape0 path1 shape1) as Hp1.
  { destruct (name == ""); [by injection Hstep as <- <-|].
    destruct (property shape name) as [child|] eqn:Hc; [|done]. injection Hstep as <- <-.
    by eapply leads_property. }
  destruct rest as [|a rest]; [eauto with report|].
  destruct (Ascii.eqb a "."); [by apply IH|]. destruct (negb _); [eauto with report|].
  destruct (Items shape1) as [items|] eqn:Hi; [|eauto with report].
  destruct (bracket_index _) as [[index after]|] eqn:Hb; [|eauto with report].
  apply IH. assert (0 ≤ index)%Z as Hpos.
  { unfold bracket_index in Hb. destruct (cut_first _ _) as [[l r]|]; [|done].
    destruct (slen l <? 2)%Z; [done|]. destruct (Atoi _) as [z|]; [|done].
    destruct (_ || _) eqn:Hr in Hb; [done|]. injection Hb as -> _. go_bool. lia. }
  rewrite (pretty_Z_nat _ Hpos). by eapply leads_item.
Qed.

Lemma safeAdmissionPath_path raw shape : schema_path shape (safeAdmissionPath raw shape).
Proof.
  unfold safeAdmissionPath. case_bool_decide; [constructor|]. apply safe_loop_path, leads_root.
Qed.

(** Every finding of the validator has a code of the fixed categories and a schema path. *)
Definition safe_finding (shape : Structural) (f : finding) : Prop :=
  finding_code f ∈ ["UnknownField"; "InvalidField"; "RequiredField"; "DuplicateListItem";
                    "CrossFieldInvalid"]%string ∧
  schema_path shape (finding_path f).

Lemma admissionFindings_safe errs shape category :
  category = "InvalidField" ∨ category = "CrossFieldInvalid" →
  Forall (safe_finding shape) (admissionFindings errs shape category).
Proof.
  intros Hc. apply list.Forall_forall. intros f (err & -> & _)%list_elem_of_fmap.
  split; [|apply safeAdmissionPath_path]. unfold admission_finding. cbn.
  repeat case_bool_decide; destruct Hc as [-> | ->]; set_solver.
Qed.

Lemma validate_safe `{E : Env} `{A : AdmissionApi} a ctx obj budget w :
  Forall (safe_finding (adm_schema a)) (fst (fst (validate a ctx obj budget w))).
Proof.
  unfold validate. destruct (PruneWithOptions obj (adm_schema a)) as [unknown obj'].
  destruct (0 <? len unknown)%Z.
  { apply list.Forall_forall. intros f (path & -> & _)%list_elem_of_fmap.
    split; [set_solver|apply safeAdmissionPath_path]. }
  destruct (0 <? len _)%Z; [apply admissionFindings_safe; auto|].
  destruct (adm_cel a) as [cel|]; [|constructor].
  unfold mbind, st_bind. destruct (cel ctx obj' budget w) as [[errs remaining] w'].
  destruct (len errs =? 0)%Z; [constructor|apply admissionFindings_safe; auto].
Qed.

(** ** The fuel of [safe_loop] is enough *)

Lemma split_name_length raw name rest : split_name raw = (name, rest) →
  String.length raw = String.length name + String.length rest.
Proof.
  revert name rest. induction raw as [|a raw IH]; intros name rest; cbn; [by intros [= <- <-]|].
  destruct (_ || _); [by intros [= <- <-]|].
  destruct (split_name raw) as [n r] eqn:E. intros [= <- <-]. cbn. by rewrite (IH n r).
Qed.

Lemma cut_first_length c s l r : cut_first c s = Some (l, r) →
  String.length s = S (String.length l + String.length r).
Proof.
  revert l. induction s as [|a s IH]; intros l; cbn; [done|].
  destruct (Ascii.eqb a c); [by intros [= <- <-]|].
  destruct (cut_first c s) as [[l' r']|]; [|done]. intros [= <- <-]. cbn. by rewrite (IH l').
Qed.

Lemma TrimPrefix_length s p : String.length (TrimPrefix s p) ≤ String.length s.
Proof.
  unfold TrimPrefix. destruct (HasPrefix s p); [|done]. generalize (String.length p) as n.
  intros n. revert s. induction n as [|n IH]; intros [|a s]; cbn; try done. specialize (IH s). lia.
Qed.

Lemma safe_loop_fuel n : ∀ m raw shape path,
  String.length raw < n → String.length raw < m →
  safe_loop n raw shape path = safe_loop m raw shape path.
Proof.
  induction n as [|n IH]; intros [|m] raw shape path Hn Hm; try lia. cbn [safe_loop].
  destruct (split_name raw) as [name rest] eqn:Es. apply split_name_length in Es.
  destruct (if name == "" then _ else _) as [[shape1 path1]|]; [|done].
  destruct rest as [|a rest]; [done|]. cbn in Es.
  destruct (Ascii.eqb a "."); [apply IH; lia|]. destruct (negb _); [done|].
  destruct (Items shape1) as [items|]; [|done].
  destruct (bracket_index _) as [[index after]|] eqn:Hb; [|done].
  assert (String.length after ≤ String.length rest).
  { unfold bracket_index in Hb. destruct (cut_first _ _) as [[l r]|] eqn:Hc; [|done].
    apply cut_first_length in Hc. cbn in Hc.
    destruct (slen l <? 2)%Z; [done|]. destruct (Atoi _) as [z|]; [|done].
    destruct (_ || _) in Hb; [done|]. injection Hb as _ ->. lia. }
  pose proof (TrimPrefix_length after "."). apply IH; lia.
Qed.
