(* ===== verification/Input.v ===== *)
(** * Reading submitted documents

    [internal/preflight/input.go]: bounded readers, syntax guards on YAML nodes, the position of every
    schema-known field, and the loop over the physical documents of each selected source.  The YAML and
    JSON decoders are libraries ([DecoderApi]); nodes and decoded values are data of theirs. *)

From Stdlib Require Import Ascii.
From stdpp Require Import pretty.
From S2P Require Import Prelude Kube Api GoStrings GoUrl Config Report Admission.

Definition maxInputBytes : Z := 2097152.

(** ** YAML nodes *)

Inductive NodeKind := DocumentNode | SequenceNode | MappingNode | ScalarNode | AliasNode | ZeroNode.
#[export] Instance NodeKind_eq_dec : EqDecision NodeKind.
Proof. solve_decision. Defined.

(** [yaml.Node]: the content of a mapping alternates keys and values. *)
Unset Elimination Schemes.
Inductive Node := mkNode {
  Kind : NodeKind;
  Tag : string;
  Anchor : string;
  Value : string;
  Line : Z;
  Column : Z;
  Content : list Node
}.
Set Elimination Schemes.

Lemma Node_ind (P : Node → Prop) :
  (∀ k t a v l c content, Forall P content → P (mkNode k t a v l c content)) → ∀ n, P n.
Proof.
  intros H. fix IH 1. intros [k t a v l c content]. apply H.
  induction content as [|n content IHc]; constructor; auto.
Qed.

(** The keys of a mapping's content: every other node. *)
Fixpoint map_keys (content : list Node) : list Node :=
  match content with
  | key :: _ :: rest => key :: map_keys rest
  | [key] => [key]
  | [] => []
  end.

Definition allowed_tags : list string :=
  ["!!map"; "!!seq"; "!!str"; "!!int"; "!!float"; "!!bool"; "!!null"; "!!timestamp"]%string.

(** The loop over the keys, with the set of names seen so far. *)
Fixpoint keys_unambiguous (keys : list Node) (seen : gset string) : bool :=
  match keys with
  | [] => true
  | key :: keys' =>
      if (Kind key != ScalarNode) || bool_decide (Value key ∈ seen) then false
      else keys_unambiguous keys' ({[Value key]} ∪ seen)
  end.

(** [checkNode]. *)
Fixpoint checkNode (node : Node) (depth : Z) {struct node} : string :=
  if (64 <? depth)%Z then "DepthLimit"
  else if (Kind node == AliasNode) || (Anchor node != "") then "InvalidDocument"
  else if (Tag node != "") && negb (bool_decide (Tag node ∈ allowed_tags)) then "InvalidDocument"
  else if Kind node == ZeroNode then "InvalidDocument"
  else if (Kind node == MappingNode) && negb (keys_unambiguous (map_keys (Content node)) ∅)
  then "InvalidDocument"
  else (fix children (content : list Node) : string :=
          match content with
          | [] => ""
          | child :: content' =>
              let code := checkNode child (depth + 1) in
              if code != "" then code else children content'
          end) (Content node).

(** [collectPositions]; a nil shape is [None]. *)
Fixpoint collectPositions (node : Node) (shape : option Structural) (path : string)
    (origin : Position) (fields : gmap string Position) {struct node} : gmap string Position :=
  match shape with
  | None => fields
  | Some shape =>
      let at_ (n : Node) := mkPosition (Pos_Source origin) (Pos_Document origin) (Line n) (Column n)
                              (Pos_path origin) in
      let origin := at_ node in
      let fields := <[path := origin]> fields in
      match Kind node with
      | MappingNode =>
          (fix entries (content : list Node) (fields : gmap string Position) :=
             match content with
             | key :: value :: rest =>
                 match property shape (Value key) with
                 | None => entries rest fields
                 | Some child =>
                     let childPath := path +:+ "/" +:+ Value key in
                     let fields := collectPositions value (Some child) childPath origin fields in
                     entries rest (<[childPath := at_ key]> fields)
                 end
             | _ => fields
             end) (Content node) fields
      | SequenceNode =>
          match Items shape with
          | None => fields
          | Some items =>
              (fix elements (index : nat) (content : list Node) (fields : gmap string Position) :=
                 match content with
                 | [] => fields
                 | child :: rest =>
                     elements (S index) rest
                       (collectPositions child (Some items) (path +:+ "/" +:+ pretty index) origin
                          fields)
                 end) 0 (Content node) fields
          end
      | _ => fields
      end
  end.

Definition join_key (raw key : string) : string := if raw != "" then raw +:+ "." +:+ key else key.

(** [unknownContainer]. *)
Fixpoint unknownContainer (node : Node) (shape : Structural) (path raw target : string)
  {struct node} : string * bool :=
  match Kind node with
  | MappingNode =>
      if (len (Properties shape) =? 0)%Z then
        (path, (target == raw) || HasPrefix target (raw +:+ "."))
      else if existsb (λ key, negb (non_nil (property shape (Value key))) &&
                              (join_key raw (Value key) == target)) (map_keys (Content node))
      then (path, true)
      else (fix entries (content : list Node) :=
              match content with
              | key :: value :: rest =>
                  match property shape (Value key) with
                  | None => entries rest
                  | Some child =>
                      let '(found, ok) := unknownContainer value child (path +:+ "/" +:+ Value key)
                                            (join_key raw (Value key)) target in
                      if ok then (found, true) else entries rest
                  end
              | _ => ("", false)
              end) (Content node)
  | SequenceNode =>
      match Items shape with
      | None => ("", false)
      | Some items =>
          (fix elements (index : nat) (content : list Node) :=
             match content with
             | [] => ("", false)
             | child :: rest =>
                 let '(found, ok) := unknownContainer child items (path +:+ "/" +:+ pretty index)
                                       (raw +:+ "[" +:+ pretty index +:+ "]") target in
                 if ok then (found, true) else elements (S index) rest
             end) 0 (Content node)
      end
  | _ => ("", false)
  end.

(** ** Decoded values *)

(** What the YAML 1.1 decoder stores in an [any]: maps with arbitrary or string keys, sequences and
    scalars, nil among them. *)
Unset Elimination Schemes.
Inductive yvalue :=
  | YMap (entries : list (yvalue * yvalue))
  | YStringMap (entries : list (string * yvalue))
  | YSeq (values : list yvalue)
  | YScalar (scalar : any).
Set Elimination Schemes.

(** [key.(string)]. *)
Definition as_key (key : yvalue) : option string :=
  match key with YScalar (AString name) => Some name | _ => None end.

(** [value == nil]. *)
Definition is_nil_value (value : yvalue) : bool :=
  match value with YScalar ANil => true | _ => false end.

(** [jsonValue]; [None] is its error. *)
Fixpoint jsonValue (value : yvalue) : option any :=
  match value with
  | YMap entries =>
      AMap <$> (fix go (entries : list (yvalue * yvalue)) : option (list (string * any)) :=
        match entries with
        | [] => Some []
        | (key, child) :: entries' =>
            match as_key key with
            | None => None
            | Some name =>
                match jsonValue child with
                | None => None
                | Some converted => cons (name, converted) <$> go entries'
                end
            end
        end) entries
  | YStringMap entries =>
      AMap <$> (fix go (entries : list (string * yvalue)) : option (list (string * any)) :=
        match entries with
        | [] => Some []
        | (key, child) :: entries' =>
            match jsonValue child with
            | None => None
            | Some converted => cons (key, converted) <$> go entries'
            end
        end) entries
  | YSeq values =>
      ASlice <$> (fix go (values : list yvalue) : option (list any) :=
        match values with
        | [] => Some []
        | child :: values' =>
            match jsonValue child with
            | None => None
            | Some converted => cons converted <$> go values'
            end
        end) values
  | YScalar scalar => Some scalar
  end.

(** A field of a decoded object; a missing key reads as nil. *)
Definition object_field (obj : object) (key : string) : any :=
  match find_first (λ e, fst e == key) obj with Some (_, v) => v | None => ANil end.
Definition is_string (v : any) (s : string) : bool :=
  match v with AString t => t == s | _ => false end.
Definition is_nil (v : any) : bool := match v with ANil => true | _ => false end.

(** The [spec] of the object declares a canonical non-null [ui]. *)
Definition declares_ui (obj : object) : bool :=
  match object_field obj "spec" with
  | AMap spec => negb (is_nil (object_field spec "ui"))
  | _ => false
  end.

(** ** The decoders *)

(** One [Decode] of the YAML node decoder. *)
Inductive node_result := NodeEOF | NodeError | NodeValue (node : Node).

(** Streams of documents as successive decoder states; [None] is an error.  [MarshalValue] is
    [json.Marshal] of a decoded value, left abstract because it prints floating-point scalars;
    [UnmarshalObject] decodes into a map, nil being [Some None]; [UnmarshalStrict] decodes the typed
    product with its strict errors, each with its field path when it is a [FieldError]. *)
Class DecoderApi := {
  NodeDecoder : Type;
  NewNodeDecoder : string → NodeDecoder;
  DecodeNode : NodeDecoder → node_result * NodeDecoder;
  ValueDecoder : Type;
  NewValueDecoder : string → ValueDecoder;
  DecodeValue : ValueDecoder → option yvalue * ValueDecoder;
  MarshalValue : any → option string;
  UnmarshalObject : string → option (option object);
  UnmarshalStrict : string → option (DataProduct * list (option string))
}.

Section Read.
Context `{E : Env} `{D : DecoderApi}.

(** How a call of [Read] ends: a nil error, [io.EOF] or another error. *)
Inductive read_end := ReadMore | ReadEOF | ReadError (err : error).

(** [io.Reader]: asked for at most so many bytes. *)
Definition io_Reader : Type := Z → ST World (string * read_end).

(** [cancelReader.Read]. *)
Definition cancelReader_Read (ctx : Ctx) (reader : io_Reader) : io_Reader := λ n,
  err ← Err ctx;
  match err with
  | Some e => mret ("", ReadError e)
  | None => reader n
  end.

(** [io.ReadAll(io.LimitReader(reader, limit))]: a read is asked for all that is left, since a reader
    may return fewer bytes anyway.  [None]: the fuel, one step per byte, runs out only for
    a reader that returns no bytes without an error ([ReadAll_total]). *)
Fixpoint ReadAll (fuel : nat) (reader : io_Reader) (limit : Z) (acc : string)
  : ST World (option (string + error)) :=
  if (limit <=? 0)%Z then mret (Some (inl acc))
  else match fuel with
  | O => mret None
  | S fuel' =>
      r ← reader limit;
      let '(chunk, ending) := r in
      let acc := acc +:+ chunk in
      match ending with
      | ReadEOF => mret (Some (inl acc))
      | ReadError err => mret (Some (inr err))
      | ReadMore => ReadAll fuel' reader (limit - slen chunk) acc
      end
  end.

(** ** The documents of one source *)

(** The closures of the caller that are told where a document declares a UI; they update the report
    under construction. *)
Definition uiDeclarationVisitor : Type := Z → Position → Report → Report.

(** The results of [parseSource] and the counter it updates. *)
Record parsed := mkParsed {
  parsed_documents : list document;
  parsed_summary : SourceSummary;
  parsed_code : string;
  parsed_number : Z;
  parsed_failure : Position;
  parsed_physical : Z
}.

(** The local variables of the loop. *)
Record parse_state := mkParse {
  ps_decoder : NodeDecoder;
  ps_values : ValueDecoder;
  ps_documents : list document;
  ps_summary : SourceSummary;
  ps_physical : Z
}.

Definition parse_fail (s : parse_state) (code : string) (number : Z) (origin : Position) : parsed :=
  mkParsed [] (ps_summary s) code number origin (ps_physical s).

(** The checks and decoders of one physical document, after its node was decoded: a failure with its
    position, nothing for an empty document, or the document; and the report the visitors leave. *)
Inductive entry :=
  | EntryFail (code : string) (origin : Position)
  | EntryEmpty
  | EntryDocument (doc : document).

Definition first_content (node : Node) : option Node := head (Content node).

Definition unknown_origin (validator : option admission) (node : Node)
    (fields : gmap string Position) (origin : Position) (strictErrors : list (option string))
  : Position :=
  match strictErrors, validator, first_content node with
  | Some target :: _, Some a, Some content =>
      let '(path, _) := unknownContainer content (adm_schema a) "" "" target in
      let origin := default origin (fields !! path) in
      mkPosition (Pos_Source origin) (Pos_Document origin) (Pos_Line origin) (Pos_Column origin) path
  | _, _, _ => origin
  end.

Definition node_origin (origin : Position) (node : Node) : Position :=
  match first_content node with
  | Some content => mkPosition (Pos_Source origin) (Pos_Document origin) (Line content)
                      (Column content) (Pos_path origin)
  | None => origin
  end.

Definition document_fields (validator : option admission) (node : Node) (origin : Position)
  : gmap string Position :=
  match validator, first_content node with
  | Some a, Some content => collectPositions content (Some (adm_schema a)) "" origin ∅
  | _, _ => ∅
  end.

(** From [value, err = jsonValue(value)] to the end of the loop body. *)
Definition parse_object (validator : option admission) (visitors : list uiDeclarationVisitor)
    (node : Node) (value : yvalue) (number : Z) (origin : Position) (report : Report)
  : entry * Report :=
  match jsonValue value with
  | None => (EntryFail "InvalidDocument" origin, report)
  | Some value =>
      match MarshalValue value with
      | None => (EntryFail "InvalidDocument" origin, report)
      | Some encoded =>
          match UnmarshalObject encoded with
          | None | Some None => (EntryFail "InvalidDocument" origin, report)
          | Some (Some obj) =>
              if negb (is_string (object_field obj "apiVersion") "data.devantler.tech/v1alpha1")
                 || negb (is_string (object_field obj "kind") "DataProduct")
              then (EntryFail "UnsupportedResource" origin, report)
              else
                let fields := document_fields validator node origin in
                let report :=
                  if declares_ui obj then
                    let position := default origin (fields !! "/spec/ui") in
                    foldl (λ r visit, visit number position r) report visitors
                  else report in
                match UnmarshalStrict encoded with
                | None => (EntryFail "AdmissionInvalid" origin, report)
                | Some (product, []) =>
                    (EntryDocument (mkDocument product obj origin fields), report)
                | Some (product, strictErrors) =>
                    (EntryFail "UnknownField"
                       (unknown_origin validator node fields origin strictErrors), report)
                end
          end
      end
  end.

(** The part before it: positions, the syntax guards, the decoded value and the product limit. *)
Definition parse_entry (validator : option admission) (visitors : list uiDeclarationVisitor)
    (node : Node) (value : option yvalue) (number already : Z) (origin : Position) (report : Report)
  : entry * Report :=
  let origin := node_origin origin node in
  let code := checkNode node 0 in
  if code != "" then (EntryFail code origin, report)
  else match value with
  | None => (EntryFail "InvalidDocument" origin, report)
  | Some value =>
      if is_nil_value value then (EntryEmpty, report)
      else if (256 <=? already)%Z then (EntryFail "ProductLimit" origin, report)
      else parse_object validator visitors node value number origin report
  end.

(** The loop of [parseSource].  Every round reads one physical document and at most 4096 are allowed,
    so [parse_fuel] is enough ([parse_loop_total]). *)
Fixpoint parse_loop (fuel : nat) (validator : option admission)
    (visitors : list uiDeclarationVisitor) (ctx : Ctx) (source prior : Z) (origin : Position)
    (s : parse_state) : ST (Report * World) (option parsed) := λ rw,
  match fuel with
  | O => (None, rw)
  | S fuel' =>
      let number := (prior + len (ps_documents s) + 1)%Z in
      let '(err, w) := Err ctx (snd rw) in
      if non_nil err then (Some (parse_fail s "ValidationLimit" number origin), (fst rw, w))
      else
        let '(decoded, decoder) := DecodeNode (ps_decoder s) in
        match decoded with
        | NodeEOF =>
            (Some (mkParsed (ps_documents s) (ps_summary s) "" 0 no_position (ps_physical s)),
             (fst rw, w))
        | _ =>
            let summary := mkSummary source (Summary_Documents (ps_summary s) + 1)
                             (Summary_Products (ps_summary s)) in
            let physical := (ps_physical s + 1)%Z in
            let s := mkParse decoder (ps_values s) (ps_documents s) summary physical in
            let origin := mkPosition source (Summary_Documents summary) 0 0 "" in
            if (4096 <? physical)%Z
            then (Some (parse_fail s "DocumentLimit" number origin), (fst rw, w))
            else match decoded with
            | NodeValue node =>
                let '(value, values) := DecodeValue (ps_values s) in
                let '(result, report) :=
                  parse_entry validator visitors node value number (prior + len (ps_documents s))
                    origin (fst rw) in
                match result with
                | EntryFail code origin => (Some (parse_fail s code number origin), (report, w))
                | EntryEmpty =>
                    parse_loop fuel' validator visitors ctx source prior (node_origin origin node)
                      (mkParse decoder values (ps_documents s) summary physical) (report, w)
                | EntryDocument doc =>
                    parse_loop fuel' validator visitors ctx source prior (doc_origin doc)
                      (mkParse decoder values (ps_documents s ++ [doc])
                         (mkSummary source (Summary_Documents summary)
                            (Summary_Products summary + 1)) physical)
                      (report, w)
                end
            | _ => (Some (parse_fail s "InvalidDocument" number origin), (fst rw, w))
            end
        end
  end.

Definition parse_fuel : nat := 4098.

Definition parseSource (validator : option admission) (visitors : list uiDeclarationVisitor)
    (ctx : Ctx) (input : string) (source prior physical : Z)
  : ST (Report * World) (option parsed) :=
  parse_loop parse_fuel validator visitors ctx source prior (mkPosition source 0 0 0 "")
    (mkParse (NewNodeDecoder input) (NewValueDecoder input) [] (mkSummary source 0 0) physical).

(** ** All selected sources *)

Record selection := mkSelection {
  sel_documents : list document;
  sel_summaries : list SourceSummary;
  sel_code : string;
  sel_number : Z;
  sel_failure : Position
}.

(** The loop over the sources; [index] sources were read. *)
Fixpoint read_sources (validator : option admission) (visitors : list uiDeclarationVisitor)
    (ctx : Ctx) (sources : list (option io_Reader)) (index : nat) (remaining physical : Z)
    (documents : list document) (summaries : list SourceSummary)
  : ST (Report * World) (option selection) := λ rw,
  match sources with
  | [] =>
      (Some (if (len documents =? 0)%Z then mkSelection [] summaries "NoProducts" 0 no_position
             else mkSelection documents summaries "" 0 no_position), rw)
  | source :: sources' =>
      let origin := mkPosition (Z.of_nat index + 1) 0 0 0 "" in
      let fail code number w := (Some (mkSelection [] summaries code number origin), (fst rw, w)) in
      let '(err, w) := Err ctx (snd rw) in
      if non_nil err then fail "ValidationLimit" (len documents + 1)%Z w
      else match source with
      | None => fail "ReadFailed" 0%Z w
      | Some reader =>
          let limit := (remaining + 1)%Z in
          match ReadAll (Z.to_nat limit) (cancelReader_Read ctx reader) limit "" w with
          | (None, w) => (None, (fst rw, w))
          | (Some (inr _), w) =>
              let '(err, w) := Err ctx w in
              fail (if non_nil err then "ValidationLimit" else "ReadFailed") 0%Z w
          | (Some (inl input), w) =>
              if (remaining <? slen input)%Z then fail "InputLimit" 0%Z w
              else
                match parseSource validator visitors ctx input (Z.of_nat index + 1) (len documents)
                        physical (fst rw, w) with
                | (None, rw) => (None, rw)
                | (Some p, rw) =>
                    let summaries := <[index := parsed_summary p]> summaries in
                    if parsed_code p != "" then
                      (Some (mkSelection [] summaries (parsed_code p) (parsed_number p)
                               (parsed_failure p)), rw)
                    else
                      read_sources validator visitors ctx sources' (S index)
                        (remaining - slen input) (parsed_physical p)
                        (documents ++ parsed_documents p) summaries rw
                end
          end
      end
  end.

(** [readSelected]. *)
Definition readSelected (validator : option admission) (visitors : list uiDeclarationVisitor)
    (ctx : Ctx) (sources : list (option io_Reader)) : ST (Report * World) (option selection) :=
  if (32 <? len sources)%Z then
    mret (Some (mkSelection [] [] "SourceLimit" 0 no_position))
  else
    read_sources validator visitors ctx sources 0 maxInputBytes 0 []
      (imap (λ index _, mkSummary (Z.of_nat index + 1) 0 0) sources).

(** [readDocuments] with the background context. *)
Definition readDocuments (validator : option admission) (background : Ctx) (in_ : option io_Reader)
  : ST (Report * World) (option (list document * string * Z)) :=
  r ← readSelected validator [] background [in_];
  mret ((λ sel, (sel_documents sel, sel_code sel, sel_number sel)) <$> r).
End Read.
