(* ===== verification/InputSpec.v ===== *)
(** * Reading submitted documents: what is guaranteed

    Exactness of the syntax guards, privacy of the recorded positions, totality of the loops, the bounds
    and shape of what [readSelected] accepts, and the decoded inputs it was made from. *)

From Stdlib Require Import Ascii.
From stdpp Require Import pretty.
From S2P Require Import Prelude Kube Api GoStrings GoUrl Config Report Admission Input.

(** ** Syntax guards *)

(** [below n d m]: [m] is [n] or one of its descendants, [d] levels below it. *)
Inductive below : Node → Z → Node → Prop :=
  | below_here n : below n 0 n
  | below_child n child d m : child ∈ Content n → below child d m → below n (d + 1) m.

(** What one node must satisfy. *)
Record unambiguous (n : Node) : Prop := {
  un_kind : Kind n ≠ AliasNode ∧ Kind n ≠ ZeroNode;
  un_anchor : Anchor n = "";
  un_tag : Tag n = "" ∨ Tag n ∈ allowed_tags;
  un_keys : Kind n = MappingNode →
    Forall (λ key, Kind key = ScalarNode) (map_keys (Content n)) ∧
    NoDup (map Value (map_keys (Content n)))
}.

Lemma keys_unambiguous_spec keys : ∀ seen, keys_unambiguous keys seen = true ↔
  Forall (λ key, Kind key = ScalarNode) keys ∧ NoDup (map Value keys) ∧
  ∀ key, key ∈ keys → Value key ∉ seen.
Proof.
  induction keys as [|key keys IH]; intros seen; cbn [keys_unambiguous map].
  - split; [|done]. intros _. split_and!; [constructor..|]. by intros ? ?%elem_of_nil.
  - destruct ((Kind key != ScalarNode) || bool_decide (Value key ∈ seen)) eqn:Hk.
    + split; [done|]. intros (Hs & _ & Hn). apply orb_true_iff in Hk as [Hk|Hk]; go_bool.
      * by apply Forall_cons_iff in Hs as [Hs _].
      * exfalso. by apply (Hn key); [left|].
    + go_bool. destruct Hk as [Hk Hv]. rewrite IH, Forall_cons_iff, list.NoDup_cons. split.
      * intros (H1 & H2 & H3). split_and!; auto.
        -- intros (k & E & Hin)%list_elem_of_fmap. apply (H3 k Hin). rewrite <- E. set_solver.
        -- intros k [->|Hin]%elem_of_cons; [done|]. specialize (H3 k Hin). set_solver.
      * intros ((H1 & H1') & (H2 & H2') & H3). split_and!; auto. intros k Hin.
        apply not_elem_of_union. split; [|apply H3; by right].
        intros E%elem_of_singleton. apply H2. rewrite <- E. by apply list_elem_of_fmap_2.
Qed.

(** The loop over the children of a node. *)
Fixpoint check_children (content : list Node) (depth : Z) : string :=
  match content with
  | [] => ""
  | child :: content' =>
      let code := checkNode child depth in
      if code != "" then code else check_children content' depth
  end.

Lemma checkNode_unfold node depth : checkNode node depth =
  if (64 <? depth)%Z then "DepthLimit"
  else if (Kind node == AliasNode) || (Anchor node != "") then "InvalidDocument"
  else if (Tag node != "") && negb (bool_decide (Tag node ∈ allowed_tags)) then "InvalidDocument"
  else if Kind node == ZeroNode then "InvalidDocument"
  else if (Kind node == MappingNode) && negb (keys_unambiguous (map_keys (Content node)) ∅)
  then "InvalidDocument"
  else check_children (Content node) (depth + 1).
Proof.
  destruct node as [k t a v l c content]. cbn [checkNode Kind Tag Anchor Content].
  repeat (destruct (_ : bool); [done|]). induction content as [|n content IH]; [done|].
  cbn [check_children]. by rewrite IH.
Qed.

Lemma check_children_empty content depth : check_children content depth = "" ↔
  ∀ child, child ∈ content → checkNode child depth = "".
Proof.
  induction content as [|child content IH]; cbn [check_children].
  - split; [|done]. by intros _ ? ?%elem_of_nil.
  - case_bool_decide as Hc; cbn [negb].
    + rewrite IH. split.
      * intros H c [->|Hin]%elem_of_cons; auto.
      * intros H c Hin. apply H. by right.
    + split; [done|]. intros H. rewrite (H child) in Hc by (by left). done.
Qed.

Lemma checkNode_exact node : ∀ depth,
  checkNode node depth = "" ↔
  ∀ d m, below node d m → (depth + d ≤ 64)%Z ∧ unambiguous m.
Proof.
  induction node as [k t a v l c content IH] using Node_ind. intros depth.
  rewrite checkNode_unfold. set (node := mkNode k t a v l c content).
  assert (∀ d m, below node d m → (0 ≤ d)%Z) as Hpos.
  { clear. intros d m. induction 1; lia. }
  split.
  - destruct (64 <? depth)%Z eqn:Hd; [done|]. apply Z.ltb_ge in Hd.
    destruct (_ || _) eqn:Ha; [done|]. destruct (_ && _) eqn:Ht; [done|].
    destruct (Kind node == ZeroNode) eqn:Hz; [done|].
    destruct ((Kind node == MappingNode) && _) eqn:Hm; [done|]. go_bool.
    rewrite check_children_empty. intros Hch d m Hb. inversion Hb as [|? child d' ? Hin Hb']; subst.
    + split; [lia|]. destruct Ha as [Ha1 Ha2]. constructor; auto.
      intros Hk. destruct Hm as [?|Hm]; [done|]. apply keys_unambiguous_spec in Hm. tauto.
    + rewrite List.Forall_forall in IH. apply list_elem_of_In in Hin as Hin'.
      specialize (IH child Hin' (depth + 1)%Z). destruct (proj1 IH (Hch child Hin) d' m Hb').
      split; [lia|done].
  - intros H. destruct (H 0%Z node (below_here _)) as [Hd Hu]. destruct Hu as [[U1 U2] U3 U4 U5].
    rewrite (proj2 (Z.ltb_ge _ _)) by lia. rewrite (bool_decide_false _ U1), (bool_decide_true _ U3).
    cbn [orb negb].
    assert ((Tag node != "") && negb (bool_decide (Tag node ∈ allowed_tags)) = false) as ->.
    { apply andb_false_iff. destruct U4; [left|right]; by rewrite bool_decide_true. }
    rewrite (bool_decide_false _ U2).
    assert ((Kind node == MappingNode) && negb (keys_unambiguous (map_keys (Content node)) ∅) = false)
      as ->.
    { apply andb_false_iff. destruct (decide (Kind node = MappingNode)) as [Hk|Hk].
      - right. apply negb_false_iff, keys_unambiguous_spec. destruct (U5 Hk). split_and!; auto. set_solver.
      - left. by apply bool_decide_false. }
    apply check_children_empty. intros child Hin. rewrite List.Forall_forall in IH.
    apply IH; [by apply list_elem_of_In|]. intros d m Hb.
    destruct (H (d + 1)%Z m) as [? ?]; [by econstructor|]. split; [lia|done].
Qed.

(** ** Recorded positions *)

Lemma pair_ind {A} (P : list A → Prop) :
  P [] → (∀ x, P [x]) → (∀ x y l, P l → P (x :: y :: l)) → ∀ l, P l.
Proof.
  intros H0 H1 H2. fix IH 1. intros [|x [|y l]]; [done|apply H1|apply H2, IH].
Qed.

(** A position inside the document [number] of [source], without a submitted name. *)
Record position_in (source number : Z) (p : Position) : Prop := {
  pi_source : Pos_Source p = source;
  pi_document : Pos_Document p = number;
  pi_path : Pos_path p = ""
}.

(** Every recorded name is a path of the schema. *)
Definition positions_ok (root : Structural) (source number : Z) (fields : gmap string Position)
  : Prop := ∀ k p, fields !! k = Some p → schema_path root k ∧ position_in source number p.

Lemma positions_insert root source number fields k p :
  positions_ok root source number fields → schema_path root k → position_in source number p →
  positions_ok root source number (<[k := p]> fields).
Proof.
  intros H Hk Hp k' p' [[<- <-]|[_ Hl]]%lookup_insert_Some; [done|by apply H].
Qed.

Lemma collectPositions_ok root source number node : ∀ shape path origin fields,
  leads root path shape → position_in source number origin →
  positions_ok root source number fields →
  positions_ok root source number (collectPositions node (Some shape) path origin fields).
Proof.
  induction node as [k t a v l c content IH] using Node_ind.
  intros shape path origin fields Hp Ho Hf.
  assert (∀ n, position_in source number
    (mkPosition (Pos_Source origin) (Pos_Document origin) (Line n) (Column n) (Pos_path origin)))
    as Hat by (intros n; destruct Ho; by constructor).
  cbn [collectPositions Kind Content]. set (node := mkNode k t a v l c content).
  set (here := mkPosition _ _ (Line node) (Column node) _).
  assert (positions_ok root source number (<[path := here]> fields)) as Hf0
    by (apply positions_insert; eauto with report; apply Hat).
  assert (position_in source number here) as Hh by apply Hat. clearbody here.
  revert Hf0. generalize (<[path := here]> fields) as fields0. clear fields Hf.
  intros fields Hf. destruct k; try done.
  - destruct (Items shape) as [items|] eqn:Hi; [|done]. clear node. generalize 0 as index. revert fields Hf.
    induction content as [|child rest IHc]; intros fields Hf index; [done|].
    apply Forall_cons_iff in IH as [IHn IH]. apply IHc; [done|].
    apply IHn; auto. by eapply leads_item.
  - clear node. revert fields Hf IH.
    induction content as [|x|key value rest IHc] using pair_ind; intros fields Hf IH; [done..|].
    apply Forall_cons_iff in IH as [_ IH]. apply Forall_cons_iff in IH as [IHv IH].
    destruct (property shape (Value key)) as [child|] eqn:Hc; [|by apply IHc].
    assert (leads root (path +:+ "/" +:+ Value key) child) by (by eapply leads_property).
    apply IHc; [|done]. apply positions_insert; [|by eapply leads_path|].
    + by apply IHv.
    + apply Hat.
Qed.

Lemma unknownContainer_path root node : ∀ shape path raw target,
  leads root path shape → schema_path root (fst (unknownContainer node shape path raw target)).
Proof.
  induction node as [k t a v l c content IH] using Node_ind. intros shape path raw target Hp.
  cbn [unknownContainer Kind Content]. destruct k; try constructor.
  - destruct (Items shape) as [items|] eqn:Hi; [|constructor]. generalize 0 as index.
    induction content as [|child rest IHc]; intros index; [constructor|].
    apply Forall_cons_iff in IH as [IHn IH].
    specialize (IHn items (path +:+ "/" +:+ pretty index) (raw +:+ "[" +:+ pretty index +:+ "]") target
      ltac:(by eapply leads_item)).
    destruct (unknownContainer child items _ _ target) as [found []]; [done|by apply IHc].
  - destruct (len (Properties shape) =? 0)%Z; [eauto with report|].
    destruct (existsb _ _); [eauto with report|]. revert IH.
    induction content as [|x|key value rest IHc] using pair_ind; intros IH; [constructor..|].
    apply Forall_cons_iff in IH as [_ IH]. apply Forall_cons_iff in IH as [IHv IH].
    destruct (property shape (Value key)) as [child|] eqn:Hc; [|by apply IHc].
    specialize (IHv child (path +:+ "/" +:+ Value key) (join_key raw (Value key)) target
      ltac:(by eapply leads_property)).
    destruct (unknownContainer value child _ _ target) as [found []]; [done|by apply IHc].
Qed.

(** ** Reading a source *)

Section ReadSpec.
Context `{E : Env} `{D : DecoderApi}.

(** A reader that ends or returns bytes, and never more than it was asked for. *)
Definition progressive (reader : io_Reader) : Prop := ∀ n w, (0 < n)%Z →
  let '(chunk, ending) := fst (reader n w) in
  (slen chunk ≤ n)%Z ∧ (ending = ReadMore → (0 < slen chunk)%Z).

Lemma cancelReader_progressive ctx reader :
  progressive reader → progressive (cancelReader_Read ctx reader).
Proof.
  intros H n w Hn. unfold cancelReader_Read, mbind, st_bind.
  destruct (Err ctx w) as [[e|] w1]; [cbn; split; [unfold slen; cbn; lia|done]|by apply H].
Qed.

Lemma ReadAll_total fuel : ∀ reader limit acc w,
  progressive reader → (limit ≤ Z.of_nat fuel)%Z → fst (ReadAll fuel reader limit acc w) ≠ None.
Proof.
  induction fuel as [|fuel IH]; intros reader limit acc w Hr Hl; cbn [ReadAll];
    destruct (limit <=? 0)%Z eqn:H0; try done; go_bool; [lia|].
  unfold mbind, st_bind. specialize (Hr limit w ltac:(lia)) as Hlim.
  destruct (reader limit w) as [[chunk ending] w1]. cbn in Hlim. destruct Hlim as [_ Hmore].
  destruct ending; try done. apply IH; [done|]. specialize (Hmore eq_refl). lia.
Qed.

Definition entry_codes : list string :=
  ["DepthLimit"; "InvalidDocument"; "ProductLimit"; "UnsupportedResource"; "AdmissionInvalid";
   "UnknownField"]%string.
Definition parse_codes : list string := "ValidationLimit" :: "DocumentLimit" :: entry_codes.
Definition read_codes : list string :=
  "SourceLimit" :: "ReadFailed" :: "InputLimit" :: "NoProducts" :: parse_codes.

(** What a failure position may name. *)
Definition safe_position (validator : option admission) (p : Position) : Prop :=
  Pos_path p = "" ∨ ∃ a, validator = Some a ∧ schema_path (adm_schema a) (Pos_path p).

(** An accepted document: a [DataProduct] of the delivered API with private positions. *)
Record doc_ok (validator : option admission) (source : Z) (doc : document) : Prop := {
  dk_api : is_string (object_field (doc_object doc) "apiVersion") "data.devantler.tech/v1alpha1" = true;
  dk_kind : is_string (object_field (doc_object doc) "kind") "DataProduct" = true;
  dk_origin : position_in source (Pos_Document (doc_origin doc)) (doc_origin doc);
  dk_fields : match validator with
    | Some a => positions_ok (adm_schema a) source (Pos_Document (doc_origin doc)) (doc_fields doc)
    | None => doc_fields doc = ∅
    end
}.

Context (validator : option admission) (visitors : list uiDeclarationVisitor) (I : Report → Prop).
Context (Hvisit : ∀ visit n p r, visit ∈ visitors → Pos_path p = "" → I r → I (visit n p r)).

Lemma node_origin_in source number origin node :
  position_in source number origin → position_in source number (node_origin origin node).
Proof. intros []. unfold node_origin. by destruct (first_content node). Qed.

Lemma document_fields_ok source number node origin : position_in source number origin →
  match validator with
  | Some a => positions_ok (adm_schema a) source number (document_fields validator node origin)
  | None => document_fields validator node origin = ∅
  end.
Proof.
  intros Ho. unfold document_fields. destruct validator as [a|]; [|done].
  destruct (first_content node); [|by intros k p ?%lookup_empty_Some].
  apply collectPositions_ok; auto using leads_root. by intros k p ?%lookup_empty_Some.
Qed.

Lemma unknown_origin_safe node origin strictErrors source number : position_in source number origin →
  safe_position validator
    (unknown_origin validator node (document_fields validator node origin) origin strictErrors).
Proof.
  intros Ho. unfold unknown_origin.
  destruct strictErrors as [|[target|] rest]; try (left; by destruct Ho).
  destruct validator as [a|]; [|left; by destruct Ho].
  destruct (first_content node) as [content|]; [|left; by destruct Ho].
  pose proof (unknownContainer_path (adm_schema a) content (adm_schema a) "" "" target (leads_root _)) as Hp.
  destruct (unknownContainer content (adm_schema a) "" "" target) as [path ok]. right. by exists a.
Qed.

Lemma unknown_origin_source node fields origin strictErrors source :
  (∀ k p, fields !! k = Some p → Pos_Source p = source) → Pos_Source origin = source →
  Pos_Source (unknown_origin validator node fields origin strictErrors) = source.
Proof.
  intros Hf Ho. unfold unknown_origin. destruct strictErrors as [|[target|] rest]; try done.
  destruct validator as [a|]; [|done]. destruct (first_content node) as [content|]; [|done].
  destruct (unknownContainer content (adm_schema a) "" "" target) as [path ok]. cbn.
  destruct (fields !! path) as [p|] eqn:Hp; [by eapply Hf|done].
Qed.

Lemma visitors_keep number position r : Pos_path position = "" → I r →
  I (foldl (λ r visit, visit number position r) r visitors).
Proof.
  intros Hp. revert Hvisit. revert r. induction visitors as [|v l IH]; intros r Hv Hr; [done|].
  cbn. apply IH.
  - intros v' n p r' Hin. apply Hv. by right.
  - apply Hv; auto. by left.
Qed.

Lemma checkNode_codes node : ∀ depth, checkNode node depth ∈ ["" ; "DepthLimit"; "InvalidDocument"]%string.
Proof.
  induction node as [k t a v l c content IH] using Node_ind. intros depth. rewrite checkNode_unfold.
  repeat match goal with |- (if ?b then _ else _) ∈ _ => destruct b; [set_solver|] end. cbn [Content].
  induction content as [|child content IHc]; cbn [check_children]; [set_solver|].
  apply Forall_cons_iff in IH as [IHn IH]. case_bool_decide; [by apply IHc|apply IHn].
Qed.

(** What one document may lead to. *)
Definition entry_ok (source n already : Z) (e : entry) : Prop :=
  match e with
  | EntryFail code o => code ∈ entry_codes ∧ safe_position validator o ∧ Pos_Source o = source
  | EntryEmpty => True
  | EntryDocument doc => doc_ok validator source doc ∧ Pos_Document (doc_origin doc) = n ∧
      (already < 256)%Z
  end.

Lemma entry_fail_ok source n already code o : position_in source n o → code ∈ entry_codes →
  entry_ok source n already (EntryFail code o).
Proof. intros [] Hc. split_and!; auto. by left. Qed.

Lemma parse_object_spec source n already node value number o report :
  position_in source n o → I report → (already < 256)%Z →
  let '(e, r) := parse_object validator visitors node value number o report in
  I r ∧ entry_ok source n already e.
Proof.
  intros Ho Hr Hlim. unfold parse_object.
  assert (∀ code, code ∈ entry_codes → entry_ok source n already (EntryFail code o)) as Hfail
    by (intros; by apply entry_fail_ok).
  destruct (jsonValue value) as [v|]; [|split; [done|apply Hfail; set_solver]].
  destruct (MarshalValue v) as [encoded|]; [|split; [done|apply Hfail; set_solver]].
  destruct (UnmarshalObject encoded) as [[obj|]|]; [|split; [done|apply Hfail; set_solver]..].
  destruct (_ || _) eqn:Hapi; [split; [done|apply Hfail; set_solver]|].
  cbv zeta. set (fields := document_fields validator node o).
  pose proof (document_fields_ok source n node o Ho) as Hf. fold fields in Hf.
  assert (Pos_path (default o (fields !! "/spec/ui")) = "") as Hpos.
  { destruct (fields !! "/spec/ui") as [p|] eqn:Hp; [|apply Ho]. cbn.
    destruct validator as [a|]; [by apply Hf in Hp as [_ []]|]. rewrite Hf in Hp.
    by rewrite lookup_empty in Hp. }
  set (r1 := if declares_ui obj then _ else report).
  assert (I r1) as Hr1 by (unfold r1; destruct (declares_ui obj); [by apply visitors_keep|done]).
  destruct (UnmarshalStrict encoded) as [[product errs]|]; [|split; [done|apply Hfail; set_solver]].
  destruct errs as [|e errs]; split; auto.
  - apply orb_false_iff in Hapi as [H1 H2]. apply negb_false_iff in H1, H2.
    destruct Ho as [O1 O2 O3]. split_and!; auto. constructor; auto; [by constructor|].
    cbn. rewrite O2. exact Hf.
  - split_and!; [set_solver|by eapply unknown_origin_safe|].
    apply unknown_origin_source; [|apply Ho]. intros k p Hp.
    destruct validator as [a|]; [by apply Hf in Hp as [_ []]|]. by rewrite Hf, lookup_empty in Hp.
Qed.

Lemma parse_entry_spec source n already node value number origin report :
  position_in source n origin → I report →
  let '(e, r) := parse_entry validator visitors node value number already origin report in
  I r ∧ entry_ok source n already e.
Proof.
  intros Ho Hr. unfold parse_entry. apply (node_origin_in _ _ _ node) in Ho.
  destruct (checkNode node 0 != "") eqn:Hc.
  { apply negb_true_iff, bool_decide_eq_false in Hc. split; [done|]. apply entry_fail_ok; [done|].
    pose proof (checkNode_codes node 0). unfold entry_codes. set_solver. }
  destruct value as [value|]; [|split; [done|apply entry_fail_ok; [done|set_solver]]].
  destruct (is_nil_value value); [done|].
  destruct (256 <=? already)%Z eqn:Hlim; [split; [done|apply entry_fail_ok; [done|set_solver]]|].
  apply parse_object_spec; auto. by apply Z.leb_gt.
Qed.

(** ** The loop over the physical documents *)

Definition document_number (doc : document) : Z := Pos_Document (doc_origin doc).

(** What was read of one source: its documents are in order, and both counters are exact. *)
Record read_ok (source prior physical0 : Z) (docs : list document) (summary : SourceSummary)
    (physical : Z) : Prop := {
  rd_source : Summary_Source summary = source;
  rd_products : Summary_Products summary = len docs;
  rd_counted : (0 ≤ Summary_Documents summary)%Z;
  rd_physical : physical = (physical0 + Summary_Documents summary)%Z;
  rd_docs : Forall (doc_ok validator source) docs;
  rd_numbers : Forall (λ d, 1 ≤ document_number d ≤ Summary_Documents summary)%Z docs;
  rd_sorted : StronglySorted Z.lt (map document_number docs);
  rd_total : (prior + len docs ≤ 256)%Z
}.

Definition parsed_ok (source prior physical0 : Z) (p : parsed) : Prop :=
  (parsed_code p = "" ∧ (parsed_physical p ≤ 4096)%Z ∧
   read_ok source prior physical0 (parsed_documents p) (parsed_summary p) (parsed_physical p)) ∨
  (parsed_code p ∈ parse_codes ∧ parsed_documents p = [] ∧ Summary_Source (parsed_summary p) = source ∧
   safe_position validator (parsed_failure p) ∧ Pos_Source (parsed_failure p) = source).

Lemma sorted_snoc (l : list Z) x : StronglySorted Z.lt l → Forall (λ y, (y < x)%Z) l →
  StronglySorted Z.lt (l ++ [x]).
Proof.
  induction 1 as [|y l Hs IH Hl]; intros Hx; cbn; [repeat constructor|].
  apply Forall_cons_iff in Hx as [Hy Hx]. constructor; [by apply IH|].
  apply Forall_app_2; [done|]. by repeat constructor.
Qed.

Lemma sorted_nodup {A} (R : relation A) (l : list A) :
  (∀ x, ¬ R x x) → StronglySorted R l → NoDup l.
Proof.
  intros HR. induction 1 as [|x l Hs IH Hl]; constructor; [|done]. intros Hx.
  rewrite List.Forall_forall in Hl. apply list_elem_of_In in Hx. by apply (HR x), Hl.
Qed.

(** One more physical document, empty or not. *)
Lemma read_ok_skip source prior physical0 docs summary physical :
  read_ok source prior physical0 docs summary physical →
  read_ok source prior physical0 docs
    (mkSummary source (Summary_Documents summary + 1) (Summary_Products summary)) (physical + 1).
Proof.
  intros []. constructor; cbn; auto; try lia.
  eapply Forall_impl; [|exact rd_numbers0]. intros d. cbn. lia.
Qed.

Lemma read_ok_document source prior physical0 docs summary physical doc :
  read_ok source prior physical0 docs summary physical →
  doc_ok validator source doc → document_number doc = (Summary_Documents summary + 1)%Z →
  (prior + len docs < 256)%Z →
  read_ok source prior physical0 (docs ++ [doc])
    (mkSummary source (Summary_Documents summary + 1) (Summary_Products summary + 1)) (physical + 1).
Proof.
  intros [] Hd Hn Hlim. constructor; cbn; auto; rewrite ?len_app; try (unfold len in *; cbn; lia).
  - apply Forall_app_2; [done|]. by apply list.Forall_singleton.
  - apply Forall_app_2.
    + eapply Forall_impl; [|exact rd_numbers0]. intros d. cbn. lia.
    + apply list.Forall_singleton. lia.
  - rewrite map_app. apply sorted_snoc; [done|]. rewrite Hn.
    apply list.Forall_fmap. eapply Forall_impl; [|exact rd_numbers0]. intros d. cbn. lia.
Qed.

Lemma parse_loop_spec fuel ctx source prior physical0 : ∀ origin s rw,
  (4098 - ps_physical s ≤ Z.of_nat fuel)%Z → (ps_physical s ≤ 4096)%Z →
  read_ok source prior physical0 (ps_documents s) (ps_summary s) (ps_physical s) →
  Pos_Source origin = source ∧ Pos_path origin = "" → I (fst rw) →
  let '(r, (report, _)) := parse_loop fuel validator visitors ctx source prior origin s rw in
  I report ∧ ∃ p, r = Some p ∧ parsed_ok source prior physical0 p.
Proof.
  induction fuel as [|fuel IH]; intros origin s [report w] Hf Hph Hok [Ho1 Ho2] Hr; [lia|].
  cbn [parse_loop fst snd]. destruct (Err ctx w) as [err w1].
  assert (∀ (s : parse_state) code number o, code ∈ parse_codes → Pos_Source o = source →
    safe_position validator o → Summary_Source (ps_summary s) = source →
    parsed_ok source prior physical0 (parse_fail s code number o)) as Hfail by (right; by split_and!).
  destruct (non_nil err).
  { split; [done|]. eexists. split; [done|]. apply Hfail; auto; [set_solver|by left|apply Hok]. }
  destruct (DecodeNode (ps_decoder s)) as [decoded decoder].
  set (summary := mkSummary source (Summary_Documents (ps_summary s) + 1)
                    (Summary_Products (ps_summary s))).
  set (origin' := mkPosition source (Summary_Documents summary) 0 0 "").
  set (s1 := mkParse decoder (ps_values s) (ps_documents s) summary (ps_physical s + 1)).
  destruct decoded as [| |node].
  - split; [done|]. eexists. split; [done|]. left. cbn. by split_and!.
  - assert (∀ code, code ∈ parse_codes → parsed_ok source prior physical0
      (parse_fail s1 code (prior + len (ps_documents s) + 1) origin')) as Hf1
      by (intros; apply Hfail; auto; by left).
    destruct (4096 <? _)%Z; (split; [done|]; eexists; split; [done|]; apply Hf1; set_solver).
  - destruct (4096 <? _)%Z eqn:Hlim.
    { split; [done|]. eexists. split; [done|]. apply Hfail; auto; [set_solver|by left]. }
    go_bool. change (ps_values s1) with (ps_values s). change (ps_documents s1) with (ps_documents s).
    destruct (DecodeValue (ps_values s)) as [value values].
    assert (position_in source (Summary_Documents summary) origin') as Hpos by (by constructor).
    pose proof (parse_entry_spec source _ (prior + len (ps_documents s)) node value
      (prior + len (ps_documents s) + 1) origin' report Hpos Hr) as He.
    destruct (parse_entry validator visitors node value _ _ origin' report) as [e report'].
    destruct He as [Hr' He]. destruct e as [code o| |doc]; cbn [entry_ok] in He.
    + destruct He as (H1 & H2 & H3). split; [done|]. eexists. split; [done|].
      apply Hfail; auto. unfold parse_codes. set_solver.
    + apply IH; cbn; auto; [lia|by apply read_ok_skip|].
      destruct (node_origin_in _ _ _ node Hpos). by split.
    + destruct He as (H1 & H2 & H3). apply IH; cbn; auto; [lia|by apply read_ok_document|].
      split; [apply H1|]. apply H1.
Qed.

(** ** All sources *)

(** The documents of the selection, source after source. *)
Record selected_ok (documents : list document) (summaries : list SourceSummary) (physical : Z)
    (count : nat) : Prop := {
  so_docs : Forall (λ d, doc_ok validator (Pos_Source (doc_origin d)) d ∧
    (1 ≤ Pos_Source (doc_origin d) ≤ Z.of_nat count)%Z) documents;
  so_places : NoDup (map (λ d, (Pos_Source (doc_origin d), document_number d)) documents);
  so_total : (len documents ≤ 256)%Z;
  so_physical : (0 ≤ physical ≤ 4096)%Z
}.

Definition selection_ok (sources : nat) (sel : selection) : Prop :=
  (sel_code sel = "" ∧ sel_documents sel ≠ [] ∧
   ∃ physical, selected_ok (sel_documents sel) (sel_summaries sel) physical sources) ∨
  (sel_code sel ∈ read_codes ∧ sel_documents sel = [] ∧ safe_position validator (sel_failure sel)).

Lemma selected_app documents summaries summaries' physical0 physical count docs summary :
  selected_ok documents summaries physical0 count →
  read_ok (Z.of_nat count + 1) (len documents) physical0 docs summary physical →
  (physical ≤ 4096)%Z →
  selected_ok (documents ++ docs) summaries' physical (S count).
Proof.
  intros [] [] Hph. constructor.
  - apply Forall_app_2.
    + eapply Forall_impl; [|exact so_docs0]. intros d [H1 H2]. split; [done|lia].
    + eapply Forall_impl; [|exact rd_docs0]. intros d Hd.
      assert (Pos_Source (doc_origin d) = Z.of_nat count + 1)%Z as Hs by apply Hd.
      rewrite Hs. split; [done|lia].
  - rewrite map_app. apply list.NoDup_app. split; [done|]. split.
    + intros x (d & -> & Hd)%list_elem_of_fmap (d' & Ed & Hd')%list_elem_of_fmap.
      injection Ed as E1 _. rewrite List.Forall_forall in so_docs0, rd_docs0.
      apply list_elem_of_In in Hd, Hd'. destruct (so_docs0 _ Hd) as [_ Hx].
      pose proof (pi_source _ _ _ (dk_origin _ _ _ (rd_docs0 _ Hd'))). lia.
    + apply (NoDup_fmap_1 snd). change (NoDup (map snd (map (λ d, (Pos_Source (doc_origin d), document_number d)) docs))).
      rewrite map_map. cbn. eapply sorted_nodup; [|exact rd_sorted0]. intros x. lia.
  - rewrite len_app. lia.
  - lia.
Qed.

Lemma read_sources_spec ctx sources : ∀ index remaining physical documents summaries rw,
  Forall (λ r, ∀ reader, r = Some reader → progressive reader) sources →
  (0 ≤ remaining)%Z → selected_ok documents summaries physical index → I (fst rw) →
  let '(r, (report, _)) := read_sources validator visitors ctx sources index remaining physical
                             documents summaries rw in
  I report ∧ ∃ sel, r = Some sel ∧ selection_ok (index + length sources) sel.
Proof.
  induction sources as [|source sources IH];
    intros index remaining physical documents summaries [report w] Hs Hrem Hok Hr;
    cbn [read_sources fst snd].
  - split; [done|]. eexists. split; [done|]. rewrite Nat.add_0_r.
    destruct (len documents =? 0)%Z eqn:Hn; go_bool.
    + right. cbn. split_and!; [unfold read_codes; set_solver|done|by left].
    + left. cbn. split_and!; [done|by intros ->|by exists physical].
  - apply Forall_cons_iff in Hs as [Hsrc Hs].
    assert (∀ code number, code ∈ read_codes → selection_ok (index + length (source :: sources))
      (mkSelection [] summaries code number (mkPosition (Z.of_nat index + 1) 0 0 0 ""))) as Hfail
      by (intros; right; split_and!; auto; by left).
    destruct (Err ctx w) as [err w1]. destruct (non_nil err).
    { split; [done|]. eexists. split; [done|]. apply Hfail. unfold read_codes, parse_codes. set_solver. }
    destruct source as [reader|]; [|split; [done|]; eexists; split; [done|]; apply Hfail; set_solver].
    pose proof (ReadAll_total (Z.to_nat (remaining + 1)) (cancelReader_Read ctx reader) (remaining + 1)
      "" w1 (cancelReader_progressive _ _ (Hsrc reader eq_refl)) ltac:(lia)) as Hread.
    destruct (ReadAll _ _ _ _ w1) as [[[input|e]|] w2]; [| |done].
    2:{ destruct (Err ctx w2) as [err2 w3]. split; [done|]. eexists. split; [done|]. apply Hfail.
        unfold read_codes, parse_codes. destruct (non_nil err2); set_solver. }
    destruct (remaining <? slen input)%Z eqn:Hin.
    { split; [done|]. eexists. split; [done|]. apply Hfail. set_solver. }
    go_bool. unfold parseSource.
    pose proof (parse_loop_spec parse_fuel ctx (Z.of_nat index + 1) (len documents) physical
      (mkPosition (Z.of_nat index + 1) 0 0 0 "")
      (mkParse (NewNodeDecoder input) (NewValueDecoder input) [] (mkSummary (Z.of_nat index + 1) 0 0) physical)
      (report, w2)) as Hp. cbn [fst ps_physical ps_documents ps_summary] in Hp.
    destruct (parse_loop _ _ _ _ _ _ _ _ _) as [r [report' w3]].
    destruct Hp as (Hr' & p & -> & Hp); auto.
    { unfold parse_fuel. destruct Hok. lia. }
    { destruct Hok. lia. }
    { destruct Hok. constructor; cbn; auto; try lia; [constructor..|]. change (len []) with 0%Z. lia. }
    destruct Hp as [(Hc & Hph & Hp)|(Hc & _ & _ & Hfs & _)].
    + rewrite bool_decide_true by done. cbn [negb].
      replace (index + length (Some reader :: sources))%nat with (S index + length sources)%nat
        by (cbn; lia).
      apply IH; auto; [lia|]. eapply selected_app; [exact Hok|exact Hp|done].
    + assert (parsed_code p ≠ "") as Hne.
      { intros E0. rewrite E0 in Hc. unfold parse_codes, entry_codes in Hc. set_solver. }
      rewrite bool_decide_false by done. cbn [negb]. split; [done|]. eexists. split; [done|].
      right. cbn. split_and!; auto. unfold read_codes. set_solver.
Qed.

Lemma readSelected_spec ctx sources rw :
  Forall (λ r, ∀ reader, r = Some reader → progressive reader) sources → I (fst rw) →
  let '(r, (report, _)) := readSelected validator visitors ctx sources rw in
  I report ∧ ∃ sel, r = Some sel ∧ selection_ok (length sources) sel ∧
    (sel_code sel = "" → len sources ≤ 32)%Z.
Proof.
  intros Hs Hr. unfold readSelected. destruct (32 <? len sources)%Z eqn:Hn.
  - destruct rw as [report w]. split; [done|]. eexists. split; [done|]. split; [|done].
    right. cbn. split_and!; [unfold read_codes; set_solver|done|by left].
  - pose proof (read_sources_spec ctx sources 0 maxInputBytes 0 []
      (imap (λ index _, mkSummary (Z.of_nat index + 1) 0 0) sources) rw Hs) as H.
    destruct (read_sources _ _ _ _ _ _ _ _ _ _) as [r [report w]].
    destruct H as (H1 & sel & -> & H2); auto; [done| |].
    { constructor; [constructor..|change (len []) with 0%Z; lia|lia]. }
    split; [done|]. exists sel. split_and!; auto. intros _. by apply Z.ltb_ge.
Qed.
End ReadSpec.

(** ** What an accepted selection was decoded from *)

Section Decoded.
Context `{E : Env} `{D : DecoderApi}.
Context (validator : option admission) (visitors : list uiDeclarationVisitor).

(** A node within the depth limit, without aliases, anchors, foreign tags and ambiguous keys. *)
Definition clean_node (node : Node) : Prop := ∀ d m, below node d m → (d ≤ 64)%Z ∧ unambiguous m.

(** [doc] is what the decoders make of the physical document [number] of [source], given its [node]
    and its [value]: the object and the strictly decoded product of its JSON, a [DataProduct] of the
    delivered API, and the positions of the node's schema-known fields. *)
Record decoded_document (source number : Z) (node : Node) (value : yvalue) (doc : document) : Prop := {
  dd_json : ∃ v encoded, jsonValue value = Some v ∧ MarshalValue v = Some encoded ∧
    UnmarshalObject encoded = Some (Some (doc_object doc)) ∧
    UnmarshalStrict encoded = Some (doc_product doc, []);
  dd_api : is_string (object_field (doc_object doc) "apiVersion") "data.devantler.tech/v1alpha1" = true;
  dd_kind : is_string (object_field (doc_object doc) "kind") "DataProduct" = true;
  dd_origin : doc_origin doc = node_origin (mkPosition source number 0 0 "") node;
  dd_fields : doc_fields doc = document_fields validator node (doc_origin doc)
}.

(** The first [n] physical documents of [input], decoded by both decoders in step, leave [docs]: every
    node is clean, and a document is kept exactly when its value is not nil. *)
Inductive decoded_upto (source : Z) (input : string) :
    list document → Z → NodeDecoder → ValueDecoder → Prop :=
| decoded_none : decoded_upto source input [] 0 (NewNodeDecoder input) (NewValueDecoder input)
| decoded_empty docs n nodes values node value :
    decoded_upto source input docs n nodes values →
    fst (DecodeNode nodes) = NodeValue node → clean_node node →
    fst (DecodeValue values) = Some value → is_nil_value value = true →
    decoded_upto source input docs (n + 1) (snd (DecodeNode nodes)) (snd (DecodeValue values))
| decoded_one docs n nodes values node value doc :
    decoded_upto source input docs n nodes values →
    fst (DecodeNode nodes) = NodeValue node → clean_node node →
    fst (DecodeValue values) = Some value → is_nil_value value = false →
    decoded_document source (n + 1) node value doc →
    decoded_upto source input (docs ++ [doc]) (n + 1) (snd (DecodeNode nodes))
      (snd (DecodeValue values)).

(** [docs] are the documents of the whole [input]. *)
Definition decodes (source : Z) (input : string) (docs : list document) : Prop :=
  ∃ n nodes values, decoded_upto source input docs n nodes values ∧ fst (DecodeNode nodes) = NodeEOF.

Lemma checkNode_clean node : checkNode node 0 = "" → clean_node node.
Proof. intros H d m Hb. by apply (proj1 (checkNode_exact node 0) H) in Hb. Qed.

Lemma parse_object_decoded source n node value number report :
  let o := node_origin (mkPosition source n 0 0 "") node in
  match fst (parse_object validator visitors node value number o report) with
  | EntryFail code _ => code ≠ ""
  | EntryEmpty => False
  | EntryDocument doc => decoded_document source n node value doc
  end.
Proof.
  cbv zeta. unfold parse_object. destruct (jsonValue value) as [v|] eqn:H1; [|done].
  destruct (MarshalValue v) as [encoded|] eqn:H2; [|done].
  destruct (UnmarshalObject encoded) as [[obj|]|] eqn:H3; [|done..].
  destruct (_ || _) eqn:Hapi; [done|].
  destruct (UnmarshalStrict encoded) as [[product errs]|] eqn:H4; [|done].
  destruct errs as [|e errs]; [|done]. apply orb_false_iff in Hapi as [Ha Hk].
  apply negb_false_iff in Ha, Hk. cbn. constructor; try done. by exists v, encoded.
Qed.

Lemma parse_entry_decoded source n node value number already report :
  match fst (parse_entry validator visitors node value number already (mkPosition source n 0 0 "")
               report) with
  | EntryFail code _ => code ≠ ""
  | EntryEmpty => clean_node node ∧ ∃ v, value = Some v ∧ is_nil_value v = true
  | EntryDocument doc => clean_node node ∧
      ∃ v, value = Some v ∧ is_nil_value v = false ∧ decoded_document source n node v doc
  end.
Proof.
  unfold parse_entry. destruct (checkNode node 0 != "") eqn:Hc.
  { by apply negb_true_iff, bool_decide_eq_false in Hc. }
  apply negb_false_iff, bool_decide_eq_true, checkNode_clean in Hc.
  destruct value as [value|]; [|done].
  destruct (is_nil_value value) eqn:Hn; [cbn; split; [done|by exists value]|]. destruct (256 <=? already)%Z; [done|].
  pose proof (parse_object_decoded source n node value number report) as H. cbv zeta in H.
  destruct (fst (parse_object _ _ _ _ _ _ _)) as [code o| |doc]; [done..|].
  split; [done|]. by exists value.
Qed.

Lemma parse_loop_decoded fuel ctx source prior input : ∀ origin s rw p rw',
  decoded_upto source input (ps_documents s) (Summary_Documents (ps_summary s)) (ps_decoder s)
    (ps_values s) →
  parse_loop fuel validator visitors ctx source prior origin s rw = (Some p, rw') →
  parsed_code p = "" → decodes source input (parsed_documents p).
Proof.
  induction fuel as [|fuel IH]; intros origin s [report w] p rw' Hs; cbn [parse_loop fst snd]; [done|].
  destruct (Err ctx w) as [err w1]. destruct (non_nil err); [by intros [= <- _]|].
  destruct (DecodeNode (ps_decoder s)) as [decoded decoder] eqn:Hd.
  destruct decoded as [| |node].
  - intros [= <- _] _. cbn. do 3 eexists. split; [exact Hs|]. by rewrite Hd.
  - destruct (4096 <? _)%Z; by intros [= <- _].
  - destruct (4096 <? _)%Z; [by intros [= <- _]|]. cbn [ps_values ps_documents].
    destruct (DecodeValue (ps_values s)) as [value values] eqn:Hv.
    cbn [Summary_Documents].
    match goal with |- context [parse_entry ?a ?b ?c ?d ?e ?f (mkPosition source ?n 0 0 "") ?g] =>
      pose proof (parse_entry_decoded source n node value e f report) as He;
      destruct (parse_entry a b c d e f (mkPosition source n 0 0 "") g) as [r report'] end.
    cbn [fst] in He. destruct r as [code o| |doc].
    + by intros [= <- _].
    + destruct He as (Hc & v & -> & Hn). apply IH. cbn.
      pose proof (decoded_empty source input _ _ _ _ node v Hs) as H. rewrite Hd, Hv in H. by apply H.
    + destruct He as (Hc & v & -> & Hn & Hdoc). apply IH. cbn.
      pose proof (decoded_one source input _ _ _ _ node v doc Hs) as H. rewrite Hd, Hv in H. by apply H.
Qed.

Lemma parseSource_decodes ctx input source prior physical rw p rw' :
  parseSource validator visitors ctx input source prior physical rw = (Some p, rw') →
  parsed_code p = "" → decodes source input (parsed_documents p).
Proof. apply parse_loop_decoded. constructor. Qed.

(** The run over all sources, from the source [index] on: each reader was read to its end under the
    context, within the bytes that remained, and what it held was parsed without a failure. *)
Inductive sources_run (ctx : Ctx) : list (option io_Reader) → nat → Z → Z → Z → Report * World →
    list (string * list document) → Report * World → Prop :=
| run_sources_end index remaining physical prior rw :
    sources_run ctx [] index remaining physical prior rw [] rw
| run_source reader sources index remaining physical prior report w w1 input w2 p rw1 read rw2 :
    Err ctx w = (None, w1) →
    ReadAll (Z.to_nat (remaining + 1)) (cancelReader_Read ctx reader) (remaining + 1) "" w1
      = (Some (inl input), w2) →
    (slen input ≤ remaining)%Z →
    parseSource validator visitors ctx input (Z.of_nat index + 1) prior physical (report, w2)
      = (Some p, rw1) →
    parsed_code p = "" →
    sources_run ctx sources (S index) (remaining - slen input) (parsed_physical p)
      (prior + len (parsed_documents p)) rw1 read rw2 →
    sources_run ctx (Some reader :: sources) index remaining physical prior (report, w)
      ((input, parsed_documents p) :: read) rw2.

Lemma read_sources_run ctx sources : ∀ index remaining physical documents summaries rw sel rw',
  read_sources validator visitors ctx sources index remaining physical documents summaries rw
    = (Some sel, rw') → sel_code sel = "" →
  ∃ read, sources_run ctx sources index remaining physical (len documents) rw read rw' ∧
    sel_documents sel = documents ++ concat (map snd read).
Proof.
  induction sources as [|source sources IH];
    intros index remaining physical documents summaries [report w] sel rw'; cbn [read_sources fst snd].
  - intros [= <- <-] Hc. exists []. split; [constructor|]. destruct (len documents =? 0)%Z; [done|].
    cbn. by rewrite app_nil_r.
  - destruct (Err ctx w) as [err w1] eqn:Herr. destruct (non_nil err) eqn:Hnil; [by intros [= <- _]|].
    apply non_nil_false in Hnil as ->. destruct source as [reader|]; [|by intros [= <- _]].
    destruct (ReadAll _ _ _ _ w1) as [[[input|e]|] w2] eqn:Hread; [| |done].
    2:{ destruct (Err ctx w2) as [err2 w3]. by destruct (non_nil err2); intros [= <- _]. }
    destruct (remaining <? slen input)%Z eqn:Hlen; [by intros [= <- _]|]. apply Z.ltb_ge in Hlen.
    destruct (parseSource _ _ _ _ _ _ _ _) as [[p|] rw1] eqn:Hparse; [|done].
    destruct (parsed_code p != "") eqn:Hcode.
    { intros [= <- _] Hc. cbn in Hc. by rewrite Hc in Hcode. }
    apply negb_false_iff, bool_decide_eq_true in Hcode. intros Hrun Hc.
    destruct (IH _ _ _ _ _ _ _ _ Hrun Hc) as (read & Hr & Hdocs).
    exists ((input, parsed_documents p) :: read). split.
    + rewrite len_app in Hr. by econstructor.
    + cbn. by rewrite Hdocs, <- app_assoc.
Qed.

(** Every source of a run decodes to its documents, and all of them fit the budget. *)
Lemma sources_run_decodes ctx sources index remaining physical prior rw read rw' :
  sources_run ctx sources index remaining physical prior rw read rw' → (0 ≤ remaining)%Z →
  length read = length sources ∧
  (foldr Z.add 0 (map (λ r, slen (fst r)) read) ≤ remaining)%Z ∧
  ∀ k input docs, read !! k = Some (input, docs) → decodes (Z.of_nat (index + k) + 1) input docs.
Proof.
  induction 1 as [|reader sources index remaining physical prior report w w1 input w2 p rw1 read rw2
    Herr Hread Hlen Hparse Hcode Hrun IH]; intros Hrem; [by split_and!|].
  destruct IH as (H1 & H2 & H3); [lia|]. split_and!.
  - cbn. by rewrite H1.
  - cbn. lia.
  - intros [|k] input' docs; cbn [lookup list_lookup].
    + intros [= <- <-]. rewrite Nat.add_0_r. by eapply parseSource_decodes.
    + rewrite <- Nat.add_succ_comm. apply H3.
Qed.
End Decoded.

(** C32: the reader of submitted sources always returns and is exact about what it accepts.  For readers
    that make progress it either names a failure from a fixed list, without documents and with a
    position that holds only numbers and a schema path, or it accepts between 1 and 256 documents of at
    most 32 sources.  Then every reader was read to its end, all inputs together hold at most 2 MiB, and
    the accepted documents are exactly those of the inputs, in order: in every physical document the
    decoder found, the decoded node has no alias, anchor, foreign tag or duplicate key and at most 64
    levels; where the decoded value is not nil there is one document, with the object and the strictly
    decoded product of that value, a [DataProduct] of the delivered API, and with positions collected
    from that node; its recorded positions are schema paths within that document, and no two documents
    share their source and number. *)
Theorem readSelected_exact `{E : Env} `{D : DecoderApi} validator visitors ctx sources rw
    (Hprogress : Forall (λ r, ∀ reader, r = Some reader → progressive reader) sources) :
  ∃ sel rw', readSelected validator visitors ctx sources rw = (Some sel, rw') ∧
  ((sel_code sel = "" ∧ (0 < len (sel_documents sel) ≤ 256)%Z ∧ (len sources ≤ 32)%Z ∧
    (∃ read, sources_run validator visitors ctx sources 0 maxInputBytes 0 0 rw read rw' ∧
       length read = length sources ∧
       (foldr Z.add 0 (map (λ r, slen (fst r)) read) ≤ 2097152)%Z ∧
       (∀ k input docs, read !! k = Some (input, docs) →
          decodes validator (Z.of_nat k + 1) input docs) ∧
       sel_documents sel = concat (map snd read)) ∧
    Forall (λ d, doc_ok validator (Pos_Source (doc_origin d)) d ∧
      (1 ≤ Pos_Source (doc_origin d) ≤ len sources)%Z) (sel_documents sel) ∧
    NoDup (map (λ d, (Pos_Source (doc_origin d), document_number d)) (sel_documents sel))) ∨
   (sel_code sel ∈ read_codes ∧ sel_documents sel = [] ∧ safe_position validator (sel_failure sel))).
Proof.
  pose proof (readSelected_spec validator visitors (λ _, True) ltac:(done) ctx sources rw Hprogress
    Logic.I) as H.
  destruct (readSelected validator visitors ctx sources rw) as [r rw'] eqn:Hrun.
  destruct rw' as [report w]. destruct H as (_ & sel & -> & Hsel & H32).
  exists sel, (report, w). split; [done|].
  destruct Hsel as [(Hc & Hne & physical & Hok)|H]; [left|by right].
  assert (∃ read, sources_run validator visitors ctx sources 0 maxInputBytes 0 0 rw read (report, w) ∧
    sel_documents sel = concat (map snd read)) as (read & Hr & Hdocs).
  { unfold readSelected in Hrun. rewrite (proj2 (Z.ltb_ge _ _)) in Hrun by auto.
    by apply read_sources_run in Hrun. }
  destruct (sources_run_decodes _ _ _ _ _ _ _ _ _ _ _ Hr ltac:(done)) as (R1 & R2 & R3).
  split_and!; auto; try apply Hok; [|by exists read].
  destruct (sel_documents sel); [done|]. unfold len. cbn. lia.
Qed.
