(* ===== verification/Check.v ===== *)
(** * The publisher's static check

    [internal/preflight/check.go] and the two report versions of [report.go]: the sources are read, each
    declaration is validated, and a valid bundle is checked as a graph, planned and previewed.  The
    documents live in the report, because the slice [documents] and the field [report.documents] share
    their elements.  Metadata validation of the API machinery is an operation of [ObjectMetaApi]. *)

From Stdlib Require Import Ascii.
From stdpp Require Import pretty.
From S2P Require Import Prelude Kube Api Regex GoJson GoStrings GoUrl Config Composition Descriptor Catalog Report Plan Witness Graph Admission Input.

Definition maxReportJSONBytes : Z := maxInputBytes - 1.
(** [ValidateObjectMeta] for namespaced objects with DNS subdomain names. *)
Class ObjectMetaApi := { ValidateObjectMeta : ObjectMeta → list FieldError }.

(** ** Features *)

(** [declaredFeatures] before sorting; the Go map keeps each name once. *)
Definition feature_set (product : DataProduct) : gset string :=
  let spec := Spec product in
  let when (b : bool) (name : string) : gset string := if b then {[name]} else ∅ in
  when (non_nil (Source spec)) "provisioned-sources" ∪
  when (match Source spec with Some s => non_nil (Source_Engine s) | None => false end)
    "engine-providers" ∪
  when (non_nil (Spec_Connector spec)) "connector-readiness" ∪
  when (negb (len (Inputs spec) =? 0)%Z) "composition" ∪
  when (negb (len (ContractChecks spec) =? 0)%Z) "contract-readiness" ∪
  match UI spec with
  | Some ui =>
      match UI_Contract ui with
      | Some contract =>
          {["ui-contract"]} ∪ when (UI_APIVersion contract == "data-product-ui/v2") "ui-appearance"
      | None => ∅
      end
  | None => ∅
  end ∪
  when (Annotations (Meta product) !! profileAnnotation == Some "Dataset") "dcat-catalog".
Definition sorted_set (s : gset string) : list string := sort_slice String.ltb (elements s).
Definition declaredFeatures (product : DataProduct) : list string := sorted_set (feature_set product).

(** The loop of [observeDeclarations] over the contract checks. *)
Fixpoint check_outputs (outputs : gset string) (number : Z) (index : nat) (checks : list ContractCheck)
    (report : Report) : Report :=
  match checks with
  | [] => report
  | check :: checks' =>
      check_outputs outputs number (S index) checks'
        (if bool_decide (Check_Output check ∈ outputs) then report
         else addAt number "error" "ContractOutputNotFound" "spec.contractChecks"
                ("/spec/contractChecks/" +:+ pretty index +:+ "/output") report)
  end.

(** [observeDeclarations]: the report and the features required so far. *)
Definition observeDeclarations (number : Z) (product : DataProduct) (report : Report)
    (required : gset string) : Report * gset string :=
  (check_outputs (list_to_set (map Output_Name (Outputs (Spec product)))) number 0
     (ContractChecks (Spec product)) report,
   list_to_set (declaredFeatures product) ∪ required).

(** ** Assignments *)

Definition set_product (p : DataProduct) (doc : document) : document :=
  mkDocument p (doc_object doc) (doc_origin doc) (doc_fields doc).
Definition set_object (obj : object) (doc : document) : document :=
  mkDocument (doc_product doc) obj (doc_origin doc) (doc_fields doc).
Definition set_namespace (namespace : string) (p : DataProduct) : DataProduct :=
  let m := Meta p in
  mkProduct (mkObjectMeta (Name m) namespace (Generation m) (DeletionTimestamp m) (Annotations m))
    (Spec p) (Status p).
(** The zero status and generation. *)
Definition clear_observations (p : DataProduct) : DataProduct :=
  let m := Meta p in
  mkProduct (mkObjectMeta (Name m) (Namespace m) 0 (DeletionTimestamp m) (Annotations m)) (Spec p)
    (mkStatus 0 [] []).

(** [m[key] = v] and [delete(m, key)]. *)
Fixpoint set_key (key : string) (v : any) (m : object) : object :=
  match m with
  | [] => [(key, v)]
  | (k, x) :: m' => if k == key then (k, v) :: m' else (k, x) :: set_key key v m'
  end.
Definition delete_key (key : string) (m : object) : object :=
  List.filter (λ e : string * any, fst e != key) m.

(** Assignments to fields of the report. *)
Definition with_documents (docs : list document) (r : Report) : Report :=
  mkReport (Valid r) (Report_Complete r) (Products r) (RequiredFeatures r) (Diagnostics r)
    (Descriptors r) docs (report_sources r) (details r) (counts r) (failure r) (productFeatures r)
    (report_plan r) (apiOnly r).
Definition with_products (n : Z) (r : Report) : Report :=
  mkReport (Valid r) (Report_Complete r) n (RequiredFeatures r) (Diagnostics r)
    (Descriptors r) (documents r) (report_sources r) (details r) (counts r) (failure r)
    (productFeatures r) (report_plan r) (apiOnly r).
Definition with_sources (sources : list SourceSummary) (r : Report) : Report :=
  mkReport (Valid r) (Report_Complete r) (Products r) (RequiredFeatures r) (Diagnostics r)
    (Descriptors r) (documents r) sources (details r) (counts r) (failure r) (productFeatures r)
    (report_plan r) (apiOnly r).
Definition with_failure (p : Position) (r : Report) : Report :=
  mkReport (Valid r) (Report_Complete r) (Products r) (RequiredFeatures r) (Diagnostics r)
    (Descriptors r) (documents r) (report_sources r) (details r) (counts r) p (productFeatures r)
    (report_plan r) (apiOnly r).
Definition with_features (f : ProductFeatures) (r : Report) : Report :=
  mkReport (Valid r) (Report_Complete r) (Products r) (RequiredFeatures r) (Diagnostics r)
    (Descriptors r) (documents r) (report_sources r) (details r) (counts r) (failure r)
    (productFeatures r ++ [f]) (report_plan r) (apiOnly r).
Definition with_required (required : list string) (r : Report) : Report :=
  mkReport (Valid r) (Report_Complete r) (Products r) required (Diagnostics r)
    (Descriptors r) (documents r) (report_sources r) (details r) (counts r) (failure r)
    (productFeatures r) (report_plan r) (apiOnly r).
Definition with_plan (plan : option ReviewPlan) (r : Report) : Report :=
  mkReport (Valid r) (Report_Complete r) (Products r) (RequiredFeatures r) (Diagnostics r)
    (Descriptors r) (documents r) (report_sources r) (details r) (counts r) (failure r)
    (productFeatures r) plan (apiOnly r).
Definition with_descriptors (ds : list string) (r : Report) : Report :=
  mkReport (Valid r) (Report_Complete r) (Products r) (RequiredFeatures r) (Diagnostics r)
    ds (documents r) (report_sources r) (details r) (counts r) (failure r) (productFeatures r)
    (report_plan r) (apiOnly r).

(** ** JSON of the reports *)

(** An object whose field values are already encoded: descriptors are raw messages. *)
Definition raw_object (fields : list (string * string)) : string :=
  "{" +:+ join "," (map (λ e, json_string (fst e) +:+ ":" +:+ snd e) fields) +:+ "}".
Definition raw_array (items : list string) : string := "[" +:+ join "," items +:+ "]".
Definition strings_json (l : list string) : string := encode (JArray (map JString l)).

Definition diagnostic_json (d : Diagnostic) : json :=
  JObject (field "document" (JInt (D_Document d)) ++ field "severity" (JString (D_Severity d)) ++
           field "code" (JString (D_Code d)) ++ field "path" (JString (D_Path d)) ++
           field "message" (JString (D_Message d))).
(** The first report version. *)
Definition report_json (r : Report) : string :=
  raw_object ([("apiVersion", json_string "data-product-preflight/v1");
    ("valid", encode (JBool (Valid r))); ("complete", encode (JBool (Report_Complete r)));
    ("products", encode (JInt (Products r)));
    ("requiredFeatures", strings_json (RequiredFeatures r));
    ("diagnostics", encode (JArray (map diagnostic_json (Diagnostics r))))]%string ++
    (if (len (Descriptors r) =? 0)%Z then [] else [("descriptors", raw_array (Descriptors r))]%string)).

Section Check.
Context `{E : Env} `{C : ConditionApi} `{N : NameValidation} `{V : VersionApi}.
Context `{D : DecoderApi} `{A : AdmissionApi} `{M : ObjectMetaApi}.

(** ** One declaration *)

(** The local variables of the loop of [checkSelected]. *)
Record check_state := mkCheck {
  ck_report : Report;
  ck_budget : Z;
  ck_names : gset string;
  ck_ids : gset string;
  ck_required : gset string
}.
Definition on_report (f : Report → Report) (s : check_state) : check_state :=
  mkCheck (f (ck_report s)) (ck_budget s) (ck_names s) (ck_ids s) (ck_required s).
(** The document with the number [index + 1] now is [doc]. *)
Definition store_document (index : nat) (doc : document) (s : check_state) : check_state :=
  on_report (λ r, with_documents (<[index := doc]> (documents r)) r) s.

(** The checks after admission accepted the object. *)
Definition check_published (index : nat) (doc : document) (apiOnlyUI : bool) (s : check_state)
  : check_state :=
  let number := (Z.of_nat index + 1)%Z in
  let product := doc_product doc in
  let key := productKey doc in
  let id := ID (Spec product) in
  if apiOnlyUI then s
  else if bool_decide (key ∈ ck_names s) || bool_decide (id ∈ ck_ids s) then
    on_report (add number "IdentityConflict" "metadata") s
  else
    let s := mkCheck (ck_report s) (ck_budget s) ({[key]} ∪ ck_names s) ({[id]} ∪ ck_ids s)
               (ck_required s) in
    if match UI (Spec product) with Some ui => negb (ValidPublicationUI ui) | None => false end
    then on_report (add number "InvalidUI" "spec.ui") s
    else match PublicationPreview product with
    | inr _ => on_report (add number "InvalidPublicMetadata" "spec") s
    | inl _ =>
        match ValidatePublication product with
        | Some _ => on_report (add number "InvalidPublicMetadata" "spec") s
        | None =>
            let '(report, required) :=
              observeDeclarations number product (ck_report s) (ck_required s) in
            mkCheck (with_features (mkProductFeatures (Pos_Source (doc_origin doc))
                       (Pos_Document (doc_origin doc)) (declaredFeatures product)) report)
              (ck_budget s) (ck_names s) (ck_ids s) required
        end
    end.

(** The validation of the object against the schema, with the shared budget. *)
Definition check_object (validator : admission) (ctx : Ctx) (index : nat) (doc : document)
    (apiOnlyUI : bool) (s : check_state) : ST World (option check_state) :=
  let number := (Z.of_nat index + 1)%Z in
  match object_field (doc_object doc) "metadata" with
  | AMap metadata =>
      let obj := set_key "metadata"
        (AMap (set_key "namespace" (AString (Namespace (Meta (doc_product doc)))) metadata))
        (doc_object doc) in
      let obj := delete_key "status" obj in
      let doc := set_object obj doc in
      let s := store_document index doc s in
      checked ← validate validator ctx obj (ck_budget s);
      let '(findings, remaining) := checked in
      let s := mkCheck (ck_report s) remaining (ck_names s) (ck_ids s) (ck_required s) in
      if (0 <? len findings)%Z then
        mret ((λ r, on_report (λ _, r) s) <$> addAdmission number "spec" findings (ck_report s))
      else mret (Some (check_published index doc apiOnlyUI s))
  | _ => mret (Some (on_report (add number "AdmissionInvalid" "metadata") s))
  end.

(** One round of the loop, after the context was checked.  [None] is a panic of [findings[0]], which
    [addAdmission] never meets ([check_document_total] in file CheckSpec). *)
Definition check_document (validator : admission) (namespace : string) (only : bool) (ctx : Ctx)
    (index : nat) (doc : document) (s : check_state) : ST World (option check_state) :=
  let number := (Z.of_nat index + 1)%Z in
  let apiOnlyUI := only && non_nil (UI (Spec (doc_product doc))) in
  let product := doc_product doc in
  let product := if Namespace (Meta product) == "" then set_namespace namespace product else product in
  let doc := set_product product doc in
  let s := store_document index doc s in
  if Namespace (Meta product) == "" then
    mret (Some (on_report (add number "NamespaceRequired" "metadata.namespace") s))
  else if negb (len (IsDNS1123Label (Namespace (Meta product))) =? 0)%Z ||
          negb (len (IsDNS1123Subdomain (Name (Meta product))) =? 0)%Z then
    mret (Some (on_report (add number "AdmissionInvalid" "metadata") s))
  else
    let metadataErrors := ValidateObjectMeta (Meta product) in
    if negb (len metadataErrors =? 0)%Z then
      mret ((λ r, on_report (λ _, r) s) <$>
        addAdmission number "metadata"
          (admissionFindings metadataErrors (adm_schema validator) "InvalidField") (ck_report s))
    else
      let doc := set_product (clear_observations product) doc in
      let s := store_document index doc s in
      check_object validator ctx index doc apiOnlyUI s.

(** The loop over the documents: a report that was returned early, or the state at its end. *)
Fixpoint check_loop (validator : admission) (namespace : string) (only : bool) (ctx : Ctx)
    (index : nat) (docs : list document) (s : check_state)
  : ST World (option (Report + check_state)) :=
  match docs with
  | [] => mret (Some (inr s))
  | doc :: docs' =>
      err ← Err ctx;
      if non_nil err then
        mret (Some (inl (add (Z.of_nat index + 1) "ValidationLimit" "" (ck_report s))))
      else
        r ← check_document validator namespace only ctx index doc s;
        match r with
        | None => mret None
        | Some s => check_loop validator namespace only ctx (S index) docs' s
        end
  end.

(** ** The whole selection *)

(** The loop that previews every product. *)
Fixpoint preview_loop (index : nat) (docs : list document) (r : Report) : Report :=
  match docs with
  | [] => r
  | doc :: docs' =>
      match PublicationPreview (doc_product doc) with
      | inr _ =>
          with_descriptors [] (add (Z.of_nat index + 1) "InvalidPublicMetadata" "spec" r)
      | inl encoded => preview_loop (S index) docs' (with_descriptors (Descriptors r ++ [encoded]) r)
      end
  end.

(** The last block: the plan, the previews and the size of the report. *)
Definition finish_report (r : Report) : Report :=
  if Valid r && Report_Complete r then
    let r := with_plan (reviewPlan (documents r)) r in
    let r := preview_loop 0 (documents r) r in
    if (maxReportJSONBytes <? slen (report_json r))%Z
    then add 0 "PreviewLimit" "" (with_descriptors [] r) else r
  else r.

(** After the loop: the required features, the graph and the last block. *)
Definition check_bundle (ctx : Ctx) (s : check_state) : ST World (option Report) :=
  let r := with_required (sort_slice String.ltb (RequiredFeatures (ck_report s) ++ elements (ck_required s)))
             (ck_report s) in
  checked ← (if Valid r then checkGraph ctx (documents r) r else mret (Some r));
  mret (finish_report <$> checked).

(** The closure [checkSelected] passes to the reader of an API-only selection. *)
Definition visit_ui : uiDeclarationVisitor := λ number position r,
  add number "InvalidUI" "spec.ui" (with_failure position r).

(** [checkSelected]; [validator] is what [loadAdmission] returns.  [None] stands for a reader that
    never makes progress. *)
Definition checkSelected (validator : option admission) (ctx : Ctx)
    (sources : list (option io_Reader)) (namespace : string) (only : bool)
  : ST World (option Report) :=
  let report := new_report only in
  ctx ← WithTimeout ctx (5 * Second);
  err ← Err ctx;
  if non_nil err then mret (Some (add 0 "ValidationLimit" "" report))
  else if (namespace != "") && negb (len (IsDNS1123Label namespace) =? 0)%Z then
    mret (Some (add 0 "InvalidNamespace" "metadata.namespace" report))
  else λ w,
    let '(selected, (report, w)) :=
      readSelected validator (if only then [visit_ui] else []) ctx sources (report, w) in
    match selected with
    | None => (None, w)
    | Some sel =>
        let report := with_failure (sel_failure sel) (with_sources (sel_summaries sel) report) in
        if sel_code sel != "" then
          (Some (addAt (sel_number sel) "error" (sel_code sel) "" (Pos_path (sel_failure sel)) report),
           w)
        else
          let report := with_products (len (sel_documents sel))
                          (with_documents (sel_documents sel) report) in
          match validator with
          | None => (Some (add 0 "ValidationUnavailable" "" report), w)
          | Some validator =>
              let '(checked, w) :=
                check_loop validator namespace only ctx 0 (sel_documents sel)
                  (mkCheck report RuntimeCELCostBudget ∅ ∅ ∅) w in
              match checked with
              | None => (None, w)
              | Some (inl report) => (Some report, w)
              | Some (inr s) => check_bundle ctx s w
              end
          end
    end.

(** [CheckFiles], [CheckAPIOnlyFiles] and [Check] drop the raw declarations. *)
Definition CheckFiles (validator : option admission) (ctx : Ctx) (sources : list (option io_Reader))
    (namespace : string) : ST World (option Report) :=
  r ← checkSelected validator ctx sources namespace false; mret (with_documents [] <$> r).
Definition CheckAPIOnlyFiles (validator : option admission) (ctx : Ctx)
    (sources : list (option io_Reader)) (namespace : string) : ST World (option Report) :=
  r ← checkSelected validator ctx sources namespace true; mret (with_documents [] <$> r).
Definition Check_ (validator : option admission) (ctx : Ctx) (in_ : option io_Reader)
    (namespace : string) : ST World (option Report) := CheckFiles validator ctx [in_] namespace.
End Check.

(** ** The second report version *)

Record BundleReport := mkBundle {
  BR_Valid : bool;
  BR_Complete : bool;
  BR_Products : Z;
  BR_Sources : list SourceSummary;
  BR_RequiredFeatures : list string;
  BR_ProductFeatures : list ProductFeatures;
  BR_Diagnostics : list BundleDiagnostic;
  BR_DiagnosticCounts : DiagnosticCounts;
  BR_Descriptors : list string;
  BR_Plan : option ReviewPlan
}.

Definition ints_json (fields : list (string * Z)) : list (string * json) :=
  map (λ e, (fst e, JInt (snd e))) fields.
Definition source_json (s : SourceSummary) : json :=
  JObject (ints_json [("source", Summary_Source s); ("documents", Summary_Documents s);
                      ("products", Summary_Products s)]%string).
Definition features_json (p : ProductFeatures) : json :=
  JObject (ints_json [("source", PF_Source p); ("document", PF_Document p)]%string ++
           field "requiredFeatures" (JArray (map JString (PF_RequiredFeatures p)))).
Definition step_json (s : WitnessStep) : json :=
  JObject (ints_json [("source", Step_Source s); ("document", Step_Document s)]%string ++
           field "path" (JString (Step_Path s))).
Definition bundle_diagnostic_json (d : BundleDiagnostic) : json :=
  let p := BD_Position d in
  JObject (ints_json [("source", Pos_Source p); ("document", Pos_Document p); ("line", Pos_Line p);
                      ("column", Pos_Column p)]%string ++
           field "severity" (JString (BD_Severity d)) ++ field "code" (JString (BD_Code d)) ++
           field "path" (JString (BD_Path d)) ++ field "message" (JString (BD_Message d)) ++
           field "witness" (JArray (map step_json (BD_Witness d))) ++
           field "witnessTruncated" (JBool (BD_WitnessTruncated d))).
Definition counts_json (c : DiagnosticCounts) : json :=
  JObject (ints_json [("total", Total c); ("errors", ErrorCount c); ("warnings", Warnings c);
                      ("omitted", Omitted c)]%string).
Definition plan_product_json (p : PlanProduct) : json :=
  JObject (field "key" (JString (PP_Key p)) ++
           ints_json [("source", PP_Source p); ("document", PP_Document p)]%string).
Definition plan_edge_json (e : PlanEdge) : json :=
  JObject (field "consumer" (JString (PE_Consumer e)) ++ field "producer" (JString (PE_Producer e)) ++
           field "input" (JString (PE_Input e)) ++ ints_json [("inputIndex", PE_InputIndex e)]%string ++
           field "output" (JString (PE_Output e)) ++
           ints_json [("source", PE_Source e); ("document", PE_Document e)]%string).
Definition plan_json (plan : option ReviewPlan) : json :=
  match plan with
  | None => JNull
  | Some p => JObject (field "order" (JArray (map plan_product_json (Plan_Order p))) ++
                       field "edges" (JArray (map plan_edge_json (Plan_Edges p))))
  end.
Definition bundle_json (b : BundleReport) : string :=
  raw_object [("apiVersion", json_string "data-product-preflight/v2");
    ("valid", encode (JBool (BR_Valid b))); ("complete", encode (JBool (BR_Complete b)));
    ("products", encode (JInt (BR_Products b)));
    ("sources", encode (JArray (map source_json (BR_Sources b))));
    ("requiredFeatures", strings_json (BR_RequiredFeatures b));
    ("productFeatures", encode (JArray (map features_json (BR_ProductFeatures b))));
    ("diagnostics", encode (JArray (map bundle_diagnostic_json (BR_Diagnostics b))));
    ("diagnosticCounts", encode (counts_json (BR_DiagnosticCounts b)));
    ("descriptors", raw_array (BR_Descriptors b));
    ("plan", encode (plan_json (BR_Plan b)))]%string.

(** [bundleReport]. *)
Definition bundleReport (r : Report) : BundleReport :=
  let required := list_to_set (concat (map PF_RequiredFeatures (productFeatures r))) in
  let accepted := Valid r && Report_Complete r in
  let result :=
    mkBundle (Valid r) (Report_Complete r)
      (foldr Z.add 0%Z (map Summary_Products (report_sources r))) (report_sources r)
      (sorted_set required) (productFeatures r) (details r) (counts r)
      (if accepted then Descriptors r else []) (if accepted then report_plan r else None) in
  if (maxReportJSONBytes <? slen (bundle_json result))%Z then
    let r := add 0 "PreviewLimit" "" r in
    mkBundle false false (BR_Products result) (BR_Sources result) (BR_RequiredFeatures result)
      (BR_ProductFeatures result) (details r) (counts r) [] None
  else result.

Section Bundle.
Context `{E : Env} `{C : ConditionApi} `{N : NameValidation} `{V : VersionApi}.
Context `{D : DecoderApi} `{A : AdmissionApi} `{M : ObjectMetaApi}.

(** [CheckBundle] and [CheckAPIOnlyBundle]. *)
Definition CheckBundle (validator : option admission) (ctx : Ctx) (sources : list (option io_Reader))
    (namespace : string) : ST World (option BundleReport) :=
  r ← checkSelected validator ctx sources namespace false; mret (bundleReport <$> r).
Definition CheckAPIOnlyBundle (validator : option admission) (ctx : Ctx)
    (sources : list (option io_Reader)) (namespace : string) : ST World (option BundleReport) :=
  r ← checkSelected validator ctx sources namespace true; mret (bundleReport <$> r).
End Bundle.
