(* ===== verification/CheckSpec.v ===== *)
(** * The publisher's static check: privacy and accounting

    Whatever is submitted, a check returns one report whose counters agree with its findings and whose
    texts are fixed: a path is fixed or made of names of the embedded schema and of indices, and a
    position holds numbers only. *)

From Stdlib Require Import Ascii.
From stdpp Require Import pretty.
From S2P Require Import Prelude Kube Api Regex GoJson GoStrings GoUrl Config Composition Descriptor Catalog Report Plan Witness Graph Admission Input InputSpec Check.

(** Membership of a literal in a literal list, by evaluation. *)
Ltac literal_in := apply (bool_decide_unpack _); vm_compute; exact I.

Definition legacy_paths : list string :=
  [""; "metadata"; "metadata.namespace"; "spec"; "spec.ui"; "spec.inputs"; "spec.contractChecks"]%string.
Definition fixed_paths : list string :=
  [""; "/metadata"; "/metadata/namespace"; "/spec"; "/spec/ui"; "/spec/inputs"]%string.
Definition known_codes : list string := map fst message_table.

(** A fixed path, a path below an input or a contract check, or a path of the schema. *)
Inductive public_path `{Env} (validator : option admission) : string → Prop :=
  | public_fixed p : p ∈ fixed_paths → public_path validator p
  | public_input (n : nat) tail : tail ∈ ["/productRef"; "/productRef/output"; "/contract"]%string →
      public_path validator ("/spec/inputs/" +:+ pretty n +:+ tail)
  | public_check (n : nat) : public_path validator ("/spec/contractChecks/" +:+ pretty n +:+ "/output")
  | public_schema a p : validator = Some a → schema_path (adm_schema a) p → public_path validator p.

Section Private.
Context `{E : Env} (validator : option admission) (only : bool).

(** A finding without submitted text. *)
Record private_finding (text : string → string) (d : BundleDiagnostic) : Prop := {
  pf_path : public_path validator (BD_Path d);
  pf_code : BD_Code d ∈ known_codes;
  pf_severity : BD_Severity d = "error" ∨ BD_Severity d = "warning";
  pf_message : BD_Message d = text (BD_Code d);
  pf_witness : Forall (λ s, public_path validator (Step_Path s)) (BD_Witness d)
}.

(** A sound report: accounted, and private in both versions. *)
Record sound (r : Report) : Prop := {
  sd_profile : apiOnly r = only;
  sd_accounted : accounted r;
  sd_details : Forall (private_finding (report_message r)) (details r);
  sd_legacy : Forall (λ d, D_Path d ∈ legacy_paths ∧ D_Code d ∈ known_codes ∧
    D_Message d = report_message r (D_Code d)) (Diagnostics r)
}.

Lemma addDetail_sound number severity code path witness truncated r :
  sound r → public_path validator path → code ∈ known_codes →
  severity = "error" ∨ severity = "warning" →
  Forall (λ s, public_path validator (Step_Path s)) witness →
  sound (addDetail number severity code path witness truncated r).
Proof.
  intros [S0 S1 S2 S3] Hp Hc Hs Hw. constructor; [exact S0|by apply addDetail_accounted| |exact S3].
  unfold addDetail. cbn [details]. destruct (128 <=? _)%Z; [exact S2|].
  apply Forall_app_2; [exact S2|]. apply list.Forall_singleton. by constructor.
Qed.

Lemma appendLegacy_sound number severity code path r :
  sound r → path ∈ legacy_paths → code ∈ known_codes → sound (appendLegacy number severity code path r).
Proof.
  intros [S0 S1 S2 S3] Hp Hc.
  constructor; [|by apply appendLegacy_accounted|..]; unfold appendLegacy;
    (destruct (_ <? _)%Z; [|done]); cbn [details Diagnostics]; [exact S0|exact S2|].
  apply Forall_app_2; [exact S3|]. by apply list.Forall_singleton.
Qed.

Lemma addAt_sound number severity code legacyPath path r :
  sound r → public_path validator path → code ∈ known_codes → legacyPath ∈ legacy_paths →
  severity = "error" ∨ severity = "warning" →
  sound (addAt number severity code legacyPath path r).
Proof. intros. apply addDetail_sound; auto. by apply appendLegacy_sound. Qed.

Lemma add_sound number code path r :
  sound r → code ∈ known_codes → path ∈ removelast legacy_paths → sound (add number code path r).
Proof.
  intros Hr Hc Hp. apply addAt_sound; auto.
  - apply public_fixed. revert Hp. cbn [removelast legacy_paths].
    intros Hp. repeat (apply elem_of_cons in Hp as [->|Hp]; [literal_in|]). by apply elem_of_nil in Hp.
  - revert Hp. cbn [removelast legacy_paths].
    intros Hp. repeat (apply elem_of_cons in Hp as [->|Hp]; [literal_in|]). by apply elem_of_nil in Hp.
Qed.

Lemma addAdmission_sound number legacyPath findings r r' a :
  sound r → validator = Some a → legacyPath ∈ legacy_paths → Forall (safe_finding (adm_schema a)) findings →
  addAdmission number legacyPath findings r = Some r' → sound r'.
Proof.
  intros Hr Hv Hl Hf. destruct findings as [|f l]; [done|]. intros [= <-].
  assert (sound (appendLegacy number "error"
    (if finding_code f == "UnknownField" then "UnknownField" else "AdmissionInvalid") legacyPath r)) as H.
  { apply appendLegacy_sound; auto. case_bool_decide; literal_in. }
  assert (∀ l r, sound r → Forall (safe_finding (adm_schema a)) l →
    sound (foldl (λ r f, addDetail number "error" (finding_code f) (finding_path f) [] false r) r l)) as Hg.
  { clear -Hv. induction l as [|x l IH]; intros r Hr Hl; [done|]. cbn.
    apply Forall_cons_iff in Hl as [[Hc Hp] Hl]. apply IH; [|done].
    apply addDetail_sound; auto; [by eapply public_schema|].
    repeat (apply elem_of_cons in Hc as [->|Hc]; [literal_in|]). by apply elem_of_nil in Hc. }
  apply (Hg (f :: l) _ H Hf).
Qed.

(** Assignments that touch neither findings nor counters. *)
Lemma sound_same r r' : sound r → Valid r' = Valid r → Report_Complete r' = Report_Complete r →
  details r' = details r → Diagnostics r' = Diagnostics r → counts r' = counts r →
  apiOnly r' = apiOnly r → sound r'.
Proof.
  intros [S0 [] S2 S3] E1 E2 E3 E4 E5 E6.
  assert (report_message r' = report_message r) as Em by (unfold report_message; by rewrite E6).
  constructor; [congruence|constructor|..]; rewrite ?E1, ?E2, ?E3, ?E4, ?E5, ?Em; assumption.
Qed.

Lemma new_report_sound : sound (new_report only).
Proof. constructor; [done|apply new_report_accounted|constructor..]. Qed.
End Private.

(** Closes the side conditions of the lemmas above on literals. *)
Ltac sound_literal :=
  match goal with
  | |- public_path _ _ => first [assumption | apply public_fixed; literal_in]
  | |- _ ∨ _ => first [left; reflexivity | right; reflexivity]
  | |- _ ∈ _ => first [assumption | literal_in]
  | |- _ => assumption
  end.
#[export] Hint Resolve new_report_sound : report.

(** ** The graph *)

Section GraphPrivate.
Context `{E : Env} `{V : VersionApi} (validator : option admission) (only : bool).

Lemma compatibility_codes input producer :
  DeclaredInputCompatibility input producer ∈ ["OutputNotFound"; "ContractIncompatible"; ""]%string.
Proof.
  unfold DeclaredInputCompatibility, inputCompatibility.
  destruct (findOutput _ _); [|literal_in]. destruct (Input_Contract input); [|literal_in].
  destruct (_ || _); literal_in.
Qed.

Lemma input_path_public (n : nat) : public_path validator ("/spec/inputs/" +:+ pretty n +:+ "/productRef").
Proof. apply public_input. literal_in. Qed.

Lemma check_input_sound docs doc number index input r :
  sound validator only r → sound validator only (check_input docs doc number index input r).
Proof.
  intros Hr. unfold check_input. pose proof (input_path_public index) as Hp.
  destruct (_ != Namespace _); [apply addAt_sound; sound_literal|].
  destruct (bundle_products docs !! _) as [p|]; [|apply addAt_sound; sound_literal].
  pose proof (compatibility_codes input p) as Hc.
  destruct (DeclaredInputCompatibility input p != "") eqn:Hne; [|done]. go_bool.
  apply addAt_sound; [done| | |sound_literal..].
  - case_bool_decide; [|apply public_input; literal_in].
    rewrite <- !str_app_assoc. apply public_input. literal_in.
  - apply elem_of_cons in Hc as [->|Hc]; [literal_in|].
    apply elem_of_cons in Hc as [->|Hc]; [literal_in|]. by apply list_elem_of_singleton in Hc.
Qed.

Lemma check_documents_sound docs rest : ∀ number r,
  sound validator only r → sound validator only (check_documents docs rest number r).
Proof.
  assert (∀ doc number inputs index r, sound validator only r →
    sound validator only (check_inputs docs doc number index inputs r)) as H.
  { intros doc number. induction inputs as [|input inputs IH]; intros index r Hr; cbn; [done|].
    by apply IH, check_input_sound. }
  induction rest as [|doc rest IH]; intros number r Hr; cbn; [done|]. by apply IH, H.
Qed.

Lemma route_public byKey a l b : route byKey a l b →
  Forall (λ s, public_path validator (Step_Path s)) l.
Proof.
  induction 1 as [|a s b l c (doc & i & input & _ & _ & _ & _ & ->) _ IH]; constructor; [|done].
  apply input_path_public.
Qed.

Lemma checkGraph_sound ctx docs r w : sound validator only r →
  ∃ r' w', checkGraph ctx docs r w = (Some r', w') ∧ sound validator only r'.
Proof.
  intros Hr. unfold checkGraph. destruct (1024 <? _)%Z.
  { do 2 eexists. split; [done|]. apply add_sound; sound_literal. }
  pose proof (check_documents_sound docs docs 1 r Hr) as H1.
  set (r1 := check_documents docs docs 1 r) in *.
  destruct (negb (Valid r1)); [by exists r1, w|].
  unfold mbind, st_bind. destruct (graphWitness_spec ctx docs w) as (res & g & w1 & -> & Hres).
  destruct (res_code res != "") eqn:Hc; [|by exists r1, w1].
  do 2 eexists. split; [done|].
  destruct Hres as [(-> & _)|(key & o & -> & _ & Ho)]; [done|].
  assert (Forall (λ s, public_path validator (Step_Path s)) (out_witness o) ∧
          out_code o ∈ known_codes) as [Hw Hcode].
  { destruct Ho as [(-> & _ & k & Hk & _)|[(-> & [k Hk] & _)|(-> & -> & _)]];
      (split; [first [by eapply route_public|constructor]|sound_literal]). }
  assert (Forall (λ s, public_path validator (Step_Path s)) (res_witness (witness_result docs key o))) as Hw'.
  { unfold witness_result. cbn [res_witness]. destruct (Nat.ltb _ _); [by apply Forall_take|done]. }
  apply addDetail_sound; auto; [apply appendLegacy_sound; auto; sound_literal|].
  destruct (res_witness _) as [|first rest]; [sound_literal|].
  by apply Forall_cons_iff in Hw' as [Hw' _].
Qed.
End GraphPrivate.

(** ** One declaration and the whole selection *)

Section CheckPrivate.
Context `{E : Env} `{C : ConditionApi} `{N : NameValidation} `{V : VersionApi}.
Context `{D : DecoderApi} `{A : AdmissionApi} `{M : ObjectMetaApi}.
Context (a : admission) (only : bool).
#[local] Abbreviation sound := (sound (Some a) only).

Lemma check_outputs_sound outputs number checks : ∀ index r,
  sound r → sound (check_outputs outputs number index checks r).
Proof.
  induction checks as [|c checks IH]; intros index r Hr; cbn [check_outputs]; [done|].
  apply IH. case_bool_decide; [done|]. apply addAt_sound; try sound_literal. apply public_check.
Qed.

Definition sound_state (s : check_state) : Prop := sound (ck_report s).

Lemma add_state_sound number code path s : sound_state s → code ∈ known_codes →
  path ∈ removelast legacy_paths → sound_state (on_report (add number code path) s).
Proof. apply add_sound. Qed.

Lemma store_document_sound index doc s : sound_state s → sound_state (store_document index doc s).
Proof. intros H. by eapply sound_same. Qed.

Lemma check_published_sound index doc apiOnlyUI s : sound_state s →
  sound_state (check_published index doc apiOnlyUI s).
Proof.
  intros Hs. unfold check_published. destruct apiOnlyUI; [done|].
  destruct (_ || _); [apply add_state_sound; sound_literal|].
  set (s1 := mkCheck _ _ _ _ _). assert (sound_state s1) as Hs1 by exact Hs. clearbody s1.
  destruct (match UI _ with Some _ => _ | None => _ end); [apply add_state_sound; sound_literal|].
  destruct (PublicationPreview _); [|apply add_state_sound; sound_literal].
  destruct (ValidatePublication _); [apply add_state_sound; sound_literal|].
  unfold observeDeclarations. eapply sound_same; [apply check_outputs_sound; exact Hs1|done..].
Qed.

Lemma admission_state_sound number path findings s : sound_state s → path ∈ legacy_paths →
  Forall (safe_finding (adm_schema a)) findings → findings ≠ [] →
  ∃ s', (λ r, on_report (λ _, r) s) <$> addAdmission number path findings (ck_report s) = Some s' ∧
    sound_state s'.
Proof.
  intros Hs Hp Hf Hne. destruct (addAdmission number path findings (ck_report s)) as [r|] eqn:Ha.
  - eexists. split; [done|]. by eapply addAdmission_sound.
  - by destruct findings.
Qed.

Lemma check_document_sound namespace ctx index doc s w : sound_state s →
  ∃ s' w', check_document a namespace only ctx index doc s w = (Some s', w') ∧ sound_state s'.
Proof.
  intros Hs. unfold check_document.
  set (product := if Namespace _ == "" then set_namespace _ _ else _).
  clearbody product.
  destruct (Namespace _ == "").
  { do 2 eexists. split; [done|]. apply add_state_sound; try sound_literal. by apply store_document_sound. }
  destruct (_ || _).
  { do 2 eexists. split; [done|]. apply add_state_sound; try sound_literal. by apply store_document_sound. }
  destruct (ValidateObjectMeta (Meta product)) as [|e errs] eqn:Hm.
  2:{ destruct (admission_state_sound (Z.of_nat index + 1) "metadata"
        (admissionFindings (e :: errs) (adm_schema a) "InvalidField")
        (store_document index (set_product product doc) s)) as (s' & Hs' & Hsd); try done.
      - by apply store_document_sound.
      - sound_literal.
      - apply admissionFindings_safe. by left.
      - exists s', w. split; [|done].
        change (negb (len (e :: errs) =? 0)%Z) with true. cbv beta iota. by rewrite <- Hs'. }
  change (negb (len (@nil FieldError) =? 0)%Z) with false. cbv beta iota.
  set (doc1 := set_product (clear_observations product) (set_product product doc)).
  unfold check_object. set (s1 := store_document _ doc1 _).
  assert (sound_state s1) as Hs1 by (by repeat apply store_document_sound). clearbody s1.
  destruct (object_field _ "metadata");
    try (do 2 eexists; split; [done|]; apply add_state_sound; sound_literal).
  set (obj := delete_key _ _). set (doc2 := set_object obj doc1).
  set (s2 := store_document index doc2 s1).
  assert (sound_state s2) as Hs2 by (by apply store_document_sound). clearbody s2.
  unfold mbind, st_bind. pose proof (validate_safe a ctx obj (ck_budget s2) w) as Hf.
  destruct (validate a ctx obj (ck_budget s2) w) as [[findings remaining] w1]. cbn in Hf.
  set (s3 := mkCheck (ck_report s2) remaining (ck_names s2) (ck_ids s2) (ck_required s2)). assert (sound_state s3) as Hs3 by exact Hs2.
  destruct findings as [|f fs].
  - do 2 eexists. split; [reflexivity|]. by apply check_published_sound.
  - destruct (admission_state_sound (Z.of_nat index + 1) "spec" (f :: fs) s3) as (s' & Hs' & Hsd);
      try done; [sound_literal|]. exists s', w1. split; [|done].
    change (0 <? len (f :: fs))%Z with true. cbv beta iota. by rewrite <- Hs'.
Qed.

Lemma check_loop_sound namespace ctx docs : ∀ index s w, sound_state s →
  ∃ r w', check_loop a namespace only ctx index docs s w = (Some r, w') ∧
    match r with inl r => sound r | inr s => sound_state s end.
Proof.
  induction docs as [|doc docs IH]; intros index s w Hs; cbn [check_loop].
  - by exists (inr s), w.
  - unfold mbind, st_bind. destruct (Err ctx w) as [err w1]. destruct (non_nil err).
    { do 2 eexists. split; [done|]. apply add_sound; sound_literal. }
    destruct (check_document_sound namespace ctx index doc s w1 Hs) as (s' & w2 & -> & Hs').
    by apply IH.
Qed.

Lemma preview_loop_sound docs : ∀ index r, sound r → sound (preview_loop index docs r).
Proof.
  induction docs as [|doc docs IH]; intros index r Hr; cbn [preview_loop]; [done|].
  destruct (PublicationPreview _).
  - apply IH. by eapply sound_same.
  - eapply sound_same; [apply (add_sound _ _ (Z.of_nat index + 1) "InvalidPublicMetadata" "spec" r); sound_literal|done..].
Qed.

Lemma finish_report_sound r : sound r → sound (finish_report r).
Proof.
  intros Hr. unfold finish_report. destruct (_ && _); [|done].
  assert (sound (preview_loop 0 (documents (with_plan (reviewPlan (documents r)) r))
                   (with_plan (reviewPlan (documents r)) r))) as H
    by (apply preview_loop_sound; by eapply sound_same).
  destruct (_ <? _)%Z; [|done]. apply add_sound; [by eapply sound_same|sound_literal..].
Qed.

Lemma check_bundle_sound ctx s w : sound_state s →
  ∃ r w', check_bundle ctx s w = (Some r, w') ∧ sound r.
Proof.
  intros Hs. unfold check_bundle. set (r := with_required _ _).
  assert (sound r) as Hr by (by eapply sound_same). clearbody r.
  unfold mbind, st_bind. destruct (Valid r).
  - destruct (checkGraph_sound (Some a) only ctx (documents r) r w Hr) as (r' & w' & -> & Hr').
    do 2 eexists. split; [done|]. by apply finish_report_sound.
  - do 2 eexists. split; [done|]. by apply finish_report_sound.
Qed.
End CheckPrivate.

Section SelectedPrivate.
Context `{E : Env} `{C : ConditionApi} `{N : NameValidation} `{V : VersionApi}.
Context `{D : DecoderApi} `{A : AdmissionApi} `{M : ObjectMetaApi}.

Lemma visit_ui_sound validator (only : bool) n p r : sound validator only r → sound validator only (visit_ui n p r).
Proof.
  intros Hr. unfold visit_ui. apply add_sound; [by eapply sound_same|sound_literal..].
Qed.

Lemma read_codes_known code : code ∈ read_codes → code ∈ known_codes.
Proof.
  intros Hc. unfold read_codes, parse_codes, entry_codes in Hc.
  repeat (apply elem_of_cons in Hc as [->|Hc]; [literal_in|]). by apply elem_of_nil in Hc.
Qed.

Lemma safe_position_public validator p : safe_position validator p → public_path validator (Pos_path p).
Proof.
  intros [->|(a & -> & Hp)]; [apply public_fixed; literal_in|by eapply public_schema].
Qed.

Lemma checkSelected_sound validator ctx sources namespace (only : bool) w :
  Forall (λ r, ∀ reader, r = Some reader → progressive reader) sources →
  ∃ r w', checkSelected validator ctx sources namespace only w = (Some r, w') ∧ sound validator only r.
Proof.
  intros Hs. unfold checkSelected, mbind, st_bind.
  destruct (WithTimeout ctx (5 * Second) w) as [ctx' w1]. destruct (Err ctx' w1) as [err w2].
  destruct (non_nil err).
  { do 2 eexists. split; [done|]. apply add_sound; [auto with report|sound_literal..]. }
  destruct (_ && _).
  { do 2 eexists. split; [done|]. apply add_sound; [auto with report|sound_literal..]. }
  pose proof (readSelected_spec validator (if only then [visit_ui] else []) (sound validator only)) as Hread.
  specialize (Hread ltac:(intros visit n p r Hin _ Hr; destruct only;
    [apply list_elem_of_singleton in Hin as ->; by apply visit_ui_sound|by apply elem_of_nil in Hin])).
  specialize (Hread ctx' sources (new_report only, w2) Hs (new_report_sound _ _)).
  destruct (readSelected _ _ _ _ _) as [selected [report w3]].
  destruct Hread as (Hr & sel & -> & Hsel & _).
  set (r1 := with_failure _ _). assert (sound validator only r1) as Hr1 by (by eapply sound_same).
  destruct Hsel as [(-> & _)|(Hc & _ & Hf)].
  2:{ assert (sel_code sel ≠ "") as Hne.
      { intros E0. rewrite E0 in Hc. revert Hc. clear. intros Hc.
        unfold read_codes, parse_codes, entry_codes in Hc.
        repeat (apply elem_of_cons in Hc as [Hx|Hc]; [discriminate Hx|]). by apply elem_of_nil in Hc. }
      rewrite bool_decide_false by done. cbn [negb]. do 2 eexists. split; [done|].
      apply addAt_sound; [done|by apply safe_position_public|by apply read_codes_known|sound_literal..]. }
  rewrite bool_decide_true by done. cbn [negb].
  set (r2 := with_products _ _). assert (sound validator only r2) as Hr2 by (by eapply sound_same).
  destruct validator as [a|].
  2:{ do 2 eexists. split; [done|]. apply add_sound; [done|sound_literal..]. }
  destruct (check_loop_sound a only namespace ctx' (sel_documents sel) 0
    (mkCheck r2 RuntimeCELCostBudget ∅ ∅ ∅) w3 Hr2) as (x & w4 & -> & Hx).
  destruct x as [r|s]; [by exists r, w4|]. by apply check_bundle_sound.
Qed.

(** What a second-version report promises. *)
Record private_bundle (validator : option admission) (only : bool) (b : BundleReport) : Prop := {
  pb_findings : Forall (private_finding validator (report_message (new_report only)))
                  (BR_Diagnostics b);
  pb_shown : (len (BR_Diagnostics b) ≤ 128)%Z;
  pb_total : let c := BR_DiagnosticCounts b in
    Total c = (ErrorCount c + Warnings c)%Z ∧ Total c = (len (BR_Diagnostics b) + Omitted c)%Z ∧
    ((0 < Omitted c)%Z → len (BR_Diagnostics b) = 128%Z);
  pb_valid : BR_Valid b = true ↔ ErrorCount (BR_DiagnosticCounts b) = 0%Z;
  pb_complete : BR_Complete b = true ↔ Total (BR_DiagnosticCounts b) = 0%Z;
  pb_preview : BR_Complete b = false → BR_Descriptors b = [] ∧ BR_Plan b = None
}.

Lemma bundleReport_private validator r (only : bool) : sound validator only r →
  private_bundle validator only (bundleReport r).
Proof.
  intros Hr.
  assert (∀ r, sound validator only r →
    Forall (private_finding validator (report_message (new_report only))) (details r)) as Hd.
  { intros r0 [H0 _ H2 _]. assert (report_message (new_report only) = report_message r0) as ->; [|done].
    unfold report_message. by rewrite H0. }
  unfold bundleReport. destruct (_ <? _)%Z.
  - assert (sound validator only (add 0 "PreviewLimit" "" r)) as Hr'
      by (apply add_sound; [done|sound_literal..]).
    destruct (addAt_flags 0 "error" "PreviewLimit" "" "" r) as [H1 H2].
    change (addAt 0 "error" "PreviewLimit" "" "" r) with (add 0 "PreviewLimit" "" r) in H1, H2.
    change (("error" : string) == "error") with true in H2. cbv iota in H2.
    pose proof (Hd _ Hr') as Hd'. destruct (sd_accounted _ _ _ Hr').
    constructor; cbn [BR_Diagnostics BR_DiagnosticCounts BR_Valid BR_Complete BR_Descriptors BR_Plan];
      [exact Hd'|done|done|by rewrite <- H2|by rewrite <- H1|done].
  - pose proof (Hd _ Hr) as Hd'. destruct (sd_accounted _ _ _ Hr).
    constructor; cbn [BR_Diagnostics BR_DiagnosticCounts BR_Valid BR_Complete BR_Descriptors BR_Plan];
      [exact Hd'|done|done|done|done|].
    intros Hc. rewrite Hc, andb_false_r. done.
Qed.
End SelectedPrivate.
