(* ===== verification/BundleSpec.v ===== *)
(** * The publisher's static check: what an accepted bundle promises

    A bundle that a check accepts without findings is a sound snapshot of the controller's composition
    walk, has a plan, and is previewed completely. *)

From Stdlib Require Import Ascii.
From stdpp Require Import pretty.
From S2P Require Import Prelude Kube Api Regex GoJson GoStrings GoUrl Config Composition CompositionProofs CompositionComplete Descriptor Catalog Reference Report Plan Witness Graph Admission Input InputSpec Check CheckSpec.

(** ** Findings leave the documents alone and make the report incomplete *)

Lemma add_incomplete number code path r : Report_Complete (add number code path r) = false.
Proof. reflexivity. Qed.
Lemma add_documents number code path r : documents (add number code path r) = documents r.
Proof. apply addAt_state. Qed.
Lemma add_descriptors number code path r : Descriptors (add number code path r) = Descriptors r.
Proof. apply addAt_state. Qed.

Lemma addAdmission_kept number path findings r r' :
  addAdmission number path findings r = Some r' →
  documents r' = documents r ∧ Report_Complete r' = false ∧ Descriptors r' = Descriptors r.
Proof.
  destruct findings as [|f l]; [done|]. cbn [addAdmission foldl]. intros [= <-].
  match goal with |- documents (foldl ?g ?r0 ?fs) = _ ∧ _ =>
    assert (documents r0 = documents r ∧ Report_Complete r0 = false ∧ Descriptors r0 = Descriptors r)
      as H end.
  { unfold addDetail, appendLegacy. by destruct (_ <? _)%Z. }
  revert H.
  match goal with |- documents ?r0 = _ ∧ _ → _ => generalize r0 end.
  induction l as [|x l IH]; intros r0 H; [exact H|]. cbn [foldl]. apply IH.
  destruct H as (H1 & _ & H3). by split_and!.
Qed.

Lemma check_outputs_kept outputs number checks : ∀ index r,
  documents (check_outputs outputs number index checks r) = documents r ∧
  Descriptors (check_outputs outputs number index checks r) = Descriptors r ∧
  (Report_Complete (check_outputs outputs number index checks r) = true → Report_Complete r = true).
Proof.
  induction checks as [|c checks IH]; intros index r; cbn [check_outputs]; [done|].
  destruct (IH (S index) (if bool_decide (Check_Output c ∈ outputs) then r else
    addAt number "error" "ContractOutputNotFound" "spec.contractChecks"
      ("/spec/contractChecks/" +:+ pretty index +:+ "/output") r)) as (H1 & H2 & H3).
  case_bool_decide; [done|]. split_and!; [| |intros Hc; specialize (H3 Hc); discriminate H3].
  - rewrite H1. apply addAt_state.
  - rewrite H2. apply addAt_state.
Qed.

Section Accepted.
Context `{E : Env} `{C : ConditionApi} `{N : NameValidation} `{V : VersionApi}.
Context `{D : DecoderApi} `{A : AdmissionApi} `{M : ObjectMetaApi}.
Context (a : admission) (namespace : string).

(** What an unobjected declaration satisfies. *)
Definition declaration_ok (doc : document) : Prop :=
  IsDNS1123Label (Namespace (Meta (doc_product doc))) = [] ∧
  IsDNS1123Subdomain (Name (Meta (doc_product doc))) = [] ∧
  ValidatePublication (doc_product doc) = None ∧
  ∃ encoded, PublicationPreview (doc_product doc) = inl encoded.
Definition product_id (doc : document) : string := ID (Spec (doc_product doc)).

(** [doc] is what is checked of the submitted document [read]: its product in its namespace or the
    default one, without observations of a cluster, at the same place. *)
Definition checked_from (read doc : document) : Prop :=
  let product := doc_product read in
  doc_product doc = clear_observations
    (if Namespace (Meta product) == "" then set_namespace namespace product else product) ∧
  doc_origin doc = doc_origin read ∧ doc_fields doc = doc_fields read.

(** One round: the document [read] is replaced, and without findings its successor is sound and new. *)
Definition round_ok (read : document) (index : nat) (s s' : check_state) : Prop :=
  ∃ doc, documents (ck_report s') = <[index := doc]> (documents (ck_report s)) ∧
    Descriptors (ck_report s') = Descriptors (ck_report s) ∧
    (Report_Complete (ck_report s') = true →
       Report_Complete (ck_report s) = true ∧ declaration_ok doc ∧ checked_from read doc ∧
       (productKey doc ∉ ck_names s) ∧ (product_id doc ∉ ck_ids s) ∧
       ck_names s' = {[productKey doc]} ∪ ck_names s ∧ ck_ids s' = {[product_id doc]} ∪ ck_ids s).

Lemma round_fail read index s s' doc :
  documents (ck_report s') = <[index := doc]> (documents (ck_report s)) →
  Report_Complete (ck_report s') = false → Descriptors (ck_report s') = Descriptors (ck_report s) →
  round_ok read index s s'.
Proof. intros H1 H2 H3. exists doc. split; [done|]. split; [done|]. by rewrite H2. Qed.

Lemma insert_same {B} index (x y : B) (l : list B) : <[index := x]> (<[index := y]> l) = <[index := x]> l.
Proof. apply list_insert_insert_eq. Qed.

(** A branch that ends in a finding. *)
Ltac fail_round d :=
  apply (round_fail _ _ _ _ d);
  [cbn [ck_report on_report store_document]; rewrite add_documents; cbn [documents with_documents ck_report];
   rewrite ?insert_same; assumption || reflexivity | apply add_incomplete
  |cbn [ck_report on_report store_document]; rewrite add_descriptors; assumption || reflexivity].

(** The last part of a round, when the document is already stored. *)
Lemma check_published_round read index doc s s0 :
  checked_from read doc →
  documents (ck_report s) = <[index := doc]> (documents (ck_report s0)) →
  Descriptors (ck_report s) = Descriptors (ck_report s0) →
  (Report_Complete (ck_report s) = true → Report_Complete (ck_report s0) = true) →
  ck_names s = ck_names s0 → ck_ids s = ck_ids s0 →
  IsDNS1123Label (Namespace (Meta (doc_product doc))) = [] →
  IsDNS1123Subdomain (Name (Meta (doc_product doc))) = [] →
  round_ok read index s0 (check_published index doc false s).
Proof.
  intros Hfrom Hd Hds Hc Hn Hi Hl Hsub. unfold check_published.
  fold (product_id doc). rewrite Hn, Hi.
  destruct (bool_decide _ || bool_decide _) eqn:Hdup; [fail_round doc|].
  destruct (match UI _ with Some _ => _ | None => _ end); [fail_round doc|].
  destruct (PublicationPreview _) as [encoded|] eqn:Hp; [|fail_round doc].
  destruct (ValidatePublication _) eqn:Hv; [fail_round doc|].
  unfold observeDeclarations. cbn [ck_report ck_names ck_ids].
  destruct (check_outputs_kept (list_to_set (map Output_Name (Outputs (Spec (doc_product doc)))))
    (Z.of_nat index + 1) (ContractChecks (Spec (doc_product doc))) 0 (ck_report s)) as (H1 & H2 & H3).
  go_bool. destruct Hdup as [Hd1 Hd2].
  exists doc. cbn [ck_report ck_names ck_ids]. split; [by rewrite <- Hd, <- H1|].
  split; [by rewrite <- Hds, <- H2|].
  assert (declaration_ok doc) by (unfold declaration_ok; eauto). intros Hcomp. auto 10.
Qed.

Lemma check_document_round ctx index doc s w s' w' :
  check_document a namespace false ctx index doc s w = (Some s', w') → round_ok doc index s s'.
Proof.
  unfold check_document. cbn [andb].
  set (product := if Namespace _ == "" then set_namespace _ _ else _).
  assert (∀ doc', doc_product doc' = clear_observations product → doc_origin doc' = doc_origin doc →
    doc_fields doc' = doc_fields doc → checked_from doc doc') as Hfrom
    by (intros doc' H1 H2 H3; unfold checked_from; by split_and!).
  clearbody product.
  destruct (Namespace _ == ""); [intros [= <- _]; fail_round (set_product product doc)|].
  destruct (_ || _) eqn:Hnames; [intros [= <- _]; fail_round (set_product product doc)|].
  assert (IsDNS1123Label (Namespace (Meta product)) = [] ∧
          IsDNS1123Subdomain (Name (Meta product)) = []) as [Hl Hsub].
  { apply orb_false_iff in Hnames as [H1 H2]. apply negb_false_iff, Z.eqb_eq in H1, H2.
    unfold len in H1, H2. split; apply nil_length_inv; lia. }
  destruct (negb (len (ValidateObjectMeta (Meta product)) =? 0)%Z).
  { intros H. apply (f_equal fst) in H. apply fmap_Some in H as (r & Hr & ->).
    apply addAdmission_kept in Hr as (H1 & H2 & H3). eapply round_fail; [exact H1|exact H2|exact H3]. }
  set (doc1 := set_product (clear_observations product) (set_product product doc)).
  unfold check_object.
  destruct (object_field _ "metadata");
    try (intros [= <- _]; fail_round doc1).
  set (obj := delete_key _ _). set (doc2 := set_object obj doc1).
  unfold mbind, st_bind. destruct (validate a ctx obj _ w) as [[findings remaining] w1].
  destruct (0 <? len findings)%Z.
  - intros H. apply (f_equal fst) in H. apply fmap_Some in H as (r & Hr & ->).
    apply addAdmission_kept in Hr as (H1 & H2 & H3). apply (round_fail _ _ _ _ doc2); [|exact H2|exact H3].
    etrans; [exact H1|]. cbn. by rewrite !insert_same.
  - match goal with |- mret (Some (check_published _ _ _ ?s2)) _ = _ → _ => set (sp := s2) end.
    intros H. assert (Some (check_published index doc2 false sp) = Some s') as Hs by exact (f_equal fst H).
    apply (inj Some) in Hs as <-. apply check_published_round; try done; [by apply Hfrom|].
    cbn. by rewrite !insert_same.
Qed.

(** ** The loop *)

(** The documents before [index] are accepted as long as nothing was found, and are those of the
    selection [read]. *)
Record accepted_upto (read : list document) (index : nat) (rest : list document) (s : check_state)
  : Prop := {
  au_read : drop index read = rest;
  au_rest : drop index (documents (ck_report s)) = rest;
  au_descriptors : Descriptors (ck_report s) = [];
  au_done : Report_Complete (ck_report s) = true →
    let docs := take index (documents (ck_report s)) in
    Forall declaration_ok docs ∧ Forall2 checked_from (take index read) docs ∧
    NoDup (map productKey docs) ∧ NoDup (map product_id docs) ∧
    ck_names s = list_to_set (map productKey docs) ∧ ck_ids s = list_to_set (map product_id docs)
}.

Lemma accepted_step read index doc rest s s' :
  accepted_upto read index (doc :: rest) s → round_ok doc index s s' →
  accepted_upto read (S index) rest s'.
Proof.
  intros [Hread Hrest Hds Hdone] (d & Hdocs & Hdesc & Hround).
  assert (index < length (documents (ck_report s))) as Hlt.
  { apply (f_equal length) in Hrest. rewrite length_drop in Hrest. cbn in Hrest. lia. }
  constructor.
  - rewrite <- Nat.add_1_r, <- drop_drop, Hread. done.
  - rewrite Hdocs, drop_insert_lt by lia. rewrite <- Nat.add_1_r, <- drop_drop, Hrest. done.
  - by rewrite Hdesc.
  - intros Hc. destruct (Hround Hc) as (Hc0 & Hok & Hfrom & Hk & Hid & Hnames & Hids).
    assert (read !! index = Some doc) as Hlook.
    { rewrite <- (Nat.add_0_r index), <- lookup_drop. by rewrite Hread. }
    destruct (Hdone Hc0) as (D1 & D0 & D2 & D3 & D4 & D5). rewrite Hdocs, Hnames, Hids.
    assert (take (S index) (<[index := d]> (documents (ck_report s))) =
            take index (documents (ck_report s)) ++ [d]) as ->.
    { erewrite take_S_r by (by apply list_lookup_insert_eq). by rewrite take_insert_ge by lia. }
    rewrite (take_S_r read index doc Hlook). cbv zeta. rewrite !map_app. cbn [map]. rewrite D4 in Hk |- *. rewrite D5 in Hid |- *.
    rewrite elem_of_list_to_set in Hk, Hid.
    assert (∀ l x, NoDup l → x ∉ l → NoDup (l ++ [x : string])) as Hsnoc.
    { intros l x Hl Hx. apply list.NoDup_app. split_and!; auto; [|apply NoDup_singleton].
      intros y Hy ->%list_elem_of_singleton. done. }
    split_and!; auto; [apply Forall_app_2; [done|by apply list.Forall_singleton]
      |apply Forall2_app; [done|by constructor]|..];
      rewrite list_to_set_app_L; set_solver.
Qed.

Lemma check_loop_accepted ctx read docs : ∀ index s w s' w',
  accepted_upto read index docs s → length (documents (ck_report s)) = index + length docs →
  check_loop a namespace false ctx index docs s w = (Some (inr s'), w') →
  accepted_upto read (index + length docs) [] s' ∧
  length (documents (ck_report s')) = index + length docs.
Proof.
  induction docs as [|doc docs IH]; intros index s w s' w' Hs Hlen; cbn [check_loop].
  - intros [= <- _]. cbn [length] in *. by rewrite Nat.add_0_r in *.
  - unfold mbind, st_bind. destruct (Err ctx w) as [err w1]. destruct (non_nil err); [done|].
    destruct (check_document a namespace false ctx index doc s w1) as [[s1|] w2] eqn:Hr; [|done].
    apply check_document_round in Hr. intros H. cbn [length].
    rewrite <- Nat.add_succ_comm. eapply IH; [by eapply accepted_step| |exact H].
    destruct Hr as (d & -> & _). rewrite length_insert, Hlen. cbn. lia.
Qed.
End Accepted.

(** ** The graph, the plan and the previews *)

(** A ranked snapshot has a plan: no remainder of products can be stuck. *)
Lemma ranked_plan `{V : VersionApi} docs rank :
  NoDup (map productKey docs) → (∀ doc, doc ∈ docs → no_slash (Namespace (Meta (doc_product doc)))) →
  snapshot_ok (bundle_snapshot docs) rank →
  ∃ plan, reviewPlan docs = Some plan ∧ topological docs (map PP_Key (Plan_Order plan)).
Proof.
  intros Hkeys Hslash Hok. unfold reviewPlan.
  destruct (order_loop_spec (size (needs_of docs)) (needs_of docs) []) as
    [(order & -> & Hp)|(_ & placed & rest & [Hne Hst] & Hrest)]; [done| |].
  - eexists. split; [done|]. cbn. rewrite map_map, map_id. by apply planned_topological.
  - exfalso. assert (∀ n doc, doc ∈ docs → rank (product_key doc) < n →
      is_Some (rest !! productKey doc) → False) as Hnone.
    { induction n as [|n IH]; intros doc Hd Hn [s Hs]; [lia|].
      pose proof (Hst _ _ Hs) as Hnonempty. apply set_choose_L in Hnonempty as [p Hpin].
      rewrite Hrest, lookup_placed in Hs. case_decide; [done|].
      rewrite (needs_lookup docs Hkeys) in Hs by done. injection Hs as <-.
      apply elem_of_difference in Hpin as [Hpin Hpl].
      apply elem_of_list_to_set, list_elem_of_fmap in Hpin as (input & -> & Hi).
      destruct (sn_edges _ _ Hok (product_key doc) (doc_product doc) input) as (Hns & Hlt & q & Hq & _);
        [by apply snapshot_lookup|done|].
      apply snapshot_inv in Hq as (doc' & Hd' & Hk & _).
      assert (producer_key doc input = productKey doc') as Hpk.
      { rewrite producer_key_resolved, Hk. apply product_key_string. }
      rewrite Hk in Hlt. apply (IH doc' Hd').
      - change (ObjectKeyFromObject (doc_product doc)) with (product_key doc) in Hlt. lia.
      - rewrite Hrest, lookup_placed, decide_False.
        + rewrite (needs_lookup docs Hkeys) by done. by eexists.
        + rewrite <- Hpk. rewrite elem_of_list_to_set in Hpl. done. }
    apply map_choose in Hne as (k & s & Hk).
    assert (is_Some (needs_of docs !! k)) as (doc & -> & Hd)%needs_domain%list_elem_of_fmap.
    { rewrite Hrest in Hk. rewrite lookup_placed in Hk. case_decide; [done|].
      apply fmap_Some in Hk as (s0 & -> & _). by eexists. }
    eapply (Hnone (S (rank (product_key doc))) doc Hd); [lia|by eexists].
Qed.

Section Finish.
Context `{E : Env} `{C : ConditionApi} `{N : NameValidation} `{V : VersionApi}.

Definition previewed (doc : document) (encoded : string) : Prop :=
  PublicationPreview (doc_product doc) = inl encoded.

Lemma preview_loop_complete docs : ∀ index r,
  Report_Complete (preview_loop index docs r) = true →
  ∃ new, Forall2 previewed docs new ∧
    preview_loop index docs r = with_descriptors (Descriptors r ++ new) r.
Proof.
  induction docs as [|doc docs IH]; intros index r; cbn [preview_loop].
  - intros _. exists []. rewrite app_nil_r. split; [constructor|by destruct r].
  - destruct (PublicationPreview (doc_product doc)) as [encoded|] eqn:Hp; [|done].
    intros (new & Hf & ->)%IH. exists (encoded :: new). split; [by constructor|].
    unfold with_descriptors. cbn. by rewrite <- app_assoc.
Qed.

Lemma finish_report_accepted r r' : finish_report r = r' → Valid r' = true → Report_Complete r' = true →
  Valid r = true ∧ Report_Complete r = true ∧ report_plan r' = reviewPlan (documents r) ∧
  documents r' = documents r ∧ ∃ new, Forall2 previewed (documents r) new ∧ Descriptors r' = Descriptors r ++ new.
Proof.
  unfold finish_report. destruct (Valid r && Report_Complete r) eqn:Hr.
  - destruct (_ <? _)%Z; [intros <-; done|]. intros <- Hv Hc. apply andb_true_iff in Hr as [H1 H2].
    apply preview_loop_complete in Hc as (new & Hf & ->). split_and!; auto. by exists new.
  - intros <- Hv Hc. rewrite Hv, Hc in Hr. done.
Qed.

Lemma checkGraph_complete ctx docs r w r' w' :
  checkGraph ctx docs r w = (Some r', w') → Report_Complete r' = true → Report_Complete r = true.
Proof.
  unfold checkGraph. destruct (1024 <? _)%Z; [by intros [= <- _]|].
  intros Hrun Hc. assert (Report_Complete (check_documents docs docs 1 r) = true) as H.
  { destruct (negb _); [by injection Hrun as <- _|]. unfold mbind, st_bind in Hrun.
    destruct (graphWitness ctx docs w) as [[res|] w1]; [|done].
    destruct (res_code res != ""); injection Hrun as <- _; done. }
  destruct (check_documents_complete docs docs 1 r H) as [_ E0]. by rewrite E0 in H.
Qed.
End Finish.

(** ** Accepted bundles *)

Section Bundles.
Context `{E : Env} `{C : ConditionApi} `{N : NameValidation} `{V : VersionApi} `{F : GoFmt}.
Context `{D : DecoderApi} `{A : AdmissionApi} `{M : ObjectMetaApi}.

(** What an accepted report says about its documents. *)
Record bundle_ok (r : Report) : Prop := {
  bo_some : documents r ≠ [];
  bo_limit : (len (documents r) ≤ 256)%Z;
  bo_declared : Forall declaration_ok (documents r);
  bo_keys : NoDup (map productKey (documents r));
  bo_ids : NoDup (map product_id (documents r));
  bo_preview : Forall2 previewed (documents r) (Descriptors r);
  bo_plan : ∃ plan, report_plan r = Some plan ∧ reviewPlan (documents r) = Some plan ∧
    topological (documents r) (map PP_Key (Plan_Order plan));
  bo_snapshot : ∃ rank, snapshot_ok (bundle_snapshot (documents r)) rank
}.

Context (Hlabel : ∀ s, IsDNS1123Label s = [] → no_slash s).

Lemma check_bundle_accepted namespace read ctx s w r w' :
  accepted_upto namespace read (length (documents (ck_report s))) [] s →
  length read = length (documents (ck_report s)) → documents (ck_report s) ≠ [] →
  (len (documents (ck_report s)) ≤ 256)%Z →
  accounted (ck_report s) →
  check_bundle ctx s w = (Some r, w') → Valid r = true → Report_Complete r = true →
  bundle_ok r ∧ Forall2 (checked_from namespace) read (documents r).
Proof.
  intros [_ _ Hdesc Hdone] Hread Hne Hlen Hsound. unfold check_bundle.
  set (r0 := with_required _ _).
  assert (accounted r0) as Hacc.
  { by destruct Hsound. }
  unfold mbind, st_bind. intros Hrun Hv Hc.
  destruct (Valid r0) eqn:Hv0.
  2:{ injection Hrun as Hr _. apply finish_report_accepted in Hr as [H _]; congruence. }
  destruct (checkGraph ctx (documents r0) r0 w) as [[r1|] w1] eqn:Hg; [|done].
  injection Hrun as Hr _. destruct (finish_report_accepted _ _ Hr Hv Hc) as (_ & Hc1 & Hplan & Hdocs & new & Hnew & Hd).
  pose proof (checkGraph_complete _ _ _ _ _ _ Hg Hc1) as Hc0.
  destruct (checkGraph_kept ctx (documents r0) r0 w Hacc) as (r1' & w1' & Hg' & _ & Hsame).
  rewrite Hg in Hg'. injection Hg' as <- <-.
  pose proof (ss_documents _ _ Hsame) as Hdocs1. rewrite Hdocs1 in Hdocs, Hplan, Hnew.
  pose proof (ss_descriptors _ _ Hsame) as Hdesc1.
  change (documents r0) with (documents (ck_report s)) in *.
  assert (take (length (documents (ck_report s))) read = read) as Htake by (rewrite <- Hread; apply firstn_all).
  cbv zeta in Hdone. rewrite firstn_all, Htake in Hdone.
  destruct (Hdone Hc0) as (D1 & D0 & D2 & D3 & _ & _).
  assert (∀ doc, doc ∈ documents (ck_report s) → no_slash (Namespace (Meta (doc_product doc)))) as Hslash.
  { intros doc Hin. rewrite List.Forall_forall in D1. apply list_elem_of_In in Hin.
    apply Hlabel, (D1 _ Hin). }
  destruct (accepted_snapshot (documents (ck_report s)) D2 Hslash ctx r0 r1 w w1 Hlen Hv0 Hg Hc1)
    as [rank Hok].
  destruct (ranked_plan _ _ D2 Hslash Hok) as (plan & Hp & Htop).
  split; [|by rewrite Hdocs]. constructor; rewrite ?Hdocs; auto.
  - rewrite Hd, Hdesc1. change (Descriptors r0) with (Descriptors (ck_report s)). by rewrite Hdesc.
  - exists plan. by rewrite Hplan.
  - by exists rank.
Qed.

(** [docs] are the documents of a check of [sources]: each is what the check makes of the document the
    reader of the sources returned at its place, and nothing else was read. *)
Definition checked_selection (validator : option admission) (ctx : Ctx)
    (sources : list (option io_Reader)) (namespace : string) (w : World) (docs : list document) : Prop :=
  ∃ ctx' w1 sel report w2, WithTimeout ctx (5 * Second) w = (ctx', w1) ∧
    fst (Err ctx' w1) = None ∧
    readSelected validator [] ctx' sources (new_report false, snd (Err ctx' w1))
      = (Some sel, (report, w2)) ∧
    sel_code sel = "" ∧ Forall2 (checked_from namespace) (sel_documents sel) docs.

(** Reading keeps the empty list of descriptors, since no visitor runs. *)
Lemma checkSelected_accepted validator ctx sources namespace w r w' :
  Forall (λ r, ∀ reader, r = Some reader → progressive reader) sources →
  checkSelected validator ctx sources namespace false w = (Some r, w') →
  Valid r = true → Report_Complete r = true →
  bundle_ok r ∧ checked_selection validator ctx sources namespace w (documents r).
Proof.
  intros Hs. unfold checkSelected, mbind, st_bind.
  destruct (WithTimeout ctx (5 * Second) w) as [ctx' w1] eqn:Htime.
  destruct (Err ctx' w1) as [err w2] eqn:Herr.
  destruct (non_nil err) eqn:Hnil; [by intros [= <- _]|]. apply non_nil_false in Hnil as ->. destruct (_ && _); [by intros [= <- _]|].
  pose proof (readSelected_spec validator [] (λ r, sound validator false r ∧ Descriptors r = [])) as Hread.
  specialize (Hread ltac:(by intros ? ? ? ? ?%elem_of_nil) ctx' sources (new_report false, w2) Hs
    (conj (new_report_sound _ _) eq_refl)).
  destruct (readSelected _ _ _ _ _) as [selected [report w3]] eqn:Hselected.
  destruct Hread as ((Hr & Hd) & sel & -> & Hsel & _).
  destruct Hsel as [(Hcode & Hne & physical & Hok)|(Hc & _)].
  2:{ destruct (sel_code sel != "") eqn:Hcode; [by intros [= <- _]|].
      apply negb_false_iff, bool_decide_eq_true in Hcode. exfalso. rewrite Hcode in Hc.
      revert Hc. clear. intros Hc. unfold read_codes, parse_codes, entry_codes in Hc.
      repeat (apply elem_of_cons in Hc as [Hx|Hc]; [discriminate Hx|]). by apply elem_of_nil in Hc. }
  rewrite Hcode, bool_decide_true by done. cbn [negb].
  set (r2 := with_products _ _). assert (sound validator false r2) as Hr2 by (by eapply sound_same).
  destruct validator as [a|]; [|by intros [= <- _]].
  destruct (check_loop_sound a false namespace ctx' (sel_documents sel) 0
    (mkCheck r2 RuntimeCELCostBudget ∅ ∅ ∅) w3 Hr2) as (x & w4 & Hloop & Hx). rewrite Hloop.
  destruct x as [r0|s].
  { intros [= <- _] Hv Hcomplete. exfalso. revert Hloop Hcomplete. clear.
    generalize 0 as index, (mkCheck r2 RuntimeCELCostBudget ∅ ∅ ∅) as s.
    revert w3. induction (sel_documents sel) as [|doc docs IH]; intros w3 index s; cbn [check_loop]; [done|].
    unfold mbind, st_bind. destruct (Err ctx' w3) as [err w4']. destruct (non_nil err); [by intros [= <- _]|].
    destruct (check_document a namespace false ctx' index doc s w4') as [[s1|] w5]; [|done]. apply IH. }
  assert (documents r2 = sel_documents sel) as Hdocs by done.
  destruct (check_loop_accepted a namespace ctx' (sel_documents sel) (sel_documents sel) 0
    (mkCheck r2 RuntimeCELCostBudget ∅ ∅ ∅) w3 s w4) as [Hacc Hlen]; [|done|done|].
  { constructor; cbn [ck_report ck_names ck_ids]; [done|done|exact Hd|].
    intros _. rewrite !take_0. cbn. split_and!; auto; constructor. }
  cbn [Nat.add] in Hacc, Hlen. rewrite <- Hlen in Hacc. intros Hrun.
  assert (0 < length (documents (ck_report s))) as Hpos.
  { rewrite Hlen. destruct (sel_documents sel); [done|cbn; lia]. }
  intros Hv Hcomplete.
  destruct (check_bundle_accepted namespace (sel_documents sel) ctx' s w4 r w') as [Hbundle Hfrom];
    [exact Hacc|by rewrite Hlen| | |apply Hx|exact Hrun|done|done|].
  - intros E0. rewrite E0 in Hpos. cbn in Hpos. lia.
  - unfold len. rewrite Hlen. apply Hok.
  - split; [done|]. exists ctx', w1, sel, report, w3. by rewrite Herr.
Qed.
End Bundles.

(** C30: a bundle the publisher's check accepts is accepted by the controller.  If [CheckBundle] reports
    it valid and complete, the documents it read from the sources, each product in its namespace or
    the default one, are between 1 and 256 with distinct names and product identities, each previewed
    and publishable; the plan is present, is their review plan and orders every producer before its
    consumers; and the documents are a sound snapshot: stored in a cluster that serves them, each of
    them passes the composition walk.  The only assumption on the libraries is that a DNS label holds no
    slash. *)
Theorem accepted_bundle_composes `{E : Env} `{C : ConditionApi} `{N : NameValidation}
    `{V : VersionApi} `{F : GoFmt} `{D : DecoderApi} `{A : AdmissionApi} `{M : ObjectMetaApi}
    validator ctx sources namespace w b w'
    (Hlabel : ∀ s, IsDNS1123Label s = [] → no_slash s)
    (Hprogress : Forall (λ r, ∀ reader, r = Some reader → progressive reader) sources)
    (Hrun : CheckBundle validator ctx sources namespace w = (Some b, w'))
    (Hvalid : BR_Valid b = true) (Hcomplete : BR_Complete b = true) :
  ∃ docs plan, checked_selection validator ctx sources namespace w docs ∧ (0 < len docs ≤ 256)%Z ∧
    NoDup (map productKey docs) ∧ NoDup (map product_id docs) ∧ Forall declaration_ok docs ∧
    Forall2 previewed docs (BR_Descriptors b) ∧
    BR_Plan b = Some plan ∧ reviewPlan docs = Some plan ∧ topological docs (map PP_Key (Plan_Order plan)) ∧
    ∀ reader ctx' doc w0, doc ∈ docs → serves (bundle_snapshot docs) reader ctx' →
      reader_keyed reader → reason (fst (fst (walk_root reader ctx' (doc_product doc) w0))) = "".
Proof.
  unfold CheckBundle, mbind, st_bind in Hrun.
  destruct (checkSelected validator ctx sources namespace false w) as [[r|] w1] eqn:Hsel; [|done].
  cbn in Hrun. injection Hrun as <- <-. unfold bundleReport in Hvalid, Hcomplete |- *.
  destruct (_ <? _)%Z; [done|]. cbn [BR_Valid BR_Complete BR_Descriptors BR_Plan] in *.
  rewrite Hvalid, Hcomplete. cbn [andb].
  destruct (checkSelected_accepted Hlabel _ _ _ _ _ _ _ Hprogress Hsel Hvalid Hcomplete)
    as [[B1 B2 B3 B4 B5 B6 (plan & B7 & B8 & B10) (rank & B9)] Hfrom].
  exists (documents r), plan. split_and!; auto.
  - destruct (documents r); [done|]. unfold len. cbn. lia.
  - intros reader ctx' doc w0 Hd Hserves Hkeyed.
    pose proof (walk_root_complete _ rank reader ctx' (doc_product doc) w0 B9 Hserves Hkeyed
      (snapshot_lookup _ B4 doc Hd)) as H.
    destruct (walk_root reader ctx' (doc_product doc) w0) as [[o g] w2]. apply H.
Qed.

(** C31: reports are private and accounted.  Whatever bytes are submitted, both checks return a report
    for every reader that makes progress; at most 128 findings are shown and all are counted; the bundle
    is valid exactly without errors and complete exactly without findings; codes, severities and texts
    come from the fixed tables; every path, those of witnesses included, is fixed or made of schema
    names and indices; and an incomplete report shows neither descriptors nor a plan. *)
Theorem preflight_private `{E : Env} `{C : ConditionApi} `{N : NameValidation} `{V : VersionApi}
    `{D : DecoderApi} `{A : AdmissionApi} `{M : ObjectMetaApi}
    validator ctx sources namespace (only : bool) w
    (Hprogress : Forall (λ r, ∀ reader, r = Some reader → progressive reader) sources) :
  ∃ b w', (if only then CheckAPIOnlyBundle validator ctx sources namespace w
           else CheckBundle validator ctx sources namespace w) = (Some b, w') ∧
    private_bundle validator only b.
Proof.
  destruct (checkSelected_sound validator ctx sources namespace only w Hprogress) as (r & w' & Hr & Hs).
  exists (bundleReport r), w'. split; [|by apply bundleReport_private].
  unfold CheckAPIOnlyBundle, CheckBundle, mbind, st_bind. destruct only; by rewrite Hr.
Qed.

(** ** A bundle of two products *)

#[local] Existing Instances ref_env ref_conditions ref_names ref_versions ref_fmt.

Definition plain_node (kind : NodeKind) (tag value : string) (content : list Node) : Node :=
  mkNode kind tag "" value 1 1 content.
Definition sample_node (name : string) : Node :=
  plain_node DocumentNode "" ""
    [plain_node MappingNode "!!map" ""
       [plain_node ScalarNode "!!str" "metadata" []; plain_node MappingNode "!!map" ""
          [plain_node ScalarNode "!!str" "name" []; plain_node ScalarNode "!!str" name []]]].
(** Decoders of a stream that names the products [users] and [orders]. *)
Definition sample_decoders : DecoderApi := {|
  NodeDecoder := list string;
  NewNodeDecoder := λ _, ["users"; "orders"]%string;
  DecodeNode := λ d, match d with [] => (NodeEOF, []) | n :: d' => (NodeValue (sample_node n), d') end;
  ValueDecoder := list string;
  NewValueDecoder := λ _, ["users"; "orders"]%string;
  DecodeValue := λ d, match d with
    | [] => (None, []) | n :: d' => (Some (YStringMap [("name"%string, YScalar (AString n))]), d') end;
  MarshalValue := λ v, match v with AMap [(_, AString n)] => Some n | _ => None end;
  UnmarshalObject := λ n, Some (Some
    [("apiVersion"%string, AString "data.devantler.tech/v1alpha1");
     ("kind"%string, AString "DataProduct"); ("metadata"%string, AMap [])]);
  UnmarshalStrict := λ n, Some (if n == "users" then sample_users else sample_orders, [])
|}.
Definition sample_admission_api : AdmissionApi := {|
  RuntimeCELCostBudget := 100;
  PruneWithOptions := λ obj _, ([], obj);
  ValidateListSetsAndMaps := λ _ _, []
|}.
Definition sample_object_meta : ObjectMetaApi := {| ValidateObjectMeta := λ _, [] |}.
#[local] Existing Instances sample_decoders sample_admission_api sample_object_meta.
Definition sample_admission : admission :=
  mkAdmission (mkStructural [("metadata"%string, mkStructural [] None)] None) (λ _, []) None.
Definition sample_reader : io_Reader := λ n w, (("x"%string, ReadEOF), w).
Abbreviation sample_bundle :=
  (CheckBundle (Some sample_admission) tt [Some sample_reader] "shop" sample_world).

Lemma ref_label_no_slash s : IsDNS1123Label s = [] → no_slash s.
Proof.
  cbn. destruct (MatchString dns_label s) eqn:Hm; [|done]. intros _.
  apply MatchString_spec in Hm. eapply avoids_spec; [exact Hm|]. vm_compute. reflexivity.
Qed.
Lemma sample_reader_progressive :
  Forall (λ r, ∀ reader, r = Some reader → progressive reader) [Some sample_reader].
Proof. apply list.Forall_singleton. intros ? [= <-] n w Hn. unfold slen. cbn. split; [lia|done]. Qed.

Lemma sample_bundle_accepted : ∃ b w, sample_bundle = (Some b, w) ∧
  BR_Valid b = true ∧ BR_Complete b = true ∧ length (BR_Descriptors b) = 2.
Proof.
  assert (match sample_bundle with
          | (Some b, _) => BR_Valid b = true ∧ BR_Complete b = true ∧ length (BR_Descriptors b) = 2
          | _ => False end) as H by (vm_compute; auto).
  destruct sample_bundle as [[b|] w]; [|contradiction H]. exists b, w. split; [reflexivity|exact H].
Qed.

Lemma accepted_bundle_composes_witness :
  ∃ b docs plan, fst sample_bundle = Some b ∧ BR_Valid b = true ∧ BR_Complete b = true ∧
    checked_selection (Some sample_admission) tt [Some sample_reader] "shop" sample_world docs ∧
    length docs = 2 ∧ BR_Plan b = Some plan ∧ topological docs (map PP_Key (Plan_Order plan)).
Proof.
  destruct sample_bundle_accepted as (b & w' & Hrun & Hv & Hc & Hd).
  destruct (accepted_bundle_composes (Some sample_admission) tt [Some sample_reader] "shop" sample_world
    b w' ref_label_no_slash sample_reader_progressive Hrun Hv Hc)
    as (docs & plan & Hfrom & _ & _ & _ & _ & Hf & Hp & _ & Ht & _).
  apply Forall2_length in Hf. rewrite Hd in Hf. exists b, docs, plan.
  exact (conj (f_equal fst Hrun) (conj Hv (conj Hc (conj Hfrom (conj Hf (conj Hp Ht)))))).
Defined.

Lemma preflight_private_witness :
  ∃ b, fst sample_bundle = Some b ∧ private_bundle (Some sample_admission) false b.
Proof.
  destruct (preflight_private (Some sample_admission) tt [Some sample_reader] "shop" false sample_world
    sample_reader_progressive) as (b & w' & Hb & Hp).
  exists b. split; [exact (f_equal fst Hb)|exact Hp].
Defined.

Abbreviation sample_selection :=
  (readSelected (Some sample_admission) [] tt [Some sample_reader] (new_report false, sample_world)).

Lemma readSelected_exact_witness :
  ∃ sel, fst sample_selection = Some sel ∧ sel_code sel = "" ∧ (0 < len (sel_documents sel) ≤ 256)%Z ∧
    ∃ read, length read = 1 ∧ sel_documents sel = concat (map snd read) ∧
      ∀ k input docs, read !! k = Some (input, docs) →
        decodes (Some sample_admission) (Z.of_nat k + 1) input docs.
Proof.
  assert (match fst sample_selection with Some sel => sel_code sel == "" | None => false end = true)
    as Hc by (vm_compute; reflexivity).
  destruct (readSelected_exact (Some sample_admission) [] tt [Some sample_reader]
    (new_report false, sample_world) sample_reader_progressive) as (sel & rw' & Hr & H).
  rewrite Hr in Hc |- *. apply bool_decide_eq_true in Hc.
  exists sel. split; [reflexivity|].
  destruct H as [(H1 & H2 & _ & (read & _ & H3 & _ & H4 & H5) & _)|(H1 & _)];
    [exact (conj H1 (conj H2 (ex_intro _ read (conj H3 (conj H5 H4)))))|]. exfalso. rewrite Hc in H1.
  apply (bool_decide_pack _) in H1. vm_compute in H1. exact H1.
Defined.
