(* ===== verification/GoJsonRead.v ===== *)
(** * [encoding/json]: the decoder

    [json.Decoder.Decode] as the repository uses it: the scanner that delimits one value of a stream,
    and the conversion of string literals.  The scanner bounds nesting at 10000 and reports everything
    that is not JSON; conversion never fails on a scanned literal: an invalid byte and an unpaired
    surrogate become U+FFFD.  The second half proves that a literal written by the encoder of [GoJson]
    reads back as the string it was written for. *)

From Stdlib Require Import Ascii.
From S2P Require Import Prelude Regex GoJson GoStrings GoUrl.

(** ** Runes *)

Definition surrogate (r : N) : bool := ((0xD800 <=? r) && (r <=? 0xDFFF))%N.
Definition RuneError : N := 0xFFFD.

(** [utf8.AppendRune]: a surrogate or a number beyond U+10FFFF is written as U+FFFD. *)
Definition encode_rune (r : N) : string :=
  let byte (n : N) (s : string) := String.String (ascii_of_N n) s in
  let r := if surrogate r || (0x10FFFF <? r)%N then RuneError else r in
  if (r <? 0x80)%N then byte r ""
  else if (r <? 0x800)%N then byte (0xC0 + r / 64)%N (byte (0x80 + r mod 64)%N "")
  else if (r <? 0x10000)%N then
    byte (0xE0 + r / 4096)%N (byte (0x80 + r / 64 mod 64)%N (byte (0x80 + r mod 64)%N ""))
  else
    byte (0xF0 + r / 262144)%N (byte (0x80 + r / 4096 mod 64)%N
      (byte (0x80 + r / 64 mod 64)%N (byte (0x80 + r mod 64)%N ""))).

(** [utf16.DecodeRune]; the result of a pair that is none is [RuneError]. *)
Definition decode_pair (high low : N) : N :=
  if ((0xD800 <=? high) && (high <? 0xDC00) && (0xDC00 <=? low) && (low <? 0xE000))%N
  then ((high - 0xD800) * 1024 + (low - 0xDC00) + 0x10000)%N
  else RuneError.

(** ** Strings *)

(** Four hexadecimal digits at the start of a string. *)
Definition hex4 (s : string) : option (N * string) :=
  match s with
  | String.String a (String.String b (String.String c (String.String d s'))) =>
      match unhex a, unhex b, unhex c, unhex d with
      | Some w, Some x, Some y, Some z => Some ((((w * 16 + x) * 16 + y) * 16 + z)%N, s')
      | _, _, _, _ => None
      end
  | _ => None
  end.

(** [getu4]: an escape [\uXXXX] at the start of a string. *)
Definition getu4 (s : string) : option (N * string) :=
  match s with
  | String.String a (String.String b s') =>
      if Ascii.eqb a backslash && Ascii.eqb b "u" then hex4 s' else None
  | _ => None
  end.

(** The byte a one-letter escape stands for. *)
Definition short_escape (a : ascii) : option ascii :=
  if Ascii.eqb a (ascii_of_N 34) || Ascii.eqb a backslash || Ascii.eqb a "/" then Some a
  else if Ascii.eqb a "b" then Some (ascii_of_N 8)
  else if Ascii.eqb a "f" then Some (ascii_of_N 12)
  else if Ascii.eqb a "n" then Some (ascii_of_N 10)
  else if Ascii.eqb a "r" then Some (ascii_of_N 13)
  else if Ascii.eqb a "t" then Some (ascii_of_N 9)
  else None.

(** The escape after a backslash: the text it stands for and what follows it.  [unquoteBytes]
    consumes a second escape only when both form a surrogate pair. *)
Definition unescape_one (s : string) : option (string * string) :=
  match s with
  | String.String a s1 =>
      if Ascii.eqb a "u" then
        match hex4 s1 with
        | Some (r, s2) =>
            if surrogate r then
              match getu4 s2 with
              | Some (r', s3) =>
                  let p := decode_pair r r' in
                  if (p =? RuneError)%N then Some (encode_rune RuneError, s2)
                  else Some (encode_rune p, s3)
              | None => Some (encode_rune RuneError, s2)
              end
            else Some (encode_rune r, s2)
        | None => None
        end
      else match short_escape a with
      | Some b => Some (one b, s1)
      | None => None
      end
  | String.EmptyString => None
  end.

(** The text of one well-formed character at the start of a string, or U+FFFD for one byte that
    starts none, with what follows. *)
Definition literal_char (a : ascii) (s1 : string) : string * string :=
  match rune_size a s1, s1 with
  | 1, _ => (one a, s1)
  | 2, String.String b s2 => (one a +:+ one b, s2)
  | 3, String.String b (String.String c s3) => (one a +:+ one b +:+ one c, s3)
  | 4, String.String b (String.String c (String.String d s4)) =>
      (one a +:+ one b +:+ one c +:+ one d, s4)
  | _, _ => (encode_rune RuneError, s1)
  end.

(** The body of a string literal up to its closing quote: the decoded string and what follows. *)
Fixpoint string_body (fuel : nat) (s : string) : option (string * string) :=
  match fuel with
  | O => None
  | S fuel' =>
      match s with
      | String.EmptyString => None
      | String.String a s1 =>
          if Ascii.eqb a (ascii_of_N 34) then Some ("", s1)
          else if Ascii.eqb a backslash then
            match unescape_one s1 with
            | Some (t, s2) =>
                match string_body fuel' s2 with
                | Some (u, rest) => Some (t +:+ u, rest)
                | None => None
                end
            | None => None
            end
          else if (N_of_ascii a <? 0x20)%N then None
          else
            let '(t, s2) := literal_char a s1 in
            match string_body fuel' s2 with
            | Some (u, rest) => Some (t +:+ u, rest)
            | None => None
            end
      end
  end.

(** Every round consumes a byte. *)
Definition string_literal (s : string) : option (string * string) :=
  string_body (S (String.length s)) s.

(** ** Values *)

Unset Elimination Schemes.
Inductive jvalue :=
  | DNull
  | DBool (b : bool)
  | DNumber (text : string)
  | DString (s : string)
  | DArray (l : list jvalue)
  | DObject (members : list (string * jvalue)).
Set Elimination Schemes.

(** [isSpace]. *)
Definition json_space (a : ascii) : bool :=
  existsb (λ n, (N_of_ascii a =? n)%N) [32; 9; 13; 10]%N.
Fixpoint skip_space (s : string) : string :=
  match s with
  | String.String a s' => if json_space a then skip_space s' else s
  | String.EmptyString => s
  end.

Fixpoint digit_run (s : string) : string * string :=
  match s with
  | String.String a s' =>
      if digit a then let '(run, rest) := digit_run s' in (String.String a run, rest) else ("", s)
  | String.EmptyString => ("", s)
  end.

(** A run of at least one digit. *)
Definition digits1 (s : string) : option (string * string) :=
  let '(run, rest) := digit_run s in if run == "" then None else Some (run, rest).

(** The integer part: a zero, or digits that do not start with one. *)
Definition number_int (s : string) : option (string * string) :=
  match s with
  | String.String a s' => if Ascii.eqb a "0" then Some (one a, s') else digits1 s
  | String.EmptyString => None
  end.

Definition number_frac (s : string) : option (string * string) :=
  match s with
  | String.String a s' =>
      if Ascii.eqb a "." then
        match digits1 s' with Some (run, rest) => Some (one a +:+ run, rest) | None => None end
      else Some ("", s)
  | String.EmptyString => Some ("", s)
  end.

Definition number_exp (s : string) : option (string * string) :=
  match s with
  | String.String a s' =>
      if one_of "eE" a then
        let '(sign, s2) :=
          match s' with
          | String.String b s2 => if one_of "+-" b then (one b, s2) else ("", s')
          | String.EmptyString => ("", s')
          end in
        match digits1 s2 with
        | Some (run, rest) => Some (one a +:+ sign +:+ run, rest)
        | None => None
        end
      else Some ("", s)
  | String.EmptyString => Some ("", s)
  end.

(** The longest number at the start of a string, with its text. *)
Definition number_text (s : string) : option (string * string) :=
  let '(sign, s1) :=
    match s with
    | String.String a s' => if Ascii.eqb a "-" then (one a, s') else ("", s)
    | String.EmptyString => ("", s)
    end in
  match number_int s1 with
  | None => None
  | Some (i, s2) =>
      match number_frac s2 with
      | None => None
      | Some (f, s3) =>
          match number_exp s3 with
          | None => None
          | Some (e, s4) => Some (sign +:+ i +:+ f +:+ e, s4)
          end
      end
  end.

Definition maxNestingDepth : Z := 10000.

(** The scanner, for a reader of string literals: the one that replaces, or one that does not. *)
Section Scanner.
Variable literal : string → option (string * string).

(** A value that is neither an object nor an array, with what follows it. *)
Definition scan_scalar (s : string) : option (jvalue * string) :=
  if HasPrefix s quote_byte then
    match literal (drop_bytes 1 s) with
    | Some (t, rest) => Some (DString t, rest)
    | None => None
    end
  else if HasPrefix s "null" then Some (DNull, drop_bytes 4 s)
  else if HasPrefix s "true" then Some (DBool true, drop_bytes 4 s)
  else if HasPrefix s "false" then Some (DBool false, drop_bytes 5 s)
  else match number_text s with
  | Some (t, rest) => Some (DNumber t, rest)
  | None => None
  end.

(** One value, with what follows it; [depth] counts the objects and arrays around it.  [members] and
    [elements] read what follows a separator or the opening bracket. *)
Fixpoint scan_value (fuel : nat) (depth : Z) (s : string) : option (jvalue * string) :=
  match fuel with
  | O => None
  | S fuel' =>
      match skip_space s with
      | String.EmptyString => None
      | String.String a s1 =>
          if Ascii.eqb a "{" then
            if (maxNestingDepth <? depth + 1)%Z then None
            else match skip_space s1 with
            | String.String b s2 =>
                if Ascii.eqb b "}" then Some (DObject [], s2)
                else match scan_members fuel' (depth + 1) s1 with
                | Some (ms, rest) => Some (DObject ms, rest)
                | None => None
                end
            | String.EmptyString => None
            end
          else if Ascii.eqb a "[" then
            if (maxNestingDepth <? depth + 1)%Z then None
            else match skip_space s1 with
            | String.String b s2 =>
                if Ascii.eqb b "]" then Some (DArray [], s2)
                else match scan_elements fuel' (depth + 1) s1 with
                | Some (vs, rest) => Some (DArray vs, rest)
                | None => None
                end
            | String.EmptyString => None
            end
          else scan_scalar (String.String a s1)
      end
  end
with scan_members (fuel : nat) (depth : Z) (s : string) : option (list (string * jvalue) * string) :=
  match fuel with
  | O => None
  | S fuel' =>
      match skip_space s with
      | String.String a s1 =>
          if Ascii.eqb a (ascii_of_N 34) then
            match literal s1 with
            | Some (key, s2) =>
                match skip_space s2 with
                | String.String b s3 =>
                    if Ascii.eqb b ":" then
                      match scan_value fuel' depth s3 with
                      | Some (v, s4) =>
                          match skip_space s4 with
                          | String.String c s5 =>
                              if Ascii.eqb c "}" then Some ([(key, v)], s5)
                              else if Ascii.eqb c "," then
                                match scan_members fuel' depth s5 with
                                | Some (ms, rest) => Some ((key, v) :: ms, rest)
                                | None => None
                                end
                              else None
                          | String.EmptyString => None
                          end
                      | None => None
                      end
                    else None
                | String.EmptyString => None
                end
            | None => None
            end
          else None
      | String.EmptyString => None
      end
  end
with scan_elements (fuel : nat) (depth : Z) (s : string) : option (list jvalue * string) :=
  match fuel with
  | O => None
  | S fuel' =>
      match scan_value fuel' depth s with
      | Some (v, s1) =>
          match skip_space s1 with
          | String.String b s2 =>
              if Ascii.eqb b "]" then Some ([v], s2)
              else if Ascii.eqb b "," then
                match scan_elements fuel' depth s2 with
                | Some (vs, rest) => Some (v :: vs, rest)
                | None => None
                end
              else None
          | String.EmptyString => None
          end
      | None => None
      end
  end.

(** The next value of a stream.  A call reads an element, a member or a value; none is nested deeper
    than one call per byte and one per bracket, so twice the length is enough. *)
Definition read_value (s : string) : option (jvalue * string) :=
  scan_value (S (2 * String.length s)) 0 s.
End Scanner.

Definition next_value : string → option (jvalue * string) := read_value string_literal.

(** Whether the decoder finds nothing but the end of the stream. *)
Definition at_eof (s : string) : bool := skip_space s == "".

(** ** Struct fields *)

(** The bytes of a field name up to case: ASCII letters, and the two other runes that fold to an
    ASCII letter, U+212A and U+017F.  Only names compared with ASCII field names are folded here. *)
Definition upper_byte (a : ascii) : ascii :=
  if lower a then ascii_of_N (N_of_ascii a - 32) else a.
Fixpoint fold_name (s : string) : string :=
  match s with
  | String.EmptyString => ""
  | String.String a s1 =>
      match s1 with
      | String.String b s2 =>
          if (N_of_ascii a =? 0xC5)%N && (N_of_ascii b =? 0xBF)%N then
            String.String "S" (fold_name s2)
          else
            match s2 with
            | String.String c s3 =>
                if (N_of_ascii a =? 0xE2)%N && (N_of_ascii b =? 0x84)%N && (N_of_ascii c =? 0xAA)%N
                then String.String "K" (fold_name s3)
                else String.String (upper_byte a) (fold_name s1)
            | String.EmptyString => String.String (upper_byte a) (fold_name s1)
            end
      | String.EmptyString => String.String (upper_byte a) (fold_name s1)
      end
  end.

(** The struct field a member is stored in: an exact match first, then one up to case. *)
Definition field_named (fields : list string) (key : string) : option string :=
  match find_first (String.eqb key) fields with
  | Some f => Some f
  | None => find_first (λ f, String.eqb (fold_name f) (fold_name key)) fields
  end.

(** ** What the encoder writes, the decoder reads *)

(** Well-formed UTF-8, one character at a time. *)
Inductive wf_utf8 : string → Prop :=
  | wf_end : wf_utf8 ""
  | wf_one a s : byte_in 0 0x7F a = true → wf_utf8 s → wf_utf8 (String.String a s)
  | wf_two a b s : byte_in 0 0x7F a = false → (∀ t, rune_size a (String.String b t) = 2) →
      wf_utf8 s → wf_utf8 (String.String a (String.String b s))
  | wf_three a b c s : byte_in 0 0x7F a = false →
      (∀ t, rune_size a (String.String b (String.String c t)) = 3) →
      wf_utf8 s → wf_utf8 (String.String a (String.String b (String.String c s)))
  | wf_four a b c d s : byte_in 0 0x7F a = false →
      (∀ t, rune_size a (String.String b (String.String c (String.String d t))) = 4) →
      wf_utf8 s →
      wf_utf8 (String.String a (String.String b (String.String c (String.String d s)))).

(** The size of a rune is decided by its own bytes. *)
Lemma rune_size_cases a s :
  match rune_size a s with
  | 0 => True
  | 1 => byte_in 0 0x7F a = true
  | 2 => byte_in 0 0x7F a = false ∧
         ∃ b s', s = String.String b s' ∧ ∀ t, rune_size a (String.String b t) = 2
  | 3 => byte_in 0 0x7F a = false ∧
         ∃ b c s', s = String.String b (String.String c s') ∧
           ∀ t, rune_size a (String.String b (String.String c t)) = 3
  | 4 => byte_in 0 0x7F a = false ∧
         ∃ b c d s', s = String.String b (String.String c (String.String d s')) ∧
           ∀ t, rune_size a (String.String b (String.String c (String.String d t))) = 4
  | _ => False
  end.
Proof.
  unfold rune_size. destruct (byte_in 0 0x7F a) eqn:E1; [done|].
  destruct (byte_in 0xC2 0xDF a) eqn:E2.
  { destruct s as [|b s]; [done|]. destruct (tail_byte b) eqn:Eb; [|done].
    split; [done|]. exists b, s. split; [done|]. intros t. by rewrite Eb. }
  destruct (byte_in 0xE0 0xEF a) eqn:E3.
  { destruct s as [|b [|c s]]; [done..|]. destruct (second_byte a b && tail_byte c) eqn:Eb; [|done].
    split; [done|]. exists b, c, s. split; [done|]. intros t. by rewrite Eb. }
  destruct (byte_in 0xF0 0xF4 a) eqn:E4; [|done].
  destruct s as [|b [|c [|d s]]]; [done..|].
  destruct (second_byte a b && tail_byte c && tail_byte d) eqn:Eb; [|done].
  split; [done|]. exists b, c, d, s. split; [done|]. intros t. by rewrite Eb.
Qed.

Lemma ValidString_wf s : ValidString s = true → wf_utf8 s.
Proof.
  induction s as [s IH] using (induction_ltof1 _ String.length). unfold ltof in IH.
  destruct s as [|a s]; [constructor|]. cbn [ValidString]. pose proof (rune_size_cases a s) as Hc.
  destruct (rune_size a s) as [|[|[|[|[|n]]]]]; try done.
  - intros Hv. apply wf_one; [done|]. apply IH; [cbn; lia|done].
  - destruct Hc as (Ha & b & s' & -> & Hn). intros Hv. apply wf_two; [done..|].
    apply IH; [cbn; lia|done].
  - destruct Hc as (Ha & b & c & s' & -> & Hn). intros Hv. apply wf_three; [done..|].
    apply IH; [cbn; lia|done].
  - destruct Hc as (Ha & b & c & d & s' & -> & Hn). intros Hv. apply wf_four; [done..|].
    apply IH; [cbn; lia|done].
Qed.

(** Prefixing the result of a reader. *)
Definition prepend (t : string) (r : option (string * string)) : option (string * string) :=
  match r with Some (u, rest) => Some (t +:+ u, rest) | None => None end.

Lemma read_ascii a f t : byte_in 0 0x7F a = true →
  string_body (S f) (escape_ascii a +:+ t) = prepend (one a) (string_body f t).
Proof. destruct a as [[] [] [] [] [] [] [] []]; intros Ha; try discriminate Ha; reflexivity. Qed.

(** A byte of a longer character is copied. *)
Lemma read_wide a f s : byte_in 0 0x7F a = false →
  string_body (S f) (String.String a s) =
  let '(t, s2) := literal_char a s in prepend t (string_body f s2).
Proof.
  destruct a as [[] [] [] [] [] [] [] []]; intros Ha; try discriminate Ha; reflexivity.
Qed.

Lemma read_separator a b c f t : is_line_separator a b c = true →
  string_body (S f) ((one backslash +:+ "u202" +:+ one (hex_digit (N_of_ascii c mod 16))) +:+ t) =
  prepend (one a +:+ one b +:+ one c) (string_body f t).
Proof.
  unfold is_line_separator, byte_in. intros H. go_bool. destruct H as [[Ha Hb] [Hc Hc']].
  apply N.eqb_eq in Ha, Hb. apply N.leb_le in Hc, Hc'.
  rewrite <- (ascii_N_embedding a), <- (ascii_N_embedding b), <- (ascii_N_embedding c), Ha, Hb.
  assert (N_of_ascii c = 0xA8 ∨ N_of_ascii c = 0xA9)%N as [-> | ->] by lia; reflexivity.
Qed.

Lemma str_length_app s t : String.length (s +:+ t) = String.length s + String.length t.
Proof. induction s as [|a s IH]; [done|]. rewrite str_app_cons. cbn. lia. Qed.

Lemma escape_ascii_length a : 1 <= String.length (escape_ascii a).
Proof. unfold escape_ascii. destruct (html_safe a); cbn; lia. Qed.

Lemma literal_char_rune a s n t s' : rune_size a s = n → 2 <= n →
  (match n, s with
   | 2, String.String b s2 => (one a +:+ one b, s2)
   | 3, String.String b (String.String c s3) => (one a +:+ one b +:+ one c, s3)
   | 4, String.String b (String.String c (String.String d s4)) =>
       (one a +:+ one b +:+ one c +:+ one d, s4)
   | _, _ => (encode_rune RuneError, s)
   end) = (t, s') → literal_char a s = (t, s').
Proof.
  unfold literal_char. intros -> Hn. destruct n as [|[|[|[|[|n]]]]]; try lia; done.
Qed.

Lemma json_chars_read s : wf_utf8 s → ∀ f rest, String.length (json_chars s) < f →
  string_body f (json_chars s +:+ String.String (ascii_of_N 34) rest) = Some (s, rest).
Proof.
  induction 1 as [|a s Ha Hs IH|a b s Ha Hn Hs IH|a b c s Ha Hn Hs IH|a b c d s Ha Hn Hs IH];
    intros [|f] rest Hf; try (cbn in Hf; lia).
  - reflexivity.
  - cbn [json_chars] in Hf |- *. rewrite Ha in Hf |- *. rewrite <- str_app_assoc, read_ascii by done.
    rewrite str_length_app in Hf. rewrite IH; [done|]. pose proof (escape_ascii_length a). lia.
  - cbn [json_chars] in Hf |- *. rewrite Ha, Hn in Hf |- *. rewrite !str_app_cons, read_wide by done.
    rewrite (literal_char_rune a _ 2 _ _ (Hn _) ltac:(lia) eq_refl), IH; [done|]. cbn in Hf. lia.
  - cbn [json_chars] in Hf |- *. rewrite Ha, Hn in Hf |- *.
    destruct (is_line_separator a b c) eqn:El.
    + rewrite <- str_app_assoc, (read_separator a b c) by done. rewrite IH; [done|].
      rewrite !str_length_app in Hf. cbn in Hf. lia.
    + change ((one a +:+ one b +:+ one c) +:+ json_chars s) with
        (String.String a (String.String b (String.String c (json_chars s)))) in Hf |- *.
      rewrite !str_app_cons, read_wide by done.
      rewrite (literal_char_rune a _ 3 _ _ (Hn _) ltac:(lia) eq_refl), IH; [done|]. cbn in Hf. lia.
  - cbn [json_chars] in Hf |- *. rewrite Ha, Hn in Hf |- *.
    change (one a +:+ one b +:+ one c +:+ one d +:+ json_chars s) with
      (String.String a (String.String b (String.String c (String.String d (json_chars s)))))
      in Hf |- *.
    rewrite !str_app_cons, read_wide by done.
    rewrite (literal_char_rune a _ 4 _ _ (Hn _) ltac:(lia) eq_refl), IH; [done|]. cbn in Hf. lia.
Qed.

(** A string literal reads back as the string it was written for. *)
Lemma string_literal_json s rest : ValidString s = true →
  string_literal (json_chars s +:+ String.String (ascii_of_N 34) rest) = Some (s, rest).
Proof.
  intros Hs%ValidString_wf. apply json_chars_read; [done|]. rewrite str_length_app. cbn. lia.
Qed.

(** ** Every value consumes input, so the fuel is enough *)

Lemma skip_space_length s : String.length (skip_space s) <= String.length s.
Proof.
  induction s as [|a s IH]; cbn [skip_space String.length]; [lia|].
  destruct (json_space a); cbn [String.length]; lia.
Qed.

Lemma hex4_length s r s' : hex4 s = Some (r, s') → String.length s' < String.length s.
Proof.
  destruct s as [|a [|b [|c [|d s]]]]; try done. cbn.
  destruct (unhex a), (unhex b), (unhex c), (unhex d); try done. intros [= _ <-]. cbn. lia.
Qed.

Lemma getu4_length s r s' : getu4 s = Some (r, s') → String.length s' < String.length s.
Proof.
  destruct s as [|a [|b s]]; try done. cbn. destruct (_ && _); [|done]. intros H%hex4_length.
  cbn in *. lia.
Qed.

Lemma unescape_one_length s t s' : unescape_one s = Some (t, s') → String.length s' < String.length s.
Proof.
  destruct s as [|a s]; [done|]. unfold unescape_one. destruct (Ascii.eqb a "u").
  - destruct (hex4 s) as [[r s2]|] eqn:E; [|done]. apply hex4_length in E.
    destruct (surrogate r); [|intros [= _ <-]; cbn; lia].
    destruct (getu4 s2) as [[r' s3]|] eqn:E'; [apply getu4_length in E'|intros [= _ <-]; cbn; lia].
    destruct (_ =? _)%N; intros [= _ <-]; cbn; lia.
  - destruct (short_escape a); [|done]. intros [= _ <-]. cbn. lia.
Qed.

Lemma literal_char_length a s t s' : literal_char a s = (t, s') → String.length s' <= String.length s.
Proof.
  unfold literal_char. destruct (rune_size a s) as [|[|[|[|[|n]]]]];
    destruct s as [|b [|c [|d s]]]; intros H; apply (f_equal snd) in H; cbn in H; subst s'; cbn; lia.
Qed.

Lemma string_body_length f : ∀ s t r, string_body f s = Some (t, r) → String.length r < String.length s.
Proof.
  induction f as [|f IH]; intros [|a s] t r; try done. cbn [string_body String.length].
  destruct (Ascii.eqb a (ascii_of_N 34)); [intros [= _ <-]; lia|].
  destruct (Ascii.eqb a backslash).
  - destruct (unescape_one s) as [[u s2]|] eqn:E; [apply unescape_one_length in E|done].
    destruct (string_body f s2) as [[v r']|] eqn:E'; [apply IH in E'|done]. intros [= _ <-]. lia.
  - destruct (_ <? _)%N; [done|]. destruct (literal_char a s) as [u s2] eqn:E.
    apply literal_char_length in E. destruct (string_body f s2) as [[v r']|] eqn:E'; [apply IH in E'|done].
    intros [= _ <-]. lia.
Qed.

Lemma digit_run_length s t r : digit_run s = (t, r) →
  String.length t + String.length r = String.length s.
Proof.
  revert t r. induction s as [|a s IH]; intros t r; cbn; [by intros [= <- <-]|].
  destruct (digit a); [|by intros [= <- <-]]. destruct (digit_run s) as [u r'].
  intros [= <- <-]. cbn. by rewrite <- (IH u r').
Qed.

Lemma digits1_length s t r : digits1 s = Some (t, r) → String.length r < String.length s.
Proof.
  unfold digits1. destruct (digit_run s) as [u r'] eqn:E. apply digit_run_length in E.
  destruct (bool_decide_reflect (u = "")) as [|Hu]; [done|]. intros [= -> ->].
  destruct t; [done|]. cbn in E. lia.
Qed.

Lemma number_int_length s t r : number_int s = Some (t, r) → String.length r < String.length s.
Proof.
  destruct s as [|a s]; [done|]. unfold number_int. destruct (Ascii.eqb a "0"); [|apply digits1_length].
  intros [= _ <-]. cbn. lia.
Qed.

Lemma number_frac_length s t r : number_frac s = Some (t, r) → String.length r <= String.length s.
Proof.
  destruct s as [|a s]; [by intros [= _ <-]|]. unfold number_frac.
  destruct (Ascii.eqb a "."); [|by intros [= _ <-]].
  destruct (digits1 s) as [[u r']|] eqn:E; [apply digits1_length in E|done]. intros [= _ <-]. cbn. lia.
Qed.

Lemma number_exp_length s t r : number_exp s = Some (t, r) → String.length r <= String.length s.
Proof.
  destruct s as [|a s]; [by intros [= _ <-]|]. unfold number_exp.
  destruct (one_of "eE" a); [|by intros [= _ <-]].
  destruct s as [|b s]; [done|].
  destruct (one_of "+-" b).
  - destruct (digits1 s) as [[u r']|] eqn:E; [apply digits1_length in E|done]. intros [= _ <-]. cbn. lia.
  - destruct (digits1 _) as [[u r']|] eqn:E; [apply digits1_length in E|done]. intros [= _ <-].
    cbn in *. lia.
Qed.

Lemma number_text_length s t r : number_text s = Some (t, r) → String.length r < String.length s.
Proof.
  unfold number_text. set (p := match s with String.EmptyString => _ | _ => _ end).
  assert (String.length p.2 <= String.length s) as Hp.
  { subst p. destruct s as [|a s]; cbn; [lia|]. destruct (Ascii.eqb a "-"); cbn; lia. }
  destruct p as [sign s1]. cbn in Hp.
  destruct (number_int s1) as [[i s2]|] eqn:E1; [apply number_int_length in E1|done].
  destruct (number_frac s2) as [[f s3]|] eqn:E2; [apply number_frac_length in E2|done].
  destruct (number_exp s3) as [[e s4]|] eqn:E3; [apply number_exp_length in E3|done].
  intros [= _ <-]. lia.
Qed.

Lemma drop_bytes_length n a s : String.length (drop_bytes (S n) (String.String a s)) <= String.length s.
Proof.
  cbn [drop_bytes]. revert s. induction n as [|n IH]; intros [|b s]; cbn; try lia.
  specialize (IH s). lia.
Qed.

Definition shorter {A} (read : string → option (A * string)) : Prop :=
  ∀ s v r, read s = Some (v, r) → String.length r < String.length s.

Lemma string_literal_shorter : shorter string_literal.
Proof. intros s v r. apply string_body_length. Qed.

Section ScannerLength.
Context (literal : string → option (string * string)) (Hliteral : shorter literal).

Lemma scan_scalar_length s v r : scan_scalar literal s = Some (v, r) → String.length r < String.length s.
Proof.
  destruct s as [|a s]; [done|]. unfold scan_scalar. repeat case_match; try done; intros Hr;
    apply (f_equal (option_map snd)) in Hr; cbn [option_map snd] in Hr; apply (inj Some) in Hr; subst r;
    cbn [String.length];
    repeat match goal with
    | E : literal _ = Some _ |- _ => apply Hliteral in E
    | E : number_text _ = Some _ |- _ => apply number_text_length in E
    end;
    pose proof (drop_bytes_length 0 a s); pose proof (drop_bytes_length 3 a s);
    pose proof (drop_bytes_length 4 a s); cbn [String.length] in *; lia.
Qed.

(** The next guard of the scanner, with the length of what its readers leave. *)
Ltac scan_guard :=
  match goal with
  | |- context [match skip_space ?s with _ => _ end] =>
      let H := fresh "Hs" in
      pose proof (skip_space_length s) as H; destruct (skip_space s); cbn [String.length] in H
  | |- context [match literal ?s with _ => _ end] =>
      let E := fresh "E" in
      destruct (literal s) as [[? ?]|] eqn:E; [apply Hliteral in E|]
  | |- context [match scan_value literal ?f ?d ?s with _ => _ end] => destruct (scan_value literal f d s) as [[? ?]|] eqn:?
  | |- context [match scan_members literal ?f ?d ?s with _ => _ end] =>
      destruct (scan_members literal f d s) as [[? ?]|] eqn:?
  | |- context [match scan_elements literal ?f ?d ?s with _ => _ end] =>
      destruct (scan_elements literal f d s) as [[? ?]|] eqn:?
  | |- context [if ?b then _ else _] => destruct b
  end.

Lemma scan_length f :
  (∀ d, shorter (scan_value literal f d)) ∧ (∀ d, shorter (scan_members literal f d)) ∧
  (∀ d, shorter (scan_elements literal f d)).
Proof.
  induction f as [|f (IHv & IHm & IHe)]; [done|].
  split_and!; intros d s v r; cbn [scan_value scan_members scan_elements];
    repeat (scan_guard; try done);
    try (intros H%scan_scalar_length; cbn [String.length] in H; lia);
    intros [= _ <-];
    repeat match goal with
    | H : scan_members literal _ _ _ = Some _ |- _ => apply IHm in H
    | H : scan_elements literal _ _ _ = Some _ |- _ => apply IHe in H
    | H : scan_value literal _ _ _ = Some _ |- _ => apply IHv in H
    end; cbn [String.length] in *; lia.
Qed.

(** Beyond twice the length of the input, fuel changes nothing: running out of it is never the reason
    a value is refused. *)
Lemma scan_fuel f :
  (∀ f' d s, 2 * String.length s + 1 <= f → 2 * String.length s + 1 <= f' →
     scan_value literal f d s = scan_value literal f' d s) ∧
  (∀ f' d s, 2 * String.length s + 1 <= f → 2 * String.length s + 1 <= f' →
     scan_members literal f d s = scan_members literal f' d s) ∧
  (∀ f' d s, 2 * String.length s + 2 <= f → 2 * String.length s + 2 <= f' →
     scan_elements literal f d s = scan_elements literal f' d s).
Proof.
  induction f as [|f (IHv & IHm & IHe)]; [split_and!; lia|].
  split_and!; intros [|f'] d s Hf Hf'; try lia; cbn [scan_value scan_members scan_elements].
  - pose proof (skip_space_length s) as Hs. destruct (skip_space s) as [|a s1]; [done|].
    cbn [String.length] in Hs. rewrite (IHm f'), (IHe f') by lia. done.
  - pose proof (skip_space_length s) as Hs. destruct (skip_space s) as [|a s1]; [done|].
    cbn [String.length] in Hs. destruct (Ascii.eqb _ _); [|done].
    destruct (literal s1) as [[key s2]|] eqn:E; [apply Hliteral in E|done].
    pose proof (skip_space_length s2) as Hs2. destruct (skip_space s2) as [|b s3]; [done|].
    cbn [String.length] in Hs2. destruct (Ascii.eqb b ":"); [|done]. rewrite (IHv f') by lia.
    destruct (scan_value literal f' d s3) as [[v s4]|] eqn:Ev; [apply (scan_length f') in Ev|done].
    pose proof (skip_space_length s4) as Hs4. destruct (skip_space s4) as [|c s5]; [done|].
    cbn [String.length] in Hs4. rewrite (IHm f') by lia. done.
  - rewrite (IHv f') by lia.
    destruct (scan_value literal f' d s) as [[v s1]|] eqn:Ev; [apply (scan_length f') in Ev|done].
    pose proof (skip_space_length s1) as Hs1. destruct (skip_space s1) as [|c s2]; [done|].
    cbn [String.length] in Hs1. rewrite (IHe f') by lia. done.
Qed.
End ScannerLength.
