(* ===== verification/JsonInput.v ===== *)
(** * Lossless JSON strings

    [internal/jsoninput/unicode.go]: a scan that rejects unpaired surrogate escapes before a decoder
    would replace them by U+FFFD.  For a JSON text that is one string literal the scan accepts exactly
    the literals that decode without such a replacement. *)

From Stdlib Require Import Ascii.
From S2P Require Import Prelude Regex GoJson GoStrings GoUrl GoJsonRead.

(** The escape after a backslash: the rest of the input, or a rejection.  [strconv.ParseUint] on four
    characters in base 16 accepts exactly hexadecimal digits. *)
Definition valid_escape (s : string) : option string :=
  match s with
  | String.EmptyString => None
  | String.String a s1 =>
      if negb (Ascii.eqb a "u") then Some s1
      else match hex4 s1 with
      | None => None
      | Some (code, s2) =>
          if ((0xD800 <=? code) && (code <=? 0xDBFF))%N then
            match getu4 s2 with
            | Some (low, s3) => if ((low <? 0xDC00) || (0xDFFF <? low))%N then None else Some s3
            | None => None
            end
          else if ((0xDC00 <=? code) && (code <=? 0xDFFF))%N then None
          else Some s2
      end
  end.

(** The loop; every round consumes a byte. *)
Fixpoint unicode_scan (fuel : nat) (inString : bool) (s : string) : bool :=
  match fuel with
  | O => true
  | S fuel' =>
      match s with
      | String.EmptyString => true
      | String.String a s1 =>
          if Ascii.eqb a (ascii_of_N 34) then unicode_scan fuel' (negb inString) s1
          else if negb inString || negb (Ascii.eqb a backslash) then unicode_scan fuel' inString s1
          else match valid_escape s1 with
          | Some s2 => unicode_scan fuel' inString s2
          | None => false
          end
      end
  end.

Definition ValidUnicodeEscapes (b : string) : bool := unicode_scan (S (String.length b)) false b.

(** ** The reference: a reader that refuses instead of replacing *)

Definition unescape_strict (s : string) : option (string * string) :=
  match s with
  | String.String a s1 =>
      if Ascii.eqb a "u" then
        match hex4 s1 with
        | Some (r, s2) =>
            if surrogate r then
              match getu4 s2 with
              | Some (r', s3) =>
                  let p := decode_pair r r' in
                  if (p =? RuneError)%N then None else Some (encode_rune p, s3)
              | None => None
              end
            else Some (encode_rune r, s2)
        | None => None
        end
      else match short_escape a with
      | Some b => Some (one b, s1)
      | None => None
      end
  | String.EmptyString => None
  end.

Fixpoint strict_body (fuel : nat) (s : string) : option (string * string) :=
  match fuel with
  | O => None
  | S fuel' =>
      match s with
      | String.EmptyString => None
      | String.String a s1 =>
          if Ascii.eqb a (ascii_of_N 34) then Some ("", s1)
          else if Ascii.eqb a backslash then
            match unescape_strict s1 with
            | Some (t, s2) => prepend t (strict_body fuel' s2)
            | None => None
            end
          else if (N_of_ascii a <? 0x20)%N then None
          else let '(t, s2) := literal_char a s1 in prepend t (strict_body fuel' s2)
      end
  end.
Definition strict_literal (s : string) : option (string * string) :=
  strict_body (S (String.length s)) s.

(** ** The scan, one character at a time *)

Definition ue (inString : bool) (s : string) : bool := unicode_scan (S (String.length s)) inString s.

Lemma valid_escape_length s s' : valid_escape s = Some s' → String.length s' < String.length s.
Proof.
  destruct s as [|a s]; [done|]. unfold valid_escape. destruct (Ascii.eqb a "u"); cbn [negb String.length].
  - destruct (hex4 s) as [[r s2]|] eqn:E; [apply hex4_length in E|done].
    destruct (_ && _).
    + destruct (getu4 s2) as [[r' s3]|] eqn:E'; [apply getu4_length in E'|done].
      destruct (_ || _); [done|]. intros [= <-]. lia.
    + destruct (_ && _); [done|]. intros [= <-]. lia.
  - intros [= <-]. lia.
Qed.

Lemma unicode_fuel f : ∀ f' b s, String.length s < f → String.length s < f' →
  unicode_scan f b s = unicode_scan f' b s.
Proof.
  induction f as [|f IH]; intros [|f'] b s Hf Hf'; try lia. cbn [unicode_scan].
  destruct s as [|a s1]; [done|]. cbn [String.length] in *.
  destruct (Ascii.eqb a _); [apply IH; lia|]. destruct (_ || _); [apply IH; lia|].
  destruct (valid_escape s1) as [s2|] eqn:E; [apply valid_escape_length in E; apply IH; lia|done].
Qed.

Lemma ue_cons b a s : ue b (String.String a s) =
  if Ascii.eqb a (ascii_of_N 34) then ue (negb b) s
  else if negb b || negb (Ascii.eqb a backslash) then ue b s
  else match valid_escape s with Some s2 => ue b s2 | None => false end.
Proof.
  unfold ue at 1. cbn [String.length]. remember (S (String.length s)) as f eqn:Hf.
  cbn [unicode_scan]. subst f.
  destruct (Ascii.eqb a _); [done|]. destruct (_ || _); [done|].
  destruct (valid_escape s) as [s2|] eqn:E; [|done]. apply valid_escape_length in E.
  apply unicode_fuel; lia.
Qed.

(** Outside a string, and for any byte but a quote, the scan moves on. *)
Lemma ue_outside a s : a ≠ ascii_of_N 34 → ue false (String.String a s) = ue false s.
Proof. intros Ha. rewrite ue_cons. by destruct (Ascii.eqb_spec a (ascii_of_N 34)). Qed.

Lemma ue_open s : ue false (String.String (ascii_of_N 34) s) = ue true s.
Proof. rewrite ue_cons. by rewrite Ascii.eqb_refl. Qed.

Lemma ue_inside a s : byte_in 0 0x7F a = false → ue true (String.String a s) = ue true s.
Proof.
  intros Ha. rewrite ue_cons. destruct (Ascii.eqb_spec a (ascii_of_N 34)) as [->|_]; [done|].
  destruct (Ascii.eqb_spec a backslash) as [->|_]; done.
Qed.

(** What a reader and its strict variant find at the start of a text, and what the scan finds. *)
Definition follows {A} (strict : option (A * string)) (scan : bool) (v : A) (r : string) : Prop :=
  (strict = Some (v, r) ∧ scan = ue false r) ∨ (strict = None ∧ scan = false).

Lemma escape_agrees s t r : unescape_one s = Some (t, r) →
  (unescape_strict s = Some (t, r) ∧ valid_escape s = Some r) ∨
  (unescape_strict s = None ∧ valid_escape s = None).
Proof.
  destruct s as [|a s]; [done|]. unfold unescape_one, unescape_strict, valid_escape.
  destruct (Ascii.eqb a "u") eqn:Ea; cbn [negb].
  2: { destruct (short_escape a); [|done]. intros [= <- <-]. by left. }
  destruct (hex4 s) as [[code s2]|]; [|done]. unfold surrogate, decode_pair.
  destruct ((0xD800 <=? code) && (code <=? 0xDFFF))%N eqn:Hs.
  2: { intros [= <- <-]. left. split; [done|].
       destruct (N.leb_spec 0xD800 code), (N.leb_spec code 0xDFFF); try done; cbn [andb].
       - destruct (N.leb_spec code 0xDBFF); [lia|]. cbn [andb]. by rewrite andb_false_r.
       - destruct (N.leb_spec 0xDC00 code); [lia|done].
       - destruct (N.leb_spec 0xDC00 code); [lia|done]. }
  apply andb_true_iff in Hs as [Hlo%N.leb_le Hhi%N.leb_le].
  destruct (N.leb_spec 0xD800 code); [|lia]. cbn [andb].
  destruct (N.leb_spec code 0xDBFF), (N.ltb_spec code 0xDC00); try lia; cbn [andb].
  - destruct (getu4 s2) as [[low s3]|]; [|intros [= <- <-]; by right].
    destruct (N.leb_spec 0xDC00 low), (N.ltb_spec low 0xE000); cbn [andb].
    + destruct (N.ltb_spec low 0xDC00), (N.ltb_spec 0xDFFF low); try lia. cbn [orb].
      destruct (N.eqb_spec ((code - 0xD800) * 1024 + (low - 0xDC00) + 0x10000) RuneError) as [He|_].
      * unfold RuneError in He. lia.
      * intros [= <- <-]. by left.
    + destruct (N.ltb_spec 0xDFFF low); [|lia]. rewrite orb_true_r.
      rewrite N.eqb_refl. intros [= <- <-]. by right.
    + destruct (N.ltb_spec low 0xDC00); [|lia]. rewrite N.eqb_refl. intros [= <- <-]. by right.
    + destruct (N.ltb_spec low 0xDC00); [|lia]. rewrite N.eqb_refl. intros [= <- <-]. by right.
  - destruct (N.leb_spec 0xDC00 code), (N.leb_spec code 0xDFFF); try lia. cbn [andb].
    destruct (getu4 s2) as [[low s3]|]; [|intros [= <- <-]; by right].
    rewrite N.eqb_refl. intros [= <- <-]. by right.
Qed.

(** The further bytes of a character are neither quotes nor backslashes. *)
Lemma tail_ascii b : tail_byte b = true → byte_in 0 0x7F b = false.
Proof. destruct b as [[] [] [] [] [] [] [] []]; done. Qed.

Lemma second_ascii a b : second_byte a b = true → byte_in 0 0x7F b = false.
Proof.
  unfold second_byte. repeat case_match; destruct b as [[] [] [] [] [] [] [] []]; done.
Qed.

Lemma literal_char_scan a s t r : literal_char a s = (t, r) → ue true s = ue true r.
Proof.
  unfold literal_char, rune_size.
  destruct (byte_in 0 0x7F a); [by intros [= _ ->]|].
  destruct (byte_in 0xC2 0xDF a).
  { destruct s as [|b s]; [by intros [= _ <-]|].
    destruct (tail_byte b) eqn:Hb; [|by intros [= _ <-]].
    intros [= _ <-]. by rewrite (ue_inside b) by (by apply tail_ascii). }
  destruct (byte_in 0xE0 0xEF a).
  { destruct s as [|b [|c s]]; [by intros [= _ <-]..|].
    destruct (second_byte a b && tail_byte c) eqn:Hb; [|by intros [= _ <-]].
    apply andb_true_iff in Hb as [Hb Hc]. intros [= _ <-].
    by rewrite (ue_inside b), (ue_inside c) by (eapply second_ascii, Hb || by apply tail_ascii). }
  destruct (byte_in 0xF0 0xF4 a); [|by intros [= _ <-]].
  destruct s as [|b [|c [|d s]]]; [by intros [= _ <-]..|].
  destruct (second_byte a b && tail_byte c && tail_byte d) eqn:Hb; [|by intros [= _ <-]].
  apply andb_true_iff in Hb as [[Hb Hc]%andb_true_iff Hd]. intros [= _ <-].
  by rewrite (ue_inside b), (ue_inside c), (ue_inside d)
    by (eapply second_ascii, Hb || by apply tail_ascii).
Qed.

Lemma body_agrees f : ∀ s t r, string_body f s = Some (t, r) →
  follows (strict_body f s) (ue true s) t r.
Proof.
  induction f as [|f IH]; intros [|a s] t r; try done. cbn [string_body strict_body].
  destruct (Ascii.eqb a (ascii_of_N 34)) eqn:Hq.
  { apply Ascii.eqb_eq in Hq as ->. intros [= <- <-]. left. split; [done|]. rewrite ue_cons. done. }
  destruct (Ascii.eqb a backslash) eqn:Hb.
  { rewrite ue_cons, Hq, Hb. cbn [negb orb]. destruct (unescape_one s) as [[u s2]|] eqn:He; [|done].
    destruct (string_body f s2) as [[v r']|] eqn:Hs2; [|done]. intros [= <- <-].
    destruct (escape_agrees _ _ _ He) as [[-> ->]|[-> ->]]; [|by right].
    destruct (IH _ _ _ Hs2) as [[-> ->]|[-> ->]]; [by left|by right]. }
  destruct (_ <? _)%N; [done|]. destruct (literal_char a s) as [u s2] eqn:Hl.
  destruct (string_body f s2) as [[v r']|] eqn:Hs2; [|done]. intros [= <- <-].
  rewrite ue_cons, Hq, Hb. cbn [negb orb]. rewrite (literal_char_scan _ _ _ _ Hl).
  destruct (IH _ _ _ Hs2) as [[-> ->]|[-> ->]]; [by left|by right].
Qed.

Lemma literal_agrees s t r : string_literal s = Some (t, r) →
  follows (strict_literal s) (ue true s) t r.
Proof. apply body_agrees. Qed.

(** Outside strings nothing is a quote. *)
Lemma space_scan s : ue false (skip_space s) = ue false s.
Proof.
  induction s as [|a s IH]; [done|]. cbn [skip_space]. destruct (json_space a) eqn:Ha; [|done].
  rewrite IH, ue_outside; [done|]. by intros ->.
Qed.

Lemma prefix_scan p s : all_bytes (λ a, negb (Ascii.eqb a (ascii_of_N 34))) p = true →
  ue false (p +:+ s) = ue false s.
Proof.
  induction p as [|a p IH]; [done|]. cbn [all_bytes]. intros H. apply andb_true_iff in H as [Ha Hp].
  rewrite str_app_cons, ue_outside, IH; [done|done|]. by intros ->.
Qed.

Lemma digit_run_scan s t r : digit_run s = (t, r) → ue false s = ue false r.
Proof.
  revert t r. induction s as [|a s IH]; intros t r; cbn [digit_run]; [by intros [= _ <-]|].
  destruct (digit a) eqn:Ha; [|by intros [= _ <-]]. destruct (digit_run s) as [u r'] eqn:E.
  intros [= _ <-]. rewrite ue_outside by (by intros ->). by eapply IH.
Qed.

Lemma digits1_scan s t r : digits1 s = Some (t, r) → ue false s = ue false r.
Proof.
  unfold digits1. destruct (digit_run s) as [u r'] eqn:E. destruct (_ == _); [done|].
  intros [= _ <-]. by eapply digit_run_scan.
Qed.

Lemma number_scan s t r : number_text s = Some (t, r) → ue false s = ue false r.
Proof.
  unfold number_text. set (p := match s with String.EmptyString => _ | _ => _ end).
  assert (ue false s = ue false p.2) as ->.
  { subst p. destruct s as [|a s]; [done|]. destruct (Ascii.eqb_spec a "-") as [->|]; done. }
  destruct p as [sign s1]. cbn [snd].
  destruct (number_int s1) as [[i s2]|] eqn:E1; [|done].
  destruct (number_frac s2) as [[f s3]|] eqn:E2; [|done].
  destruct (number_exp s3) as [[e s4]|] eqn:E3; [|done]. intros [= _ <-].
  transitivity (ue false s2); [|transitivity (ue false s3)].
  - destruct s1 as [|a s1]; [done|]. unfold number_int in E1.
    destruct (Ascii.eqb_spec a "0") as [->|]; [by injection E1 as _ <-|by eapply digits1_scan].
  - destruct s2 as [|a s2]; [by injection E2 as _ <-|]. unfold number_frac in E2.
    destruct (Ascii.eqb_spec a ".") as [->|]; [|by injection E2 as _ <-].
    destruct (digits1 s2) as [[u r']|] eqn:E; [|done]. injection E2 as _ <-.
    rewrite ue_outside by done. by eapply digits1_scan.
  - destruct s3 as [|a s3]; [by injection E3 as _ <-|]. unfold number_exp in E3.
    destruct (one_of "eE" a) eqn:Ha; [|by injection E3 as _ <-].
    rewrite ue_outside by (by intros ->). destruct s3 as [|b s3]; [done|].
    destruct (one_of "+-" b) eqn:Hb.
    + destruct (digits1 s3) as [[u r']|] eqn:E; [|done]. injection E3 as _ <-.
      rewrite ue_outside by (by intros ->). by eapply digits1_scan.
    + destruct (digits1 _) as [[u r']|] eqn:E; [|done]. injection E3 as _ <-. by eapply digits1_scan.
Qed.

Lemma word_scan p s : HasPrefix s p = true →
  all_bytes (λ a, negb (Ascii.eqb a (ascii_of_N 34))) p = true →
  ue false s = ue false (drop_bytes (String.length p) s).
Proof. intros (t & ->)%HasPrefix_spec Hp. by rewrite drop_bytes_app, prefix_scan. Qed.

Lemma scalar_agrees s v r : scan_scalar string_literal s = Some (v, r) →
  follows (scan_scalar strict_literal s) (ue false s) v r.
Proof.
  unfold scan_scalar. destruct (HasPrefix s quote_byte) eqn:Hq.
  { apply HasPrefix_spec in Hq as (t & ->).
    change (drop_bytes 1 (quote_byte +:+ t)) with t.
    change (quote_byte +:+ t) with (String.String (ascii_of_N 34) t). rewrite ue_open.
    destruct (string_literal t) as [[u r']|] eqn:E; [|done]. intros [= <- <-].
    destruct (literal_agrees _ _ _ E) as [[-> ->]|[-> ->]]; [by left|by right]. }
  intros H. left. split; [exact H|]. revert H.
  destruct (HasPrefix s "null") eqn:Hn; [intros [= _ <-]; by apply (word_scan "null")|].
  destruct (HasPrefix s "true") eqn:Ht; [intros [= _ <-]; by apply (word_scan "true")|].
  destruct (HasPrefix s "false") eqn:Hf; [intros [= _ <-]; by apply (word_scan "false")|].
  destruct (number_text s) as [[u r']|] eqn:E; [|done]. intros [= _ <-]. by eapply number_scan.
Qed.

Lemma follows_map {A B} (f : A → B) strict scan v r :
  follows strict scan v r →
  follows (match strict with Some (x, rest) => Some (f x, rest) | None => None end) scan (f v) r.
Proof. intros [[-> ->]|[-> ->]]; [by left|by right]. Qed.

Lemma follows_ext {A} strict scan scan' (v : A) r : scan = scan' → follows strict scan' v r → follows strict scan v r.
Proof. by intros ->. Qed.

Definition agrees {A} (read strict : string → option (A * string)) : Prop :=
  ∀ s v r, read s = Some (v, r) → follows (strict s) (ue false s) v r.

(** Stepping over one structural byte. *)
Lemma structural_scan c s a s1 : skip_space s = String.String a s1 → Ascii.eqb a c = true →
  c ≠ ascii_of_N 34 → ue false s = ue false s1.
Proof.
  intros Hs ->%Ascii.eqb_eq Hc. rewrite <- space_scan, Hs. by apply ue_outside.
Qed.

Lemma scan_agrees f :
  (∀ d, agrees (scan_value string_literal f d) (scan_value strict_literal f d)) ∧
  (∀ d, agrees (scan_members string_literal f d) (scan_members strict_literal f d)) ∧
  (∀ d, agrees (scan_elements string_literal f d) (scan_elements strict_literal f d)).
Proof.
  induction f as [|f (IHv & IHm & IHe)]; [done|].
  split_and!; intros d s v r; cbn [scan_value scan_members scan_elements].
  - destruct (skip_space s) as [|a s1] eqn:Hs; [done|].
    destruct (Ascii.eqb a "{") eqn:Ha.
    { destruct (_ <? _)%Z; [done|]. destruct (skip_space s1) as [|b s2] eqn:Hs1; [done|].
      rewrite (structural_scan "{" s a s1 Hs Ha) by done. destruct (Ascii.eqb b "}") eqn:Hb.
      { intros [= <- <-]. left. split; [done|]. by apply (structural_scan "}" s1 b). }
      destruct (scan_members string_literal f (d + 1) s1) as [[ms r']|] eqn:E; [|done].
      intros [= <- <-]. apply (follows_map DObject), IHm, E. }
    destruct (Ascii.eqb a "[") eqn:Ha'.
    { destruct (_ <? _)%Z; [done|]. destruct (skip_space s1) as [|b s2] eqn:Hs1; [done|].
      rewrite (structural_scan "[" s a s1 Hs Ha') by done. destruct (Ascii.eqb b "]") eqn:Hb.
      { intros [= <- <-]. left. split; [done|]. by apply (structural_scan "]" s1 b). }
      destruct (scan_elements string_literal f (d + 1) s1) as [[ms r']|] eqn:E; [|done].
      intros [= <- <-]. apply (follows_map DArray), IHe, E. }
    intros H. eapply follows_ext; [|by apply scalar_agrees]. by rewrite <- space_scan, Hs.
  - destruct (skip_space s) as [|a s1] eqn:Hs; [done|].
    destruct (Ascii.eqb a (ascii_of_N 34)) eqn:Ha; [|done]. apply Ascii.eqb_eq in Ha as ->.
    rewrite <- (space_scan s), Hs, ue_open.
    destruct (string_literal s1) as [[key s2]|] eqn:Ek; [|done].
    destruct (literal_agrees _ _ _ Ek) as [[-> ->]|[-> ->]]; [|by right].
    destruct (skip_space s2) as [|b s3] eqn:Hs2; [done|].
    destruct (Ascii.eqb b ":") eqn:Hb; [|done].
    rewrite (structural_scan ":" s2 b s3 Hs2 Hb) by done.
    destruct (scan_value string_literal f d s3) as [[w s4]|] eqn:Ew; [|done].
    destruct (IHv d _ _ _ Ew) as [[-> ->]|[-> ->]]; [|by right].
    destruct (skip_space s4) as [|c s5] eqn:Hs4; [done|].
    destruct (Ascii.eqb c "}") eqn:Hc.
    { intros [= <- <-]. left. split; [done|]. by apply (structural_scan "}" s4 c). }
    destruct (Ascii.eqb c ",") eqn:Hc'; [|done].
    rewrite (structural_scan "," s4 c s5 Hs4 Hc') by done.
    destruct (scan_members string_literal f d s5) as [[ms r']|] eqn:E; [|done].
    intros [= <- <-]. apply (follows_map (cons (key, w))), IHm, E.
  - destruct (scan_value string_literal f d s) as [[w s1]|] eqn:Ew; [|done].
    destruct (IHv d _ _ _ Ew) as [[-> ->]|[-> ->]]; [|by right].
    destruct (skip_space s1) as [|c s2] eqn:Hs1; [done|].
    destruct (Ascii.eqb c "]") eqn:Hc.
    { intros [= <- <-]. left. split; [done|]. by apply (structural_scan "]" s1 c). }
    destruct (Ascii.eqb c ",") eqn:Hc'; [|done].
    rewrite (structural_scan "," s1 c s2 Hs1 Hc') by done.
    destruct (scan_elements string_literal f d s2) as [[ms r']|] eqn:E; [|done].
    intros [= <- <-]. apply (follows_map (cons w)), IHe, E.
Qed.

(** The scan is exact.  For every JSON document, [ValidUnicodeEscapes] accepts it exactly when
    the decoder reads all its strings without replacing an escape: the reader that refuses an unpaired
    surrogate instead of replacing it reads the same value. *)
Theorem unicode_escapes_exact data v rest :
  next_value data = Some (v, rest) → at_eof rest = true →
  ValidUnicodeEscapes data = true ↔ read_value strict_literal data = Some (v, rest).
Proof.
  intros Hv Heof. change (ValidUnicodeEscapes data) with (ue false data).
  assert (ue false rest = true) as Hrest.
  { unfold at_eof in Heof. go_bool. rewrite <- space_scan. by rewrite Heof. }
  unfold read_value. destruct (proj1 (scan_agrees (S (2 * String.length data))) 0%Z _ _ _ Hv)
    as [[-> ->]|[-> ->]]; [by rewrite Hrest|done].
Qed.

(** A document with a surrogate pair, which is one character. *)
Abbreviation sample_document := ("[" +:+ quote_byte +:+ "\ud83d\ude00" +:+ quote_byte +:+ "]").
Lemma unicode_escapes_exact_witness : ∃ v,
  next_value sample_document = Some (v, "") ∧
  (ValidUnicodeEscapes sample_document = true ↔
   read_value strict_literal sample_document = Some (v, "")).
Proof.
  eexists. split; [vm_compute; reflexivity|].
  apply unicode_escapes_exact; vm_compute; reflexivity.
Defined.
