(* ===== verification/GoJsonSpec.v ===== *)
(** * [encoding/json]: what the encoder writes

    A text written by [encode] is valid UTF-8, holds no unpaired surrogate escape and is read back by
    the decoder as the value it was written for, numbers included; a byte that is not UTF-8 is read back
    as U+FFFD. *)

From Stdlib Require Import Ascii.
From stdpp Require Import pretty.
From S2P Require Import Prelude Regex GoJson GoStrings GoUrl Config GoJsonRead JsonInput.

(** ** Strings *)

(** The text the decoder sees for a string: each byte that starts no character is U+FFFD. *)
Fixpoint valid_text (s : string) : string :=
  match s with
  | String.EmptyString => ""
  | String.String a s1 =>
      if byte_in 0 0x7F a then String.String a (valid_text s1)
      else
        match rune_size a s1, s1 with
        | 2, String.String b s2 => String.String a (String.String b (valid_text s2))
        | 3, String.String b (String.String c s3) =>
            String.String a (String.String b (String.String c (valid_text s3)))
        | 4, String.String b (String.String c (String.String d s4)) =>
            String.String a (String.String b (String.String c (String.String d (valid_text s4))))
        | _, _ => encode_rune RuneError +:+ valid_text s1
        end
  end.

(** Induction over the characters of any string. *)
Lemma text_ind (P : string → Prop) :
  P "" → (∀ a s, byte_in 0 0x7F a = true → P s → P (String.String a s)) →
  (∀ a b s, byte_in 0 0x7F a = false → (∀ t, rune_size a (String.String b t) = 2) → P s →
    P (String.String a (String.String b s))) →
  (∀ a b c s, byte_in 0 0x7F a = false → (∀ t, rune_size a (String.String b (String.String c t)) = 3) → P s →
    P (String.String a (String.String b (String.String c s)))) →
  (∀ a b c d s, byte_in 0 0x7F a = false →
    (∀ t, rune_size a (String.String b (String.String c (String.String d t))) = 4) → P s →
    P (String.String a (String.String b (String.String c (String.String d s))))) →
  (∀ a s, byte_in 0 0x7F a = false → rune_size a s = 0 → P s → P (String.String a s)) →
  ∀ s, P s.
Proof.
  intros H0 H1 H2 H3 H4 Hbad s.
  induction s as [s IH] using (induction_ltof1 _ String.length). unfold ltof in IH.
  destruct s as [|a s]; [done|]. pose proof (rune_size_cases a s) as Hc.
  destruct (rune_size a s) as [|[|[|[|[|n]]]]] eqn:Es; try done.
  - destruct (byte_in 0 0x7F a) eqn:Ea; [unfold rune_size in Es; by rewrite Ea in Es|].
    apply Hbad; [done..|]. apply IH. cbn. lia.
  - apply H1; [done|]. apply IH. cbn. lia.
  - destruct Hc as (Ha & b & s' & -> & Hn). apply H2; [done..|]. apply IH. cbn. lia.
  - destruct Hc as (Ha & b & c & s' & -> & Hn). apply H3; [done..|]. apply IH. cbn. lia.
  - destruct Hc as (Ha & b & c & d & s' & -> & Hn). apply H4; [done..|]. apply IH. cbn. lia.
Qed.

(** The cases of that induction, with the character's own equations rewritten in the goal. *)
Ltac text_cases s :=
  induction s as [|a s Ha IH|a b s Ha Hn IH|a b c s Ha Hn IH|a b c d s Ha Hn IH|a s Ha Hn IH] using text_ind.

Lemma valid_text_id s : ValidString s = true → valid_text s = s.
Proof.
  intros Hs%ValidString_wf. induction Hs as [|a s Ha Hs IH|a b s Ha Hn Hs IH|a b c s Ha Hn Hs IH|a b c d s Ha Hn Hs IH];
    [done|cbn [valid_text]; rewrite Ha; try rewrite Hn; by rewrite IH..].
Qed.

Lemma valid_text_nil s : valid_text s = "" → s = "".
Proof. text_cases s; [done|cbn [valid_text]; rewrite Ha; try rewrite Hn; done..]. Qed.

Lemma read_replaced f t :
  string_body (S f) ((one backslash +:+ "ufffd") +:+ t) = prepend (encode_rune RuneError) (string_body f t).
Proof. reflexivity. Qed.

Lemma json_chars_bad a s : byte_in 0 0x7F a = false → rune_size a s = 0 →
  json_chars (String.String a s) = (one backslash +:+ "ufffd") +:+ json_chars s.
Proof. intros Ha Hn. cbn [json_chars]. by rewrite Ha, Hn. Qed.

Lemma json_chars_seen s : ∀ f rest, String.length (json_chars s) < f →
  string_body f (json_chars s +:+ String.String (ascii_of_N 34) rest) = Some (valid_text s, rest).
Proof.
  text_cases s; intros [|f] rest Hf; try (cbn in Hf; lia).
  - reflexivity.
  - cbn [json_chars valid_text] in Hf |- *. rewrite Ha in Hf |- *. rewrite <- str_app_assoc, read_ascii by done.
    rewrite str_length_app in Hf. rewrite IH; [done|]. pose proof (escape_ascii_length a). lia.
  - cbn [json_chars valid_text] in Hf |- *. rewrite Ha, Hn in Hf |- *. rewrite !str_app_cons, read_wide by done.
    rewrite (literal_char_rune a _ 2 _ _ (Hn _) ltac:(lia) eq_refl), IH; [done|]. cbn in Hf. lia.
  - cbn [json_chars valid_text] in Hf |- *. rewrite Ha, Hn in Hf |- *.
    destruct (is_line_separator a b c) eqn:El.
    + rewrite <- str_app_assoc, (read_separator a b c) by done. rewrite IH; [done|].
      rewrite !str_length_app in Hf. cbn in Hf. lia.
    + change ((one a +:+ one b +:+ one c) +:+ json_chars s) with
        (String.String a (String.String b (String.String c (json_chars s)))) in Hf |- *.
      rewrite !str_app_cons, read_wide by done.
      rewrite (literal_char_rune a _ 3 _ _ (Hn _) ltac:(lia) eq_refl), IH; [done|]. cbn in Hf. lia.
  - cbn [json_chars valid_text] in Hf |- *. rewrite Ha, Hn in Hf |- *.
    change (one a +:+ one b +:+ one c +:+ one d +:+ json_chars s) with
      (String.String a (String.String b (String.String c (String.String d (json_chars s))))) in Hf |- *.
    rewrite !str_app_cons, read_wide by done.
    rewrite (literal_char_rune a _ 4 _ _ (Hn _) ltac:(lia) eq_refl), IH; [done|]. cbn in Hf. lia.
  - rewrite json_chars_bad in Hf |- * by done. rewrite <- str_app_assoc, read_replaced.
    cbn [valid_text]. rewrite Ha, Hn, IH; [done|]. rewrite str_length_app in Hf.
    change (String.length (one backslash +:+ "ufffd")) with 6 in Hf. lia.
Qed.

(** ** Scanning what the encoder writes *)

Lemma json_string_app s rest :
  json_string s +:+ rest = quote_byte +:+ (json_chars s +:+ (quote_byte +:+ rest)).
Proof. unfold json_string. by rewrite <- !str_app_assoc. Qed.

Lemma read_string s rest :
  string_literal (json_chars s +:+ (quote_byte +:+ rest)) = Some (valid_text s, rest).
Proof. apply json_chars_seen. rewrite str_length_app. cbn. lia. Qed.

Lemma scan_string f d s rest :
  scan_value string_literal (S f) d (json_string s +:+ rest) = Some (DString (valid_text s), rest).
Proof.
  rewrite json_string_app.
  change (scan_value string_literal (S f) d (quote_byte +:+ (json_chars s +:+ (quote_byte +:+ rest)))) with
    (match string_literal (json_chars s +:+ (quote_byte +:+ rest)) with
     | Some (t, r) => Some (DString t, r) | None => None end).
  by rewrite read_string.
Qed.

Lemma scan_member f d key s :
  scan_members string_literal (S f) d (json_string key +:+ (":" +:+ s)) =
  match scan_value string_literal f d s with
  | Some (v, s4) =>
      match skip_space s4 with
      | String.String c s5 =>
          if Ascii.eqb c "}" then Some ([(valid_text key, v)], s5)
          else if Ascii.eqb c "," then
            match scan_members string_literal f d s5 with
            | Some (ms, rest) => Some ((valid_text key, v) :: ms, rest)
            | None => None
            end
          else None
      | String.EmptyString => None
      end
  | None => None
  end.
Proof.
  rewrite json_string_app.
  change (scan_members string_literal (S f) d (quote_byte +:+ (json_chars key +:+ (quote_byte +:+ (":" +:+ s))))) with
    (match string_literal (json_chars key +:+ (quote_byte +:+ (":" +:+ s))) with
     | Some (k, s2) =>
         match skip_space s2 with
         | String.String b s3 =>
             if Ascii.eqb b ":" then
               match scan_value string_literal f d s3 with
               | Some (v, s4) =>
                   match skip_space s4 with
                   | String.String c s5 =>
                       if Ascii.eqb c "}" then Some ([(k, v)], s5)
                       else if Ascii.eqb c "," then
                         match scan_members string_literal f d s5 with
                         | Some (ms, rest) => Some ((k, v) :: ms, rest)
                         | None => None
                         end
                       else None
                   | String.EmptyString => None
                   end
               | None => None
               end
             else None
         | String.EmptyString => None
         end
     | None => None
     end).
  by rewrite read_string.
Qed.

Lemma scan_member_more f d key s v t :
  scan_value string_literal f d s = Some (v, "," +:+ t) →
  scan_members string_literal (S f) d (json_string key +:+ (":" +:+ s)) =
  match scan_members string_literal f d t with
  | Some (ms, rest) => Some ((valid_text key, v) :: ms, rest) | None => None end.
Proof. intros Hv. rewrite scan_member, Hv. reflexivity. Qed.

Lemma scan_member_last f d key s v t :
  scan_value string_literal f d s = Some (v, "}" +:+ t) →
  scan_members string_literal (S f) d (json_string key +:+ (":" +:+ s)) = Some ([(valid_text key, v)], t).
Proof. intros Hv. rewrite scan_member, Hv. reflexivity. Qed.

(** ** Numbers *)

(** What follows a number does not continue it. *)
Definition ends_number (t : string) : bool :=
  match t with
  | String.String a _ => negb (digit a || Ascii.eqb a "." || one_of "eE" a)
  | String.EmptyString => true
  end.

Lemma pretty_char_digit x : (x < 10)%N → digit (pretty_N_char x) = true ∧
  (Z.of_N (N_of_ascii (pretty_N_char x)) - 48 = Z.of_N x)%Z ∧ (0 < x → pretty_N_char x ≠ "0"%char)%N.
Proof.
  intros Hx. assert (x = 0 ∨ x = 1 ∨ x = 2 ∨ x = 3 ∨ x = 4 ∨ x = 5 ∨ x = 6 ∨ x = 7 ∨ x = 8 ∨ x = 9)%N as H by lia.
  destruct_or! H; by subst.
Qed.

(** The decimal digits of a positive number, in front of what was written before. *)
Lemma pretty_go_digits x : (0 < x)%N → ∃ a u, digit a = true ∧ a ≠ "0"%char ∧ all_digits u = true ∧
  ∀ s, pretty_N_go x s = String.String a (u +:+ s).
Proof.
  induction (N.lt_wf_0 x) as [x _ IH]. intros Hx.
  destruct (pretty_char_digit (x mod 10)) as (Hd & _ & H0); [by apply N.mod_lt|].
  destruct (decide (x < 10)%N) as [Hs|Hs].
  - exists (pretty_N_char (x mod 10)), "". split_and!; [done| |done|].
    + apply H0. by rewrite N.mod_small.
    + intros s. rewrite pretty_N_go_step by done. by rewrite (N.div_small x 10), pretty_N_go_0.
  - destruct (IH (x / 10)%N) as (a & u & Ha & Hz & Hu & Hg).
    { by apply N.div_lt. }
    { apply N.div_str_pos. lia. }
    exists a, (u +:+ one (pretty_N_char (x mod 10))). split_and!; [done..| |].
    + clear -Hu Hd. induction u as [|b u IHu]; [rewrite str_app_nil; unfold all_digits; cbn [all_bytes one]; by rewrite Hd|].
      rewrite str_app_cons. unfold all_digits in *. cbn [all_bytes] in Hu |- *. apply andb_true_iff in Hu as [-> Hu]. by apply IHu.
    + intros s. rewrite pretty_N_go_step, Hg by done. by rewrite <- str_app_assoc.
Qed.

Lemma decimal_pretty_go x : ∀ s, decimal_value (pretty_N_go x s) 0 = decimal_value s (Z.of_N x).
Proof.
  induction (N.lt_wf_0 x) as [x _ IH]. intros s. destruct (decide (x = 0)%N) as [->|Hx]; [done|].
  rewrite pretty_N_go_step, IH by (try apply N.div_lt; lia).
  destruct (pretty_char_digit (x mod 10)) as (Hd & Hv & _); [by apply N.mod_lt|].
  cbn [decimal_value]. rewrite Hd, Hv. f_equal.
  rewrite N2Z.inj_div, N2Z.inj_mod. pose proof (Z.div_mod (Z.of_N x) 10 ltac:(lia)). lia.
Qed.

Lemma digit_run_all u t : all_digits u = true → ends_number t = true → digit_run (u +:+ t) = (u, t).
Proof.
  intros Hu Ht. induction u as [|a u IH].
  - rewrite str_app_nil. destruct t as [|a t]; [done|]. cbn in Ht |- *. by destruct (digit a).
  - rewrite str_app_cons. unfold all_digits in *. cbn [all_bytes digit_run] in *. apply andb_true_iff in Hu as [-> Hu].
    by rewrite IH.
Qed.

(** The text of a natural number is a zero, or digits that do not start with one. *)
Lemma pretty_N_text (x : N) : ∃ a u, pretty x = String.String a u ∧ digit a = true ∧ all_digits u = true ∧
  (a = "0"%char → u = "") ∧ decimal_value (pretty x) 0 = Some (Z.of_N x).
Proof.
  destruct (decide (x = 0)%N) as [->|Hx]; [by exists "0"%char, ""|].
  destruct (pretty_go_digits x ltac:(lia)) as (a & u & Ha & Hz & Hu & Hg).
  unfold pretty, pretty_N. rewrite decide_False by done.
  rewrite decimal_pretty_go. exists a, u. split_and!; [|done..|done]. by rewrite Hg, str_app_nil_r.
Qed.

Lemma number_int_text (x : N) t : ends_number t = true →
  number_int (pretty x +:+ t) = Some (pretty x, t).
Proof.
  intros Ht. destruct (pretty_N_text x) as (a & u & -> & Ha & Hu & Hz & _).
  rewrite str_app_cons. cbn [number_int]. destruct (Ascii.eqb_spec a "0") as [E|E].
  - by rewrite (Hz E), str_app_nil.
  - unfold digits1. cbn [digit_run]. rewrite Ha, digit_run_all by done. done.
Qed.

Lemma number_ends t : ends_number t = true → number_frac t = Some ("", t) ∧ number_exp t = Some ("", t).
Proof.
  destruct t as [|a t]; [done|]. cbn [ends_number number_frac number_exp].
  rewrite negb_true_iff, !orb_false_iff. by intros [[_ ->] ->].
Qed.

Lemma digit_not_sign a : digit a = true → Ascii.eqb a "-" = false ∧ Ascii.eqb a "+" = false.
Proof. by destruct a as [[] [] [] [] [] [] [] []]. Qed.

Lemma number_text_pretty (n : Z) t : ends_number t = true →
  number_text (pretty n +:+ t) = Some (pretty n, t).
Proof.
  intros Ht. destruct (number_ends t Ht) as [Hf He].
  assert (∀ x : N, number_text (pretty x +:+ t) = Some (pretty x, t)) as HN.
  { intros x. unfold number_text. pose proof (number_int_text x t Ht) as Hi.
    destruct (pretty_N_text x) as (a & u & Hp & Ha & _). rewrite Hp in Hi |- *. rewrite str_app_cons in Hi |- *.
    rewrite (proj1 (digit_not_sign a Ha)), Hi, Hf, He. by rewrite str_app_nil, str_app_nil_r. }
  destruct n as [|p|p]; [exact (HN 0%N)|exact (HN (N.pos p))|].
  change (pretty (Z.neg p)) with ("-" +:+ pretty (N.pos p)). unfold number_text.
  change (("-" +:+ pretty (N.pos p)) +:+ t) with (String.String "-" (pretty (N.pos p) +:+ t)).
  cbn [Ascii.eqb Bool.eqb].
  by rewrite number_int_text, Hf, He, str_app_nil_r.
Qed.

(** [strconv.ParseInt] reads a written 64-bit number. *)
Lemma Atoi_pretty (n : Z) : (- 2 ^ 63 <= n < 2 ^ 63)%Z → Atoi (pretty n) = Some n.
Proof.
  intros Hn. assert (((- 2 ^ 63 <=? n) && (n <? 2 ^ 63))%Z = true) as Hr by lia.
  assert (∀ x : N, Z.of_N x = n → Atoi (pretty x) = Some n) as HN.
  { intros x Hx. destruct (pretty_N_text x) as (a & u & Hp & Ha & _ & _ & Hv).
    rewrite Hp in Hv |- *. unfold Atoi. destruct (digit_not_sign a Ha) as [-> ->].
    change (String.String a u == "") with false. cbv iota.
    rewrite Hv, Z.mul_1_l, Hx. cbv zeta. by rewrite Hr. }
  destruct n as [|p|p]; [exact (HN 0%N eq_refl)|exact (HN (N.pos p) eq_refl)|].
  change (pretty (Z.neg p)) with (String.String "-" (pretty (N.pos p))). unfold Atoi.
  cbn [Ascii.eqb Bool.eqb].
  destruct (pretty_N_text (N.pos p)) as (a & u & Hp & _ & _ & _ & Hv). rewrite Hp in Hv |- *.
  change (String.String a u == "") with false. cbv iota. rewrite Hv. cbv zeta.
  change (-1 * Z.of_N (N.pos p))%Z with (Z.neg p). by rewrite Hr.
Qed.

(** ** Values *)

(** The value written, and the value the decoder sees: they differ in text that is not UTF-8. *)
Fixpoint to_value (j : json) : jvalue :=
  match j with
  | JNull => DNull
  | JBool b => DBool b
  | JInt n => DNumber (pretty n)
  | JString s => DString s
  | JArray l => DArray (map to_value l)
  | JObject fs => DObject (map (λ f, (fst f, to_value (snd f))) fs)
  end.
Fixpoint seen_value (j : json) : jvalue :=
  match j with
  | JNull => DNull
  | JBool b => DBool b
  | JInt n => DNumber (pretty n)
  | JString s => DString (valid_text s)
  | JArray l => DArray (map seen_value l)
  | JObject fs => DObject (map (λ f, (valid_text (fst f), seen_value (snd f))) fs)
  end.

(** At most [depth] nested objects and arrays, and, with [text], valid strings. *)
Fixpoint shaped (text : bool) (depth : nat) (j : json) : bool :=
  match j, depth with
  | JNull, _ | JBool _, _ | JInt _, _ => true
  | JString s, _ => negb text || ValidString s
  | JArray l, S d => forallb (shaped text d) l
  | JObject fs, S d => forallb (λ f, (negb text || ValidString (fst f)) && shaped text d (snd f)) fs
  | _, O => false
  end.
Definition nested : nat → json → bool := shaped false.
Definition textual : nat → json → bool := shaped true.

(** Induction on the nesting. *)
Lemma shaped_ind text (P : nat → json → Prop) :
  (∀ d, P d JNull) → (∀ d b, P d (JBool b)) → (∀ d n, P d (JInt n)) →
  (∀ d s, negb text || ValidString s = true → P d (JString s)) →
  (∀ d l, Forall (P d) l → P (S d) (JArray l)) →
  (∀ d fs, Forall (λ f, negb text || ValidString (fst f) = true ∧ P d (snd f)) fs → P (S d) (JObject fs)) →
  ∀ d j, shaped text d j = true → P d j.
Proof.
  intros Hn Hb Hi Hs Ha Ho d. induction d as [|d IH]; intros [|b|n|s|l|fs] H; try done; cbn in H; auto.
  - apply Ha, list.Forall_forall. intros j Hj. rewrite forallb_elem in H. auto.
  - apply Ho, list.Forall_forall. intros f Hf. rewrite forallb_elem in H. specialize (H f Hf).
    apply andb_true_iff in H as [H1 H2]. auto.
Qed.

Lemma textual_nested d j : textual d j = true → nested d j = true.
Proof.
  revert d j. apply (shaped_ind true (λ d j, nested d j = true)); try (by intros []).
  - intros d l Hl. apply forallb_elem. by apply list.Forall_forall.
  - intros d fs Hfs. apply forallb_elem. intros f Hf. rewrite list.Forall_forall in Hfs.
    by apply (Hfs f Hf).
Qed.

(** Valid text is seen as it is. *)
Lemma textual_seen d j : textual d j = true → seen_value j = to_value j.
Proof.
  revert d j. apply (shaped_ind true (λ _ j, seen_value j = to_value j)); try done.
  - intros _ s Hs. cbn. by rewrite valid_text_id.
  - intros _ l Hl. cbn. f_equal. apply map_ext_in. intros j Hj%list_elem_of_In.
    rewrite list.Forall_forall in Hl. auto.
  - intros _ fs Hfs. cbn. f_equal. apply map_ext_in. intros f Hf%list_elem_of_In.
    rewrite list.Forall_forall in Hfs. destruct (Hfs f Hf) as [Hk ->]. by rewrite valid_text_id.
Qed.

Lemma join_cons sep s l :
  join sep (s :: l) = s +:+ match l with [] => "" | _ => sep +:+ join sep l end.
Proof. destruct l; cbn [join]; [by rewrite str_app_nil_r|done]. Qed.

Lemma slen_nat s : String.length s = Z.to_nat (slen s).
Proof. unfold slen. lia. Qed.

(** What [encode] writes starts neither a blank nor a bracket that closes. *)
Lemma digit_head a : digit a || Ascii.eqb a "-" = true →
  json_space a = false ∧ Ascii.eqb a "]" = false ∧ Ascii.eqb a "}" = false ∧
  ∀ s, scan_value string_literal 1 0 (String.String a s) =
    match number_text (String.String a s) with Some (t, rest) => Some (DNumber t, rest) | None => None end.
Proof. destruct a as [[] [] [] [] [] [] [] []]; intros Ha; try discriminate Ha; by split_and!. Qed.

Lemma pretty_head (n : Z) : ∃ a u, pretty n = String.String a u ∧ digit a || Ascii.eqb a "-" = true.
Proof.
  destruct n as [|p|p]; [by eexists _, _| |by eexists _, _].
  destruct (pretty_N_text (N.pos p)) as (a & u & Hp & Ha & _). exists a, u. by rewrite Ha.
Qed.

Lemma scan_int f d (n : Z) t : ends_number t = true →
  scan_value string_literal (S f) d (pretty n +:+ t) = Some (DNumber (pretty n), t).
Proof.
  intros Ht. pose proof (number_text_pretty n t Ht) as Hn.
  destruct (pretty_head n) as (a & u & Hp & Ha). rewrite Hp in Hn |- *. rewrite str_app_cons in Hn |- *.
  destruct (digit_head a Ha) as (Hb & _ & _ & Hs). specialize (Hs (u +:+ t)). rewrite Hn in Hs. revert Hs.
  cbn [scan_value skip_space]. rewrite Hb.
  destruct (Ascii.eqb a "{") eqn:E1; [apply Ascii.eqb_eq in E1 as ->; done|].
  destruct (Ascii.eqb a "[") eqn:E2; [apply Ascii.eqb_eq in E2 as ->; done|]. done.
Qed.

Lemma encode_head d j t : nested d j = true → ∃ a s, encode j +:+ t = String.String a s ∧
  json_space a = false ∧ Ascii.eqb a "]" = false ∧ Ascii.eqb a "}" = false.
Proof.
  intros Hj. destruct j as [|[]|n|s|l|fs]; try (eexists _, _; (split; [reflexivity|]); done).
  cbn [encode]. destruct (pretty_head n) as (a & u & -> & Ha). exists a, (u +:+ t).
  destruct (digit_head a Ha) as (? & ? & ? & _). done.
Qed.

Lemma skip_encode d j t : nested d j = true → skip_space (encode j +:+ t) = encode j +:+ t.
Proof.
  intros Hj. destruct (encode_head d j t Hj) as (a & s & -> & Ha & _). cbn [skip_space]. by rewrite Ha.
Qed.

Definition reads_back (d : nat) (j : json) : Prop :=
  ∀ f n t, 2 * String.length (encode j +:+ t) + 1 <= f → (n + Z.of_nat d <= maxNestingDepth)%Z →
    ends_number t = true → scan_value string_literal f n (encode j +:+ t) = Some (seen_value j, t).

Lemma scan_elements_encode d l : l ≠ [] → Forall (reads_back d) l → forallb (nested d) l = true →
  ∀ f n t, 2 * String.length (join "," (map encode l) +:+ ("]" +:+ t)) + 2 <= f →
  (n + Z.of_nat d <= maxNestingDepth)%Z →
  scan_elements string_literal f n (join "," (map encode l) +:+ ("]" +:+ t)) = Some (map seen_value l, t).
Proof.
  induction l as [|j l IH]; [done|]. intros _ Hl Hok f n t Hf Hn.
  apply list.Forall_cons in Hl as [Hj Hl]. cbn [forallb] in Hok. apply andb_true_iff in Hok as [_ Hok].
  cbn [map]. cbn [map] in Hf. rewrite join_cons in Hf |- *. rewrite <- str_app_assoc in Hf |- *.
  destruct f as [|f]; [lia|]. cbn [scan_elements].
  rewrite Hj; [|lia|lia|by destruct l].
  destruct l as [|j' l].
  - reflexivity.
  - cbn [map]. cbn [map] in Hf. change (encode j' :: map encode l) with (map encode (j' :: l)) in Hf |- *.
    rewrite <- str_app_assoc in Hf |- *.
    rewrite str_length_app, (str_length_app ","), (str_length_app (join _ _)) in Hf.
    change (skip_space ("," +:+ ?s)) with (String.String "," s). cbv beta iota.
    change (Ascii.eqb "," "]") with false. change (Ascii.eqb "," ",") with true. cbv iota.
    rewrite IH; [done|done|done|done| |done]. rewrite str_length_app. cbn in Hf |- *. lia.
Qed.

Definition encode_member (f : string * json) : string := json_string (fst f) +:+ ":" +:+ encode (snd f).
Definition member_value (f : string * json) : string * jvalue := (valid_text (fst f), seen_value (snd f)).

Lemma encode_member_app f t :
  encode_member f +:+ t = json_string (fst f) +:+ (":" +:+ (encode (snd f) +:+ t)).
Proof. unfold encode_member. by rewrite <- !str_app_assoc. Qed.

Lemma scan_members_encode d fs : fs ≠ [] → Forall (λ f, reads_back d (snd f)) fs →
  ∀ f n t, 2 * String.length (join "," (map encode_member fs) +:+ ("}" +:+ t)) + 1 <= f →
  (n + Z.of_nat d <= maxNestingDepth)%Z →
  scan_members string_literal f n (join "," (map encode_member fs) +:+ ("}" +:+ t)) =
    Some (map member_value fs, t).
Proof.
  induction fs as [|m fs IH]; [done|]. intros _ Hfs f n t Hf Hn.
  apply list.Forall_cons in Hfs as [Hm Hfs].
  cbn [map]. cbn [map] in Hf. rewrite join_cons in Hf |- *. rewrite <- str_app_assoc, encode_member_app in Hf |- *.
  destruct f as [|f]; [lia|].
  rewrite !str_length_app in Hf. destruct fs as [|m' fs].
  - cbn [map]. apply scan_member_last. rewrite str_app_nil. apply Hm; [|done|done].
    rewrite !str_length_app. cbn in Hf |- *. lia.
  - set (more := join "," (map encode_member (m' :: fs))) in *.
    change (match map encode_member (m' :: fs) with [] => "" | _ :: _ => "," +:+ more end)
      with ("," +:+ more) in Hf |- *.
    rewrite <- str_app_assoc. rewrite (str_length_app ",") in Hf.
    rewrite (scan_member_more f n (fst m) _ (seen_value (snd m)) (more +:+ ("}" +:+ t))).
    + subst more. rewrite IH; [done|done|done| |done]. rewrite !str_length_app. cbn in Hf |- *. lia.
    + apply Hm; [|done|done]. rewrite !str_length_app. cbn in Hf |- *. lia.
Qed.

Lemma scan_encode d j : nested d j = true → reads_back d j.
Proof.
  intros Hj. pose proof Hj as Hok. revert d j Hj Hok.
  apply (shaped_ind false (λ d j, nested d j = true → reads_back d j)).
  - intros d _ f n t Hf _ _. destruct f; [lia|]. done.
  - intros d b _ f n t Hf _ _. destruct f; [lia|]. by destruct b.
  - intros d i _ f n t Hf _ Ht. destruct f; [lia|]. by apply scan_int.
  - intros d s _ _ f n t Hf _ _. destruct f; [lia|]. by apply scan_string.
  - intros d l Hl Hok f n t Hf Hn _. change (forallb (nested d) l = true) in Hok.
    assert (Forall (reads_back d) l) as Hl'.
    { rewrite list.Forall_forall in Hl |- *. rewrite forallb_elem in Hok. auto. }
    destruct l as [|j l]; [by destruct f as [|f]; [lia|]; cbn -[Z.ltb];
      destruct (Z.ltb_spec maxNestingDepth (n + 1)); [lia|]|].
    cbn [encode] in Hf |- *. rewrite <- !str_app_assoc in Hf |- *. rewrite str_length_app in Hf.
    destruct f as [|f]; [lia|]. cbn [scan_value].
    set (body := join "," (map encode (j :: l)) +:+ ("]" +:+ t)) in *.
    change (skip_space ("[" +:+ body)) with (String.String "[" body). cbv beta iota.
    change (Ascii.eqb "[" "{") with false. change (Ascii.eqb "[" "[") with true. cbv iota.
    destruct (Z.ltb_spec maxNestingDepth (n + 1)); [lia|].
    assert (∃ a s, skip_space body = String.String a s ∧ Ascii.eqb a "]" = false) as (a & s & -> & ->).
    { subst body. cbn [map]. rewrite join_cons, <- str_app_assoc.
      cbn [forallb] in Hok. apply andb_true_iff in Hok as [Hj _].
      rewrite (skip_encode d) by done. edestruct encode_head as (a & s & -> & _ & Ha & _); [done|]. eauto. }
    subst body. rewrite (scan_elements_encode d); [done|done|done|done| |lia]. cbn in Hf |- *. lia.
  - intros d fs Hfs Hok f n t Hf Hn _.
    assert (Forall (λ f, reads_back d (snd f)) fs) as Hfs'.
    { rewrite list.Forall_forall in Hfs |- *. intros m Hm. apply (proj2 (Hfs m Hm)).
      unfold nested in Hok. cbn [shaped] in Hok. rewrite forallb_elem in Hok.
      by apply Hok, andb_true_iff in Hm as [_ ?]. }
    destruct fs as [|m fs]; [by destruct f as [|f]; [lia|]; cbn -[Z.ltb];
      destruct (Z.ltb_spec maxNestingDepth (n + 1)); [lia|]|].
    change (encode (JObject (m :: fs))) with ("{" +:+ join "," (map encode_member (m :: fs)) +:+ "}") in Hf |- *.
    rewrite <- !str_app_assoc in Hf |- *. rewrite str_length_app in Hf.
    destruct f as [|f]; [lia|]. cbn [scan_value].
    set (body := join "," (map encode_member (m :: fs)) +:+ ("}" +:+ t)) in *.
    change (skip_space ("{" +:+ body)) with (String.String "{" body). cbv beta iota.
    change (Ascii.eqb "{" "{") with true. cbv iota.
    destruct (Z.ltb_spec maxNestingDepth (n + 1)); [lia|].
    assert (∃ s, skip_space body = String.String (ascii_of_N 34) s) as (s & ->).
    { subst body. cbn [map]. rewrite join_cons, <- str_app_assoc, encode_member_app, json_string_app.
      eexists. reflexivity. }
    change (Ascii.eqb (ascii_of_N 34) "}") with false. cbv iota.
    subst body. rewrite (scan_members_encode d); [done|done|done| |lia]. cbn in Hf |- *. lia.
Qed.

(** An encoded document is read back. *)
Lemma next_value_seen d j t : nested d j = true → (Z.of_nat d <= maxNestingDepth)%Z → ends_number t = true →
  next_value (encode j +:+ t) = Some (seen_value j, t).
Proof. intros Hj Hd. apply (scan_encode d j Hj); lia. Qed.
Lemma next_value_encode d j t : textual d j = true → (Z.of_nat d <= maxNestingDepth)%Z → ends_number t = true →
  next_value (encode j +:+ t) = Some (to_value j, t).
Proof.
  intros Hj Hd Ht. rewrite <- (textual_seen d j Hj). apply (next_value_seen d); [|done|done].
  by apply textual_nested.
Qed.

(** ** Validity of the text *)

Lemma ValidString_app s t : ValidString s = true → ValidString (s +:+ t) = ValidString t.
Proof.
  intros Hs%ValidString_wf. induction Hs as [|a s Ha Hs IH|a b s Ha Hn Hs IH|a b c s Ha Hn Hs IH|a b c d s Ha Hn Hs IH];
    [done|rewrite !str_app_cons; cbn [ValidString]..].
  - unfold rune_size. by rewrite Ha.
  - by rewrite Hn.
  - by rewrite Hn.
  - by rewrite Hn.
Qed.

Lemma ValidString_escape a : byte_in 0 0x7F a = true → ValidString (escape_ascii a) = true.
Proof. destruct a as [[] [] [] [] [] [] [] []]; intros Ha; try discriminate Ha; reflexivity. Qed.

Lemma ValidString_chars s : ValidString (json_chars s) = true.
Proof.
  text_cases s; [done|cbn [json_chars]; rewrite Ha; try rewrite Hn..].
  - by rewrite ValidString_app by (by apply ValidString_escape).
  - cbn [ValidString]. by rewrite Hn.
  - destruct (is_line_separator a b c) eqn:El.
    + unfold is_line_separator, byte_in in El. go_bool. destruct El as [_ [Hc Hc']].
      apply N.leb_le in Hc, Hc'. assert (N_of_ascii c = 0xA8 ∨ N_of_ascii c = 0xA9)%N as [-> | ->]; [lia|exact IH..].
    + change ((one a +:+ one b +:+ one c) +:+ json_chars s) with
        (String.String a (String.String b (String.String c (json_chars s)))).
      cbn [ValidString]. by rewrite Hn.
  - change (one a +:+ one b +:+ one c +:+ one d +:+ json_chars s) with
      (String.String a (String.String b (String.String c (String.String d (json_chars s))))).
    cbn [ValidString]. by rewrite Hn.
  - exact IH.
Qed.

Lemma ValidString_json s : ValidString (json_string s) = true.
Proof.
  unfold json_string. rewrite ValidString_app by done.
  by rewrite ValidString_app by apply ValidString_chars.
Qed.

(** The text of a number is ASCII. *)
Lemma ValidString_digits u : all_digits u = true → ValidString u = true.
Proof.
  induction u as [|a u IH]; [done|]. unfold all_digits in *. cbn [all_bytes]. intros [Ha Hu]%andb_true_iff.
  change (String.String a u) with (one a +:+ u). rewrite ValidString_app; [by apply IH|].
  by destruct a as [[] [] [] [] [] [] [] []].
Qed.
Lemma ValidString_pretty (n : Z) : ValidString (pretty n) = true.
Proof.
  assert (∀ x : N, ValidString (pretty x) = true) as HN.
  { intros x. destruct (pretty_N_text x) as (a & u & -> & Ha & Hu & _). apply ValidString_digits.
    cbn. by rewrite Ha. }
  destruct n as [|p|p]; [done|exact (HN (N.pos p))|].
  change (pretty (Z.neg p)) with ("-" +:+ pretty (N.pos p)). by rewrite ValidString_app.
Qed.

Lemma ValidString_join l : Forall (λ s, ValidString s = true) l → ValidString (join "," l) = true.
Proof.
  induction 1 as [|s l Hs Hl IH]; [done|]. rewrite join_cons, ValidString_app by done.
  destruct l; [done|]. exact IH.
Qed.

Lemma ValidString_encode d j : nested d j = true → ValidString (encode j) = true.
Proof.
  revert d j. apply (shaped_ind false (λ _ j, ValidString (encode j) = true)); [done|by intros _ []|..].
  - intros _ n. apply ValidString_pretty.
  - intros _ s _. apply ValidString_json.
  - intros _ l Hl. cbn [encode]. rewrite ValidString_app by done.
    rewrite ValidString_app; [done|]. by apply ValidString_join, list.Forall_fmap.
  - intros _ fs Hfs. change (encode (JObject fs)) with ("{" +:+ join "," (map encode_member fs) +:+ "}").
    rewrite ValidString_app by done. rewrite ValidString_app; [done|].
    apply ValidString_join, list.Forall_fmap. eapply list.Forall_impl; [exact Hfs|]. intros f [_ Hf].
    unfold compose, encode_member. by rewrite ValidString_app by apply ValidString_json.
Qed.

(** ** The scan for surrogate escapes *)

Lemma ue_escape a t : byte_in 0 0x7F a = true → ue true (escape_ascii a +:+ t) = ue true t.
Proof.
  destruct a as [[] [] [] [] [] [] [] []]; intros Ha; try discriminate Ha;
    match goal with
    | |- context [escape_ascii ?a] =>
        let e := eval vm_compute in (escape_ascii a) in change (escape_ascii a) with e
    end; rewrite ?str_app_cons, str_app_nil, ue_cons; reflexivity.
Qed.

(** The bytes of a longer character. *)
Lemma ue_wide a s : byte_in 0 0x7F a = false → ue true (String.String a s) = ue true (snd (literal_char a s)).
Proof.
  intros Ha. rewrite ue_inside by done. destruct (literal_char a s) as [t r] eqn:E.
  by apply literal_char_scan in E.
Qed.

Lemma ue_chars s t : ue true (json_chars s +:+ String.String (ascii_of_N 34) t) = ue false t.
Proof.
  text_cases s; [cbn [json_chars]; rewrite str_app_nil, ue_cons; done|cbn [json_chars]; rewrite Ha; try rewrite Hn..].
  - by rewrite <- str_app_assoc, ue_escape.
  - rewrite !str_app_cons, ue_wide by done. unfold literal_char. by rewrite Hn.
  - destruct (is_line_separator a b c) eqn:El.
    + unfold is_line_separator, byte_in in El. go_bool. destruct El as [_ [Hc Hc']].
      apply N.leb_le in Hc, Hc'. rewrite <- IH.
      assert (N_of_ascii c = 0xA8 ∨ N_of_ascii c = 0xA9)%N as [-> | ->]; [lia|..];
        unfold one; rewrite !str_app_cons, !str_app_nil, ue_cons; reflexivity.
    + change ((one a +:+ one b +:+ one c) +:+ json_chars s) with
        (String.String a (String.String b (String.String c (json_chars s)))).
      rewrite !str_app_cons, ue_wide by done. unfold literal_char. by rewrite Hn.
  - change (one a +:+ one b +:+ one c +:+ one d +:+ json_chars s) with
      (String.String a (String.String b (String.String c (String.String d (json_chars s))))).
    rewrite !str_app_cons, ue_wide by done. unfold literal_char. by rewrite Hn.
  - rewrite <- IH, <- str_app_assoc. unfold one. rewrite !str_app_cons, !str_app_nil, ue_cons. reflexivity.
Qed.

Lemma ue_json s t : ue false (json_string s +:+ t) = ue false t.
Proof.
  rewrite json_string_app.
  change (quote_byte +:+ ?u) with (String.String (ascii_of_N 34) u).
  rewrite ue_open. apply ue_chars.
Qed.

(** A text with balanced quotes and paired escapes is transparent to the scan. *)
Definition transparent (s : string) : Prop := ∀ t, ue false (s +:+ t) = ue false t.

Lemma transparent_join l : Forall transparent l → transparent (join "," l).
Proof.
  induction 1 as [|s l Hs Hl IH]; intros t; [done|]. rewrite join_cons, <- str_app_assoc, Hs.
  destruct l; [done|]. rewrite <- str_app_assoc, (prefix_scan ",") by done. apply IH.
Qed.

Lemma transparent_digits u : all_digits u = true → transparent u.
Proof.
  induction u as [|a u IH]; [done|]. unfold all_digits in *. cbn [all_bytes]. intros [Ha Hu]%andb_true_iff t.
  change (String.String a u) with (one a +:+ u). rewrite <- str_app_assoc, prefix_scan; [by apply IH|].
  by destruct a as [[] [] [] [] [] [] [] []].
Qed.
Lemma transparent_pretty (n : Z) : transparent (pretty n).
Proof.
  assert (∀ x : N, transparent (pretty x)) as HN.
  { intros x. destruct (pretty_N_text x) as (a & u & -> & Ha & Hu & _). apply transparent_digits.
    cbn. by rewrite Ha. }
  destruct n as [|p|p]; [exact (HN 0%N)|exact (HN (N.pos p))|]. intros t.
  change (pretty (Z.neg p)) with ("-" +:+ pretty (N.pos p)).
  rewrite <- str_app_assoc, (prefix_scan "-") by done. apply HN.
Qed.

Lemma transparent_encode d j : nested d j = true → transparent (encode j).
Proof.
  revert d j. apply (shaped_ind false (λ _ j, transparent (encode j))).
  - intros _ t. by apply (prefix_scan "null").
  - intros _ [] t; [by apply (prefix_scan "true")|by apply (prefix_scan "false")].
  - intros _ n. apply transparent_pretty.
  - intros _ s _ t. apply ue_json.
  - intros _ l Hl t. cbn [encode]. rewrite <- !str_app_assoc, (prefix_scan "[") by done.
    rewrite transparent_join by (by apply list.Forall_fmap). by apply (prefix_scan "]").
  - intros _ fs Hfs t.
    change (encode (JObject fs)) with ("{" +:+ join "," (map encode_member fs) +:+ "}").
    rewrite <- !str_app_assoc, (prefix_scan "{") by done.
    rewrite transparent_join; [by apply (prefix_scan "}")|]. apply list.Forall_fmap.
    eapply list.Forall_impl; [exact Hfs|]. intros f [_ Hf] u. unfold compose.
    rewrite encode_member_app, ue_json, (prefix_scan ":") by done. apply Hf.
Qed.

Lemma ValidUnicodeEscapes_encode d j t : nested d j = true →
  ValidUnicodeEscapes (encode j +:+ t) = ValidUnicodeEscapes t.
Proof. intros Hj. by apply (transparent_encode d j). Qed.
