(* ===== verification/GoBase64.v ===== *)
(** * [encoding/base64]

    [base64.RawURLEncoding] (unpadded, URL alphabet): [EncodeToString], and [DecodeString] of its
    [Strict] variant, which refuses non-zero trailing bits and skips line breaks.  Decoding inverts
    encoding, and a decoded text is, up to line breaks, the encoding of its bytes. *)

From Stdlib Require Import Ascii.
From S2P Require Import Prelude Regex GoUrl.

(** The alphabet: the character of a sextet, and back. *)
Definition sextet_char (n : N) : ascii :=
  if (n <? 26)%N then ascii_of_N (65 + n)
  else if (n <? 52)%N then ascii_of_N (71 + n)
  else if (n <? 62)%N then ascii_of_N (n - 4)
  else if (n =? 62)%N then "-"%char else "_"%char.

Definition char_sextet (a : ascii) : option N :=
  if upper a then Some (N_of_ascii a - 65)%N
  else if lower a then Some (N_of_ascii a - 71)%N
  else if digit a then Some (N_of_ascii a + 4)%N
  else if Ascii.eqb a "-" then Some 62%N
  else if Ascii.eqb a "_" then Some 63%N
  else None.

(** [RawURLEncoding.EncodeToString]. *)
Fixpoint EncodeToString (s : string) : string :=
  match s with
  | String.EmptyString => ""
  | String.String a String.EmptyString =>
      let x := N_of_ascii a in
      String.String (sextet_char (x / 4)) (String.String (sextet_char (x mod 4 * 16)) "")
  | String.String a (String.String b String.EmptyString) =>
      let '(x, y) := (N_of_ascii a, N_of_ascii b) in
      String.String (sextet_char (x / 4)) (String.String (sextet_char (x mod 4 * 16 + y / 16))
        (String.String (sextet_char (y mod 16 * 4)) ""))
  | String.String a (String.String b (String.String c s')) =>
      let '(x, y, z) := (N_of_ascii a, N_of_ascii b, N_of_ascii c) in
      String.String (sextet_char (x / 4)) (String.String (sextet_char (x mod 4 * 16 + y / 16))
        (String.String (sextet_char (y mod 16 * 4 + z / 64))
          (String.String (sextet_char (z mod 64)) (EncodeToString s'))))
  end.

Definition line_break (a : ascii) : bool := Ascii.eqb a (ascii_of_N 10) || Ascii.eqb a (ascii_of_N 13).
Fixpoint drop_breaks (s : string) : string :=
  match s with
  | String.EmptyString => ""
  | String.String a s' => if line_break a then drop_breaks s' else String.String a (drop_breaks s')
  end.

(** The quanta of a text without line breaks: four characters each, the last one two or three. *)
Fixpoint decode_quanta (s : string) : option string :=
  match s with
  | String.EmptyString => Some ""
  | String.String a (String.String b s2) =>
      match char_sextet a, char_sextet b with
      | Some w, Some x =>
          match s2 with
          | String.EmptyString =>
              if (x mod 16 =? 0)%N
              then Some (String.String (ascii_of_N (w * 4 + x / 16)) "") else None
          | String.String c s3 =>
              match char_sextet c with
              | Some y =>
                  match s3 with
                  | String.EmptyString =>
                      if (y mod 4 =? 0)%N
                      then Some (String.String (ascii_of_N (w * 4 + x / 16))
                             (String.String (ascii_of_N (x mod 16 * 16 + y / 4)) ""))
                      else None
                  | String.String d s4 =>
                      match char_sextet d, decode_quanta s4 with
                      | Some z, Some rest =>
                          Some (String.String (ascii_of_N (w * 4 + x / 16))
                            (String.String (ascii_of_N (x mod 16 * 16 + y / 4))
                              (String.String (ascii_of_N (y mod 4 * 64 + z)) rest)))
                      | _, _ => None
                      end
                  end
              | None => None
              end
          end
      | _, _ => None
      end
  | String.String _ String.EmptyString => None
  end.

(** [RawURLEncoding.Strict().DecodeString]; [None] is a [CorruptInputError]. *)
Definition DecodeString (s : string) : option string := decode_quanta (drop_breaks s).

(** ** The two alphabets agree *)

Lemma sextet_char_sextet n : (n < 64)%N → char_sextet (sextet_char n) = Some n.
Proof.
  intros Hn.
  assert (forallb (λ m, bool_decide (char_sextet (sextet_char m) = Some m)) (map N.of_nat (seq 0 64)) = true)
    as Hall by (vm_compute; reflexivity).
  rewrite forallb_elem in Hall. eapply bool_decide_eq_true, Hall.
  apply list_elem_of_In, in_map_iff. exists (N.to_nat n). rewrite in_seq. lia.
Qed.

Lemma char_sextet_char a n : char_sextet a = Some n → sextet_char n = a ∧ (n < 64)%N.
Proof. destruct a as [[] [] [] [] [] [] [] []]; intros [= <-]; split; reflexivity. Qed.

Lemma sextet_char_break n : (n < 64)%N → line_break (sextet_char n) = false.
Proof.
  intros Hn%sextet_char_sextet. destruct (sextet_char n) as [[] [] [] [] [] [] [] []]; done.
Qed.

(** ** Round trips *)

(** The arithmetic of sextets and bytes. *)
Ltac sextets := zify; Z.to_euclidean_division_equations; lia.

Lemma break_free_encode s : drop_breaks (EncodeToString s) = EncodeToString s.
Proof.
  induction s as [s IH] using (induction_ltof1 _ String.length). unfold ltof in IH.
  destruct s as [|a [|b [|c s]]]; [done|..];
    pose proof (N_ascii_bounded a); try pose proof (N_ascii_bounded b);
    try pose proof (N_ascii_bounded c); cbn [EncodeToString drop_breaks];
    rewrite !sextet_char_break by sextets; [done..|].
  rewrite IH; [done|cbn; lia].
Qed.

Lemma byte_of (a : ascii) n : n = N_of_ascii a → ascii_of_N n = a.
Proof. intros ->. apply ascii_N_embedding. Qed.

Lemma decode_encode s : DecodeString (EncodeToString s) = Some s.
Proof.
  unfold DecodeString. rewrite break_free_encode.
  induction s as [s IH] using (induction_ltof1 _ String.length). unfold ltof in IH.
  destruct s as [|a [|b [|c s]]]; [done|..];
    pose proof (N_ascii_bounded a); try pose proof (N_ascii_bounded b);
    try pose proof (N_ascii_bounded c); cbn [EncodeToString decode_quanta];
    rewrite !sextet_char_sextet by sextets.
  - rewrite (proj2 (N.eqb_eq _ _)) by sextets.
    do 2 f_equal. apply byte_of. sextets.
  - rewrite (proj2 (N.eqb_eq _ _)) by sextets.
    rewrite (byte_of a), (byte_of b); [done|sextets..].
  - rewrite (byte_of a), (byte_of b), (byte_of c), IH; [done|cbn; lia|sextets..].
Qed.

Lemma N_of_byte n : (n < 256)%N → N_of_ascii (ascii_of_N n) = n.
Proof. apply N_ascii_embedding. Qed.

Lemma sextet_cons n m s t :
  n = m → s = t → String.String (sextet_char n) s = String.String (sextet_char m) t.
Proof. by intros -> ->. Qed.

Lemma encode_quanta t : ∀ s, decode_quanta t = Some s → EncodeToString s = t.
Proof.
  induction t as [t IH] using (induction_ltof1 _ String.length). unfold ltof in IH. intros s.
  destruct t as [|a [|b t]]; cbn [decode_quanta]; [by intros [= <-]|done|].
  destruct (char_sextet a) as [w|] eqn:Ea; [|done]. destruct (char_sextet b) as [x|] eqn:Eb; [|done].
  apply char_sextet_char in Ea as [<- Hw], Eb as [<- Hx].
  destruct t as [|c t].
  { destruct (N.eqb_spec (x mod 16) 0) as [Hz|]; [|done]. intros [= <-]. cbn [EncodeToString].
    rewrite !N_of_byte by sextets. repeat (apply sextet_cons; [sextets|]). done. }
  destruct (char_sextet c) as [y|] eqn:Ec; [|done]. apply char_sextet_char in Ec as [<- Hy].
  destruct t as [|d t].
  { destruct (N.eqb_spec (y mod 4) 0) as [Hz|]; [|done]. intros [= <-]. cbn [EncodeToString].
    rewrite !N_of_byte by sextets. repeat (apply sextet_cons; [sextets|]). done. }
  destruct (char_sextet d) as [z|] eqn:Ed; [|done]. apply char_sextet_char in Ed as [<- Hz].
  destruct (decode_quanta t) as [u|] eqn:Et; [|done]. apply IH in Et; [|cbn; lia].
  intros [= <-]. cbn [EncodeToString]. rewrite !N_of_byte by sextets.
  repeat (apply sextet_cons; [sextets|]). done.
Qed.

(** A decoded text is the encoding of its bytes, up to line breaks. *)
Lemma encode_decode t s : DecodeString t = Some s → drop_breaks t = EncodeToString s.
Proof. by intros <-%encode_quanta. Qed.

(** The length of an encoding: four characters for three bytes. *)
Lemma encode_length s : (3 * slen (EncodeToString s) <= 4 * slen s + 2)%Z.
Proof.
  unfold slen. induction s as [s IH] using (induction_ltof1 _ String.length). unfold ltof in IH.
  destruct s as [|a [|b [|c s]]]; cbn [EncodeToString String.length]; try lia.
  specialize (IH s ltac:(cbn; lia)). lia.
Qed.
