(* ===== verification/GoQuery.v ===== *)
(** * [net/url]: query strings

    [url.ParseQuery] and the accessors of [url.Values], with the encoder a client uses to write a
    query.  A map of value lists is a [gmap]; on an error the callers ignore the map, so the result is
    an option.  What the encoder writes, the parser reads. *)

From Stdlib Require Import Ascii.
From S2P Require Import Prelude Regex GoJson GoStrings GoUrl.

Definition Values : Type := gmap string (list string).

Definition Get (values : Values) (name : string) : string :=
  match values !! name with Some (v :: _) => v | _ => "" end.
Definition Has (values : Values) (name : string) : bool := non_nil (values !! name).

(** [QueryUnescape]; [None] is an [EscapeError]. *)
Fixpoint QueryUnescape (s : string) : option string :=
  match s with
  | String.EmptyString => Some ""
  | String.String a s1 =>
      if Ascii.eqb a "%" then
        match s1 with
        | String.String b (String.String c s3) =>
            match unhex b, unhex c with
            | Some x, Some y =>
                match QueryUnescape s3 with
                | Some t => Some (String.String (ascii_of_N (16 * x + y)) t)
                | None => None
                end
            | _, _ => None
            end
        | _ => None
        end
      else
        match QueryUnescape s1 with
        | Some t => Some (String.String (if Ascii.eqb a "+" then " " else a)%char t)
        | None => None
        end
  end.

(** The value of the [urlmaxqueryparams] setting. *)
Definition maxParams : Z := 10000.

(** One pair of a query: nothing for an empty one, an error for a malformed one. *)
Definition parse_pair (text : string) : option (option (string * string)) :=
  if has_byte ";" text then None
  else if text == "" then Some None
  else
    let '(key, value) := match cut_first "=" text with Some kv => kv | None => (text, "") end in
    match QueryUnescape key, QueryUnescape value with
    | Some k, Some v => Some (Some (k, v))
    | _, _ => None
    end.

Definition add_value (values : Values) (k v : string) : Values :=
  <[k := default [] (values !! k) ++ [v]]> values.

Fixpoint parse_pairs (pairs : list string) (values : Values) : option Values :=
  match pairs with
  | [] => Some values
  | text :: pairs' =>
      match parse_pair text with
      | None => None
      | Some None => parse_pairs pairs' values
      | Some (Some (k, v)) => parse_pairs pairs' (add_value values k v)
      end
  end.

(** [ParseQuery]; the pieces between ampersands, the empty ones included, are counted first. *)
Definition ParseQuery (query : string) : option Values :=
  let pairs := Split query "&" in
  if (maxParams <? len pairs)%Z then None else parse_pairs pairs ∅.

(** [QueryEscape]. *)
Definition unreserved (a : ascii) : bool := alnum a || one_of "-_.~" a.
Definition escape_byte (a : ascii) : string :=
  if unreserved a then one a
  else if Ascii.eqb a " " then "+"
  else String.String "%" (String.String (upper_hex (N_of_ascii a / 16))
         (one (upper_hex (N_of_ascii a mod 16)))).
Fixpoint QueryEscape (s : string) : string :=
  match s with
  | String.EmptyString => ""
  | String.String a s' => escape_byte a +:+ QueryEscape s'
  end.

(** [Values.Encode] for one value per key, the keys in order. *)
Definition encode_values (pairs : list (string * string)) : string :=
  join "&" (map (λ p, QueryEscape (fst p) +:+ "=" +:+ QueryEscape (snd p)) pairs).

(** ** What the encoder writes, the parser reads *)

Lemma escape_byte_read a t : QueryUnescape (escape_byte a +:+ t) =
  match QueryUnescape t with Some u => Some (String.String a u) | None => None end.
Proof. destruct a as [[] [] [] [] [] [] [] []]; reflexivity. Qed.

Lemma QueryUnescape_escape s : QueryUnescape (QueryEscape s) = Some s.
Proof. induction s as [|a s IH]; [done|]. cbn [QueryEscape]. by rewrite escape_byte_read, IH. Qed.

(** The bytes an escaped text is made of. *)
Definition query_byte (a : ascii) : bool := unreserved a || one_of "+%" a.

Lemma escape_byte_plain a : all_bytes query_byte (escape_byte a) = true.
Proof. destruct a as [[] [] [] [] [] [] [] []]; reflexivity. Qed.

Lemma QueryEscape_plain s : all_bytes query_byte (QueryEscape s) = true.
Proof.
  induction s as [|a s IH]; [done|]. cbn [QueryEscape].
  by rewrite all_bytes_app, escape_byte_plain, IH.
Qed.

Lemma cut_first_app sep s t : all_bytes query_byte s = true → query_byte sep = false →
  cut_first sep (s +:+ String.String sep t) = Some (s, t).
Proof.
  intros Hs Hsep. induction s as [|a s IH].
  - rewrite str_app_nil. cbn. by rewrite Ascii.eqb_refl.
  - cbn [all_bytes] in Hs. go_bool. destruct Hs as [Ha Hs]. rewrite str_app_cons. cbn [cut_first].
    destruct (Ascii.eqb_spec a sep) as [->|]; [congruence|]. by rewrite IH.
Qed.

Lemma cut_first_none sep s : all_bytes query_byte s = true → query_byte sep = false →
  cut_first sep s = None.
Proof.
  intros Hs Hsep. induction s as [|a s IH]; [done|].
  cbn [all_bytes] in Hs. go_bool. destruct Hs as [Ha Hs]. cbn [cut_first].
  destruct (Ascii.eqb_spec a sep) as [->|]; [congruence|]. by rewrite IH.
Qed.

Lemma query_string_plain s t : all_bytes query_byte s = true → all_bytes query_byte t = true →
  all_bytes (λ a, query_byte a || Ascii.eqb a "=") (s +:+ "=" +:+ t) = true.
Proof.
  intros Hs Ht. rewrite !all_bytes_app. cbn [all_bytes].
  assert (∀ u, all_bytes query_byte u = true →
            all_bytes (λ a, query_byte a || Ascii.eqb a "=") u = true) as Himp.
  { intros u. induction u as [|a u IH]; [done|]. cbn [all_bytes]. intros Hu. go_bool.
    destruct Hu as [Ha Hu]. split; [by left|by apply IH]. }
  by rewrite !Himp.
Qed.

Lemma parse_pair_encoded k v :
  parse_pair (QueryEscape k +:+ "=" +:+ QueryEscape v) = Some (Some (k, v)).
Proof.
  unfold parse_pair. change ("=" +:+ QueryEscape v) with (String.String "=" (QueryEscape v)).
  pose proof (QueryEscape_plain k) as Hk. pose proof (QueryEscape_plain v) as Hv.
  assert (has_byte ";" (QueryEscape k +:+ String.String "=" (QueryEscape v)) = false) as ->.
  { unfold has_byte. apply non_nil_false. generalize (QueryEscape k), Hk. clear k Hk. intros k Hk.
    induction k as [|a k IH].
    - rewrite str_app_nil. cbn [cut_first]. by rewrite cut_first_none.
    - cbn [all_bytes] in Hk. go_bool. destruct Hk as [Ha Hk]. rewrite str_app_cons. cbn [cut_first].
      destruct (Ascii.eqb_spec a ";") as [->|]; [done|]. by rewrite IH. }
  rewrite bool_decide_eq_false_2 by (destruct (QueryEscape k); done).
  rewrite cut_first_app by done. by rewrite !QueryUnescape_escape.
Qed.

(** Splitting undoes joining when no piece holds the separator. *)
Lemma split_byte_app sep s t cur : cut_first sep s = None →
  split_byte sep (s +:+ t) cur = split_byte sep t (cur +:+ s).
Proof.
  revert cur. induction s as [|a s IH]; intros cur; [by rewrite str_app_nil, str_app_nil_r|].
  cbn [cut_first]. destruct (Ascii.eqb a sep) eqn:E; [done|].
  destruct (cut_first sep s) as [[]|] eqn:Ec; [done|]. intros _. rewrite str_app_cons.
  cbn [split_byte]. rewrite E, IH by done. by rewrite <- str_app_assoc.
Qed.

Lemma Split_join sep l : l ≠ [] → Forall (λ s, cut_first sep s = None) l →
  Split (join (one sep) l) sep = l.
Proof.
  unfold Split. induction l as [|s l IH]; [done|]. intros _ [Hs Hl]%list.Forall_cons.
  destruct l as [|t l].
  - cbn [join]. rewrite <- (str_app_nil_r s) at 1. rewrite split_byte_app by done. done.
  - change (join (one sep) (s :: t :: l)) with (s +:+ String.String sep (join (one sep) (t :: l))).
    rewrite split_byte_app by done. cbn [split_byte]. rewrite Ascii.eqb_refl, IH by done. done.
Qed.

Lemma encoded_pair_plain (p : string * string) :
  cut_first "&" (QueryEscape (fst p) +:+ "=" +:+ QueryEscape (snd p)) = None.
Proof.
  pose proof (query_string_plain _ _ (QueryEscape_plain p.1) (QueryEscape_plain p.2)) as H.
  revert H. generalize (QueryEscape p.1 +:+ "=" +:+ QueryEscape p.2). intros s.
  induction s as [|a s IH]; [done|]. cbn [all_bytes cut_first]. intros H. go_bool.
  destruct H as [Ha Hs]. destruct (Ascii.eqb_spec a "&") as [->|]; [by destruct Ha|]. by rewrite IH.
Qed.

Lemma parse_pairs_encoded pairs values :
  parse_pairs (map (λ p, QueryEscape (fst p) +:+ "=" +:+ QueryEscape (snd p)) pairs) values =
  Some (foldl (λ vs p, add_value vs (fst p) (snd p)) values pairs).
Proof.
  revert values. induction pairs as [|[k v] pairs IH]; intros values; [done|].
  cbn [map parse_pairs fst snd]. rewrite parse_pair_encoded. apply IH.
Qed.

(** A query of a few parameters is read as it was written. *)
Lemma ParseQuery_encoded pairs : pairs ≠ [] → (len pairs <= maxParams)%Z →
  ParseQuery (encode_values pairs) = Some (foldl (λ vs p, add_value vs (fst p) (snd p)) ∅ pairs).
Proof.
  intros Hne Hlen. unfold ParseQuery, encode_values. change "&"%string with (one "&").
  rewrite Split_join.
  - unfold len in *. rewrite length_map. destruct (Z.ltb_spec maxParams (Z.of_nat (length pairs))); [lia|].
    apply parse_pairs_encoded.
  - by destruct pairs.
  - apply list.Forall_forall. intros s (p & <- & _)%list_elem_of_In%in_map_iff.
    apply encoded_pair_plain.
Qed.
