(* ===== verification/Discovery.v ===== *)
(** * The registry's public endpoints

    [internal/registry/discovery.go], [schema.go] and the inventory endpoints of [handler.go]: the
    release gate, the paged inventory with its portable continuation, the exact lookup, the bundled
    schemas, the legacy inventory and the interface configuration.  Response headers and the write of
    the buffered body are not modelled. *)

From Stdlib Require Import Ascii.
From stdpp Require Import pretty.
From S2P Require Import Prelude Kube Api Regex GoJson GoStrings GoUrl GoJsonRead GoBase64 GoQuery.
From S2P Require Import Config Descriptor Lineage.

Definition maxCursorBytes : Z := 16384.
Definition maxNativeCursorBytes : Z := 8192.
Definition discoveryVersion : string := "data-product-discovery/v1".

Record discoveryPage := mkPage {
  Page_APIVersion : string;
  Products : list string;
  Continue : string;
  Rejected : Z
}.
Record discoveryQuery := mkQuery {
  Query_Namespace : string;
  Query_Limit : Z;
  Query_Token : string
}.
#[export] Instance discoveryQuery_eq_dec : EqDecision discoveryQuery.
Proof. solve_decision. Defined.

(** [json.Marshal] of a query and of a page.  A product is a [json.RawMessage] that [json.Marshal]
    produced before, so compacting and escaping it again changes nothing. *)
Definition query_json (q : discoveryQuery) : json :=
  JObject (field "namespace" (JString (Query_Namespace q)) ++ field "limit" (JInt (Query_Limit q)) ++
           field "token" (JString (Query_Token q))).
Definition page_json (p : discoveryPage) : string :=
  "{" +:+ join "," [json_string "apiVersion" +:+ ":" +:+ json_string (Page_APIVersion p);
                    json_string "products" +:+ ":[" +:+ join "," (Products p) +:+ "]";
                    json_string "continue" +:+ ":" +:+ json_string (Continue p);
                    json_string "rejected" +:+ ":" +:+ pretty (Rejected p)] +:+ "}".

(** ** Reading a query *)

(** One member of a cursor, with [DisallowUnknownFields]; a null leaves the field as it was. *)
Definition query_member (q : discoveryQuery) (member : string * jvalue) : option discoveryQuery :=
  let '(key, v) := member in
  match field_named ["namespace"; "limit"; "token"]%string key with
  | None => None
  | Some f =>
      match v with
      | DNull => Some q
      | DString s =>
          if f == "namespace" then Some (mkQuery s (Query_Limit q) (Query_Token q))
          else if f == "token" then Some (mkQuery (Query_Namespace q) (Query_Limit q) s)
          else None
      | DNumber text =>
          if f == "limit" then
            match Atoi text with
            | Some n => Some (mkQuery (Query_Namespace q) n (Query_Token q))
            | None => None
            end
          else None
      | _ => None
      end
  end.

Fixpoint query_members (q : discoveryQuery) (members : list (string * jvalue))
  : option discoveryQuery :=
  match members with
  | [] => Some q
  | m :: members' =>
      match query_member q m with Some q' => query_members q' members' | None => None end
  end.

(** [decoder.Decode(&saved)], then the check that nothing but the end of the stream follows. *)
Definition decode_query (data : string) : option discoveryQuery :=
  match next_value data with
  | Some (v, rest) =>
      let saved :=
        match v with
        | DNull => Some (mkQuery "" 0 "")
        | DObject members => query_members (mkQuery "" 0 "") members
        | _ => None
        end in
      if at_eof rest then saved else None
  | None => None
  end.

(** The continuation of a page: [base64.RawURLEncoding.EncodeToString] of the query that follows. *)
Definition cursor_of (q : discoveryQuery) : string := EncodeToString (encode (query_json q)).

(** The token of a continuation that belongs to a query, or an error. *)
Definition read_cursor (query : discoveryQuery) (cursor : string) : option string :=
  if (maxCursorBytes <? slen cursor)%Z then None
  else match DecodeString cursor with
  | None => None
  | Some data =>
      match decode_query data with
      | None => None
      | Some saved =>
          if (Query_Namespace saved != Query_Namespace query) ||
             (Query_Limit saved != Query_Limit query) || (Query_Token saved == "") ||
             (maxNativeCursorBytes <? slen (Query_Token saved))%Z then None
          else if encode (query_json saved) != data then None
          else Some (Query_Token saved)
      end
  end.

(** The page size: 50 unless the query states one in canonical decimal form. *)
Definition read_limit (values : Values) : option Z :=
  if Has values "limit" then
    let limit := Get values "limit" in
    match Atoi limit with
    | Some n => if (n <? 1)%Z || (100 <? n)%Z || (pretty n != limit) then None else Some n
    | None => None
    end
  else Some 50%Z.

Definition known_parameter (name : string) : bool :=
  (name == "namespace") || (name == "limit") || (name == "continue").

Section Discovery.
Context `{E : Env} `{C : ConditionApi} `{N : NameValidation}.

(** [parseDiscoveryQuery]; its only caller does not tell one error from another. *)
Definition parseDiscoveryQuery (raw : string) : option discoveryQuery :=
  if (maxCursorBytes + 512 <? slen raw)%Z then None
  else match ParseQuery raw with
  | None => None
  | Some values =>
      if negb (forallb (λ nv, (len (snd nv) =? 1)%Z && known_parameter (fst nv)) (map_to_list values))
      then None
      else
        let namespace := Get values "namespace" in
        if (namespace != "") && negb (validPublicLabel namespace) then None
        else match read_limit values with
        | None => None
        | Some limit =>
            let query := mkQuery namespace limit "" in
            let cursor := Get values "continue" in
            if cursor == "" then Some query
            else match read_cursor query cursor with
            | Some token => Some (mkQuery namespace limit token)
            | None => None
            end
        end
  end.

(** ** Failures *)

(** The classes of errors [readFailure] tells apart: [errors.Is] for the two context errors, and the
    predicates of [k8s.io/apimachinery/pkg/api/errors]. *)
Class ReadErrors := {
  IsCanceled : error → bool;
  IsDeadlineExceeded : error → bool;
  IsTimeout : error → bool;
  IsServerTimeout : error → bool;
  IsResourceExpired : error → bool;
  IsGone : error → bool;
  IsBadRequest : error → bool
}.
Context `{RE : ReadErrors}.

Definition readFailure (err : error) : Response :=
  if IsCanceled err then
    Failure 408 "request-canceled" "The inventory request was canceled."
  else if IsDeadlineExceeded err || IsTimeout err || IsServerTimeout err then
    Failure 504 "deadline-exceeded" "The inventory read exceeded its deadline."
  else if IsResourceExpired err || IsGone err then
    Failure 410 "continuation-expired" "The inventory snapshot expired. Restart from the first page."
  else if IsNotFound err then
    Failure 404 "product-not-found" "The selected product is no longer available."
  else if IsBadRequest err then
    Failure 400 "invalid-continuation"
      "The inventory reader rejected the continuation. Restart from the first page."
  else
    Failure 503 "backend-unavailable" "The product inventory is temporarily unavailable.".

Definition descriptorFailure (err : descriptorError) : Response :=
  match err with
  | errDescriptorTooLarge =>
      Failure 413 "descriptor-too-large"
        "Published metadata exceeds the discovery bounds. Reduce the page size or the product metadata."
  | errInvalidMetadata =>
      Failure 422 "invalid-descriptor"
        "Published metadata does not satisfy the portable descriptor contract."
  end.

(** [discoveryAllowed]: the response that ends the request, or [None] when it is allowed. *)
Definition discoveryAllowed (s : server) (ctx : Ctx) (r : Request) : ST World (option Response) :=
  on ← flag_on (discoveryEnabled s) ctx;
  if negb on then mret (Some NotFound)
  else if (ContentLength r != 0%Z) || (len (TransferEncoding r) != 0%Z) then
    mret (Some (Failure 400 "invalid-request" "Discovery requests do not accept a body."))
  else mret None.

(** ** The paged inventory *)

(** [client.Reader.List] in a namespace, with a limit and a continuation. *)
Definition InventoryReader : Type :=
  Ctx → string → Z → string → ST World (list DataProduct * string + error).

Definition backend_page (text : string) : Response := Failure 502 "invalid-backend-page" text.

(** The loop over the items: the descriptors so far, how many were rejected and the bytes retained. *)
Fixpoint page_items (namespace : string) (items : list DataProduct) (products : list string)
    (rejected retained : Z) : list string * Z + Response :=
  match items with
  | [] => inl (products, rejected)
  | product :: items' =>
      if (namespace != "") && (Namespace (Meta product) != namespace) then
        inr (backend_page "The inventory reader did not honor the requested namespace.")
      else match encodePortableDescriptor product with
      | inr _ => page_items namespace items' products (rejected + 1) retained
      | inl data =>
          let retained := (retained + slen data)%Z in
          if (maxDiscoveryResponseBytes <? retained)%Z
          then inr (descriptorFailure errDescriptorTooLarge)
          else page_items namespace items' (products ++ [data]) rejected retained
      end
  end.

(** The page made of one native page and its continuation [next]. *)
Definition discovery_page (query : discoveryQuery) (items : list DataProduct) (next : string)
  : discoveryPage + Response :=
  if (Query_Limit query <? len items)%Z || (maxNativeCursorBytes <? slen next)%Z then
    inr (backend_page "The inventory reader did not honor the requested page bounds.")
  else match page_items (Query_Namespace query) items [] 0 0 with
  | inr failure => inr failure
  | inl (products, rejected) =>
      if next == "" then inl (mkPage discoveryVersion products "" rejected)
      else
        let cursor := cursor_of (mkQuery (Query_Namespace query) (Query_Limit query) next) in
        if (maxCursorBytes <? slen cursor)%Z then
          inr (backend_page "The inventory continuation exceeds the public cursor bound.")
        else inl (mkPage discoveryVersion products cursor rejected)
  end.

(** The answer to a page: buffered, and refused beyond the response bound. *)
Definition page_response (page : discoveryPage + Response) : Response :=
  match page with
  | inr failure => failure
  | inl page =>
      let data := page_json page in
      if (maxDiscoveryResponseBytes <? slen data)%Z
      then descriptorFailure errDescriptorTooLarge else Success data
  end.

Definition discoveryProducts (s : server) (inventory : InventoryReader) (ctx : Ctx) (r : Request)
  : ST World Response :=
  refused ← discoveryAllowed s ctx r;
  match refused with
  | Some response => mret response
  | None =>
      match parseDiscoveryQuery (Request_RawQuery r) with
      | None =>
          mret (Failure 400 "invalid-query"
            "Use one limit from 1 to 100, an optional namespace, and the unchanged continuation.")
      | Some query =>
          ctx' ← WithTimeout ctx (5 * Second);
          listed ← inventory ctx' (Query_Namespace query) (Query_Limit query) (Query_Token query);
          match listed with
          | inr err => mret (readFailure err)
          | inl (items, next) =>
              err ← Err ctx';
              match err with
              | Some err => mret (readFailure err)
              | None => mret (page_response (discovery_page query items next))
              end
          end
      end
  end.

(** ** The exact lookup *)

(** The answer for a product that was read. *)
Definition product_response (key : ObjectKey) (product : DataProduct) : Response :=
  if (Namespace (Meta product) != key_Namespace key) || (Name (Meta product) != key_Name key) then
    Failure 502 "invalid-backend-product" "The inventory reader returned another product."
  else match encodePortableDescriptor product with
  | inr err => descriptorFailure err
  | inl data => Success data
  end.

Definition invalid_reference : Response :=
  Failure 400 "invalid-product-reference"
    "Use an exact Kubernetes namespace and product name without query parameters.".

Definition discoveryProduct (s : server) (ctx : Ctx) (r : Request) : ST World Response :=
  refused ← discoveryAllowed s ctx r;
  match refused with
  | Some response => mret response
  | None =>
      let key := mkKey (PathNamespace r) (PathName r) in
      if negb (validPublicLabel (key_Namespace key)) || negb (validProductName (key_Name key)) ||
         (Request_RawQuery r != "")
      then mret invalid_reference
      else
        ctx' ← WithTimeout ctx (5 * Second);
        got ← reader s ctx' key;
        match got with
        | inr err => mret (readFailure err)
        | inl product =>
            err ← Err ctx';
            match err with
            | Some err => mret (readFailure err)
            | None => mret (product_response key product)
            end
        end
  end.

(** ** Bundled schemas *)

(** [discoverySchema]; the embedded files are an argument. *)
Definition invalid_schema : Response :=
  Failure 400 "invalid-schema" "Select descriptor, discovery or lineage schema.".

(** The schema a query selects, or an error. *)
Definition schema_name (raw : string) : option string :=
  match ParseQuery raw with
  | None => None
  | Some values =>
      let types := default [] (values !! "type") in
      if (1 <? Z.of_nat (size values))%Z || (1 <? len types)%Z then None
      else
        let name := Get values "type" in
        let name := if (name == "") && (Z.of_nat (size values) == 0%Z) then "descriptor" else name in
        if (name != "descriptor") && (name != "discovery") && (name != "lineage") then None
        else Some name
  end.

Definition discoverySchema (s : server) (files : string → string + error) (ctx : Ctx) (r : Request)
  : ST World Response :=
  refused ← discoveryAllowed s ctx r;
  match refused with
  | Some response => mret response
  | None =>
      match schema_name (Request_RawQuery r) with
      | None => mret invalid_schema
      | Some name =>
          let serve (path : string) : Response :=
            match files path with inl data => Success data | inr err => readFailure err end in
          if name == "descriptor" then mret (serve "schema/descriptor-v1.json")
          else if name == "discovery" then mret (serve "schema/discovery-v1.json")
          else
            available ← lineageAvailable s ctx;
            if negb available then mret NotFound else mret (serve "schema/lineage-v1.json")
      end
  end.

(** ** The legacy inventory and the interface configuration *)

(** [http.Error] answers plain text. *)
Inductive legacyResponse :=
  | PlainError (status : Z) (text : string)
  | Answer (r : Response).

Definition productCollection_json (products : list DataProduct) : json :=
  JObject (field "products"
    (JArray (map (λ p, JObject (product_fields (descriptorFor p))) products))).

(** The sort key of [listProducts]. *)
Definition inventory_key (p : DataProduct) : string :=
  Namespace (Meta p) +:+ "/" +:+ Name (Meta p).

Definition collection_too_large (text : string) : Response := Failure 413 "collection-too-large" text.

Definition listProducts (inventory : InventoryReader) (ctx : Ctx) : ST World legacyResponse :=
  ctx' ← WithTimeout ctx (5 * Second);
  listed ← inventory ctx' "" 100%Z "";
  match listed with
  | inr _ => mret (PlainError 500 "Unable to read data products.")
  | inl (items, next) =>
      err ← Err ctx';
      if non_nil err then mret (PlainError 500 "Unable to read data products.")
      else if (100 <? len items)%Z || (next != "") then
        mret (Answer (collection_too_large
          "The legacy inventory is too large. Use paged discovery when enabled."))
      else
        let data := encode (productCollection_json (sort_slice (less_by inventory_key) items)) in
        if (maxDiscoveryResponseBytes <? slen data)%Z then
          mret (Answer (collection_too_large "The legacy inventory exceeds the response bound."))
        else mret (Answer (Success data))
  end.

(** [uiConfig]; the body ends with the line break of [json.Encoder]. *)
Definition uiConfig (s : server) (ctx : Ctx) : ST World string :=
  discovery ← flag_on (discoveryEnabled s) ctx;
  lineage ← lineageAvailable s ctx;
  mret (encode (JObject (field "uiContractEnabled" (JBool false) ++
                         field "uiAppearanceEnabled" (JBool false) ++
                         field "discoveryEnabled" (JBool discovery) ++
                         field "lineageEnabled" (JBool lineage))) +:+ one (ascii_of_N 10)).
End Discovery.
