(* ===== verification/DiscoverySpec.v ===== *)
(** * What the registry's public endpoints promise

    A continuation reads back as the query it was issued for, a client that follows continuations
    obtains the whole inventory, and every outcome of a lookup has its own public failure. *)

From Stdlib Require Import Ascii.
From stdpp Require Import pretty.
From S2P Require Import Prelude Kube Api Regex GoJson GoStrings GoUrl GoJsonRead GoJsonSpec GoBase64 GoQuery.
From S2P Require Import Config Descriptor Lineage Discovery Reference.

(** ** A query reads back *)

(** A query the registry writes into a cursor. *)
Definition issued (q : discoveryQuery) : Prop :=
  ValidString (Query_Namespace q) = true ∧ (1 <= Query_Limit q <= 100)%Z ∧
  ValidString (Query_Token q) = true ∧ Query_Token q ≠ "" ∧
  (slen (Query_Token q) <= maxNativeCursorBytes)%Z.

Lemma query_text q : encode (query_json q) =
  "{" +:+ (json_string "namespace" +:+ (":" +:+ (json_string (Query_Namespace q) +:+ ("," +:+
    (json_string "limit" +:+ (":" +:+ (pretty (Query_Limit q) +:+ ("," +:+
    (json_string "token" +:+ (":" +:+ (json_string (Query_Token q) +:+ "}"))))))))))).
Proof. unfold query_json, field. cbn [encode map join fst snd app]. by rewrite <- !str_app_assoc. Qed.

Lemma textual_query q : issued q → textual 1 (query_json q) = true.
Proof. intros (Hn & _ & Ht & _). cbn. by rewrite Hn, Ht. Qed.

Lemma limit_text n : (1 <= n <= 100)%Z → Atoi (pretty n) = Some n.
Proof. intros Hn. apply Atoi_pretty. lia. Qed.

Lemma decode_issued q : issued q → decode_query (encode (query_json q)) = Some q.
Proof.
  intros Hq. unfold decode_query. rewrite <- (str_app_nil_r (encode (query_json q))).
  rewrite (next_value_encode 1) by first [done|by apply textual_query|vm_compute; discriminate].
  destruct q as [ns l t], Hq as (_ & Hl & _). cbn in *. by rewrite limit_text.
Qed.

(** The continuation of an issued query is within its bound and reads back as its token. *)
Lemma read_issued q base : issued q → (slen (cursor_of q) <= maxCursorBytes)%Z →
  Query_Namespace base = Query_Namespace q → Query_Limit base = Query_Limit q →
  read_cursor base (cursor_of q) = Some (Query_Token q).
Proof.
  intros Hq Hlen Hns Hl. unfold read_cursor. destruct (Z.ltb_spec maxCursorBytes (slen (cursor_of q))); [lia|].
  unfold cursor_of at 1. rewrite decode_encode, decode_issued by done.
  destruct Hq as (_ & _ & _ & Ht & Hb).
  rewrite Hns, Hl, (bool_decide_eq_false_2 (Query_Token q = "")), !bool_decide_eq_true_2 by done.
  destruct (Z.ltb_spec maxNativeCursorBytes (slen (Query_Token q))); [lia|]. done.
Qed.

(** ** The request for the next page *)

(** The page sizes a query may state. *)
Lemma page_size_cases (P : Z → Prop) :
  (∀ n, n ∈ seqZ 1 100 → P n) → ∀ n, (1 <= n <= 100)%Z → P n.
Proof. intros H n Hn. apply H, elem_of_seqZ. lia. Qed.

(** What a client sends: the unchanged namespace, page size and continuation, encoded as
    [url.Values.Encode] does. *)
Definition next_request (namespace : string) (limit : Z) (cursor : string) : string :=
  encode_values [("continue", cursor); ("limit", pretty limit); ("namespace", namespace)]%string.

Lemma unreserved_escape s : all_bytes unreserved s = true → QueryEscape s = s.
Proof.
  induction s as [|a s IH]; [done|]. cbn [all_bytes QueryEscape]. intros H. go_bool.
  destruct H as [Ha Hs]. unfold escape_byte. rewrite Ha, IH by done. done.
Qed.

Lemma sextet_unreserved n : (n < 64)%N → unreserved (sextet_char n) = true.
Proof.
  intros Hn%sextet_char_sextet. destruct (sextet_char n) as [[] [] [] [] [] [] [] []]; done.
Qed.

Lemma encode_unreserved s : all_bytes unreserved (EncodeToString s) = true.
Proof.
  induction s as [s IH] using (induction_ltof1 _ String.length). unfold ltof in IH.
  destruct s as [|a [|b [|c s]]]; [done|..];
    pose proof (N_ascii_bounded a); try pose proof (N_ascii_bounded b);
    try pose proof (N_ascii_bounded c); cbn [EncodeToString all_bytes];
    rewrite !sextet_unreserved by sextets; [done..|]. apply IH. cbn. lia.
Qed.

Lemma QueryEscape_length s : (slen (QueryEscape s) <= 3 * slen s)%Z.
Proof.
  induction s as [|a s IH]; [done|]. cbn [QueryEscape]. rewrite slen_app.
  assert (slen (escape_byte a) <= 3)%Z.
  { unfold escape_byte. destruct (unreserved a); [done|]. by destruct (Ascii.eqb a " "). }
  unfold slen in *. cbn [String.length]. lia.
Qed.

Lemma pretty_limit_length n : (1 <= n <= 100)%Z → (slen (pretty n) <= 3)%Z.
Proof.
  revert n. apply page_size_cases. intros n Hn.
  assert (forallb (λ m, (slen (pretty m) <=? 3)%Z) (seqZ 1 100) = true) as Hall
    by (vm_compute; reflexivity).
  rewrite forallb_elem in Hall. specialize (Hall n Hn). by apply Z.leb_le in Hall.
Qed.

Lemma next_request_length namespace limit cursor : (1 <= limit <= 100)%Z →
  all_bytes unreserved cursor = true → (slen cursor <= maxCursorBytes)%Z → (slen namespace <= 63)%Z →
  (slen (next_request namespace limit cursor) <= maxCursorBytes + 512)%Z.
Proof.
  intros Hl Hc Hlen Hn. unfold next_request, encode_values. cbn [map join fst snd].
  rewrite !slen_app, (unreserved_escape cursor) by done.
  pose proof (QueryEscape_length (pretty limit)). pose proof (pretty_limit_length limit Hl).
  pose proof (QueryEscape_length namespace).
  assert (slen (QueryEscape "continue") = 8 ∧ slen (QueryEscape "limit") = 5 ∧
          slen (QueryEscape "namespace") = 9 ∧ slen "=" = 1 ∧ slen "&" = 1)%Z as (-> & -> & -> & -> & ->)
    by done.
  lia.
Qed.

(** The parameters a request states. *)
Definition request_values (namespace : string) (limit : Z) (cursor : string) : Values :=
  <["namespace" := [namespace]]> (<["limit" := [pretty limit]]> {["continue" := [cursor]]}).

Lemma next_request_values namespace limit cursor :
  ParseQuery (next_request namespace limit cursor) = Some (request_values namespace limit cursor).
Proof.
  unfold next_request. rewrite ParseQuery_encoded by done. reflexivity.
Qed.

Section Parse.
Context `{E : Env} `{C : ConditionApi} `{N : NameValidation}.

Lemma known_request namespace limit cursor :
  forallb (λ nv, (len (snd nv) =? 1)%Z && known_parameter (fst nv))
    (map_to_list (request_values namespace limit cursor)) = true.
Proof.
  rewrite forallb_elem. intros [k v] Hkv%elem_of_map_to_list. cbn [fst snd]. revert Hkv.
  unfold request_values. rewrite !lookup_insert_Some, lookup_singleton_Some.
  intros [[<- <-]|[_ [[<- <-]|[_ [<- <-]]]]]; done.
Qed.

Lemma parse_next namespace limit cursor :
  (namespace = "" ∨ validPublicLabel namespace = true) → (slen namespace <= 63)%Z →
  (1 <= limit <= 100)%Z → cursor ≠ "" → all_bytes unreserved cursor = true →
  (slen cursor <= maxCursorBytes)%Z →
  parseDiscoveryQuery (next_request namespace limit cursor) =
  match read_cursor (mkQuery namespace limit "") cursor with
  | Some token => Some (mkQuery namespace limit token)
  | None => None
  end.
Proof.
  intros Hns Hnl Hl Hc Hu Hlen. unfold parseDiscoveryQuery.
  rewrite (proj2 (Z.ltb_ge _ _)) by (by apply next_request_length).
  rewrite next_request_values, known_request. cbn [negb].
  assert (Get (request_values namespace limit cursor) "namespace" = namespace) as ->.
  { reflexivity. }
  assert (Get (request_values namespace limit cursor) "continue" = cursor) as ->.
  { reflexivity. }
  assert (read_limit (request_values namespace limit cursor) = Some limit) as ->.
  { assert (request_values namespace limit cursor !! "limit" = Some [pretty limit]) as Hlim
      by reflexivity.
    unfold read_limit, Has, Get. rewrite Hlim. cbn [non_nil].
    rewrite limit_text, bool_decide_eq_true_2 by done.
    rewrite (proj2 (Z.ltb_ge _ _)), (proj2 (Z.ltb_ge _ _)) by lia. done. }
  rewrite (bool_decide_eq_false_2 (cursor = "")) by done.
  destruct Hns as [->|Hv]; [done|]. rewrite Hv, andb_false_r. done.
Qed.
End Parse.

(** ** Issued continuations *)

Section Continuation.
Context `{E : Env} `{C : ConditionApi} `{N : NameValidation}.

(** The documentation of [IsDNS1123Label]: at most 63 lower-case letters, digits and hyphens. *)
Definition label_byte (a : ascii) : bool := lower a || digit a || Ascii.eqb a "-".
Definition documented_labels : Prop :=
  ∀ s, IsDNS1123Label s = [] → (slen s <= 63)%Z ∧ all_bytes label_byte s = true.

Lemma ascii_valid (f : ascii → bool) s : (∀ a, f a = true → byte_in 0 0x7F a = true) →
  all_bytes f s = true → ValidString s = true.
Proof.
  intros Hf. induction s as [|a s IH]; [done|]. cbn [all_bytes ValidString]. intros H. go_bool.
  destruct H as [Ha Hs]. unfold rune_size. rewrite (Hf a Ha). by apply IH.
Qed.

Lemma label_byte_ascii a : label_byte a = true → byte_in 0 0x7F a = true.
Proof. destruct a as [[] [] [] [] [] [] [] []]; done. Qed.
Lemma unreserved_ascii a : unreserved a = true → byte_in 0 0x7F a = true.
Proof. destruct a as [[] [] [] [] [] [] [] []]; done. Qed.

Lemma read_limit_range values n : read_limit values = Some n → (1 <= n <= 100)%Z.
Proof.
  unfold read_limit. destruct (Has values "limit"); [|intros [= <-]; lia].
  destruct (Atoi _) as [m|]; [|done].
  destruct (Z.ltb_spec m 1), (Z.ltb_spec 100 m); cbn; try done.
  destruct (bool_decide _); cbn; [|done]. intros [= <-]. lia.
Qed.

(** What an accepted query is. *)
Lemma parse_accepted raw q : parseDiscoveryQuery raw = Some q →
  (Query_Namespace q = "" ∨ validPublicLabel (Query_Namespace q) = true) ∧
  (1 <= Query_Limit q <= 100)%Z.
Proof.
  unfold parseDiscoveryQuery. destruct (_ <? _)%Z; [done|].
  destruct (ParseQuery raw) as [values|]; [|done]. destruct (negb (forallb _ _)); [done|].
  destruct (bool_decide_reflect (Get values "namespace" = "")) as [Hn|Hn]; cbn [negb andb].
  - destruct (read_limit values) as [n|] eqn:Hl; [apply read_limit_range in Hl|done].
    destruct (_ == _); [intros [= <-]; cbn; auto|]. destruct (read_cursor _ _); [|done].
    intros [= <-]. cbn. auto.
  - destruct (validPublicLabel _) eqn:Hv; [|done].
    destruct (read_limit values) as [n|] eqn:Hl; [apply read_limit_range in Hl|done].
    cbn [negb]. destruct (_ == _); [intros [= <-]; cbn; auto|]. destruct (read_cursor _ _); [|done].
    intros [= <-]. cbn. auto.
Qed.

(** The page's continuation is the cursor of the query that follows. *)
Lemma page_continue q items next page : discovery_page q items next = inl page →
  (slen next <= maxNativeCursorBytes)%Z ∧
  (next = "" → Continue page = "") ∧
  (next ≠ "" → Continue page = cursor_of (mkQuery (Query_Namespace q) (Query_Limit q) next) ∧
               (slen (Continue page) <= maxCursorBytes)%Z).
Proof.
  unfold discovery_page. destruct (_ || _) eqn:Hb; [done|]. go_bool. destruct Hb as [_ Hb].
  destruct (page_items _ _ _ _ _) as [[products rejected]|]; [|done].
  destruct (bool_decide_reflect (next = "")) as [->|Hn].
  - intros [= <-]. by split_and!.
  - destruct (Z.ltb_spec maxCursorBytes (slen (cursor_of (mkQuery (Query_Namespace q) (Query_Limit q) next))));
      [done|]. intros [= <-]. split_and!; [done|done|]. intros _. cbn [Continue]. by split.
Qed.

Lemma accepted_issued raw q next : documented_labels → parseDiscoveryQuery raw = Some q →
  next ≠ "" → ValidString next = true → (slen next <= maxNativeCursorBytes)%Z →
  issued (mkQuery (Query_Namespace q) (Query_Limit q) next) ∧ (slen (Query_Namespace q) <= 63)%Z.
Proof.
  intros HN [Hns Hl]%parse_accepted Hne Hv Hb.
  assert (ValidString (Query_Namespace q) = true ∧ (slen (Query_Namespace q) <= 63)%Z) as [Hnv Hnl].
  { destruct Hns as [->|Hns]; [done|]. unfold validPublicLabel in Hns.
    destruct (HN (Query_Namespace q)) as [Hlen Hall].
    { destruct (IsDNS1123Label _); [done|discriminate Hns]. }
    split; [|done]. by apply (ascii_valid label_byte); [apply label_byte_ascii|]. }
  by split.
Qed.

Lemma cursor_not_empty q : cursor_of q ≠ "".
Proof. unfold cursor_of. rewrite query_text. intros H. apply (f_equal DecodeString) in H.
  rewrite decode_encode in H. done.
Qed.

(** C34.  A continuation reads back.  The continuation of a served page, sent with the namespace and
    page size of its request, is accepted as exactly the query that asks the native inventory for the
    next page; and any request that carries it is refused unless it states the same namespace and
    page size, whatever else it contains. *)
Theorem continuation_roundtrip raw q items next page :
  documented_labels → parseDiscoveryQuery raw = Some q →
  discovery_page q items next = inl page → next ≠ "" → ValidString next = true →
  parseDiscoveryQuery (next_request (Query_Namespace q) (Query_Limit q) (Continue page)) =
    Some (mkQuery (Query_Namespace q) (Query_Limit q) next) ∧
  (∀ raw' values q', ParseQuery raw' = Some values → Get values "continue" = Continue page →
     parseDiscoveryQuery raw' = Some q' →
     q' = mkQuery (Query_Namespace q) (Query_Limit q) next).
Proof.
  intros HN Hq Hp Hne Hv. apply page_continue in Hp as (Hb & _ & Hc).
  destruct (Hc Hne) as [Hcur Hlen]. rewrite Hcur in *.
  destruct (accepted_issued raw q next HN Hq Hne Hv Hb) as [Hi Hnl].
  destruct (parse_accepted _ _ Hq) as [Hns Hl]. pose proof (cursor_not_empty) as Hce.
  split.
  - rewrite parse_next by (done || apply encode_unreserved). by rewrite (read_issued _ _ Hi).
  - intros raw' values q' Hraw' Hget. unfold parseDiscoveryQuery. rewrite Hraw', Hget.
    destruct (_ <? _)%Z; [done|]. destruct (negb (forallb _ _)); [done|]. destruct (_ && _); [done|].
    destruct (read_limit values) as [n|]; [|done]. rewrite bool_decide_eq_false_2 by done.
    unfold read_cursor. destruct (_ <? _)%Z; [done|].
    unfold cursor_of at 1. rewrite decode_encode, (decode_issued _ Hi).
    cbn [Query_Namespace Query_Limit Query_Token].
    destruct (_ || _) eqn:Ho; [done|]. go_bool. destruct Ho as [[[-> ->] _] _].
    destruct (negb _); [done|]. by intros [= <-].
Qed.
End Continuation.

(** ** The whole inventory, page by page *)

Section Crawl.
Context `{E : Env} `{C : ConditionApi} `{N : NameValidation} `{RE : !ReadErrors}.

(** The descriptors a page of products publishes. *)
Definition published (items : list DataProduct) : list string :=
  omap (λ p, match encodePortableDescriptor p with inl d => Some d | inr _ => None end) items.

Lemma descriptor_bound p d : encodePortableDescriptor p = inl d → (slen d <= maxDescriptorBytes)%Z.
Proof.
  unfold encodePortableDescriptor. destruct (negb _); [done|]. destruct (negb _); [done|].
  destruct (Z.ltb_spec maxDescriptorBytes (slen (encode (descriptor_json (portableDescriptorFor p)))));
    [done|]. by intros [= <-].
Qed.

(** The loop publishes every valid product in order and counts the others. *)
Lemma page_items_spec namespace items : ∀ products rejected retained,
  Forall (λ p, namespace = "" ∨ Namespace (Meta p) = namespace) items →
  (retained + maxDescriptorBytes * len items <= maxDiscoveryResponseBytes)%Z →
  page_items namespace items products rejected retained =
  inl (products ++ published items, (rejected + (len items - len (published items)))%Z).
Proof.
  induction items as [|p items IH]; intros products rejected retained Hns Hb.
  - cbn [page_items]. rewrite app_nil_r. do 2 f_equal. unfold len. cbn. lia.
  - apply list.Forall_cons in Hns as [Hp Hns]. cbn [page_items].
    assert ((namespace != "") && (Namespace (Meta p) != namespace) = false) as ->.
    { destruct Hp as [->| ->]; go_bool; auto. }
    assert (len (p :: items) = 1 + len items)%Z as Hlen by (unfold len; cbn; lia).
    rewrite Hlen in *. assert (0 <= maxDescriptorBytes)%Z by done.
    change (published (p :: items)) with
      (match (match encodePortableDescriptor p with inl d => Some d | inr _ => None end) with
       | Some d => d :: published items | None => published items end).
    destruct (encodePortableDescriptor p) as [d|e] eqn:Ep.
    + apply descriptor_bound in Ep.
      assert (len (d :: published items) = 1 + len (published items))%Z as -> by (unfold len; cbn; lia).
      assert (0 <= len items)%Z by (unfold len; lia).
      rewrite (proj2 (Z.ltb_ge _ _)) by nia. rewrite IH by (done || nia).
      rewrite <- app_assoc. do 2 f_equal. lia.
    + rewrite IH by (done || nia). do 2 f_equal. lia.
Qed.

Lemma html_safe_chars s : all_bytes html_safe s = true → json_chars s = s.
Proof.
  induction s as [|a s IH]; [done|]. cbn [all_bytes json_chars]. intros H. go_bool.
  destruct H as [Ha Hs]. assert (byte_in 0 0x7F a = true) as ->.
  { destruct a as [[] [] [] [] [] [] [] []]; done. }
  unfold escape_ascii. by rewrite Ha, IH.
Qed.

Lemma json_string_plain s : all_bytes html_safe s = true → slen (json_string s) = (slen s + 2)%Z.
Proof.
  intros Hs. unfold json_string. rewrite (html_safe_chars s Hs), !slen_app.
  change (slen quote_byte) with 1%Z. lia.
Qed.

Lemma unreserved_safe a : unreserved a = true → html_safe a = true.
Proof. destruct a as [[] [] [] [] [] [] [] []]; done. Qed.
Lemma label_safe a : label_byte a = true → html_safe a = true.
Proof. destruct a as [[] [] [] [] [] [] [] []]; done. Qed.

(** A page of at most 31 descriptors is within the response bound. *)
Lemma join_comma_length (l : list string) (b : Z) : (0 <= b)%Z → Forall (λ s, slen s <= b)%Z l →
  (slen (join "," l) <= (b + 1) * len l)%Z.
Proof.
  intros Hb Hl. induction Hl as [|s l Hs Hl IH]; [unfold len, slen; cbn; lia|].
  assert (len (s :: l) = 1 + len l)%Z as -> by (unfold len; cbn; lia).
  destruct l as [|t l]; [cbn; unfold len; cbn; lia|].
  change (join "," (s :: t :: l)) with (s +:+ "," +:+ join "," (t :: l)).
  rewrite !slen_app. change (slen ",") with 1%Z. lia.
Qed.

Lemma published_bound items : Forall (λ d, slen d <= maxDescriptorBytes)%Z (published items).
Proof.
  apply list.Forall_forall. intros d (p & _ & Hd)%list_elem_of_omap.
  destruct (encodePortableDescriptor p) eqn:Ep; [|done]. injection Hd as ->.
  by apply descriptor_bound in Ep.
Qed.

Lemma page_length items : (len (published items) <= len items)%Z.
Proof.
  unfold len, published. induction items as [|p items IH]; [done|]. cbn.
  destruct (encodePortableDescriptor p); cbn; lia.
Qed.

Lemma page_json_length page :
  Page_APIVersion page = discoveryVersion → all_bytes html_safe (Continue page) = true →
  (slen (page_json page) =
   slen (join "," (Products page)) + slen (Continue page) + slen (pretty (Rejected page)) + 82)%Z.
Proof.
  intros Hv Hc. unfold page_json. cbn [join]. rewrite Hv, !slen_app, (json_string_plain _ Hc).
  assert (slen (json_string "apiVersion") = 12 ∧ slen (json_string discoveryVersion) = 27 ∧
          slen (json_string "products") = 10 ∧ slen (json_string "continue") = 10 ∧
          slen (json_string "rejected") = 10)%Z as (-> & -> & -> & -> & ->) by done.
  unfold slen. cbn [String.length]. lia.
Qed.

Lemma small_number_length n : (0 <= n <= 31)%Z → (slen (pretty n) <= 2)%Z.
Proof.
  intros Hn. assert (forallb (λ m, (slen (pretty m) <=? 2)%Z) (seqZ 0 32) = true) as Hall
    by (vm_compute; reflexivity).
  rewrite forallb_elem in Hall. apply Z.leb_le, Hall, elem_of_seqZ. lia.
Qed.

(** A cursor of plain text is within the public bound. *)
Lemma cursor_length q : all_bytes html_safe (Query_Namespace q) = true →
  (slen (Query_Namespace q) <= 63)%Z → (1 <= Query_Limit q <= 100)%Z →
  all_bytes html_safe (Query_Token q) = true → (slen (Query_Token q) <= maxNativeCursorBytes)%Z →
  (slen (cursor_of q) <= maxCursorBytes)%Z.
Proof.
  intros Hns Hnl Hl Ht Htl. pose proof (encode_length (encode (query_json q))) as Hc.
  pose proof (pretty_limit_length _ Hl).
  assert (slen (encode (query_json q)) <= 105 + slen (Query_Token q))%Z.
  { rewrite query_text, !slen_app, (json_string_plain _ Hns), (json_string_plain _ Ht).
    assert (slen (json_string "namespace") = 11 ∧ slen (json_string "limit") = 7 ∧
            slen (json_string "token") = 7 ∧ slen "{" = 1 ∧ slen "}" = 1 ∧ slen "," = 1 ∧
            slen ":" = 1)%Z as (-> & -> & -> & -> & -> & -> & ->) by done.
    lia. }
  unfold cursor_of, maxCursorBytes, maxNativeCursorBytes in *. lia.
Qed.

(** The page of a native page within the bounds. *)
Lemma page_served q items next : documented_labels →
  (Query_Namespace q = "" ∨ validPublicLabel (Query_Namespace q) = true) →
  (1 <= Query_Limit q <= 31)%Z → (len items <= Query_Limit q)%Z →
  Forall (λ p, Query_Namespace q = "" ∨ Namespace (Meta p) = Query_Namespace q) items →
  all_bytes unreserved next = true → (slen next <= maxNativeCursorBytes)%Z →
  ∃ page, discovery_page q items next = inl page ∧
    page_response (inl page) = Success (page_json page) ∧
    Products page = published items ∧
    Rejected page = (len items - len (published items))%Z.
Proof.
  intros HN Hns Hl Hlen Hin Hnext Hnl.
  assert (0 <= len items <= 31)%Z as Hlen' by (unfold len in *; lia).
  pose proof (page_length items) as Hpub. assert (0 <= len (published items))%Z by (unfold len; lia).
  set (cursor := if next == "" then "" else
                   cursor_of (mkQuery (Query_Namespace q) (Query_Limit q) next)).
  assert (all_bytes unreserved cursor = true ∧ (slen cursor <= maxCursorBytes)%Z) as [Hcu Hcl].
  { subst cursor. destruct (bool_decide_reflect (next = "")); [done|]. split; [apply encode_unreserved|].
    assert (all_bytes html_safe (Query_Namespace q) = true ∧ (slen (Query_Namespace q) <= 63)%Z) as [? ?].
    { destruct Hns as [->|Hns]; [done|]. unfold validPublicLabel in Hns.
      destruct (HN (Query_Namespace q)) as [Hn63 Hall]; [by destruct (IsDNS1123Label _)|].
      split; [|done]. by apply (all_bytes_impl label_byte); [apply label_safe|]. }
    apply cursor_length; cbn; try done; [lia|].
    by apply (all_bytes_impl unreserved); [apply unreserved_safe|]. }
  exists (mkPage discoveryVersion (published items) cursor (len items - len (published items))).
  split_and!; [| |done|done].
  - unfold discovery_page. rewrite (proj2 (Z.ltb_ge _ _)), (proj2 (Z.ltb_ge _ _)) by done. cbn [orb].
    rewrite page_items_spec by (done || (unfold maxDescriptorBytes, maxDiscoveryResponseBytes; lia)).
    rewrite app_nil_l, Z.add_0_l. subst cursor.
    destruct (bool_decide_reflect (next = "")); [done|]. cbn [negb] in *.
    by rewrite (proj2 (Z.ltb_ge _ _)).
  - unfold page_response. rewrite (proj2 (Z.ltb_ge _ _)); [done|].
    rewrite page_json_length; cbn [Page_APIVersion Products Continue Rejected]; [|done|].
    2: { by apply (all_bytes_impl unreserved); [apply unreserved_safe|]. }
    pose proof (join_comma_length (published items) maxDescriptorBytes ltac:(done) (published_bound _)).
    pose proof (small_number_length (len items - len (published items)) ltac:(lia)).
    unfold maxDescriptorBytes, maxCursorBytes, maxDiscoveryResponseBytes in *. nia.
Qed.

(** A native inventory that does not change: the items and the continuation it answers with. *)
Variable native : string → Z → string → list DataProduct * string.

(** The native pages of a namespace from a token on: each within the requested size and namespace, the
    tokens URL-safe text within their bound, the last page without one. *)
Inductive native_pages (namespace : string) (limit : Z) : string → list (list DataProduct) → Prop :=
  | native_last token items :
      native namespace limit token = (items, "") → (len items <= limit)%Z →
      Forall (λ p, namespace = "" ∨ Namespace (Meta p) = namespace) items →
      native_pages namespace limit token [items]
  | native_more token items next rest :
      native namespace limit token = (items, next) → (len items <= limit)%Z →
      Forall (λ p, namespace = "" ∨ Namespace (Meta p) = namespace) items →
      next ≠ "" → all_bytes unreserved next = true → (slen next <= maxNativeCursorBytes)%Z →
      native_pages namespace limit next rest →
      native_pages namespace limit token (items :: rest).

Variables (s : server) (inventory : InventoryReader) (ctx : Ctx).

(** A client: each answer is a page, and the next request carries its continuation unchanged. *)
Definition page_request (raw : string) : Request := mkRequest 0 [] raw "" "".
Inductive crawled (namespace : string) (limit : Z)
  : string → World → list discoveryPage → World → Prop :=
  | crawled_last raw w page w' :
      discoveryProducts s inventory ctx (page_request raw) w = (Success (page_json page), w') →
      Continue page = "" → crawled namespace limit raw w [page] w'
  | crawled_more raw w page w' pages w'' :
      discoveryProducts s inventory ctx (page_request raw) w = (Success (page_json page), w') →
      Continue page ≠ "" →
      crawled namespace limit (next_request namespace limit (Continue page)) w' pages w'' →
      crawled namespace limit raw w (page :: pages) w''.

(** The registry is enabled, no read exceeds its deadline, and the reader serves the inventory. *)
Definition steady : Prop :=
  (∀ w, fst (flag_on (discoveryEnabled s) ctx w) = true) ∧
  (∀ c w, fst (Err c w) = None) ∧
  (∀ c namespace limit token w,
     fst (inventory c namespace limit token w) = inl (native namespace limit token)).

Lemma steady_page raw q items next page w : steady → parseDiscoveryQuery raw = Some q →
  native (Query_Namespace q) (Query_Limit q) (Query_Token q) = (items, next) →
  discovery_page q items next = inl page → page_response (inl page) = Success (page_json page) →
  ∃ w', discoveryProducts s inventory ctx (page_request raw) w = (Success (page_json page), w').
Proof.
  intros (Hflag & Herr & Hinv) Hq Hnat Hpage Hresp.
  unfold discoveryProducts, discoveryAllowed, mbind, st_bind, mret, st_ret.
  cbn [page_request Request_RawQuery ContentLength TransferEncoding].
  specialize (Hflag w). destruct (flag_on (discoveryEnabled s) ctx w) as [on w1]. cbn in Hflag.
  subst on. cbn [negb]. change (len (@nil string)) with 0%Z. rewrite !bool_decide_eq_true_2 by done.
  cbn [negb orb]. rewrite Hq. destruct (WithTimeout ctx (5 * Second) w1) as [c w2].
  specialize (Hinv c (Query_Namespace q) (Query_Limit q) (Query_Token q) w2).
  destruct (inventory c _ _ _ w2) as [listed w3]. cbn in Hinv. rewrite Hnat in Hinv. subst listed.
  specialize (Herr c w3). destruct (Err c w3) as [err w4]. cbn in Herr. subst err.
  rewrite Hpage, Hresp. by exists w4.
Qed.

(** The inventory one page after the other, from any query that asks for its first page. *)
Lemma crawl_pages namespace limit token batches : documented_labels → steady →
  (1 <= limit <= 31)%Z → native_pages namespace limit token batches →
  ∀ raw w, parseDiscoveryQuery raw = Some (mkQuery namespace limit token) →
  ∃ pages w', crawled namespace limit raw w pages w' ∧
    Forall2 (λ page items, Products page = published items ∧
       (Rejected page + len (Products page) = len items)%Z) pages batches.
Proof.
  intros HN Hsteady Hl. induction 1 as [token items Hnat Hlen Hin|token items next rest Hnat Hlen Hin
    Hne Hu Hb _ IH]; intros raw w Hraw; destruct (parse_accepted _ _ Hraw) as [Hns Hlim].
  - destruct (page_served (mkQuery namespace limit token) items "" HN Hns Hl Hlen Hin eq_refl ltac:(done))
      as (page & Hp & Hr & Hprod & Hrej).
    destruct (steady_page raw _ items "" page w Hsteady Hraw Hnat Hp Hr) as (w' & Hrun).
    apply page_continue in Hp as (_ & Hc & _). exists [page], w'.
    split; [by apply crawled_last; auto|]. constructor; [|constructor]. split; [done|].
    rewrite Hrej, Hprod. lia.
  - destruct (page_served (mkQuery namespace limit token) items next HN Hns Hl Hlen Hin Hu Hb)
      as (page & Hp & Hr & Hprod & Hrej).
    destruct (steady_page raw _ items next page w Hsteady Hraw Hnat Hp Hr) as (w' & Hrun).
    assert (ValidString next = true) as Hv by (by apply (ascii_valid unreserved); [apply unreserved_ascii|]).
    destruct (accepted_issued raw _ next HN Hraw Hne Hv Hb) as [Hi Hnl]. cbn [Query_Namespace Query_Limit] in *.
    apply page_continue in Hp as (_ & _ & Hc). destruct (Hc Hne) as [Hcur Hcl]. cbn [Query_Namespace Query_Limit] in *.
    assert (Continue page ≠ "") as Hce by (rewrite Hcur; apply cursor_not_empty).
    destruct (IH (next_request namespace limit (Continue page)) w') as (pages & w'' & Hcrawl & Hall).
    { rewrite parse_next by (done || (rewrite Hcur; apply encode_unreserved)).
      rewrite Hcur in *. by rewrite (read_issued _ _ Hi). }
    exists (page :: pages), w''. split; [by eapply crawled_more|]. constructor; [|done].
    split; [done|]. rewrite Hrej, Hprod. lia.
Qed.
End Crawl.

(** C35.  A client obtains the whole inventory.  While discovery is enabled, no deadline expires and
    the native inventory does not change, a client that asks for pages of at most 31 products and
    sends each continuation back unchanged reaches a last page after as many requests as there are
    native pages; the descriptors it received are those of every valid product, each once and in
    inventory order, and the rejected products are counted.  No page is refused for its size. *)
Theorem crawl_complete `{E : Env} `{C : ConditionApi} `{N : NameValidation} `{RE : !ReadErrors}
    native s inventory ctx namespace limit batches raw w :
  documented_labels → steady native s inventory ctx → (1 <= limit <= 31)%Z →
  native_pages native namespace limit "" batches →
  parseDiscoveryQuery raw = Some (mkQuery namespace limit "") →
  ∃ pages w', crawled s inventory ctx namespace limit raw w pages w' ∧
    length pages = length batches ∧
    concat (map Products pages) = published (concat batches) ∧
    (foldr Z.add 0 (map Rejected pages) + len (concat (map Products pages)) = len (concat batches))%Z.
Proof.
  intros HN Hsteady Hl Hpages Hraw.
  destruct (crawl_pages native s inventory ctx namespace limit "" batches HN Hsteady Hl Hpages raw w Hraw)
    as (pages & w' & Hcrawl & Hall).
  exists pages, w'. split; [done|]. clear Hcrawl Hpages Hraw.
  induction Hall as [|page items pages batches [Hprod Hrej] Hall (IHl & IHp & IHr)]; [done|].
  cbn [length map concat foldr]. rewrite IHl. split_and!; [done| |].
  - unfold published in *. by rewrite omap_app, IHp, Hprod.
  - rewrite !len_app. lia.
Qed.

(** ** Failures *)

(** A failure of the closed list below, or no failure. *)
Ltac listed :=
  cbn; first [exact I | solve [repeat (first [by apply list_elem_of_here | apply list_elem_of_further])]].

Section Failures.
Context `{E : Env} `{C : ConditionApi} `{N : NameValidation} `{RE : !ReadErrors}.

(** Every failure the discovery endpoints answer with: status, code and text. *)
Definition public_failures : list (Z * string * string) :=
  map (λ r, match r with Failure status code text => (status, code, text) | _ => (0%Z, "", "") end)
    [Failure 400 "invalid-request" "Discovery requests do not accept a body.";
     Failure 400 "invalid-query"
       "Use one limit from 1 to 100, an optional namespace, and the unchanged continuation.";
     invalid_reference; invalid_schema;
     backend_page "The inventory reader did not honor the requested page bounds.";
     backend_page "The inventory reader did not honor the requested namespace.";
     backend_page "The inventory continuation exceeds the public cursor bound.";
     Failure 502 "invalid-backend-product" "The inventory reader returned another product.";
     descriptorFailure errDescriptorTooLarge; descriptorFailure errInvalidMetadata;
     Failure 408 "request-canceled" "The inventory request was canceled.";
     Failure 504 "deadline-exceeded" "The inventory read exceeded its deadline.";
     Failure 410 "continuation-expired"
       "The inventory snapshot expired. Restart from the first page.";
     Failure 404 "product-not-found" "The selected product is no longer available.";
     Failure 400 "invalid-continuation"
       "The inventory reader rejected the continuation. Restart from the first page.";
     Failure 503 "backend-unavailable" "The product inventory is temporarily unavailable."].

Definition public (r : Response) : Prop :=
  match r with
  | NotFound | Success _ => True
  | Failure status code text => (status, code, text) ∈ public_failures
  end.

Lemma readFailure_public err : public (readFailure err).
Proof. unfold readFailure. repeat case_match; listed. Qed.

Lemma descriptorFailure_public err : public (descriptorFailure err).
Proof. destruct err; listed. Qed.

Lemma page_items_public namespace items : ∀ products rejected retained failure,
  page_items namespace items products rejected retained = inr failure → public failure.
Proof.
  induction items as [|p items IH]; intros products rejected retained failure; [done|].
  cbn [page_items]. destruct (_ && _); [intros [= <-]; listed|].
  destruct (encodePortableDescriptor p) as [d|e]; [|apply IH].
  destruct (_ <? _)%Z; [intros [= <-]; listed|apply IH].
Qed.

Lemma page_response_public q items next : public (page_response (discovery_page q items next)).
Proof.
  unfold discovery_page, page_response. destruct (_ || _); [listed|].
  destruct (page_items _ _ _ _ _) as [[products rejected]|failure] eqn:Ep;
    [|by apply page_items_public in Ep].
  destruct (_ == _); [|destruct (_ <? _)%Z; [listed|]]; destruct (_ <? _)%Z; listed.
Qed.

Lemma product_response_public key product : public (product_response key product).
Proof.
  unfold product_response. destruct (_ || _); [listed|].
  destruct (encodePortableDescriptor product); [done|apply descriptorFailure_public].
Qed.

(** What a run of a handler answers, behind the release gate. *)
Definition gated (s : server) (ctx : Ctx) (w : World) (run : ST World Response) : Prop :=
  if fst (flag_on (discoveryEnabled s) ctx w) then public (fst (run w))
  else run w = (NotFound, snd (flag_on (discoveryEnabled s) ctx w)).

Lemma gated_handler s ctx r w (rest : ST World Response) :
  (∀ w', public (fst (rest w'))) →
  gated s ctx w (refused ← discoveryAllowed s ctx r;
                 match refused with Some response => mret response | None => rest end).
Proof.
  intros Hrest. unfold gated, discoveryAllowed, mbind, st_bind, mret, st_ret.
  destruct (flag_on (discoveryEnabled s) ctx w) as [[] w1]; cbn [fst snd negb]; [|done].
  destruct (_ || _); [listed|]. apply Hrest.
Qed.

Lemma listing_public (inventory : InventoryReader) ctx q w :
  public (fst ((ctx' ← WithTimeout ctx (5 * Second);
    listed ← inventory ctx' (Query_Namespace q) (Query_Limit q) (Query_Token q);
    match listed with
    | inr err => mret (readFailure err)
    | inl (items, next) =>
        err ← Err ctx';
        match err with
        | Some err => mret (readFailure err)
        | None => mret (page_response (discovery_page q items next))
        end
    end : ST World Response) w)).
Proof.
  unfold mbind, st_bind, mret, st_ret. destruct (WithTimeout ctx (5 * Second) w) as [c w1].
  destruct (inventory c _ _ _ w1) as [[[items next]|err] w2]; [|apply readFailure_public].
  destruct (Err c w2) as [[err|] w3]; [apply readFailure_public|apply page_response_public].
Qed.

Lemma lookup_public s ctx key w :
  public (fst ((ctx' ← WithTimeout ctx (5 * Second);
    got ← reader s ctx' key;
    match got with
    | inr err => mret (readFailure err)
    | inl product =>
        err ← Err ctx';
        match err with
        | Some err => mret (readFailure err)
        | None => mret (product_response key product)
        end
    end : ST World Response) w)).
Proof.
  unfold mbind, st_bind, mret, st_ret. destruct (WithTimeout ctx (5 * Second) w) as [c w1].
  destruct (reader s c key w1) as [[product|err] w2]; [|apply readFailure_public].
  destruct (Err c w2) as [[err|] w3]; [apply readFailure_public|apply product_response_public].
Qed.

Lemma serve_public (files : string → string + error) path :
  public (match files path with inl data => Success data | inr err => readFailure err end).
Proof. destruct (files path); [done|apply readFailure_public]. Qed.

(** A failure is no descriptor, and a descriptor is the product's own. *)
Lemma readFailure_fails err data : readFailure err ≠ Success data.
Proof. unfold readFailure. by repeat case_match. Qed.

Lemma product_response_own key product data : product_response key product = Success data →
  Namespace (Meta product) = key_Namespace key ∧ Name (Meta product) = key_Name key ∧
  encodePortableDescriptor product = inl data.
Proof.
  unfold product_response. destruct (_ || _) eqn:Ho; [done|]. go_bool. destruct Ho as [Hn Hm].
  destruct (encodePortableDescriptor product) as [d|[]]; [|done..]. by intros [= <-].
Qed.

Lemma lookup_own s ctx r w :
  match fst (discoveryProduct s ctx r w) with
  | Success data => ∃ product, Namespace (Meta product) = PathNamespace r ∧
      Name (Meta product) = PathName r ∧ encodePortableDescriptor product = inl data
  | _ => True
  end.
Proof.
  destruct (fst (discoveryProduct s ctx r w)) as [|status code text|data] eqn:Hrun; [done..|].
  revert Hrun. unfold discoveryProduct, discoveryAllowed, mbind, st_bind, mret, st_ret.
  destruct (flag_on (discoveryEnabled s) ctx w) as [[] w1]; cbn [fst snd negb]; [|done].
  destruct (_ || _); [done|]. destruct (_ || _); [done|].
  destruct (WithTimeout ctx (5 * Second) w1) as [c w2].
  destruct (reader s c _ w2) as [[product|err] w3]; [|intros H; by apply readFailure_fails in H].
  destruct (Err c w3) as [[err|] w4]; [intros H; by apply readFailure_fails in H|].
  intros Hown%product_response_own. by exists product.
Qed.
End Failures.

(** The gate and the failures are closed.  While discovery is off, the paged inventory, the exact
    lookup and the schemas answer [NotFound] and observe nothing but the flag, whatever the request.
    While it is on, every failure they answer with is one of sixteen public triples of status, code
    and text, so no text of a backend error or of a rejected descriptor reaches a client; and a
    successful lookup is the portable descriptor of exactly the product that was asked for. *)
Theorem discovery_failures_public `{E : Env} `{C : ConditionApi} `{N : NameValidation}
    `{RE : !ReadErrors} s inventory files ctx r w :
  gated s ctx w (discoveryProducts s inventory ctx r) ∧
  gated s ctx w (discoveryProduct s ctx r) ∧
  gated s ctx w (discoverySchema s files ctx r) ∧
  match fst (discoveryProduct s ctx r w) with
  | Success data => ∃ product, Namespace (Meta product) = PathNamespace r ∧
      Name (Meta product) = PathName r ∧ encodePortableDescriptor product = inl data
  | _ => True
  end.
Proof.
  split_and!.
  - apply gated_handler. intros w1. destruct (parseDiscoveryQuery _) as [q|]; [|listed].
    apply listing_public.
  - apply gated_handler. intros w1. cbn zeta. destruct (_ || _); [listed|]. apply lookup_public.
  - apply gated_handler. intros w1. destruct (schema_name _) as [name|]; [|listed].
    destruct (name == "descriptor"); [apply serve_public|].
    destruct (name == "discovery"); [apply serve_public|].
    unfold mbind, st_bind. destruct (lineageAvailable s ctx w1) as [[] w2]; [apply serve_public|done].
  - apply lookup_own.
Qed.

(** ** Witnesses *)

(** The length of the strings of a pattern. *)
Fixpoint longest (r : re) : option nat :=
  match r with
  | REmpty | REps => Some 0
  | RClass _ => Some 1
  | RCat r1 r2 =>
      match longest r1, longest r2 with Some m, Some n => Some (m + n) | _, _ => None end
  | RAlt r1 r2 =>
      match longest r1, longest r2 with Some m, Some n => Some (Nat.max m n) | _, _ => None end
  | RStar _ => None
  end.

Lemma longest_spec r t : Matches r t → ∀ n, longest r = Some n → String.length t <= n.
Proof.
  induction 1 as [|g a Hg|r1 r2 t1 t2 _ IH1 _ IH2|r1 r2 t _ IH|r1 r2 t _ IH|r|r a t1 t2 _ IH1 _ IH2];
    cbn [longest]; intros n; try (by intros [= <-]); try done.
  - destruct (longest r1), (longest r2); try done. intros [= <-]. rewrite str_length_app.
    specialize (IH1 _ eq_refl). specialize (IH2 _ eq_refl). lia.
  - destruct (longest r1), (longest r2); try done. intros [= <-]. specialize (IH _ eq_refl). lia.
  - destruct (longest r1), (longest r2); try done. intros [= <-]. specialize (IH _ eq_refl). lia.
Qed.

#[local] Existing Instances ref_env ref_conditions ref_names.

Lemma ref_labels : documented_labels.
Proof.
  intros t. cbn [IsDNS1123Label ref_names].
  destruct (MatchString dns_label t) eqn:Hm; [|done]. intros _.
  apply MatchString_spec in Hm. split.
  - apply longest_spec with (n := 63) in Hm; [|reflexivity]. unfold slen. lia.
  - apply (within_spec label_byte _ _ Hm).
    assert (∀ a, lower a || digit a = true → label_byte a = true) as Hedge.
    { intros a Ha. unfold label_byte. by rewrite Ha. }
    cbn [within dns_label ROpt]. split_and!; [done|done| |done].
    apply within_up_to. cbn. done.
Qed.

(** An inventory of two native pages. *)
Definition two_pages (namespace : string) (limit : Z) (token : string)
  : list DataProduct * string :=
  if token == "" then ([sample_users], "next") else ([sample_orders], "").
Definition two_page_reader : InventoryReader :=
  λ _ namespace limit token, mret (inl (two_pages namespace limit token)).
Definition discovery_server : server := mkServer ref_get flag_true None None.
Definition ref_read_errors : ReadErrors := {|
  IsCanceled := λ _, false; IsDeadlineExceeded := λ _, false; IsTimeout := λ _, false;
  IsServerTimeout := λ _, false; IsResourceExpired := λ _, false; IsGone := λ _, false;
  IsBadRequest := λ _, false |}.
#[local] Existing Instance ref_read_errors.

Lemma sample_query : parseDiscoveryQuery "namespace=shop&limit=1" = Some (mkQuery "shop" 1 "").
Proof. vm_compute. reflexivity. Qed.

Lemma sample_page : ∃ page,
  discovery_page (mkQuery "shop" 1 "") [sample_users] "next" = inl page.
Proof. eexists. vm_compute. reflexivity. Qed.

Lemma sample_native : native_pages two_pages "shop" 1 "" [[sample_users]; [sample_orders]].
Proof.
  apply (native_more _ _ _ _ _ "next"); try done; [by constructor; [right|]|].
  apply native_last; try done. by constructor; [right|].
Qed.

Lemma sample_steady : steady two_pages discovery_server two_page_reader tt.
Proof. by split_and!. Qed.

Lemma continuation_roundtrip_witness : ∃ page,
  discovery_page (mkQuery "shop" 1 "") [sample_users] "next" = inl page ∧
  parseDiscoveryQuery (next_request "shop" 1 (Continue page)) = Some (mkQuery "shop" 1 "next").
Proof.
  destruct sample_page as [page Hpage]. exists page. split; [exact Hpage|].
  exact (proj1 (continuation_roundtrip "namespace=shop&limit=1" (mkQuery "shop" 1 "") [sample_users]
    "next" page ref_labels sample_query Hpage ltac:(discriminate) eq_refl)).
Defined.

Lemma crawl_complete_witness : ∃ pages w',
  crawled discovery_server two_page_reader tt "shop" 1 "namespace=shop&limit=1" sample_world pages w' ∧
  length pages = 2 ∧ concat (map Products pages) = published [sample_users; sample_orders].
Proof.
  destruct (crawl_complete two_pages discovery_server two_page_reader tt "shop" 1
    [[sample_users]; [sample_orders]] "namespace=shop&limit=1" sample_world ref_labels sample_steady
    ltac:(lia) sample_native sample_query) as (pages & w' & Hcrawl & Hlen & Hprod & _).
  exists pages, w'. exact (conj Hcrawl (conj Hlen Hprod)).
Defined.
