(* ===== verification/GoMime.v ===== *)
(** * [mime.ParseMediaType]

    The media type of a header and whether the header is well formed: a malformed or contradictory
    parameter is an error.  The value of a parameter may be put together from continuations and from
    percent-encoded parts.  Lower-casing is
    exact on ASCII and on the two runes whose lower case is an ASCII letter; any other rune makes the
    header malformed in either case. *)

From Stdlib Require Import Ascii.
From stdpp Require Import pretty.
From S2P Require Import Prelude Regex GoJson GoStrings GoUrl.

(** The length of a [unicode.IsSpace] rune at the start of a string, 0 if there is none. *)
Definition space_size (s : string) : nat :=
  match s with
  | String.String a s1 =>
      let n := N_of_ascii a in
      if ((9 <=? n) && (n <=? 13) || (n =? 32))%N then 1
      else match s1 with
      | String.String b s2 =>
          let m := N_of_ascii b in
          if ((n =? 0xC2) && ((m =? 0x85) || (m =? 0xA0)))%N then 2
          else match s2 with
          | String.String c _ =>
              let l := N_of_ascii c in
              if ((n =? 0xE1) && (m =? 0x9A) && (l =? 0x80) ||
                  (n =? 0xE2) && (m =? 0x80) &&
                    ((0x80 <=? l) && (l <=? 0x8A) || (l =? 0xA8) || (l =? 0xA9) || (l =? 0xAF)) ||
                  (n =? 0xE2) && (m =? 0x81) && (l =? 0x9F) ||
                  (n =? 0xE3) && (m =? 0x80) && (l =? 0x80))%N then 3 else 0
          | String.EmptyString => 0
          end
      | String.EmptyString => 0
      end
  | String.EmptyString => 0
  end.

(** [strings.TrimLeftFunc(s, unicode.IsSpace)]; every round removes a rune. *)
Fixpoint trim_left (fuel : nat) (s : string) : string :=
  match fuel with
  | O => s
  | S fuel' => match space_size s with O => s | n => trim_left fuel' (drop_bytes n s) end
  end.
Definition TrimLeftSpace (s : string) : string := trim_left (String.length s) s.

Fixpoint all_space (fuel : nat) (s : string) : bool :=
  match fuel with
  | O => s == ""
  | S fuel' =>
      if s == "" then true
      else match space_size s with O => false | n => all_space fuel' (drop_bytes n s) end
  end.
(** [strings.TrimSpace]: the shortest prefix that only spaces follow. *)
Fixpoint trim_right (s : string) : string :=
  if all_space (String.length s) s then ""
  else match s with
  | String.String a s' => String.String a (trim_right s')
  | String.EmptyString => ""
  end.
Definition TrimSpace (s : string) : string := trim_right (TrimLeftSpace s).

(** [strings.Fields]; [cur] is the field being read and every round consumes a byte. *)
Fixpoint fields_loop (fuel : nat) (s cur : string) : list string :=
  let flush := if cur == "" then [] else [cur] in
  match fuel with
  | O => flush
  | S fuel' =>
      match s with
      | String.EmptyString => flush
      | String.String a s' =>
          match space_size s with
          | O => fields_loop fuel' s' (cur +:+ one a)
          | n => flush ++ fields_loop fuel' (drop_bytes n s) ""
          end
      end
  end.
Definition Fields (s : string) : list string := fields_loop (S (String.length s)) s "".

(** [isTSpecial], [isTokenChar] and [consumeToken]. *)
Definition tspecial (a : ascii) : bool :=
  one_of "()<>@,;:\/[]?=" a || Ascii.eqb a (ascii_of_N 34).
Definition token_char (a : ascii) : bool := byte_in 0x21 0x7E a && negb (tspecial a).
Fixpoint consumeToken (s : string) : string * string :=
  match s with
  | String.String a s' =>
      if token_char a then let '(t, rest) := consumeToken s' in (String.String a t, rest) else ("", s)
  | String.EmptyString => ("", "")
  end.

(** The body of a quoted string: its value and what follows the closing quote. *)
Fixpoint quoted_value (s : string) : option (string * string) :=
  match s with
  | String.EmptyString => None
  | String.String a s1 =>
      let plain (rest : option (string * string)) : option (string * string) :=
        match rest with Some (t, r) => Some (String.String a t, r) | None => None end in
      if Ascii.eqb a (ascii_of_N 34) then Some ("", s1)
      else if Ascii.eqb a backslash then
        match s1 with
        | String.String b s2 =>
            if tspecial b then
              match quoted_value s2 with Some (t, r) => Some (String.String b t, r) | None => None end
            else plain (quoted_value s1)
        | String.EmptyString => plain (quoted_value s1)
        end
      else if Ascii.eqb a (ascii_of_N 13) || Ascii.eqb a (ascii_of_N 10) then None
      else plain (quoted_value s1)
  end.

(** [consumeValue]; [None] consumes nothing. *)
Definition consumeValue (s : string) : option (string * string) :=
  match s with
  | String.EmptyString => None
  | String.String a s1 =>
      if Ascii.eqb a (ascii_of_N 34) then quoted_value s1
      else let '(t, rest) := consumeToken s in if t == "" then None else Some (t, rest)
  end.

(** [consumeMediaParam]: the parameter and what follows it. *)
Definition consumeMediaParam (s : string) : option (string * string * string) :=
  match TrimLeftSpace s with
  | String.String a s1 =>
      if Ascii.eqb a ";" then
        let '(param, rest) := consumeToken (TrimLeftSpace s1) in
        if param == "" then None
        else match TrimLeftSpace rest with
        | String.String b rest =>
            if Ascii.eqb b "=" then
              match consumeValue (TrimLeftSpace rest) with
              | Some (value, rest) => Some (lower_ascii param, value, rest)
              | None => None
              end
            else None
        | String.EmptyString => None
        end
      else None
  | String.EmptyString => None
  end.

(** The loop over the parameters: those that were read, and whether a trailing semicolon ended it; [None]
    is an error.  A name with an asterisk belongs to the continuations of its base name, which are
    separate maps; within a map a name may repeat only with the same value. *)
Fixpoint media_params (fuel : nat) (s : string) (seen : gmap string string) : option (gmap string string * bool) :=
  match fuel with
  | O => Some (seen, false)
  | S fuel' =>
      let v := TrimLeftSpace s in
      if v == "" then Some (seen, false)
      else match consumeMediaParam v with
      | None => if TrimSpace v == ";" then Some (seen, true) else None
      | Some (key, value, rest) =>
          match seen !! key with
          | Some value' =>
              if value' == value then media_params fuel' rest seen else None
          | None => media_params fuel' rest (<[key := value]> seen)
          end
      end
  end.

(** [strings.ToLower] of a media type: U+0130 and U+212A become ASCII letters. *)
Fixpoint lower_media (s : string) : string :=
  match s with
  | String.EmptyString => ""
  | String.String a s1 =>
      match s1 with
      | String.String b s2 =>
          if (N_of_ascii a =? 0xC4)%N && (N_of_ascii b =? 0xB0)%N then String.String "i" (lower_media s2)
          else match s2 with
          | String.String c s3 =>
              if (N_of_ascii a =? 0xE2)%N && (N_of_ascii b =? 0x84)%N && (N_of_ascii c =? 0xAA)%N
              then String.String "k" (lower_media s3)
              else String.String (to_lower_byte a) (lower_media s1)
          | String.EmptyString => String.String (to_lower_byte a) (lower_media s1)
          end
      | String.EmptyString => String.String (to_lower_byte a) (lower_media s1)
      end
  end.

(** [checkMediaTypeDisposition]. *)
Definition check_media (s : string) : bool :=
  let '(typ, rest) := consumeToken s in
  if typ == "" then false
  else match rest with
  | String.EmptyString => true
  | String.String a rest =>
      if Ascii.eqb a "/" then
        let '(subtype, rest) := consumeToken rest in (subtype != "") && (rest == "")
      else false
  end.

(** The media type and the parameters before they are put together, or [None] for an error.  A parameter
    consumes at least one byte. *)
Definition parse_media (v : string) : option (string * (gmap string string * bool)) :=
  let base := match cut_first ";" v with Some (l, _) => l | None => v end in
  let mediatype := TrimSpace (lower_media base) in
  if negb (check_media mediatype) then None
  else
    let rest := drop_bytes (String.length base) v in
    option_map (pair mediatype) (media_params (S (String.length rest)) rest ∅).
Definition ParseMediaType (v : string) : option string := option_map fst (parse_media v).

(** [percentHexUnescape]. *)
Fixpoint percentHexUnescape (s : string) : option string :=
  match s with
  | String.EmptyString => Some ""
  | String.String a s1 =>
      if Ascii.eqb a "%" then
        match s1 with
        | String.String b (String.String c s3) =>
            match unhex b, unhex c, percentHexUnescape s3 with
            | Some x, Some y, Some t => Some (String.String (ascii_of_N (16 * x + y)) t)
            | _, _, _ => None
            end
        | _ => None
        end
      else option_map (String.String a) (percentHexUnescape s1)
  end.
(** [decode2231Enc]. *)
Definition decode2231Enc (v : string) : option string :=
  match cut_first "'" v with
  | None => None
  | Some (charset, rest) =>
      match cut_first "'" rest with
      | None => None
      | Some (_, encoded) =>
          let charset := lower_media charset in
          if (charset != "us-ascii") && (charset != "utf-8") then None else percentHexUnescape encoded
      end
  end.

(** The numbered continuations of a name from the [n]th on; there are no more than parameters. *)
Fixpoint pieces (fuel : nat) (seen : gmap string string) (key : string) (n : N) : string :=
  match fuel with
  | O => ""
  | S fuel' =>
      let simplePart := key +:+ "*" +:+ pretty n in
      match seen !! simplePart with
      | Some v => v +:+ pieces fuel' seen key (n + 1)
      | None =>
          match seen !! (simplePart +:+ "*") with
          | None => ""
          | Some v =>
              default "" (if (n =? 0)%N then decode2231Enc v else percentHexUnescape v) +:+
              pieces fuel' seen key (n + 1)
          end
      end
  end.
(** What is put together for a name, if anything. *)
Definition stitched (seen : gmap string string) (key : string) : option string :=
  match seen !! (key +:+ "*") with
  | Some v => decode2231Enc v
  | None =>
      if non_nil (seen !! (key +:+ "*0")) || non_nil (seen !! (key +:+ "*0*"))
      then Some (pieces (size seen) seen key 0) else None
  end.
(** [parameters[name]] for a name without an asterisk; a trailing semicolon leaves everything as it was
    read. *)
Definition media_parameter (v name : string) : option string :=
  match parse_media v with
  | None => None
  | Some (_, (seen, trailing)) =>
      Some (default "" (if trailing then seen !! name
                        else match stitched seen name with Some t => Some t | None => seen !! name end))
  end.

Example media_plain : ParseMediaType "application/json; charset=utf-8" = Some "application/json".
Proof. reflexivity. Qed.
Example media_upper : ParseMediaType " Application/JSON ;" = Some "application/json".
Proof. reflexivity. Qed.
Example media_repeated : ParseMediaType "text/plain; a=1; a=2" = None.
Proof. reflexivity. Qed.
Example media_pieces : media_parameter "text/plain; as*1*=a%62c; as*0=Partial; g=x" "as" = Some "Partialabc".
Proof. vm_compute. reflexivity. Qed.
Example media_encoded : media_parameter "text/plain; as*=UTF-8'en'a%20b" "as" = Some "a b".
Proof. vm_compute. reflexivity. Qed.
Example media_unstitched : media_parameter "text/plain; as*0=a;" "as" = Some "".
Proof. vm_compute. reflexivity. Qed.
