(* ===== verification/Threads.v ===== *)
(** * Concurrent handlers

    The probe services run one goroutine per request.  A handler is a finite tree of atomic actions on
    the state the goroutines share: semaphores (a buffered channel used with [select] and [default]),
    one [sync.RWMutex] (or [sync.Mutex]), Prometheus counters and the two gauges that publish the last
    observation.  Any two actions of different goroutines may interleave.

    [typed] is a type system for handlers: it follows the semaphores a handler holds and the state of
    its critical section, and bounds the actions that are left.  Well-typed handlers keep the
    invariant of the shared state, never block one another for ever, and end with every semaphore free
    and the mutex unlocked. *)

From S2P Require Import Prelude Kube.

(** ** Handlers *)

(** [R] is what a handler answers, [X] what the outside world answers to it. *)
Inductive prog (R X : Type) :=
  | Return (r : R)
  | TryAcquire (slot : nat) (yes no : prog R X)  (* select { case slots <- struct{}{}: default: } *)
  | Release (slot : nat) (k : prog R X)
  | AskBool (k : bool → prog R X)  (* a release flag, or whether the request was cancelled *)
  | AskWorld (k : X → prog R X)
  | Lock (k : prog R X)
  | Unlock (k : prog R X)
  | RLock (k : prog R X)
  | RUnlock (k : prog R X)
  | Inc (labels : list string) (k : prog R X)
  | SetToCurrentTime (result : string) (k : prog R X)
  | SetReady (value : Z) (k : prog R X)
  | ReadReady (k : Z → prog R X)
  | ReadObserved (k : Time → prog R X).
Arguments Return {R X}.
Arguments TryAcquire {R X}.
Arguments Release {R X}.
Arguments AskBool {R X}.
Arguments AskWorld {R X}.
Arguments Lock {R X}.
Arguments Unlock {R X}.
Arguments RLock {R X}.
Arguments RUnlock {R X}.
Arguments Inc {R X}.
Arguments SetToCurrentTime {R X}.
Arguments SetReady {R X}.
Arguments ReadReady {R X}.
Arguments ReadObserved {R X}.

(** The shared state.  [history] is auxiliary: the result and the time of every observation, in the
    order in which [SetToCurrentTime] ran; no handler reads it. *)
Record shared := mkShared {
  sem : nat → nat;  (* how many slots of a semaphore are taken *)
  writer : bool;
  readers : nat;
  counts : gmap (list string) Z;
  ready : Z;
  observed : Time;
  history : list (string * Time)
}.

Definition set_sem (i n : nat) (g : shared) : shared :=
  mkShared (λ j, if decide (j = i) then n else sem g j) (writer g) (readers g) (counts g) (ready g)
    (observed g) (history g).
Definition set_writer (b : bool) (g : shared) : shared :=
  mkShared (sem g) b (readers g) (counts g) (ready g) (observed g) (history g).
Definition set_readers (n : nat) (g : shared) : shared :=
  mkShared (sem g) (writer g) n (counts g) (ready g) (observed g) (history g).
Definition count (labels : list string) (g : shared) : shared :=
  mkShared (sem g) (writer g) (readers g)
    (<[labels := (default 0 (counts g !! labels) + 1)%Z]> (counts g)) (ready g) (observed g) (history g).
Definition stamp (result : string) (now : Time) (g : shared) : shared :=
  mkShared (sem g) (writer g) (readers g) (counts g) (ready g) now (history g ++ [(result, now)]).
Definition set_ready (value : Z) (g : shared) : shared :=
  mkShared (sem g) (writer g) (readers g) (counts g) value (observed g) (history g).

(** A service before its first request. *)
Definition fresh_service : shared := mkShared (λ _, 0) false 0 ∅ 0%Z 0%Z [].

Section Machine.
Context {R X : Type} (cap : nat → nat).

(** One action of one goroutine; a blocked action has no step. *)
Inductive tstep : shared → prog R X → shared → prog R X → Prop :=
  | t_acquire g i yes no : sem g i < cap i →
      tstep g (TryAcquire i yes no) (set_sem i (S (sem g i)) g) yes
  | t_busy g i yes no : cap i <= sem g i → tstep g (TryAcquire i yes no) g no
  | t_release g i k n : sem g i = S n → tstep g (Release i k) (set_sem i n g) k
  | t_bool g k b : tstep g (AskBool k) g (k b)
  | t_world g k x : tstep g (AskWorld k) g (k x)
  | t_lock g k : writer g = false → readers g = 0 → tstep g (Lock k) (set_writer true g) k
  | t_unlock g k : writer g = true → tstep g (Unlock k) (set_writer false g) k
  | t_rlock g k : writer g = false → tstep g (RLock k) (set_readers (S (readers g)) g) k
  | t_runlock g k n : readers g = S n → tstep g (RUnlock k) (set_readers n g) k
  | t_inc g labels k : tstep g (Inc labels k) (count labels g) k
  | t_stamp g result k now : tstep g (SetToCurrentTime result k) (stamp result now g) k
  | t_set g value k : tstep g (SetReady value k) (set_ready value g) k
  | t_read_ready g k : tstep g (ReadReady k) g (k (ready g))
  | t_read_observed g k : tstep g (ReadObserved k) g (k (observed g)).

Definition config : Type := shared * list (prog R X).

(** Any goroutine may take the next step. *)
Inductive step : config → config → Prop :=
  | step_thread g ps i p g' p' : ps !! i = Some p → tstep g p g' p' →
      step (g, ps) (g', <[i := p']> ps).

(** ** The type system *)

Context (success observable : string → bool) (scraped : R → option (Z * Time)).

(** The value of the readiness gauge after an observation, and the pair of gauges after a history. *)
Definition gauge (result : string) : Z := if success result then 1 else 0.
Definition latest (h : list (string * Time)) : Z * Time :=
  foldl (λ _ e, (gauge (fst e), snd e)) (0%Z, 0%Z) h.

(** Inside a critical section that writes: nothing written yet, or the time of an observation with
    the value the readiness gauge was set to since. *)
Inductive written := Clean | Stamped (result : string) (value : option Z).
(** Outside, with the pair of gauges the handler has read in one section; or inside a critical
    section, exclusive or shared, with the gauges read so far. *)
Inductive mode :=
  | Idle (seen : option (Z * Time))
  | Held (exclusive : bool) (w : written) (r : option Z) (t : option Time).

Definition pair_of (r : option Z) (t : option Time) : option (Z * Time) :=
  match r, t with Some r, Some t => Some (r, t) | _, _ => None end.

(** [typed n hs m p]: at most [n] actions of [p] are left, [p] holds the semaphores [hs] and is in the
    mode [m]. *)
Inductive typed : nat → list nat → mode → prog R X → Prop :=
  | ty_return n seen r : (∀ pair, scraped r = Some pair → seen = Some pair) →
      typed n [] (Idle seen) (Return r)
  | ty_acquire n hs seen i yes no : typed n (i :: hs) (Idle seen) yes → typed n hs (Idle seen) no →
      typed (S n) hs (Idle seen) (TryAcquire i yes no)
  | ty_release n hs m i k : typed n hs m k → typed (S n) (i :: hs) m (Release i k)
  | ty_bool n hs m k : (∀ b, typed n hs m (k b)) → typed (S n) hs m (AskBool k)
  | ty_world n hs m k : (∀ x, typed n hs m (k x)) → typed (S n) hs m (AskWorld k)
  | ty_lock n hs seen k : typed n hs (Held true Clean None None) k →
      typed (S n) hs (Idle seen) (Lock k)
  | ty_unlock n hs r t k : typed n hs (Idle (pair_of r t)) k →
      typed (S n) hs (Held true Clean r t) (Unlock k)
  | ty_publish n hs result k : typed n hs (Idle None) k →
      typed (S n) hs (Held true (Stamped result (Some (gauge result))) None None) (Unlock k)
  | ty_rlock n hs seen k : typed n hs (Held false Clean None None) k →
      typed (S n) hs (Idle seen) (RLock k)
  | ty_runlock n hs r t k : typed n hs (Idle (pair_of r t)) k →
      typed (S n) hs (Held false Clean r t) (RUnlock k)
  | ty_inc n hs m labels k : typed n hs m k → typed (S n) hs m (Inc labels k)
  | ty_stamp n hs result k : observable result = true →
      typed n hs (Held true (Stamped result None) None None) k →
      typed (S n) hs (Held true Clean None None) (SetToCurrentTime result k)
  | ty_set n hs result o value k :
      typed n hs (Held true (Stamped result (Some value)) None None) k →
      typed (S n) hs (Held true (Stamped result o) None None) (SetReady value k)
  | ty_read_ready n hs ex r t k : (∀ v, typed n hs (Held ex Clean (Some v) t) (k v)) →
      typed (S n) hs (Held ex Clean r t) (ReadReady k)
  | ty_read_observed n hs ex r t k : (∀ v, typed n hs (Held ex Clean r (Some v)) (k v)) →
      typed (S n) hs (Held ex Clean r t) (ReadObserved k).

Lemma typed_weaken n n' hs m p : typed n hs m p → n <= n' → typed n' hs m p.
Proof.
  intros Ht. revert n'. induction Ht; intros [|n'] Hn; try lia; try (constructor; auto with lia; done).
  all: constructor; intros; match goal with H : _ |- _ => apply H; lia end.
Qed.

(** ** The invariant *)

(** What a thread of a configuration is known to hold. *)
Record view := mkView { bound : nat; slots : list nat; phase : mode }.

Definition exclusive (v : view) : nat := match phase v with Held true _ _ _ => 1 | _ => 0 end.
Definition sharing (v : view) : nat := match phase v with Held false _ _ _ => 1 | _ => 0 end.
Definition holding (i : nat) (v : view) : nat := length (filter (i =.) (slots v)).
Fixpoint total {A} (f : A → nat) (l : list A) : nat :=
  match l with [] => 0 | x :: l' => f x + total f l' end.

(** The gauges show the last observation of the history. *)
Definition consistent (g : shared) : Prop := (ready g, observed g) = latest (history g).

(** A pair of gauges that was the current one at some point of the history. *)
Definition was_current (g : shared) (pair : Z * Time) : Prop :=
  ∃ h rest, history g = h ++ rest ∧ pair = latest h.

Definition mode_ok (g : shared) (m : mode) : Prop :=
  match m with
  | Idle seen => ∀ pair, seen = Some pair → was_current g pair
  | Held _ Clean r t =>
      consistent g ∧ (∀ v, r = Some v → v = ready g) ∧ (∀ v, t = Some v → v = observed g)
  | Held _ (Stamped result o) _ _ =>
      (∃ h, history g = h ++ [(result, observed g)]) ∧ (∀ v, o = Some v → ready g = v)
  end.

Record views_ok (g : shared) (vs : list view) : Prop := {
  vo_writer : total exclusive vs = if writer g then 1 else 0;
  vo_readers : total sharing vs = readers g;
  vo_apart : writer g = true → readers g = 0;
  vo_sem : ∀ i, total (holding i) vs = sem g i;
  vo_cap : ∀ i, sem g i <= cap i;
  vo_gauges : writer g = false → consistent g;
  vo_history : Forall (λ e, observable (fst e) = true) (history g);
  vo_modes : ∀ j v, vs !! j = Some v → mode_ok g (phase v)
}.
Definition view_of (p : prog R X) (v : view) : Prop := typed (bound v) (slots v) (phase v) p.
Definition inv (c : config) (vs : list view) : Prop :=
  Forall2 view_of (snd c) vs ∧ views_ok (fst c) vs.

(** ** Sums over the threads *)

Lemma total_at_insert {A} (f : A → nat) l i x y : l !! i = Some x →
  total f (<[i := y]> l) + f x = total f l + f y.
Proof.
  revert i. induction l as [|z l IH]; intros [|i] Hi; try done.
  - injection Hi as ->. cbn. lia.
  - specialize (IH i Hi). change (<[S i := y]> (z :: l)) with (z :: <[i := y]> l). cbn [total]. lia.
Qed.

Lemma total_at {A} (f : A → nat) l i x : l !! i = Some x → f x <= total f l.
Proof.
  revert i. induction l as [|z l IH]; intros [|i] Hi; cbn in *; try done.
  - injection Hi as ->. lia.
  - specialize (IH i Hi). lia.
Qed.

Lemma total_two {A} (f : A → nat) l i j x y : i ≠ j → l !! i = Some x → l !! j = Some y →
  f x + f y <= total f l.
Proof.
  revert i j. induction l as [|z l IH]; intros [|i] [|j] Hne Hi Hj; cbn in *; try done.
  - injection Hi as ->. pose proof (total_at f l j y Hj). lia.
  - injection Hj as ->. pose proof (total_at f l i x Hi). lia.
  - assert (i ≠ j) by congruence. specialize (IH i j H Hi Hj). lia.
Qed.

Lemma total_exists {A} (f : A → nat) l : 0 < total f l → ∃ i x, l !! i = Some x ∧ 0 < f x.
Proof.
  induction l as [|z l IH]; cbn; [lia|]. intros Hl. destruct (decide (0 < f z)) as [Hz|Hz].
  - by exists 0, z.
  - destruct IH as (i & x & Hi & Hx); [lia|]. by exists (S i), x.
Qed.

Lemma total_zero {A} (f : A → nat) l : Forall (λ x, f x = 0) l → total f l = 0.
Proof. induction 1 as [|x l Hx Hl IH]; cbn; lia. Qed.

(** While one thread writes, every other thread is outside its critical section. *)
Lemma alone g vs i v j u : views_ok g vs → vs !! i = Some v → exclusive v = 1 → i ≠ j →
  vs !! j = Some u → ∃ seen, phase u = Idle seen.
Proof.
  intros [Hw Hr Ha _ _ _ _ _] Hi Hv Hne Hj. pose proof (total_two exclusive vs i j v u Hne Hi Hj) as Hex.
  pose proof (total_at sharing vs j u Hj) as Hsh. pose proof (total_at exclusive vs i v Hi) as Hat.
  assert (writer g = true) as Hwr by (destruct (writer g); [done|lia]).
  specialize (Ha Hwr). rewrite Hwr in Hw.
  destruct u as [n hs [seen|[] w r t]]; [by exists seen|..]; cbn in *; lia.
Qed.

(** ** Steps keep the invariant *)

Definition same_gauges (g g' : shared) : Prop :=
  ready g' = ready g ∧ observed g' = observed g ∧ history g' = history g.

Lemma mode_ok_same g g' m : same_gauges g g' → mode_ok g m → mode_ok g' m.
Proof.
  intros (Hr & Ho & Hh). destruct m as [seen|ex [|result o] r t]; cbn.
  - unfold was_current. by rewrite Hh.
  - unfold consistent. by rewrite Hr, Ho, Hh.
  - by rewrite Hr, Ho, Hh.
Qed.

Lemma was_current_extend g g' pair rest : history g' = history g ++ rest →
  was_current g pair → was_current g' pair.
Proof.
  intros Hh (h & rest' & Hg & Hp). exists h, (rest' ++ rest). by rewrite Hh, Hg, <- app_assoc.
Qed.

Lemma latest_snoc h result t : latest (h ++ [(result, t)]) = (gauge result, t).
Proof. unfold latest. by rewrite foldl_app. Qed.

(** The bookkeeping of one thread that moved from the view [v] to [v']. *)
Lemma views_update g g' vs i v v' : views_ok g vs → vs !! i = Some v →
  exclusive v' + (if writer g then 1 else 0) = exclusive v + (if writer g' then 1 else 0) →
  sharing v' + readers g = sharing v + readers g' →
  (∀ j, holding j v' + sem g j = holding j v + sem g' j) → (∀ j, sem g' j <= cap j) →
  (writer g' = true → readers g' = 0) → (writer g' = false → consistent g') →
  Forall (λ e, observable (fst e) = true) (history g') → mode_ok g' (phase v') →
  (∀ j u, i ≠ j → vs !! j = Some u → mode_ok g (phase u) → mode_ok g' (phase u)) →
  views_ok g' (<[i := v']> vs).
Proof.
  intros [Hw Hr Ha Hs Hc Hg Hh Hm] Hi Hw' Hr' Hs' Hc' Ha' Hg' Hh' Hv' Hothers. split; try done.
  - pose proof (total_at_insert exclusive vs i v v' Hi). lia.
  - pose proof (total_at_insert sharing vs i v v' Hi). lia.
  - intros j. pose proof (total_at_insert (holding j) vs i v v' Hi). specialize (Hs' j). specialize (Hs j).
    lia.
  - intros j u Hj. destruct (decide (i = j)) as [<-|Hne].
    + rewrite list_lookup_insert_eq in Hj by (by apply lookup_lt_Some in Hi). by injection Hj as <-.
    + rewrite list_lookup_insert_ne in Hj by done. eauto.
Qed.

(** A step that leaves the gauges, the mutex and the semaphores alone. *)
Lemma views_quiet g g' vs i v n m' : views_ok g vs → vs !! i = Some v → same_gauges g g' →
  writer g' = writer g → readers g' = readers g → sem g' = sem g →
  exclusive (mkView n (slots v) m') = exclusive v → sharing (mkView n (slots v) m') = sharing v →
  mode_ok g' m' → views_ok g' (<[i := mkView n (slots v) m']> vs).
Proof.
  intros Hok Hi Hsame Hw Hr Hs Hex Hsh Hm. pose proof Hok as [_ _ Ha _ Hc Hg Hhist _].
  apply (views_update g g' vs i v); try done.
  - rewrite Hex, Hw. done.
  - rewrite Hsh, Hr. done.
  - intros j. by rewrite Hs.
  - intros j. by rewrite Hs.
  - by rewrite Hw, Hr.
  - rewrite Hw. intros Hfree. destruct Hsame as (H1 & H2 & H3). unfold consistent.
    rewrite H1, H2, H3. by apply Hg.
  - destruct Hsame as (_ & _ & ->). done.
  - intros j u _ _. by apply mode_ok_same.
Qed.

Lemma same_refl g : same_gauges g g.
Proof. done. Qed.

Lemma idle_none g : mode_ok g (Idle None).
Proof. intros pair. done. Qed.

(** What a critical section read is the current pair. *)
Lemma idle_seen g ex r t : mode_ok g (Held ex Clean r t) → mode_ok g (Idle (pair_of r t)).
Proof.
  cbn. intros (Hc & Hr & Ht) pair. destruct r as [r|], t as [t|]; try done. cbn. intros [= <-].
  exists (history g), []. rewrite app_nil_r. split; [done|]. rewrite (Hr r eq_refl), (Ht t eq_refl).
  exact Hc.
Qed.

Lemma thread_acquire g vs i n hs seen j n' : views_ok g vs →
  vs !! i = Some (mkView n hs (Idle seen)) → sem g j < cap j →
  views_ok (set_sem j (S (sem g j)) g) (<[i := mkView n' (j :: hs) (Idle seen)]> vs).
Proof.
  intros Hok Hi Hlt. pose proof Hok as [_ _ Ha _ Hc Hg Hhist Hm].
  apply (views_update g _ vs i (mkView n hs (Idle seen))); try done.
  - intros k. unfold holding. cbn [slots filter set_sem sem]. destruct (decide (k = j)) as [->|Hk].
    + rewrite filter_cons_True by done. cbn [length]. lia.
    + rewrite filter_cons_False by done. done.
  - intros k. cbn [set_sem sem]. destruct (decide (k = j)) as [->|]; [lia|apply Hc].
  - exact (mode_ok_same g _ _ (same_refl g) (Hm i _ Hi)).
Qed.

Lemma thread_release g vs i n hs m j l n' : views_ok g vs →
  vs !! i = Some (mkView n (j :: hs) m) → sem g j = S l →
  views_ok (set_sem j l g) (<[i := mkView n' hs m]> vs).
Proof.
  intros Hok Hi Hl. pose proof Hok as [_ _ Ha _ Hc Hg Hhist Hm].
  apply (views_update g _ vs i (mkView n (j :: hs) m)); try done.
  - intros k. unfold holding. cbn [slots filter set_sem sem]. destruct (decide (k = j)) as [->|Hk].
    + rewrite filter_cons_True by done. cbn [length]. lia.
    + rewrite filter_cons_False by done. done.
  - intros k. cbn [set_sem sem]. destruct (decide (k = j)) as [->|]; [|apply Hc].
    specialize (Hc j). lia.
  - exact (mode_ok_same g _ _ (same_refl g) (Hm i _ Hi)).
Qed.

Lemma thread_lock g vs i n hs seen n' : views_ok g vs →
  vs !! i = Some (mkView n hs (Idle seen)) → writer g = false → readers g = 0 →
  views_ok (set_writer true g) (<[i := mkView n' hs (Held true Clean None None)]> vs).
Proof.
  intros Hok Hi Hw Hr. pose proof Hok as [_ _ Ha _ Hc Hg Hhist Hm].
  apply (views_update g _ vs i (mkView n hs (Idle seen))); try done; cbn.
  - by rewrite Hw.
  - split_and!; [by apply Hg|done..].
Qed.

Lemma thread_unlock g vs i n hs w r t n' seen : views_ok g vs →
  vs !! i = Some (mkView n hs (Held true w r t)) → consistent g → mode_ok g (Idle seen) →
  views_ok (set_writer false g) (<[i := mkView n' hs (Idle seen)]> vs).
Proof.
  intros Hok Hi Hcons Hseen. pose proof Hok as [Hw _ Ha _ Hc Hg Hhist Hm].
  pose proof (total_at exclusive vs i _ Hi) as Hat. cbn in Hat.
  assert (writer g = true) as Hwr by (destruct (writer g); [done|lia]).
  apply (views_update g _ vs i (mkView n hs (Held true w r t))); try done; cbn.
  by rewrite Hwr.
Qed.

Lemma thread_rlock g vs i n hs seen n' : views_ok g vs →
  vs !! i = Some (mkView n hs (Idle seen)) → writer g = false →
  views_ok (set_readers (S (readers g)) g) (<[i := mkView n' hs (Held false Clean None None)]> vs).
Proof.
  intros Hok Hi Hw. pose proof Hok as [_ _ Ha _ Hc Hg Hhist Hm].
  apply (views_update g _ vs i (mkView n hs (Idle seen))); try done; cbn.
  - by rewrite Hw.
  - split_and!; [by apply Hg|done..].
Qed.

Lemma thread_runlock g vs i n hs r t n' l : views_ok g vs →
  vs !! i = Some (mkView n hs (Held false Clean r t)) → readers g = S l →
  views_ok (set_readers l g) (<[i := mkView n' hs (Idle (pair_of r t))]> vs).
Proof.
  intros Hok Hi Hr. pose proof Hok as [_ _ Ha _ Hc Hg Hhist Hm].
  apply (views_update g _ vs i (mkView n hs (Held false Clean r t))); try done; cbn.
  - intros Hw. specialize (Ha Hw). lia.
  - exact (idle_seen g false r t (Hm i _ Hi)).
Qed.

(** Steps that write the gauges: no other thread is inside a critical section. *)
Lemma thread_write g g' vs i n hs w r t n' w' rest : views_ok g vs →
  vs !! i = Some (mkView n hs (Held true w r t)) →
  writer g' = writer g → readers g' = readers g → sem g' = sem g → history g' = history g ++ rest →
  Forall (λ e, observable (fst e) = true) rest → mode_ok g' (Held true w' None None) →
  views_ok g' (<[i := mkView n' hs (Held true w' None None)]> vs).
Proof.
  intros Hok Hi Hw' Hr' Hs' Hh Hrest Hmode. pose proof Hok as [Hw _ Ha _ Hc Hg Hhist Hm].
  pose proof (total_at exclusive vs i _ Hi) as Hat. cbn in Hat.
  assert (writer g = true) as Hwr by (destruct (writer g); [done|lia]).
  apply (views_update g _ vs i (mkView n hs (Held true w r t))); try done; cbn.
  - by rewrite Hw', Hwr.
  - intros j. by rewrite Hs'.
  - intros j. by rewrite Hs'.
  - by rewrite Hw', Hr'.
  - by rewrite Hw', Hwr.
  - rewrite Hh. by apply list.Forall_app.
  - intros j u Hne Hj Hu. destruct (alone g vs i _ j u Hok Hi eq_refl Hne Hj) as [seen Hseen].
    rewrite Hseen in *. intros pair Hp. by eapply was_current_extend, Hu.
Qed.

Ltac quiet hs Hok Hi :=
  eapply (views_quiet _ _ _ _ (mkView _ hs _)); [exact Hok|exact Hi|..]; try done.

Lemma thread_step g p g' p' vs i v : views_ok g vs → vs !! i = Some v → view_of p v →
  tstep g p g' p' →
  ∃ v', view_of p' v' ∧ bound v = S (bound v') ∧ views_ok g' (<[i := v']> vs).
Proof.
  intros Hok Hi Ht Hstep. destruct v as [n hs m]. unfold view_of in Ht. cbn in Ht.
  pose proof (vo_modes _ _ Hok i _ Hi) as Hmode. cbn [phase] in Hmode.
  destruct Hstep as [g j yes no Hlt|g j yes no Hge|g j k l Hl|g k b|g k x|g k Hw Hr|g k Hw|g k Hw
    |g k l Hl|g labels k|g result k now|g value k|g k|g k]; inversion Ht; subst; clear Ht;
    match goal with
    | H : typed ?n ?hs ?m ?q |- ∃ v', view_of ?q v' ∧ _ ∧ _ => exists (mkView n hs m)
    | H : ∀ x, typed ?n ?hs ?m (?f x) |- ∃ v', view_of (?f ?a) v' ∧ _ ∧ _ => exists (mkView n hs m); specialize (H a)
    | H : ∀ x, typed ?n ?hs (Held ?ex Clean (Some x) ?t) (?f x) |- ∃ v', view_of (?f ?a) v' ∧ _ ∧ _ =>
        exists (mkView n hs (Held ex Clean (Some a) t)); specialize (H a)
    | H : ∀ x, typed ?n ?hs (Held ?ex Clean ?r (Some x)) (?f x) |- ∃ v', view_of (?f ?a) v' ∧ _ ∧ _ =>
        exists (mkView n hs (Held ex Clean r (Some a))); specialize (H a)
    end; (split; [eassumption|split; [reflexivity|]]).
  - by eapply thread_acquire.
  - quiet hs Hok Hi.
  - by eapply thread_release.
  - quiet hs Hok Hi.
  - quiet hs Hok Hi.
  - by eapply thread_lock.
  - eapply thread_unlock; [done..|by apply Hmode|by eapply idle_seen].
  - eapply thread_unlock; [done..| |apply idle_none]. destruct Hmode as [[h Hh] Hv].
    unfold consistent. rewrite Hh, latest_snoc. by rewrite (Hv _ eq_refl).
  - by eapply thread_rlock.
  - by eapply thread_runlock.
  - quiet hs Hok Hi.
  - eapply thread_write with (rest := [(result, now)]); try done; [by constructor|].
    split; [|done]. by exists (history g).
  - eapply thread_write with (rest := []); try done; [cbn; by rewrite app_nil_r|].
    destruct Hmode as [Hh _]. split; [done|]. by intros v [= <-].
  - quiet hs Hok Hi.
    destruct Hmode as (Hc & Hr & Ht). split_and!; try done. by intros v [= <-].
  - quiet hs Hok Hi.
    destruct Hmode as (Hc & Hr & Ht). split_and!; try done. by intros v [= <-].
Qed.

Lemma step_inv c c' vs : inv c vs → step c c' →
  ∃ vs', inv c' vs' ∧ total bound vs = S (total bound vs').
Proof.
  intros [Hall Hok] Hstep. destruct Hstep as [g ps i p g' p' Hp Ht]. cbn in Hall, Hok.
  destruct (Forall2_lookup_l _ _ _ _ _ Hall Hp) as (v & Hv & Hview).
  destruct (thread_step g p g' p' vs i v Hok Hv Hview Ht) as (v' & Hview' & Hn & Hok').
  exists (<[i := v']> vs). split; [split; [by apply Forall2_insert|done]|].
  pose proof (total_at_insert bound vs i v v' Hv). lia.
Qed.

(** Every run of [m] steps uses [m] of the bound. *)
Lemma run_inv m c c' : nsteps step m c c' → ∀ vs, inv c vs →
  ∃ vs', inv c' vs' ∧ total bound vs = total bound vs' + m.
Proof.
  induction 1 as [c|m c1 c2 c3 Hstep _ IH]; intros vs Hinv; [exists vs; split; [done|lia]|].
  destruct (step_inv _ _ _ Hinv Hstep) as (vs1 & Hinv1 & Hn).
  destruct (IH _ Hinv1) as (vs2 & Hinv2 & Hm). exists vs2. split; [done|]. lia.
Qed.

(** ** Progress *)

Definition returned (p : prog R X) : Prop := ∃ r, p = Return r.

Lemma held_sem g vs i n j hs m : views_ok g vs → vs !! i = Some (mkView n (j :: hs) m) →
  ∃ l, sem g j = S l.
Proof.
  intros Hok Hi. pose proof (total_at (holding j) vs i _ Hi) as Hat. unfold holding at 1 in Hat.
  cbn [slots] in Hat. rewrite filter_cons_True in Hat by done. cbn [length] in Hat.
  rewrite (vo_sem _ _ Hok) in Hat. destruct (sem g j) as [|l]; [lia|by exists l].
Qed.

(** A thread inside its critical section is never blocked. *)
Lemma held_step g vs i v p : inhabited X → views_ok g vs → vs !! i = Some v → view_of p v →
  (∀ seen, phase v ≠ Idle seen) → ∃ g' p', tstep g p g' p'.
Proof.
  intros [x] Hok Hi Ht Hheld. destruct v as [n hs m]. unfold view_of in Ht. cbn in Ht, Hheld.
  destruct Ht; try (by edestruct Hheld).
  - destruct (held_sem _ _ _ _ _ _ _ Hok Hi) as [l Hl]. eexists _, _. by apply (t_release g i0 k l).
  - eexists _, _. apply (t_bool g k true).
  - eexists _, _. apply (t_world g k x).
  - eexists _, _. constructor. pose proof (total_at exclusive vs i _ Hi) as Hat.
    rewrite (vo_writer _ _ Hok) in Hat. cbn in Hat. destruct (writer g); [done|lia].
  - eexists _, _. constructor. pose proof (total_at exclusive vs i _ Hi) as Hat.
    rewrite (vo_writer _ _ Hok) in Hat. cbn in Hat. destruct (writer g); [done|lia].
  - pose proof (total_at sharing vs i _ Hi) as Hat. rewrite (vo_readers _ _ Hok) in Hat. cbn in Hat.
    destruct (readers g) as [|l] eqn:Hl; [lia|]. eexists _, _. by apply (t_runlock g k l).
  - eexists _, _. by apply t_inc.
  - eexists _, _. apply (t_stamp g result k 0%Z).
  - eexists _, _. by apply t_set.
  - eexists _, _. by apply t_read_ready.
  - eexists _, _. by apply t_read_observed.
Qed.

(** Nor is any thread while the mutex is free. *)
Lemma idle_step g vs i v p : inhabited X → views_ok g vs → vs !! i = Some v → view_of p v →
  writer g = false → readers g = 0 → returned p ∨ ∃ g' p', tstep g p g' p'.
Proof.
  intros HX Hok Hi Ht Hw Hr. pose proof HX as [x]. destruct v as [n hs m].
  destruct m as [seen|ex w r t]; [|right; by eapply held_step].
  unfold view_of in Ht. cbn in Ht. remember (Idle seen) as m eqn:Hm.
  destruct Ht as [n seen' r Hr'|n hs seen' j yes no| n hs m j k|n hs m k|n hs m k|n hs seen' k|n hs r t k|n hs result k|n hs seen' k|n hs r t k|n hs m labels k|n hs result k|n hs result o value k|n hs ex r t k|n hs ex r t k]; try done.
  - left. by exists r.
  - right. destruct (decide (sem g j < cap j)).
    + exists (set_sem j (S (sem g j)) g), yes. by apply t_acquire.
    + exists g, no. apply t_busy. lia.
  - right. destruct (held_sem _ _ _ _ _ _ _ Hok Hi) as [l Hl]. exists (set_sem j l g), k.
    by apply t_release.
  - right. exists g, (k true). apply t_bool.
  - right. exists g, (k x). apply t_world.
  - right. exists (set_writer true g), k. by apply t_lock.
  - right. exists (set_readers (S (readers g)) g), k. by apply t_rlock.
  - right. exists (count labels g), k. apply t_inc.
Qed.

Lemma first_enabled (P : prog R X → Prop) ps :
  (∀ i p, ps !! i = Some p → returned p ∨ P p) →
  Forall returned ps ∨ ∃ i p, ps !! i = Some p ∧ P p.
Proof.
  induction ps as [|p ps IH]; intros H; [by left|]. destruct (H 0 p eq_refl) as [Hp|Hp].
  - destruct IH as [Hall|(i & q & Hi & Hq)]; [intros i q Hi; by apply (H (S i))| |].
    + left. by constructor.
    + right. by exists (S i), q.
  - right. by exists 0, p.
Qed.

Lemma progress g ps vs : inhabited X → inv (g, ps) vs →
  Forall returned ps ∨ ∃ c', step (g, ps) c'.
Proof.
  intros HX [Hall Hok]. cbn in Hall, Hok.
  assert (∀ i p, ps !! i = Some p → (∃ g' p', tstep g p g' p') → ∃ c', step (g, ps) c') as Hmove.
  { intros i p Hp (g' & p' & Ht). eexists. by econstructor. }
  assert (∀ i v, vs !! i = Some v → (∀ seen, phase v ≠ Idle seen) → ∃ c', step (g, ps) c') as Hheld.
  { intros i v Hi Hne. destruct (Forall2_lookup_r _ _ _ _ _ Hall Hi) as (p & Hp & Hv).
    apply (Hmove i p Hp). by eapply held_step. }
  destruct (decide (0 < total exclusive vs)) as [Hex|Hex].
  { destruct (total_exists _ _ Hex) as (i & v & Hi & Hv). right. apply (Hheld i v Hi).
    intros seen Hs. unfold exclusive in Hv. rewrite Hs in Hv. lia. }
  destruct (decide (0 < total sharing vs)) as [Hsh|Hsh].
  { destruct (total_exists _ _ Hsh) as (i & v & Hi & Hv). right. apply (Hheld i v Hi).
    intros seen Hs. unfold sharing in Hv. rewrite Hs in Hv. lia. }
  rewrite (vo_writer _ _ Hok) in Hex. rewrite (vo_readers _ _ Hok) in Hsh.
  assert (writer g = false) as Hw by (destruct (writer g); [lia|done]).
  assert (readers g = 0) as Hr by lia.
  destruct (first_enabled (λ p, ∃ g' p', tstep g p g' p') ps) as [Hdone|(i & p & Hp & Ht)].
  - intros i p Hp. destruct (Forall2_lookup_l _ _ _ _ _ Hall Hp) as (v & Hi & Hv).
    by eapply idle_step.
  - by left.
  - right. by eapply Hmove.
Qed.

(** ** Runs of a fresh service *)

(** The requests of a service, none started; [n] bounds the actions of each. *)
Definition waiting (n : nat) (ps : list (prog R X)) : list view :=
  replicate (length ps) (mkView n [] (Idle None)).

Lemma total_replicate {A} (f : A → nat) n x : total f (replicate n x) = n * f x.
Proof. induction n as [|n IH]; cbn; lia. Qed.

Lemma waiting_inv n ps : Forall (typed n [] (Idle None)) ps → inv (fresh_service, ps) (waiting n ps).
Proof.
  intros Hall. split; cbn.
  - unfold waiting. induction Hall as [|p ps Hp Hall IH]; [constructor|]. cbn. by constructor.
  - unfold waiting. split; cbn; rewrite ?total_replicate; cbn; try lia.
    + intros i. rewrite total_replicate. unfold holding. cbn. lia.
    + done.
    + constructor.
    + intros j v Hj. apply lookup_replicate in Hj as [-> _]. cbn. done.
Qed.

(** All requests are answered, every semaphore is free and the mutex unlocked. *)
Definition quiet_config (c : config) : Prop :=
  Forall returned (snd c) ∧ (∀ i, sem (fst c) i = 0) ∧ writer (fst c) = false ∧ readers (fst c) = 0.

Lemma answered_quiet c vs : inv c vs → Forall returned (snd c) → quiet_config c.
Proof.
  intros [Hall Hok] Hret. assert (Forall (λ v, slots v = [] ∧ ∃ seen, phase v = Idle seen) vs) as Hvs.
  { clear Hok. induction Hall as [|p v ps vs Hv Hall IH]; [constructor|].
    apply list.Forall_cons in Hret as [[r ->] Hret]. constructor; [|by apply IH].
    destruct v as [n hs m]. unfold view_of in Hv. cbn in *. inversion Hv; subst. eauto. }
  split; [done|]. split_and!.
  - intros i. rewrite <- (vo_sem _ _ Hok). apply total_zero. eapply Forall_impl; [|exact Hvs].
    intros v [Hs _]. unfold holding. by rewrite Hs.
  - pose proof (vo_writer _ _ Hok) as Hw. rewrite total_zero in Hw; [by destruct (writer (fst c))|].
    eapply Forall_impl; [|exact Hvs]. intros v [_ [seen Hs]]. unfold exclusive. by rewrite Hs.
  - rewrite <- (vo_readers _ _ Hok). apply total_zero. eapply Forall_impl; [|exact Hvs].
    intros v [_ [seen Hs]]. unfold sharing. by rewrite Hs.
Qed.

(** A run has at most the bounded number of steps, and one that cannot continue is quiet. *)
Lemma run_ends n ps m c : inhabited X → Forall (typed n [] (Idle None)) ps →
  nsteps step m (fresh_service, ps) c →
  m <= length ps * n ∧ (quiet_config c ∨ ∃ c', step c c').
Proof.
  intros HX Hps Hrun. destruct (run_inv _ _ _ Hrun _ (waiting_inv n ps Hps)) as (vs & Hinv & Hm).
  split.
  - unfold waiting in Hm. rewrite total_replicate in Hm. cbn in Hm. lia.
  - destruct c as [g ps']. destruct (progress g ps' vs HX Hinv) as [Hret|Hstep]; [left|by right].
    by apply (answered_quiet _ vs).
Qed.

(** In every state of a run a semaphore is within its capacity, and the pair of gauges a request
    answered with was the current one at some point of the history. *)
Lemma run_safe n ps m c : Forall (typed n [] (Idle None)) ps →
  nsteps step m (fresh_service, ps) c →
  (∀ i, sem (fst c) i <= cap i) ∧ Forall (λ e, observable (fst e) = true) (history (fst c)) ∧
  (∀ i r pair, snd c !! i = Some (Return r) → scraped r = Some pair → was_current (fst c) pair).
Proof.
  intros Hps Hrun. destruct (run_inv _ _ _ Hrun _ (waiting_inv n ps Hps)) as (vs & [Hall Hok] & _).
  split; [apply (vo_cap _ _ Hok)|]. split; [apply (vo_history _ _ Hok)|]. intros i r pair Hi Hr.
  destruct (Forall2_lookup_l _ _ _ _ _ Hall Hi) as (v & Hv & Ht).
  pose proof (vo_modes _ _ Hok i v Hv) as Hmode. destruct v as [b hs md]. unfold view_of in Ht.
  cbn in Ht, Hmode. inversion Ht as [? seen ? Hseen| | | | | | | | | | | | | |]; subst.
  by apply Hmode, Hseen.
Qed.

(** ** Executable steps *)

(** The step of a thread, the outside world answering [b], [x] and [now]; [None] is a blocked one. *)
Definition exec (b : bool) (x : X) (now : Time) (g : shared) (p : prog R X)
  : option (shared * prog R X) :=
  match p with
  | Return _ => None
  | TryAcquire i yes no => Some (if decide (sem g i < cap i) then (set_sem i (S (sem g i)) g, yes) else (g, no))
  | Release i k => match sem g i with O => None | S n => Some (set_sem i n g, k) end
  | AskBool k => Some (g, k b)
  | AskWorld k => Some (g, k x)
  | Lock k => if writer g then None else match readers g with O => Some (set_writer true g, k) | _ => None end
  | Unlock k => if writer g then Some (set_writer false g, k) else None
  | RLock k => if writer g then None else Some (set_readers (S (readers g)) g, k)
  | RUnlock k => match readers g with O => None | S n => Some (set_readers n g, k) end
  | Inc labels k => Some (count labels g, k)
  | SetToCurrentTime result k => Some (stamp result now g, k)
  | SetReady value k => Some (set_ready value g, k)
  | ReadReady k => Some (g, k (ready g))
  | ReadObserved k => Some (g, k (observed g))
  end.

(** A schedule names the thread of every step and the answer to its next question. *)
Fixpoint schedule (l : list (nat * bool)) (x : X) (now : Time) (c : config) : option config :=
  match l with
  | [] => Some c
  | (i, b) :: l' =>
      match snd c !! i with
      | None => None
      | Some p =>
          match exec b x now (fst c) p with
          | None => None
          | Some (g', p') => schedule l' x now (g', <[i := p']> (snd c))
          end
      end
  end.

Lemma exec_tstep b x now g p g' p' : exec b x now g p = Some (g', p') → tstep g p g' p'.
Proof.
  destruct p; cbn; repeat case_match; intros [= <- <-]; simplify_eq; try (by constructor).
  apply t_busy. lia.
Qed.

Lemma schedule_run l x now : ∀ c c', schedule l x now c = Some c' → nsteps step (length l) c c'.
Proof.
  induction l as [|[i b] l IH]; intros [g ps] c'; cbn [schedule fst snd length]; [intros [= <-]; constructor|].
  destruct (ps !! i) as [p|] eqn:Hp; [|done].
  destruct (exec b x now g p) as [[g' p']|] eqn:He; [|done]. intros Hrun.
  econstructor; [econstructor; [exact Hp|by eapply exec_tstep]|]. by apply IH.
Qed.
End Machine.
