(* ===== verification/Probe.v ===== *)
(** * The contract probe

    [internal/contractprobe/service.go]: one target, one probe at a time, and two gauges that publish
    the last completed observation.  Handlers are programs of [Threads]; the exchange with the target
    is an answer of the outside world. *)

From Stdlib Require Import Ascii.
From S2P Require Import Prelude Kube Regex GoJson GoStrings GoUrl Config Threads.

(** The parts of an [http.Request] the probe services read. *)
Record HttpRequest := mkHttpRequest {
  Method : string;
  URL_Path : string;
  URL_RawQuery : string;
  URL_ForceQuery : bool;
  Req_ContentLength : Z;
  Req_TransferEncoding : list string
}.

(** What a management handler answers: a status with a text, or the two gauges of a scrape. *)
Inductive answer :=
  | Status (code : Z) (text : string)
  | Scrape (ready : Z) (observed : Time).
Definition scraped (a : answer) : option (Z * Time) :=
  match a with Scrape r t => Some (r, t) | Status _ _ => None end.

(** [URL.ForceQuery]: the first question mark ends the text before the fragment. *)
Definition ForceQuery (raw : string) : bool :=
  let text := match cut_first "#" raw with Some (u, _) => u | None => raw end in
  match cut_first "?" text with Some (_, rest) => rest == "" | None => false end.

(** The exchange with the target: no request, no response, or a response with the number of bytes
    copied from its body, at most one more than the bound. *)
Inductive exchange :=
  | RequestError
  | TransportError
  | Replied (status : Z) (encodings : list string) (contentLength : Z) (size : option Z).

(** The fixed configuration of a service; [enabled] tells whether the release callback is set. *)
Record Service := mkService { target : string; enabled : bool }.

Definition maxContract : Z := 1048576.

(** [len(encodings) != 0 && (len(encodings) != 1 || encodings[0] != identity)]. *)
Definition encoded (encodings : list string) : bool :=
  match encodings with [] => false | [e] => e != "identity" | _ => true end.

(** The guard on the target. *)
Definition invalid_target (raw : string) : bool :=
  match Parse raw with
  | None => true
  | Some u =>
      (Scheme u != "https") || (Hostname u == "") || User u || Contains raw "$(" ||
      ContainsAny raw (one_of "#\") || (RawQuery u != "") || ForceQuery raw ||
      (Fragment u != "") || (Opaque u != "")
  end.

(** What an exchange amounts to. *)
Definition judge_exchange (x : exchange) : string :=
  match x with
  | RequestError => "ContractConfigurationInvalid"
  | TransportError => "ContractUnavailable"
  | Replied status encodings contentLength size =>
      if (status != 200%Z) then "ContractUnavailable"
      else if (maxContract <? contentLength)%Z || encoded encodings then "ContractInvalidResponse"
      else match size with
      | None => "ContractUnavailable"
      | Some size =>
          if (size =? 0)%Z || (maxContract <? size)%Z then "ContractInvalidResponse"
          else "ContractReachable"
      end
  end.

Section Handlers.
Variable s : Service.
Abbreviation program := (prog answer exchange).

(** [fetch]; [k] is what the caller does with the reason. *)
Definition fetch (k : string → program) : program :=
  if invalid_target (target s) then k "ContractConfigurationInvalid"
  else AskWorld (λ x, k (judge_exchange x)).

Definition cancelled_answer : answer := Status 503 "ContractProbeCancelled".

(** The part of [readiness] after the observation.  The deferred release of the slot runs last; the
    answer was written before. *)
Definition publish (reason : string) : program :=
  Inc [reason] (SetToCurrentTime reason (SetReady 0
    (let done := Unlock (Release 0 (Return
       (if reason == "ContractReachable" then Status 200 "ContractReachable" else Status 503 reason)))
     in if reason == "ContractReachable" then SetReady 1 done else done))).

Definition conclude (reason : string) : program :=
  AskBool (λ cancelled,
    if (cancelled : bool) then Inc ["ContractProbeCancelled"] (Release 0 (Return cancelled_answer))
    else Lock (AskBool (λ cancelled,
      if (cancelled : bool) then
        Unlock (Inc ["ContractProbeCancelled"] (Release 0 (Return cancelled_answer)))
      else publish reason))).

Definition readiness : program :=
  TryAcquire 0
    (if enabled s then
       AskBool (λ on, if (on : bool) then fetch conclude else conclude "FeatureDisabled")
     else conclude "FeatureDisabled")
    (Inc ["ContractProbeBusy"] (Return (Status 503 "ContractProbeBusy"))).

(** [Gather], through [promhttp]: a snapshot under the read lock, written after it. *)
Definition Gather : program :=
  RLock (ReadReady (λ r, ReadObserved (λ t, RUnlock (Return (Scrape r t))))).

(** [len(r.TransferEncoding) != 0] and the other inputs a management request may not carry. *)
Definition carries_input (r : HttpRequest) : bool :=
  (URL_RawQuery r != "") || URL_ForceQuery r || (Req_ContentLength r != 0%Z) ||
  (len (Req_TransferEncoding r) != 0%Z).

Definition ServeHTTP (r : HttpRequest) : program :=
  if Method r != "GET" then Return (Status 405 "ReadOnly")
  else if carries_input r then Return (Status 400 "QueryParametersAndBodiesNotSupported")
  else if URL_Path r == "/healthz" then Return (Status 200 "")
  else if URL_Path r == "/metrics" then Gather
  else if URL_Path r == "/readyz" then readiness
  else Return (Status 404 "404 page not found").
End Handlers.

(** One probe at a time. *)
Definition probe_capacity : nat → nat := λ _, 1.

(** The results that set the readiness gauge. *)
Definition reachable_result (reason : string) : bool := reason == "ContractReachable".

(** The results a probe may publish; being busy or cancelled is not one of them. *)
Definition observations : list string :=
  ["FeatureDisabled"; "ContractConfigurationInvalid"; "ContractUnavailable";
   "ContractInvalidResponse"; "ContractReachable"]%string.
Definition observable_reason (reason : string) : bool := existsb (String.eqb reason) observations.

(** ** The handlers are well typed *)

Section Typed.
Variable s : Service.
Abbreviation well_typed := (typed reachable_result observable_reason scraped).

Lemma typed_answer n code text : well_typed n [] (Idle None) (Return (X := exchange) (Status code text)).
Proof. by constructor. Qed.

Lemma typed_publish n reason : observable_reason reason = true → well_typed (6 + n) [0] (Held true Clean None None) (publish reason).
Proof.
  intros Hreason. unfold publish. apply ty_inc, ty_stamp, ty_set; [done|].
  assert (∀ v, v = gauge reachable_result reason → well_typed (2 + n) [0]
    (Held true (Stamped reason (Some v)) None None) (Unlock (Release 0 (Return (X := exchange)
      (if reason == "ContractReachable" then Status 200 "ContractReachable" else Status 503 reason))))) as Hdone.
  { intros v ->. apply ty_publish, ty_release, ty_return. by destruct (reason == _). }
  unfold gauge, reachable_result in Hdone. destruct (reason == "ContractReachable").
  - apply ty_set. by apply Hdone.
  - eapply (typed_weaken _ _ _ (2 + n)); [by apply Hdone|lia].
Qed.

Lemma typed_conclude n reason : observable_reason reason = true →
  well_typed (9 + n) [0] (Idle None) (conclude reason).
Proof.
  intros Hreason.
  assert (∀ m, 2 <= m → well_typed m [0] (Idle None)
    (Inc ["ContractProbeCancelled"] (Release 0 (Return (X := exchange) cancelled_answer)))) as Hcancel.
  { intros [|[|m]] Hm; try lia. apply ty_inc, ty_release. by apply ty_return. }
  unfold conclude. apply ty_bool. intros []; [apply Hcancel; lia|].
  apply ty_lock, ty_bool. intros []; [|by apply typed_publish].
  change (Idle None) with (Idle (pair_of None None)) in Hcancel. apply ty_unlock, Hcancel. lia.
Qed.

Lemma judge_observable x : observable_reason (judge_exchange x) = true.
Proof. unfold judge_exchange. by repeat case_match. Qed.

Lemma typed_readiness : well_typed 12 [] (Idle None) (readiness s).
Proof.
  unfold readiness. apply ty_acquire; [|apply ty_inc, typed_answer].
  destruct (enabled s); [|by apply (typed_conclude 2)].
  apply ty_bool. intros []; [|by apply (typed_conclude 1)]. unfold fetch.
  destruct (invalid_target (target s)); [by apply (typed_conclude 1)|].
  apply ty_world. intros x. apply (typed_conclude 0), judge_observable.
Qed.

Lemma typed_gather : well_typed 12 [] (Idle None) Gather.
Proof.
  unfold Gather. apply ty_rlock, ty_read_ready. intros r. apply ty_read_observed. intros t.
  apply ty_runlock, ty_return. by intros pair [= <-].
Qed.

Lemma typed_ServeHTTP r : well_typed 12 [] (Idle None) (ServeHTTP s r).
Proof.
  unfold ServeHTTP. repeat case_match;
    first [apply typed_answer | apply typed_gather | apply typed_readiness].
Qed.
End Typed.
