(* ===== verification/Source.v ===== *)
(** * The HTTP source connector

    [internal/httpsource]: the bounded read of an export with the configuration of a mounted secret,
    four query slots and a separate probe slot, and the two gauges that publish the last observation.
    Handlers are programs of [Threads]; the content of the configuration file and the exchange with
    the source are one answer of the outside world per read. *)

From Stdlib Require Import Ascii.
From S2P Require Import Prelude Kube Regex GoJson GoStrings GoUrl GoJsonRead GoMime JsonInput.
From S2P Require Import Config Threads Probe.

(** ** Configuration *)

Record sourceConfig := mkSourceConfig { endpointURL : string; bearerToken : string }.

Definition maxConfig : Z := 16384.

(** [bearerPattern]. *)
Definition bearerPattern : re :=
  RCat (RPlus (RClass (λ a, alnum a || one_of "._~+/-" a))) (RStar (RChr "=")).

(** The loop over the members: only the two known keys, each once and with a string. *)
Fixpoint config_fields (members : list (string * jvalue)) (fields : gmap string string)
  : option (gmap string string) :=
  match members with
  | [] => Some fields
  | (key, v) :: members' =>
      if negb ((key == "endpointURL") || (key == "bearerToken")) then None
      else if non_nil (fields !! key) then None
      else match v with
      | DString value => config_fields members' (<[key := value]> fields)
      | _ => None
      end
  end.

Definition invalid_endpoint (raw : string) : bool :=
  match Parse raw with
  | None => true
  | Some u =>
      (Scheme u != "https") || (Hostname u == "") || User u || Contains raw "#" ||
      (RawQuery u != "") || ForceQuery raw || (Opaque u != "")
  end.

(** [readConfig] on the content of the file; [None] is a file that could not be opened or read.  The
    tokens of the decoder spell one object of the scanner whose members are read in order. *)
Definition readConfig (file : option string) : option sourceConfig :=
  match file with
  | None => None
  | Some content =>
      let data := take_bytes (Z.to_nat (maxConfig + 1)) content in
      if (maxConfig <? slen data)%Z || negb (ValidString data) || negb (ValidUnicodeEscapes data)
      then None
      else match next_value data with
      | Some (DObject members, rest) =>
          match config_fields members ∅ with
          | None => None
          | Some fields =>
              if (Z.of_nat (size fields) != 2%Z) || negb (at_eof rest) then None
              else
                let config := mkSourceConfig (default "" (fields !! "endpointURL"))
                                             (default "" (fields !! "bearerToken")) in
                if invalid_endpoint (endpointURL config) then None
                else if negb (MatchString bearerPattern (bearerToken config)) then None
                else Some config
          end
      | _ => None
      end
  end.

(** ** One read of the source *)

Definition maxResponseBytes : Z := 1048576.

(** The exchange: no request, no response, or a response with its headers and its body, [None] when
    reading it failed. *)
Inductive reply :=
  | NoRequest
  | NoResponse
  | Response (status : Z) (contentTypes encodings : list string) (contentLength : Z)
      (body : option string).

(** What one read finds: the configuration file and, for the request made from it, the reply. *)
Record source_world := mkSourceWorld {
  config_file : option string;
  source_reply : sourceConfig → reply
}.

(** [json.Valid]. *)
Definition json_valid (data : string) : bool :=
  match next_value data with Some (_, rest) => at_eof rest | None => false end.

(** The body and the result of a read that obtained a slot. *)
Definition read_source (x : source_world) : string * string :=
  match readConfig (config_file x) with
  | None => ("", "configuration_error")
  | Some config =>
      match source_reply x config with
      | NoRequest => ("", "configuration_error")
      | NoResponse => ("", "upstream_error")
      | Response status contentTypes encodings contentLength body =>
          if (status != 200%Z) then ("", "upstream_error")
          else match contentTypes with
          | [contentType] =>
              if (match ParseMediaType contentType with
                  | Some t => t != "application/json" | None => true end) ||
                 encoded encodings || (maxResponseBytes <? contentLength)%Z
              then ("", "invalid_response")
              else match body with
              | None => ("", "upstream_error")
              | Some content =>
                  let data := take_bytes (Z.to_nat (maxResponseBytes + 1)) content in
                  if (maxResponseBytes <? slen data)%Z || negb (ValidString data) ||
                     negb (json_valid data)
                  then ("", "invalid_response") else (data, "success")
              end
          | _ => ("", "invalid_response")
          end
      end
  end.

Section Handlers.
(** [enabled] tells whether the release callback is set; [openAPI] is the constant document. *)
Variables (enabled : bool) (openAPI : string).
Abbreviation program := (prog answer source_world).

(** The semaphores: four queries and one probe. *)
Definition queries : nat := 0.
Definition probes : nat := 1.

(** The deferred classification: an abandoned read is no observation of the source. *)
Definition classify (body result : string) (k : string → string → program) : program :=
  AskBool (λ cancelled, if (cancelled : bool) then k "" "cancelled" else k body result).

Definition fetch (slot : nat) (k : string → string → program) : program :=
  AskBool (λ cancelled,
    if (cancelled : bool) then classify "" "cancelled" k
    else TryAcquire slot
      (AskWorld (λ x, let '(body, result) := read_source x in Release slot (classify body result k)))
      (classify "" "busy" k)).

Definition record (operation result : string) (k : program) : program :=
  Inc [operation; result]
    (if (result == "busy") || (result == "cancelled") then k
     else Lock (SetToCurrentTime result
            (SetReady (if result == "success" then 1 else 0) (Unlock k)))).

(** [isEnabled]. *)
Definition isEnabled (k : bool → program) : program := if enabled then AskBool k else k false.

(** [readRequest]: the rejection, if any. *)
Definition readRequest (r : HttpRequest) : option answer :=
  if Method r != "GET" then Some (Status 405 "ReadOnly")
  else if carries_input r then Some (Status 400 "QueryParametersAndBodiesNotSupported")
  else None.

Definition not_found : answer := Status 404 "404 page not found".

Definition query (r : HttpRequest) : program :=
  isEnabled (λ on,
    if negb on then record "query" "disabled" (Return not_found)
    else match readRequest r with
    | Some rejection => Return rejection
    | None =>
        fetch queries (λ body result,
          record "query" result (Return
            (if result == "success" then Status 200 body
             else if (result == "configuration_error") || (result == "busy")
             then Status 503 "SourceUnavailable" else Status 502 "SourceUnavailable")))
    end).

(** The document of the readiness endpoint. *)
Definition ready_json (ready : bool) (reason : string) : string :=
  encode (JObject (field "ready" (JBool ready) ++ field "reason" (JString reason))).

Definition probe_answer (result : string) : answer :=
  if result == "success" then Status 200 (ready_json true "SourceReady")
  else if result == "disabled" then Status 503 (ready_json false "FeatureDisabled")
  else Status 503 (ready_json false "SourceUnavailable").

Definition readiness (r : HttpRequest) : program :=
  match readRequest r with
  | Some rejection => Return rejection
  | None =>
      let conclude (_ result : string) : program :=
        record "probe" result (Return (probe_answer result)) in
      isEnabled (λ on, if (on : bool) then fetch probes conclude else conclude "" "disabled")
  end.

Definition contract (r : HttpRequest) : program :=
  isEnabled (λ on,
    if negb on then Return not_found
    else match readRequest r with
    | Some rejection => Return rejection
    | None => Return (Status 200 openAPI)
    end).

Definition healthz (r : HttpRequest) : program :=
  match readRequest r with Some rejection => Return rejection | None => Return (Status 200 "") end.

(** [Gather] holds the observation mutex through the snapshot. *)
Definition Gather : program :=
  Lock (ReadReady (λ r, ReadObserved (λ t, Unlock (Return (Scrape r t))))).
Definition metrics (r : HttpRequest) : program :=
  match readRequest r with Some rejection => Return rejection | None => Gather end.

(** The two multiplexers, by exact path. *)
Definition PublicHandler (r : HttpRequest) : program :=
  if URL_Path r == "/api/data" then query r
  else if URL_Path r == "/openapi.json" then contract r
  else Return not_found.
Definition ManagementHandler (r : HttpRequest) : program :=
  if URL_Path r == "/healthz" then healthz r
  else if URL_Path r == "/readyz" then readiness r
  else if URL_Path r == "/metrics" then metrics r
  else Return not_found.
End Handlers.

(** [make(chan struct{}, 4)] and [make(chan struct{}, 1)]. *)
Definition source_capacity (slot : nat) : nat := if decide (slot = queries) then 4 else 1.

Definition source_success (result : string) : bool := result == "success".

(** A saturated or cancelled read is no observation. *)
Definition source_observable (result : string) : bool :=
  negb ((result == "busy") || (result == "cancelled")).

(** ** The handlers are well typed *)

Section Typed.
Variables (enabled : bool) (openAPI : string).
Abbreviation well_typed := (typed source_success source_observable scraped).

Lemma typed_status n code text :
  well_typed n [] (Idle None) (Return (X := source_world) (Status code text)).
Proof. by constructor. Qed.

Lemma typed_record n operation result k : well_typed n [] (Idle None) k →
  well_typed (5 + n) [] (Idle None) (record operation result k).
Proof.
  intros Hk. unfold record. apply ty_inc. destruct (_ || _) eqn:Hr.
  - eapply typed_weaken; [exact Hk|lia].
  - apply ty_lock, ty_stamp; [unfold source_observable; by rewrite Hr|].
    apply ty_set. by apply ty_publish.
Qed.

Lemma typed_classify n body result k :
  (∀ b r, well_typed n [] (Idle None) (k b r)) →
  well_typed (1 + n) [] (Idle None) (classify body result k).
Proof. intros Hk. apply ty_bool. by intros []. Qed.

Lemma typed_fetch n slot k : (∀ b r, well_typed n [] (Idle None) (k b r)) →
  well_typed (5 + n) [] (Idle None) (fetch slot k).
Proof.
  intros Hk. unfold fetch. apply ty_bool. intros [].
  - eapply typed_weaken; [by apply typed_classify|lia].
  - apply ty_acquire.
    + apply ty_world. intros x. destruct (read_source x) as [body result].
      apply ty_release. by apply typed_classify.
    + eapply typed_weaken; [by apply typed_classify|lia].
Qed.

Lemma typed_enabled n k : (∀ on, well_typed n [] (Idle None) (k on)) →
  well_typed (1 + n) [] (Idle None) (isEnabled enabled k).
Proof.
  intros Hk. unfold isEnabled. destruct enabled; [by apply ty_bool|].
  eapply typed_weaken; [apply Hk|lia].
Qed.

Lemma typed_rejection n r rejection : readRequest r = Some rejection →
  well_typed n [] (Idle None) (Return (X := source_world) rejection).
Proof. unfold readRequest. repeat case_match; intros [= <-]; apply typed_status. Qed.

Lemma typed_query r : well_typed 12 [] (Idle None) (query enabled r).
Proof.
  apply typed_enabled. intros []; cbn [negb].
  - destruct (readRequest r) as [rejection|] eqn:E; [by eapply typed_rejection|].
    apply typed_fetch. intros body result. apply typed_record. repeat case_match; apply typed_status.
  - eapply typed_weaken; [apply typed_record, (typed_status 0)|lia].
Qed.

Lemma typed_probe_readiness r : well_typed 12 [] (Idle None) (readiness enabled r).
Proof.
  unfold readiness. destruct (readRequest r) as [rejection|] eqn:E; [by eapply typed_rejection|].
  assert (∀ result, well_typed 5 [] (Idle None) (record "probe" result (Return (probe_answer result))))
    as Hconclude.
  { intros result. apply (typed_record 0). unfold probe_answer. repeat case_match; apply typed_status. }
  apply typed_enabled. intros [].
  - eapply typed_weaken; [by apply (typed_fetch 5)|lia].
  - eapply typed_weaken; [apply Hconclude|lia].
Qed.

Lemma typed_metrics r : well_typed 12 [] (Idle None) (metrics r).
Proof.
  unfold metrics. destruct (readRequest r) as [rejection|] eqn:E; [by eapply typed_rejection|].
  unfold Gather. apply ty_lock, ty_read_ready. intros v. apply ty_read_observed. intros t.
  apply ty_unlock, ty_return. by intros pair [= <-].
Qed.

Lemma typed_PublicHandler r : well_typed 12 [] (Idle None) (PublicHandler enabled openAPI r).
Proof.
  unfold PublicHandler. destruct (URL_Path r == _); [apply typed_query|].
  destruct (URL_Path r == _); [|apply typed_status]. unfold contract.
  apply typed_enabled. intros []; cbn [negb]; [|apply typed_status].
  destruct (readRequest r) as [rejection|] eqn:E; [by eapply typed_rejection|apply typed_status].
Qed.

Lemma typed_ManagementHandler r : well_typed 12 [] (Idle None) (ManagementHandler enabled r).
Proof.
  unfold ManagementHandler. destruct (URL_Path r == _).
  { unfold healthz. destruct (readRequest r) as [rejection|] eqn:E;
      [by eapply typed_rejection|apply typed_status]. }
  destruct (URL_Path r == _); [apply typed_probe_readiness|].
  destruct (URL_Path r == _); [apply typed_metrics|apply typed_status].
Qed.
End Typed.
