(* ===== verification/ServicesSpec.v ===== *)
(** * What the concurrent services promise

    For any number of concurrent requests to the contract probe or to the HTTP source connector, in
    any interleaving: a scrape pairs the readiness and the time of one observation, semaphores are
    within their capacity, and every request is answered within a fixed number of actions, leaving
    every semaphore free. *)

From S2P Require Import Prelude Kube Regex GoJson GoUrl Threads Probe Source.

(** ** The two services *)

Inductive service :=
  | ContractProbe (s : Service)
  | HttpSource (enabled : bool) (openAPI : string).

Definition outside (sv : service) : Type :=
  match sv with ContractProbe _ => exchange | HttpSource _ _ => source_world end.
Definition capacity (sv : service) : nat → nat :=
  match sv with ContractProbe _ => probe_capacity | HttpSource _ _ => source_capacity end.
Definition success_of (sv : service) : string → bool :=
  match sv with ContractProbe _ => reachable_result | HttpSource _ _ => source_success end.
Definition observable_of (sv : service) : string → bool :=
  match sv with ContractProbe _ => observable_reason | HttpSource _ _ => source_observable end.

(** The handler of a request; the connector has a public and a management listener. *)
Definition handle (sv : service) (request : bool * HttpRequest) : prog answer (outside sv) :=
  match sv with
  | ContractProbe s => ServeHTTP s (snd request)
  | HttpSource enabled openAPI =>
      if fst request then PublicHandler enabled openAPI (snd request)
      else ManagementHandler enabled (snd request)
  end.

(** The requests of a service, none started. *)
Definition serving (sv : service) (requests : list (bool * HttpRequest))
  : config (R := answer) (X := outside sv) := (fresh_service, map (handle sv) requests).

Lemma handle_typed sv request :
  typed (success_of sv) (observable_of sv) scraped 12 [] (Idle None) (handle sv request).
Proof.
  destruct sv as [s|enabled openAPI]; cbn; [apply typed_ServeHTTP|].
  destruct (fst request); [apply typed_PublicHandler|apply typed_ManagementHandler].
Qed.

Lemma serving_typed sv requests :
  Forall (typed (success_of sv) (observable_of sv) scraped 12 [] (Idle None)) (map (handle sv) requests).
Proof. apply list.Forall_forall. intros p (r & <- & _)%list_elem_of_In%in_map_iff. apply handle_typed. Qed.

Lemma outside_inhabited sv : inhabited (outside sv).
Proof.
  destruct sv; [exact (inhabits RequestError)|exact (inhabits (mkSourceWorld None (λ _, NoRequest)))].
Qed.

(** C37.  Observations stay whole.  At any point of any interleaving of requests, semaphores are
    within their capacity (one probe of the contract, four queries and one probe of the source); no
    saturated or cancelled attempt is in the history of observations; and every scrape that was
    answered shows one observation of that history, readiness and time together, the last one when it
    was taken, or the two zeroes of a service that had observed nothing. *)
Theorem scrapes_consistent sv requests m g ps :
  nsteps (step (capacity sv)) m (serving sv requests) (g, ps) →
  (∀ i, sem g i <= capacity sv i) ∧
  Forall (λ e, observable_of sv (fst e) = true) (history g) ∧
  (∀ i r t, ps !! i = Some (Return (Scrape r t)) →
     ∃ before after, history g = before ++ after ∧ (r, t) = latest (success_of sv) before).
Proof.
  intros Hrun.
  destruct (run_safe (capacity sv) (success_of sv) (observable_of sv) scraped 12 _ _ _
    (serving_typed sv requests) Hrun) as (Hcap & Hhist & Hscrape).
  split_and!; [exact Hcap|exact Hhist|]. intros i r t Hi. by apply (Hscrape i (Scrape r t)).
Qed.

(** C38.  Every request is answered.  In any interleaving of requests each takes at most twelve actions
    in all, some request can continue as long as one is unanswered (no deadlock), and once all are
    answered every semaphore is free and the observation mutex is unlocked. *)
Theorem requests_answered sv requests m c :
  nsteps (step (capacity sv)) m (serving sv requests) c →
  m <= 12 * length requests ∧ ((∃ c', step (capacity sv) c c') ∨ quiet_config c).
Proof.
  intros Hrun.
  destruct (run_ends (capacity sv) (success_of sv) (observable_of sv) scraped 12 _ _ _
    (outside_inhabited sv) (serving_typed sv requests) Hrun) as [Hm Hend].
  split; [|by destruct Hend; auto]. rewrite length_map in Hm. lia.
Qed.

(** ** Witnesses *)

Definition get (path : string) : bool * HttpRequest :=
  (false, mkHttpRequest "GET" path "" false 0 []).
Definition sample_probe : service := ContractProbe (mkService "https://example.test/contract" true).
Definition reachable_exchange : exchange := Replied 200 [] 2 (Some 2%Z).

(** A scrape that starts before the probe has released its slot. *)
Definition sample_schedule : list (nat * bool) :=
  [(0, false); (0, true); (0, true); (0, false); (0, false); (0, false); (0, false); (0, false);
   (0, false); (0, false); (0, false); (1, false); (0, false); (1, false); (1, false); (1, false)].
Definition sample_requests : list (bool * HttpRequest) := [get "/readyz"; get "/metrics"].

Lemma sample_run : ∃ g, nsteps (step (capacity sample_probe)) (length sample_schedule)
    (serving sample_probe sample_requests)
    (g, [Return (Status 200 "ContractReachable"); Return (Scrape 1 7%Z)]) ∧
  history g = [("ContractReachable"%string, 7%Z)].
Proof.
  eexists. split.
  - apply (schedule_run (capacity sample_probe) sample_schedule reachable_exchange 7%Z).
    vm_compute. reflexivity.
  - reflexivity.
Qed.

Lemma scrapes_consistent_witness : ∃ g before after,
  history g = [("ContractReachable"%string, 7%Z)] ∧ history g = before ++ after ∧
  (1%Z, 7%Z) = latest (success_of sample_probe) before.
Proof.
  destruct sample_run as (g & Hrun & Hh).
  destruct (scrapes_consistent sample_probe sample_requests _ _ _ Hrun) as (_ & _ & Hscrape).
  destruct (Hscrape 1 1%Z 7%Z eq_refl) as (before & after & Hba & Hpair).
  exists g, before, after. exact (conj Hh (conj Hba Hpair)).
Defined.

Lemma requests_answered_witness : ∃ c,
  nsteps (step (capacity sample_probe)) (length sample_schedule) (serving sample_probe sample_requests) c ∧
  length sample_schedule <= 24 ∧ ((∃ c', step (capacity sample_probe) c c') ∨ quiet_config c).
Proof.
  destruct sample_run as (g & Hrun & _).
  exists (g, [Return (Status 200 "ContractReachable"); Return (Scrape 1 7%Z)]). split; [exact Hrun|].
  exact (requests_answered sample_probe sample_requests _ _ Hrun).
Defined.
