(* ===== verification/GoDecode.v ===== *)
(** * [encoding/json]: decoding into typed values

    [decode_into old v] is [Decode], with [DisallowUnknownFields], into a variable that holds [old]: a null
    leaves strings, numbers, booleans and structs as they are, and members are stored in order.  A failure
    is [None]; the code drops the variable then. *)

From S2P Require Import Prelude GoJson GoStrings Config GoJsonRead.

Class Decodes (A : Type) := {
  zero_value : A;
  decode_into : A → jvalue → option A
}.

Fixpoint store_fields {A} (fields : list (string * (A → jvalue → option A))) (old : A)
    (members : list (string * jvalue)) : option A :=
  match members with
  | [] => Some old
  | (key, v) :: members' =>
      match field_named (map fst fields) key with
      | None => None
      | Some f =>
          match find_first (λ e, String.eqb f (fst e)) fields with
          | None => None
          | Some (_, store) =>
              match store old v with
              | Some new => store_fields fields new members'
              | None => None
              end
          end
      end
  end.
Definition decode_struct {A} (fields : list (string * (A → jvalue → option A))) (old : A) (v : jvalue)
  : option A :=
  match v with
  | DNull => Some old
  | DObject members => store_fields fields old members
  | _ => None
  end.

(** Without [DisallowUnknownFields], other members are skipped. *)
Definition known_members {A} (fields : list (string * (A → jvalue → option A))) (members : list (string * jvalue))
  : list (string * jvalue) :=
  List.filter (λ m : string * jvalue, non_nil (field_named (map fst fields) (fst m))) members.
Definition decode_known {A} (fields : list (string * (A → jvalue → option A))) (old : A) (v : jvalue) : option A :=
  match v with
  | DObject members => store_fields fields old (known_members fields members)
  | _ => decode_struct fields old v
  end.

(** The store of a struct field with its reader and writer. *)
Definition stores {A B} `{Decodes B} (name : string) (get : A → B) (set : B → A → A)
  : string * (A → jvalue → option A) :=
  (name, λ old v,
    match decode_into (get old) v with Some b => Some (set b old) | None => None end).

#[export] Instance decodes_string : Decodes string := {|
  zero_value := "";
  decode_into := λ old v,
    match v with DNull => Some old | DString s => Some s | _ => None end
|}.

(** Slices of documents whose members are distinct: each is decoded once, into nil ([None]). *)
#[export] Instance decodes_slice {A} `{Decodes A} : Decodes (option (list A)) := {|
  zero_value := None;
  decode_into := λ _ v,
    match v with
    | DNull => Some None
    | DArray l => option_map Some (mapM (decode_into zero_value) l)
    | _ => None
    end
|}.

(** Any slice: a repeated member is decoded over the elements of the earlier one, stale elements between
    the length and the capacity included; the rest of the capacity holds zero values. *)
Record slice (A : Type) := mkSlice { items : list A; spare : list A }.
Arguments mkSlice {A} _ _.
Arguments items {A} _.
Arguments spare {A} _.

Fixpoint fill_slice {A} `{Decodes A} (l : list jvalue) (backing : list A) : option (slice A) :=
  match l with
  | [] => Some (mkSlice [] backing)
  | v :: l' =>
      match decode_into (default zero_value (head backing)) v with
      | None => None
      | Some a =>
          match fill_slice l' (tail backing) with
          | Some s => Some (mkSlice (a :: items s) (spare s))
          | None => None
          end
      end
  end.
#[export] Instance decodes_backed {A} `{Decodes A} : Decodes (slice A) := {|
  zero_value := mkSlice [] [];
  decode_into := λ old v,
    match v with
    | DNull | DArray [] => Some (mkSlice [] [])
    | DArray l => fill_slice l (items old ++ spare old)
    | _ => None
    end
|}.

#[export] Instance decodes_bool : Decodes bool := {|
  zero_value := false;
  decode_into := λ old v,
    match v with DNull => Some old | DBool b => Some b | _ => None end
|}.

(** [int64], and [int] on a 64-bit platform: the number is an integer in range. *)
#[export] Instance decodes_int : Decodes Z := {|
  zero_value := 0%Z;
  decode_into := λ old v,
    match v with DNull => Some old | DNumber t => Atoi t | _ => None end
|}.

(** A pointer: null is nil, anything else is decoded into what it points to, or into a new value. *)
#[export] Instance decodes_pointer {A} `{Decodes A} : Decodes (option A) | 20 := {|
  zero_value := None;
  decode_into := λ old v,
    match v with
    | DNull => Some None
    | _ => option_map Some (decode_into (default zero_value old) v)
    end
|}.

(** Maps from strings.  Every element is decoded into the zero value, whatever the map held, so a null
    element is the zero value. *)
Fixpoint store_elements {A} `{Decodes A} (members : list (string * jvalue)) (m : gmap string A)
  : option (gmap string A) :=
  match members with
  | [] => Some m
  | (key, v) :: members' =>
      match decode_into zero_value v with
      | Some a => store_elements members' (<[key := a]> m)
      | None => None
      end
  end.
#[export] Instance decodes_map {A} `{Decodes A} : Decodes (gmap string A) := {|
  zero_value := ∅;
  decode_into := λ old v,
    match v with
    | DNull => Some ∅
    | DObject members => store_elements members old
    | _ => None
    end
|}.
