(* ===== verification/GoRawJson.v ===== *)
(** * [json.RawMessage]

    [json.Unmarshal] into [map[string]json.RawMessage] and [[]json.RawMessage]: the members or elements of a
    document, each as the text it was written with; and what the encoder wrote, taken apart again. *)

From Stdlib Require Import Ascii.
From S2P Require Import Prelude Regex GoJson GoStrings GoUrl GoJsonRead JsonInput GoJsonSpec.

(** The text before [rest], a suffix of [s]. *)
Definition text_before (s rest : string) : string := take_bytes (String.length s - String.length rest) s.

(** The text of the next value, and what follows it. *)
Definition value_text (s : string) : option (string * string) :=
  let s := skip_space s in
  match next_value s with Some (_, rest) => Some (text_before s rest, rest) | None => None end.

(** The members behind an opening brace or a comma.  Every round consumes a byte. *)
Fixpoint member_texts (fuel : nat) (s : string) : option (list (string * string)) :=
  match fuel with
  | O => None
  | S fuel' =>
      match skip_space s with
      | String.String a s1 =>
          if Ascii.eqb a (ascii_of_N 34) then
            '(key, s2) ← string_literal s1;
            match skip_space s2 with
            | String.String b s3 =>
                if Ascii.eqb b ":" then
                  '(raw, s4) ← value_text s3;
                  match skip_space s4 with
                  | String.String c s5 =>
                      if Ascii.eqb c "}" then Some [(key, raw)]
                      else if Ascii.eqb c "," then more ← member_texts fuel' s5; Some ((key, raw) :: more)
                      else None
                  | String.EmptyString => None
                  end
                else None
            | String.EmptyString => None
            end
          else None
      | String.EmptyString => None
      end
  end.

(** The elements behind an opening bracket or a comma. *)
Fixpoint element_texts (fuel : nat) (s : string) : option (list string) :=
  match fuel with
  | O => None
  | S fuel' =>
      '(raw, s1) ← value_text s;
      match skip_space s1 with
      | String.String b s2 =>
          if Ascii.eqb b "]" then Some [raw]
          else if Ascii.eqb b "," then more ← element_texts fuel' s2; Some (raw :: more)
          else None
      | String.EmptyString => None
      end
  end.

(** [json.Unmarshal] checks the whole document first. *)
Definition document_value (s : string) : option jvalue :=
  match next_value s with Some (v, rest) => if at_eof rest then Some v else None | None => None end.

(** [Unmarshal] into a nil map or slice of raw messages: an error, nil for null, or the texts in order. *)
Definition object_texts (s : string) : option (option (list (string * string))) :=
  match document_value s with
  | Some DNull => Some None
  | Some (DObject []) => Some (Some [])
  | Some (DObject _) => option_map Some (member_texts (String.length s) (drop_bytes 1 (skip_space s)))
  | _ => None
  end.
Definition array_texts (s : string) : option (option (list string)) :=
  match document_value s with
  | Some DNull => Some None
  | Some (DArray []) => Some (Some [])
  | Some (DArray _) => option_map Some (element_texts (String.length s) (drop_bytes 1 (skip_space s)))
  | _ => None
  end.

(** The Go map of the members: a later one replaces an earlier one of the same name. *)
Definition text_map (l : list (string * string)) : gmap string string :=
  fill fst snd l ∅.

(** ** What the encoder wrote *)

Lemma text_before_app s t : text_before (s +:+ t) t = s.
Proof.
  unfold text_before. rewrite str_length_app. replace (String.length s + String.length t - String.length t) with (String.length s) by lia.
  induction s as [|a s IH]; [by destruct t|]. rewrite str_app_cons. cbn. by rewrite IH.
Qed.

Lemma value_text_encode d j t : nested d j = true → (Z.of_nat d <= maxNestingDepth)%Z → ends_number t = true →
  value_text (encode j +:+ t) = Some (encode j, t).
Proof.
  intros Hj Hd Ht. unfold value_text. rewrite (skip_encode d) by done.
  rewrite (next_value_seen d) by done. by rewrite text_before_app.
Qed.

Lemma document_value_encode d j : nested d j = true → (Z.of_nat d <= maxNestingDepth)%Z →
  document_value (encode j) = Some (seen_value j).
Proof.
  intros Hj Hd. unfold document_value. rewrite <- (str_app_nil_r (encode j)).
  by rewrite (next_value_seen d).
Qed.

Definition written_member (f : string * json) : string * string := (valid_text (fst f), encode (snd f)).

Lemma member_texts_step fuel key s : member_texts (S fuel) (json_string key +:+ (":" +:+ s)) =
  '(raw, s4) ← value_text s;
  match skip_space s4 with
  | String.String c s5 =>
      if Ascii.eqb c "}" then Some [(valid_text key, raw)]
      else if Ascii.eqb c "," then more ← member_texts fuel s5; Some ((valid_text key, raw) :: more)
      else None
  | String.EmptyString => None
  end.
Proof.
  rewrite json_string_app.
  change (member_texts (S fuel) (quote_byte +:+ (json_chars key +:+ (quote_byte +:+ (":" +:+ s))))) with
    ('(key', s2) ← string_literal (json_chars key +:+ (quote_byte +:+ (":" +:+ s)));
     match skip_space s2 with
     | String.String b s3 =>
         if Ascii.eqb b ":" then
           '(raw, s4) ← value_text s3;
           match skip_space s4 with
           | String.String c s5 =>
               if Ascii.eqb c "}" then Some [(key', raw)]
               else if Ascii.eqb c "," then more ← member_texts fuel s5; Some ((key', raw) :: more)
               else None
           | String.EmptyString => None
           end
         else None
     | String.EmptyString => None
     end).
  rewrite read_string. reflexivity.
Qed.

Lemma member_texts_encode d fs t : (Z.of_nat d <= maxNestingDepth)%Z → fs ≠ [] →
  Forall (λ f, nested d (snd f) = true) fs →
  ∀ fuel, length fs <= fuel →
  member_texts fuel (join "," (map encode_member fs) +:+ ("}" +:+ t)) = Some (map written_member fs).
Proof.
  intros Hd. induction fs as [|m fs IH]; [done|]. intros _ [Hm Hfs]%list.Forall_cons fuel Hf.
  destruct fuel as [|fuel]; [cbn in Hf; lia|]. cbn [map].
  rewrite join_cons, <- str_app_assoc, encode_member_app, member_texts_step. destruct fs as [|m' fs].
  - cbn [map]. rewrite str_app_nil. rewrite (value_text_encode d) by done. reflexivity.
  - set (more := join "," (map encode_member (m' :: fs))) in *.
    change (match map encode_member (m' :: fs) with [] => "" | _ :: _ => "," +:+ more end) with ("," +:+ more).
    rewrite <- str_app_assoc, (value_text_encode d) by done. cbn [mbind option_bind].
    change (skip_space ("," +:+ ?s)) with (String.String "," s). cbv beta iota.
    change (Ascii.eqb "," "}") with false. change (Ascii.eqb "," ",") with true. cbv iota.
    rewrite IH; [done|done|done|]. cbn in Hf |- *. lia.
Qed.

Lemma element_texts_encode d l t : (Z.of_nat d <= maxNestingDepth)%Z → l ≠ [] →
  Forall (λ j, nested d j = true) l → ∀ fuel, length l <= fuel →
  element_texts fuel (join "," (map encode l) +:+ ("]" +:+ t)) = Some (map encode l).
Proof.
  intros Hd. induction l as [|j l IH]; [done|]. intros _ [Hj Hl]%list.Forall_cons fuel Hf.
  destruct fuel as [|fuel]; [cbn in Hf; lia|]. cbn [map].
  rewrite join_cons, <- str_app_assoc. cbn [element_texts]. destruct l as [|j' l].
  - cbn [map]. rewrite str_app_nil, (value_text_encode d) by done. reflexivity.
  - set (more := join "," (map encode (j' :: l))) in *.
    change (match map encode (j' :: l) with [] => "" | _ :: _ => "," +:+ more end) with ("," +:+ more).
    rewrite <- str_app_assoc, (value_text_encode d) by done. cbn [mbind option_bind].
    change (skip_space ("," +:+ ?s)) with (String.String "," s). cbv beta iota.
    change (Ascii.eqb "," "]") with false. change (Ascii.eqb "," ",") with true. cbv iota.
    rewrite IH; [done|done|done|]. cbn in Hf |- *. lia.
Qed.

Lemma join_length l : (∀ s, s ∈ l → 1 <= String.length s) → length l <= String.length (join "," l).
Proof.
  induction l as [|s l IH]; intros Hl; [done|]. rewrite join_cons, str_length_app.
  assert (1 <= String.length s) by (apply Hl; left). assert (∀ s, s ∈ l → 1 <= String.length s) as Hl' by (intros; apply Hl; by right).
  specialize (IH Hl'). destruct l; cbn [length]; [cbn; lia|]. rewrite str_length_app. cbn [length] in IH. lia.
Qed.

Lemma encoded_length d j : nested d j = true → 1 <= String.length (encode j).
Proof.
  intros Hj. destruct (encode_head d j "" Hj) as (a & s & Hs & _). rewrite str_app_nil_r in Hs.
  rewrite Hs. cbn. lia.
Qed.

(** An encoded object is taken apart into the texts of its members. *)
Lemma object_texts_encode d fs : nested (S d) (JObject fs) = true → (Z.of_nat (S d) <= maxNestingDepth)%Z →
  object_texts (encode (JObject fs)) = Some (Some (map written_member fs)).
Proof.
  intros Hn Hd. unfold object_texts. rewrite (document_value_encode (S d)) by done.
  assert (Forall (λ f, nested d (snd f) = true) fs) as Hfs.
  { apply list.Forall_forall. intros f Hf. unfold nested in Hn |- *. cbn [shaped] in Hn.
    rewrite forallb_elem in Hn. by apply Hn, andb_true_iff in Hf as [_ ?]. }
  destruct fs as [|m fs]; [done|]. cbn [seen_value map].
  change (encode (JObject (m :: fs))) with (String.String "{" (join "," (map encode_member (m :: fs)) +:+ "}")).
  change (drop_bytes 1 (skip_space (String.String "{" ?s))) with s.
  rewrite <- (str_app_nil_r "}") at 2. rewrite (member_texts_encode d); [done|lia|done|done|].
  cbn [String.length]. rewrite str_length_app.
  pose proof (join_length (map encode_member (m :: fs))) as H. rewrite length_map in H.
  assert (∀ s, s ∈ map encode_member (m :: fs) → 1 <= String.length s) as Hs.
  { intros s (f & -> & _)%list_elem_of_fmap. unfold encode_member, json_string, quote_byte, one.
    rewrite !str_app_cons. cbn [String.length]. lia. }
  specialize (H Hs). lia.
Qed.

Lemma array_texts_encode d l : nested (S d) (JArray l) = true → (Z.of_nat (S d) <= maxNestingDepth)%Z →
  array_texts (encode (JArray l)) = Some (Some (map encode l)).
Proof.
  intros Hn Hd. unfold array_texts. rewrite (document_value_encode (S d)) by done.
  assert (Forall (λ j, nested d j = true) l) as Hl.
  { apply list.Forall_forall. unfold nested in Hn |- *. cbn [shaped] in Hn. by apply forallb_elem. }
  destruct l as [|j l]; [done|]. cbn [seen_value map].
  change (encode (JArray (j :: l))) with (String.String "[" (join "," (map encode (j :: l)) +:+ "]")).
  change (drop_bytes 1 (skip_space (String.String "[" ?s))) with s.
  rewrite <- (str_app_nil_r "]") at 2. rewrite (element_texts_encode d); [done|lia|done|done|].
  cbn [String.length]. rewrite str_length_app.
  pose proof (join_length (map encode (j :: l))) as H. rewrite length_map in H.
  assert (∀ s, s ∈ map encode (j :: l) → 1 <= String.length s) as Hs.
  { intros s (x & -> & Hx)%list_elem_of_fmap. rewrite list.Forall_forall in Hl. by apply (encoded_length d), Hl. }
  specialize (H Hs). lia.
Qed.
