(* ===== verification/GoUrlString.v ===== *)
(** * [url.URL.String] and [netip.Addr.String]

    The texts of a URL without user information and of an address, as far as the API consumer compares
    them with what it parsed. *)

From Stdlib Require Import Ascii.
From stdpp Require Import pretty.
From S2P Require Import Prelude Regex GoJson GoStrings GoUrl.

(** ** Paths and hosts *)

(** [validEncoded] of a raw path. *)
Definition validEncoded (s : string) : bool :=
  all_bytes (λ a, one_of "!$&'()*+,;=:@[]%" a || negb (shouldEscape encodePath a)) s.

(** [URL.EscapedPath]. *)
Definition EscapedPath (u : URL) : string :=
  if (RawPath u != "") && validEncoded (RawPath u) && bool_decide (unescape encodePath (RawPath u) = Some (Path u))
  then RawPath u
  else if Path u == "*" then "*"
  else escape encodePath (Path u).

(** [escape] of a host. *)
Fixpoint escape_host (s : string) : string :=
  match s with
  | String.EmptyString => ""
  | String.String a s' =>
      if host_safe a then String.String a (escape_host s')
      else String.String "%" (String.String (upper_hex (N_of_ascii a / 16))
             (String.String (upper_hex (N_of_ascii a mod 16)) (escape_host s')))
  end.

(** [URL.String] of a URL with a host, and without an opaque part, user information and a fragment; the
    flag is [ForceQuery]. *)
Definition URL_String (force : bool) (u : URL) : string :=
  (if Scheme u == "" then "" else Scheme u +:+ ":") +:+ "//" +:+ escape_host (Host u) +:+
  (let path := EscapedPath u in
   if (path != "") && negb (HasPrefix path "/") then "/" +:+ path else path) +:+
  (if force || (RawQuery u != "") then "?" +:+ RawQuery u else "").

(** [ForceQuery]: the URL was parsed from a text with a question mark and nothing behind it. *)
Definition ForceQuery (text : string) (u : URL) : bool :=
  (RawQuery u == "") && has_byte "?" (fst (span_until "#" text)).

(** ** IPv6 addresses *)

(** The value of leading hexadecimal digits. *)
Fixpoint hex_value (s : string) (acc : N) : N :=
  match s with
  | String.String a s' =>
      match unhex a with Some d => hex_value s' (16 * acc + d) | None => acc end
  | String.EmptyString => acc
  end.

(** The loop of [parseIPv6] with the groups it stores and the place of the ellipsis, the number of groups
    before it. *)
Fixpoint ipv6_values (fuel : nat) (s : string) (groups : list N) (ellipsis : option nat)
  : option (list N * option nat) :=
  match fuel with
  | O => if s == "" then Some (groups, ellipsis) else None
  | S fuel' =>
      let '(off, rest) := hex_run s in
      if (off =? 0)%nat || (4 <? off)%nat then None
      else match rest with
      | String.EmptyString => Some (groups ++ [hex_value s 0], ellipsis)
      | String.String c t =>
          if Ascii.eqb c "." then
            if (negb (non_nil ellipsis) && negb (length groups =? 6)%nat) || (8 <? length groups + 2)%nat then None
            else match ipv4_fields s 0 0 [] with
            | Some [a; b; c; d] => Some (groups ++ [Z.to_N (256 * a + b); Z.to_N (256 * c + d)], ellipsis)
            | _ => None
            end
          else if negb (Ascii.eqb c ":") then None
          else match t with
          | String.EmptyString => None
          | String.String d t' =>
              let groups := groups ++ [hex_value s 0] in
              if Ascii.eqb d ":" then
                if non_nil ellipsis then None
                else if t' == "" then Some (groups, Some (length groups))
                else ipv6_values fuel' t' groups (Some (length groups))
              else ipv6_values fuel' t groups ellipsis
          end
      end
  end.

(** The eight groups: the ellipsis stands for at least one group of zeros. *)
Definition expand (groups : list N) (ellipsis : option nat) : option (list N) :=
  if (length groups <? 8)%nat then
    match ellipsis with
    | Some at_ => Some (take at_ groups ++ replicate (8 - length groups) 0%N ++ drop at_ groups)
    | None => None
    end
  else if non_nil ellipsis then None else Some groups.

(** The groups of an address without a zone. *)
Definition ipv6_address (s : string) : option (list N) :=
  let leading := HasPrefix s "::" in
  let body := if leading then drop_bytes 2 s else s in
  let start := if leading then Some 0 else None in
  if leading && (body == "") then expand [] start
  else match ipv6_values 8 body [] start with
  | Some (groups, ellipsis) => expand groups ellipsis
  | None => None
  end.

(** [appendHex]. *)
Definition hex_text (n : N) : string :=
  (if (n <? 0x1000)%N then "" else one (hex_digit (n / 0x1000))) +:+
  (if (n <? 0x100)%N then "" else one (hex_digit (n / 0x100 mod 16))) +:+
  (if (n <? 0x10)%N then "" else one (hex_digit (n / 0x10 mod 16))) +:+
  one (hex_digit (n mod 16)).

Fixpoint zero_run (l : list N) : nat :=
  match l with 0%N :: l' => S (zero_run l') | _ => 0 end.
(** The first longest run of at least two zero groups: where it starts and its length. *)
Fixpoint longest_zeros (index : nat) (l : list N) (best : nat * nat) : nat * nat :=
  match l with
  | [] => best
  | _ :: l' =>
      let n := zero_run l in
      longest_zeros (S index) l' (if (2 <=? n)%nat && (snd best <? n)%nat then (index, n) else best)
  end.

(** [Addr.String] of an IPv6 address without a zone. *)
Definition string6 (l : list N) : string :=
  match l with
  | [0; 0; 0; 0; 0; 0xFFFF; a; b]%N =>
      "::ffff:" +:+ string4 (map Z.of_N [a / 256; a mod 256; b / 256; b mod 256]%N)
  | _ =>
      let '(start, n) := longest_zeros 0 l (8, 0) in
      let groups (l : list N) := join ":" (map hex_text l) in
      if (n =? 0)%nat then groups l else groups (take start l) +:+ "::" +:+ groups (drop (start + n) l)
  end.

(** Whether [Addr.String] of an address without a zone gives back the text it was parsed from. *)
Definition canonical_address (s : string) (a : Addr) : bool :=
  match a with
  | Addr4 fields => string4 fields == s
  | Addr6 _ => match ipv6_address s with Some groups => string6 groups == s | None => false end
  end.

(** ** The two parsers of IPv6 addresses agree *)

Lemma ipv4_fields_length s : ∀ v n acc l, ipv4_fields s v n acc = Some l → length l = 4.
Proof.
  induction s as [|a s IH]; intros v n acc l; cbn [ipv4_fields].
  - destruct (Nat.eqb_spec (length acc) 3) as [H|]; [|done]. destruct (n =? 0)%nat; [done|].
    intros [= <-]. rewrite length_app. cbn. lia.
  - destruct (digit a).
    + destruct (_ && _); [done|]. destruct (255 <? _)%Z; [done|]. apply IH.
    + destruct (Ascii.eqb a "."); [|done]. destruct (_ || _); [done|]. apply IH.
Qed.

Lemma ipv6_values_groups fuel : ∀ s groups ellipsis,
  ipv6_groups fuel s (2 * Z.of_nat (length groups)) (non_nil ellipsis) =
  option_map (λ r : list N * option nat, (2 * Z.of_nat (length (fst r)), non_nil (snd r))%Z)
    (ipv6_values fuel s groups ellipsis).
Proof.
  induction fuel as [|fuel IH]; intros s groups ellipsis; cbn [ipv6_groups ipv6_values].
  - by destruct (s == "").
  - destruct (hex_run s) as [off rest]. destruct (_ || _); [done|].
    assert (∀ g : N, (2 * Z.of_nat (length groups) + 2 = 2 * Z.of_nat (length (groups ++ [g])))%Z) as Hone.
    { intros g. rewrite length_app. cbn. lia. }
    destruct rest as [|c t]; [cbn [option_map fst snd]; by rewrite <- Hone|].
    destruct (Ascii.eqb c ".").
    + assert (((2 * Z.of_nat (length groups))%Z != 12%Z) = negb (length groups =? 6)%nat) as ->.
      { destruct (Nat.eqb_spec (length groups) 6); case_bool_decide; cbn; lia. }
      assert ((16 <? 2 * Z.of_nat (length groups) + 4)%Z = (8 <? length groups + 2)%nat) as ->.
      { destruct (Nat.ltb_spec 8 (length groups + 2)); lia. }
      destruct (_ || _); [done|]. destruct (ipv4_fields s 0 0 []) as [l|] eqn:Hl; [|done].
      apply ipv4_fields_length in Hl. destruct l as [|x [|y [|z [|u [|v l]]]]]; try done.
      cbn [option_map fst snd]. rewrite length_app. cbn. do 2 f_equal. lia.
    + destruct (negb _); [done|]. destruct t as [|d t]; [done|].
      rewrite (Hone (hex_value s 0)). destruct (Ascii.eqb d ":"); [|apply IH].
      destruct (non_nil ellipsis); [done|]. destruct (t == ""); [done|].
      apply (IH t _ (Some (length (groups ++ [hex_value s 0])))).
Qed.

(** An address without a zone has a value exactly when it is one. *)
Lemma ipv6_address_parses s : cut_first "%" s = None →
  non_nil (ipv6_address s) = non_nil (parseIPv6 s).
Proof.
  intros Hz. unfold parseIPv6, ipv6_address. rewrite Hz. cbn [default].
  destruct (HasPrefix s "::"); cbn [andb].
  - destruct (drop_bytes 2 s == ""); [done|].
    pose proof (ipv6_values_groups 8 (drop_bytes 2 s) [] (Some 0)) as H. change (2 * Z.of_nat (length (@nil N)))%Z with 0%Z in H.
    cbn [non_nil] in H. rewrite H. destruct (ipv6_values _ _ _ _) as [[l e]|]; [|done]. cbn [option_map fst snd]. unfold expand.
    destruct (Nat.ltb_spec (length l) 8), (Z.ltb_spec (2 * Z.of_nat (length l)) 16); try lia; by destruct e.
  - pose proof (ipv6_values_groups 8 s [] None) as H. change (2 * Z.of_nat (length (@nil N)))%Z with 0%Z in H.
    cbn [non_nil] in H. rewrite H. destruct (ipv6_values _ _ _ _) as [[l e]|]; [|done]. cbn [option_map fst snd]. unfold expand.
    destruct (Nat.ltb_spec (length l) 8), (Z.ltb_spec (2 * Z.of_nat (length l)) 16); try lia; by destruct e.
Qed.

Example address_plain : ipv6_address "2001:db8::1" = Some [0x2001; 0xdb8; 0; 0; 0; 0; 0; 1]%N.
Proof. vm_compute. reflexivity. Qed.
Example address_text : map (λ s, string6 <$> ipv6_address s) ["::"; "::1"; "1:0:0:2:0:0:0:3"; "1:2:3:4:5:6:7::"; "::ffff:1.2.3.4"]%string =
  [Some "::"; Some "::1"; Some "1:0:0:2::3"; Some "1:2:3:4:5:6:7:0"; Some "::ffff:1.2.3.4"]%string.
Proof. vm_compute. reflexivity. Qed.
