(* ===== verification/LineageClient.v ===== *)
(** * The trace reader

    [docs/examples/lineage-client/main.go]: a program that reads one saved dependency trace with the
    standard library only and prints what it observed, without contacting anything. *)

From S2P Require Import Prelude Kube GoJson GoStrings GoUrl Config GoJsonRead GoDecode.

Record observation := mkObservation {
  Obs_State : string;
  Obs_Message : string;
  Obs_Generation : Z;
  Obs_ObservedGeneration : Z
}.

(** The anonymous struct [Owner] points to. *)
Record tracedOwner := mkOwner { TO_Name : string; TO_URL : string }.

Record product := mkProduct {
  Key : string;
  State : string;
  TP_ID : string;
  TP_DisplayName : string;
  TP_Version : string;
  TP_Owner : option tracedOwner;
  TP_Generation : Z;
  TP_ObservedGeneration : Z;
  Health : gmap string observation
}.

(** The anonymous structs of the edges and of their requirements. *)
Record tracedRequirement := mkRequirement { TR_Protocol : string; TR_MinimumVersion : string }.
Record tracedEdge := mkEdge {
  TE_From : string;
  TE_To : string;
  TE_Input : string;
  TE_Output : string;
  TE_Depth : Z;
  TE_State : string;
  TE_Compatibility : string;
  TE_Requirement : option tracedRequirement
}.

Record trace := mkTrace {
  T_APIVersion : string;
  T_Root : string;
  T_Complete : bool;
  T_Issues : slice string;
  T_Nodes : slice product;
  T_Edges : slice tracedEdge
}.

(** ** Decoding *)

#[export] Instance decodes_observation : Decodes observation := {|
  zero_value := mkObservation "" "" 0 0;
  decode_into := decode_struct
    [stores "state" Obs_State (λ s o, mkObservation s (Obs_Message o) (Obs_Generation o) (Obs_ObservedGeneration o));
     stores "message" Obs_Message (λ s o, mkObservation (Obs_State o) s (Obs_Generation o) (Obs_ObservedGeneration o));
     stores "generation" Obs_Generation (λ n o, mkObservation (Obs_State o) (Obs_Message o) n
       (Obs_ObservedGeneration o));
     stores "observedGeneration" Obs_ObservedGeneration (λ n o, mkObservation (Obs_State o) (Obs_Message o)
       (Obs_Generation o) n)]
|}.

#[export] Instance decodes_owner : Decodes tracedOwner := {|
  zero_value := mkOwner "" "";
  decode_into := decode_struct
    [stores "name" TO_Name (λ s o, mkOwner s (TO_URL o)); stores "url" TO_URL (λ s o, mkOwner (TO_Name o) s)]
|}.

#[export] Instance decodes_product : Decodes product := {|
  zero_value := mkProduct "" "" "" "" "" None 0 0 ∅;
  decode_into := decode_struct
    [stores "key" Key (λ s p, mkProduct s (State p) (TP_ID p) (TP_DisplayName p) (TP_Version p) (TP_Owner p)
       (TP_Generation p) (TP_ObservedGeneration p) (Health p));
     stores "state" State (λ s p, mkProduct (Key p) s (TP_ID p) (TP_DisplayName p) (TP_Version p) (TP_Owner p)
       (TP_Generation p) (TP_ObservedGeneration p) (Health p));
     stores "id" TP_ID (λ s p, mkProduct (Key p) (State p) s (TP_DisplayName p) (TP_Version p) (TP_Owner p)
       (TP_Generation p) (TP_ObservedGeneration p) (Health p));
     stores "displayName" TP_DisplayName (λ s p, mkProduct (Key p) (State p) (TP_ID p) s (TP_Version p)
       (TP_Owner p) (TP_Generation p) (TP_ObservedGeneration p) (Health p));
     stores "version" TP_Version (λ s p, mkProduct (Key p) (State p) (TP_ID p) (TP_DisplayName p) s
       (TP_Owner p) (TP_Generation p) (TP_ObservedGeneration p) (Health p));
     stores "owner" TP_Owner (λ o p, mkProduct (Key p) (State p) (TP_ID p) (TP_DisplayName p) (TP_Version p)
       o (TP_Generation p) (TP_ObservedGeneration p) (Health p));
     stores "generation" TP_Generation (λ n p, mkProduct (Key p) (State p) (TP_ID p) (TP_DisplayName p)
       (TP_Version p) (TP_Owner p) n (TP_ObservedGeneration p) (Health p));
     stores "observedGeneration" TP_ObservedGeneration (λ n p, mkProduct (Key p) (State p) (TP_ID p)
       (TP_DisplayName p) (TP_Version p) (TP_Owner p) (TP_Generation p) n (Health p));
     stores "health" Health (λ h p, mkProduct (Key p) (State p) (TP_ID p) (TP_DisplayName p) (TP_Version p)
       (TP_Owner p) (TP_Generation p) (TP_ObservedGeneration p) h)]
|}.

#[export] Instance decodes_requirement : Decodes tracedRequirement := {|
  zero_value := mkRequirement "" "";
  decode_into := decode_struct
    [stores "protocol" TR_Protocol (λ s r, mkRequirement s (TR_MinimumVersion r));
     stores "minimumVersion" TR_MinimumVersion (λ s r, mkRequirement (TR_Protocol r) s)]
|}.

#[export] Instance decodes_edge : Decodes tracedEdge := {|
  zero_value := mkEdge "" "" "" "" 0 "" "" None;
  decode_into := decode_struct
    [stores "from" TE_From (λ s e, mkEdge s (TE_To e) (TE_Input e) (TE_Output e) (TE_Depth e) (TE_State e)
       (TE_Compatibility e) (TE_Requirement e));
     stores "to" TE_To (λ s e, mkEdge (TE_From e) s (TE_Input e) (TE_Output e) (TE_Depth e) (TE_State e)
       (TE_Compatibility e) (TE_Requirement e));
     stores "input" TE_Input (λ s e, mkEdge (TE_From e) (TE_To e) s (TE_Output e) (TE_Depth e) (TE_State e)
       (TE_Compatibility e) (TE_Requirement e));
     stores "output" TE_Output (λ s e, mkEdge (TE_From e) (TE_To e) (TE_Input e) s (TE_Depth e) (TE_State e)
       (TE_Compatibility e) (TE_Requirement e));
     stores "depth" TE_Depth (λ n e, mkEdge (TE_From e) (TE_To e) (TE_Input e) (TE_Output e) n (TE_State e)
       (TE_Compatibility e) (TE_Requirement e));
     stores "state" TE_State (λ s e, mkEdge (TE_From e) (TE_To e) (TE_Input e) (TE_Output e) (TE_Depth e) s
       (TE_Compatibility e) (TE_Requirement e));
     stores "compatibility" TE_Compatibility (λ s e, mkEdge (TE_From e) (TE_To e) (TE_Input e) (TE_Output e)
       (TE_Depth e) (TE_State e) s (TE_Requirement e));
     stores "requirement" TE_Requirement (λ r e, mkEdge (TE_From e) (TE_To e) (TE_Input e) (TE_Output e)
       (TE_Depth e) (TE_State e) (TE_Compatibility e) r)]
|}.

#[export] Instance decodes_trace : Decodes trace := {|
  zero_value := mkTrace "" "" false zero_value zero_value zero_value;
  decode_into := decode_struct
    [stores "apiVersion" T_APIVersion (λ s t, mkTrace s (T_Root t) (T_Complete t) (T_Issues t) (T_Nodes t)
       (T_Edges t));
     stores "root" T_Root (λ s t, mkTrace (T_APIVersion t) s (T_Complete t) (T_Issues t) (T_Nodes t) (T_Edges t));
     stores "complete" T_Complete (λ b t, mkTrace (T_APIVersion t) (T_Root t) b (T_Issues t) (T_Nodes t)
       (T_Edges t));
     stores "issues" T_Issues (λ l t, mkTrace (T_APIVersion t) (T_Root t) (T_Complete t) l (T_Nodes t) (T_Edges t));
     stores "nodes" T_Nodes (λ l t, mkTrace (T_APIVersion t) (T_Root t) (T_Complete t) (T_Issues t) l (T_Edges t));
     stores "edges" T_Edges (λ l t, mkTrace (T_APIVersion t) (T_Root t) (T_Complete t) (T_Issues t) (T_Nodes t) l)]
|}.

(** ** Reading *)

(** [readTraceFile], for the file the path names: [None] when it cannot be opened or examined, else whether
    it is regular and what reading it gives, [None] for an error.  The limited reader delivers one byte
    more than the limit of a longer file.  The caller keeps only that there is an error. *)
Definition readTraceFile (file : option (bool * option string)) : option trace :=
  match file with
  | Some (true, Some data) =>
      if (2097152 <? slen data)%Z then None
      else
        '(value, rest) ← next_value data;
        result ← decode_into zero_value value;
        if negb (at_eof rest) then None
        else if (T_APIVersion result != "data-product-lineage/v1") || (T_Root result == "") ||
                (256 <? len (items (T_Nodes result)))%Z || (1024 <? len (items (T_Edges result)))%Z
        then None
        else Some result
  | _ => None
  end.

(** ** Printing *)

(** The states of the nodes by key; a later node with the same key replaces an earlier one. *)
Definition node_states (l : list product) : gmap string string :=
  fill Key State l ∅.

Section Printing.
Context `{F : GoFmt}.

Definition root_line (t : trace) : string :=
  Quote (T_Root t) +:+ ": " +:+ (if T_Complete t then "complete" else "incomplete").
Definition edge_line (nodes : gmap string string) (e : tracedEdge) : string :=
  let state := default "" (nodes !! TE_To e) in
  let health := if state == "" then "not-inspected" else state in
  Quote (TE_From e) +:+ " input " +:+ Quote (TE_Input e) +:+ " -> " +:+ Quote (TE_To e) +:+ " output " +:+
  Quote (TE_Output e) +:+ ": " +:+ Quote (TE_Compatibility e) +:+ "; producer " +:+ Quote health +:+
  "; trace " +:+ Quote (TE_State e).

(** [main]: the exit code and the lines of standard output and of standard error, for the number of
    arguments and the file the second one names. *)
Definition main (arguments : nat) (file : option (bool * option string)) : Z * list string * list string :=
  if negb (arguments =? 2)%nat then (2%Z, [], ["Usage: go run main.go trace.json"%string])
  else match readTraceFile file with
  | None => (1%Z, [], ["Could not read a supported dependency trace."%string])
  | Some result =>
      (0%Z, root_line result :: map (edge_line (node_states (items (T_Nodes result)))) (items (T_Edges result)), [])
  end.
End Printing.
