(* ===== verification/LineageClientSpec.v ===== *)
(** * What the trace reader promises

    Every trace the registry serves is read back field by field and printed in full: its root, whether it
    is complete, and one line per edge with the state of the producer the walk found. *)

From stdpp Require Import pretty.
From S2P Require Import Prelude Kube Api Regex GoJson GoStrings GoUrl Config Composition.
From S2P Require Import Reference Descriptor GoJsonRead GoDecode JsonInput GoJsonSpec.
From S2P Require Import LineageClient Lineage LineageProofs LineageSpec.

(** ** The trace as the reader sees it *)

Definition seen_observation (h : healthDimension) : observation :=
  mkObservation (valid_text (HD_State h)) (valid_text (HD_Message h)) (HD_Generation h) (HD_ObservedGeneration h).
Definition seen_owner (o : ProductOwner) : tracedOwner :=
  mkOwner (valid_text (Owner_Name o)) (valid_text (Owner_URL o)).
Definition seen_requirement (c : InputContract) : tracedRequirement :=
  mkRequirement (valid_text (Contract_Protocol c)) (valid_text (MinimumVersion c)).
Definition seen_health (l : list (string * healthDimension)) : gmap string observation :=
  foldl (λ m e, <[valid_text (fst e) := seen_observation (snd e)]> m) ∅ l.
Definition seen_node (n : lineageNode) : product :=
  mkProduct (valid_text (Node_Key n)) (valid_text (Node_State n)) (valid_text (Node_ID n))
    (valid_text (Node_DisplayName n)) (valid_text (Node_Version n)) (seen_owner <$> Node_Owner n)
    (Node_Generation n) (Node_ObservedGeneration n) (seen_health (Node_Health n)).
Definition seen_edge (e : lineageEdge) : tracedEdge :=
  LineageClient.mkEdge (valid_text (From e)) (valid_text (To e)) (valid_text (Edge_Input e))
    (valid_text (Edge_Output e)) (Edge_Depth e) (valid_text (Edge_State e)) (valid_text (Edge_Compatibility e))
    (seen_requirement <$> Edge_Requirement e).
Definition fresh {A} (l : list A) : slice A := mkSlice l [].
Definition seen_trace (t : lineageTrace) : LineageClient.trace :=
  LineageClient.mkTrace (valid_text (Trace_APIVersion t)) (valid_text (Trace_Root t)) (Complete t)
    (fresh (map valid_text (Trace_Issues t))) (fresh (map seen_node (Trace_Nodes t)))
    (fresh (map seen_edge (Trace_Edges t))).

(** ** Decoding what was encoded *)

(** What [f] writes for a value in [P] is decoded as what [g] gives. *)
Definition decodes_seen {A B} `{Decodes B} (P : A → Prop) (f : A → json) (g : A → B) : Prop :=
  ∀ a, P a → decode_into zero_value (seen_value (f a)) = Some (g a).

Lemma fill_fresh {A B} `{Decodes B} (P : A → Prop) (f : A → json) (g : A → B) l :
  decodes_seen P f g → Forall P l →
  fill_slice (map seen_value (map f l)) [] = Some (fresh (map g l)).
Proof.
  intros Hf. induction 1 as [|a l Ha _ IH]; [done|]. cbn [map fill_slice head default tail].
  by rewrite (Hf a Ha), IH.
Qed.

Lemma decode_slice {A B} `{Decodes B} (P : A → Prop) (f : A → json) (g : A → B) l :
  decodes_seen P f g → Forall P l →
  decode_into (A := slice B) zero_value (seen_value (JArray (map f l))) = Some (fresh (map g l)).
Proof.
  intros Hf Hl. pose proof (fill_fresh P f g l Hf Hl) as Hs. destruct l as [|a l]; [done|exact Hs].
Qed.

Definition wide (n : Z) : Prop := (- 2 ^ 63 <= n < 2 ^ 63)%Z.

Lemma exact_wide n : validGeneration n = true → wide n.
Proof.
  unfold validGeneration, maxPortableGeneration, wide. rewrite andb_true_iff, !Z.leb_le. lia.
Qed.

Lemma decode_int : decodes_seen wide JInt (λ n, n).
Proof. intros n Hn. change (Atoi (pretty n) = Some n). unfold wide in Hn. by apply Atoi_pretty. Qed.

Lemma decode_string : decodes_seen (λ _, True) JString valid_text.
Proof. intros s _. reflexivity. Qed.

(** The members of a written struct, their names as they are. *)
Ltac seen_fields :=
  cbn [seen_value map app fst snd];
  repeat match goal with
  | |- context [valid_text (String.String ?a ?s)] =>
      let t := eval vm_compute in (valid_text (String.String a s)) in
      change (valid_text (String.String a s)) with t
  end.

Lemma decode_observation : decodes_seen (λ h, wide (HD_Generation h) ∧ wide (HD_ObservedGeneration h))
  health_json seen_observation.
Proof.
  intros [s m g o] [Hg Ho]. cbn [HD_Generation HD_ObservedGeneration] in Hg, Ho.
  unfold health_json, field. cbn [HD_State HD_Message HD_Generation HD_ObservedGeneration]. seen_fields.
  cbn -[Atoi pretty valid_text]. rewrite (Atoi_pretty g Hg). cbn -[Atoi pretty valid_text].
  by rewrite (Atoi_pretty o Ho).
Qed.

Lemma decode_owner : decodes_seen (λ _, True) ProductOwner_json seen_owner.
Proof.
  intros [n u] _. unfold ProductOwner_json, omit_string, seen_owner. cbn [Owner_URL Owner_Name].
  case_bool_decide as Hu; [subst u|]; reflexivity.
Qed.

Lemma decode_requirement : decodes_seen (λ _, True) InputContract_json seen_requirement.
Proof. intros [p v] _. reflexivity. Qed.

Definition member (e : string * healthDimension) : string * json := (fst e, health_json (snd e)).

Lemma decode_health l : Forall (λ e, wide (HD_Generation (snd e)) ∧ wide (HD_ObservedGeneration (snd e))) l →
  ∀ m, decode_into (A := gmap string observation) m (seen_value (JObject (map member l))) =
    Some (foldl (λ m e, <[valid_text (fst e) := seen_observation (snd e)]> m) m l).
Proof.
  cbn [seen_value decode_into decodes_map]. rewrite map_map.
  induction 1 as [|e l He _ IH]; intros m; [done|]. cbn [map store_elements foldl].
  change (decode_into zero_value _) with (decode_into (A := observation) zero_value (seen_value (health_json (snd e)))).
  by rewrite (decode_observation _ He), IH.
Qed.

(** Lists, maps and numbers stay folded while the structs around them are computed. *)
#[local] Opaque decodes_backed decodes_map decodes_int valid_text.

Definition node_wide (n : lineageNode) : Prop :=
  wide (Node_Generation n) ∧ wide (Node_ObservedGeneration n) ∧
  Forall (λ e, wide (HD_Generation (snd e)) ∧ wide (HD_ObservedGeneration (snd e))) (Node_Health n).

Lemma exact_node n : node_exact n = true → node_wide n.
Proof.
  unfold node_exact. rewrite !andb_true_iff, forallb_elem. intros [[Hg Ho] Hh].
  split; [by apply exact_wide|]. split; [by apply exact_wide|]. apply list.Forall_forall. intros e He.
  apply Hh, andb_true_iff in He as [H1 H2]. by split; apply exact_wide.
Qed.

Lemma int_value n : wide n → decode_into (Decodes := decodes_int) 0%Z (DNumber (pretty n)) = Some n.
Proof. intros Hn. exact (Atoi_pretty n Hn). Qed.

Lemma decode_edge : decodes_seen (λ e, wide (Edge_Depth e)) lineageEdge_json seen_edge.
Proof.
  intros [f t i o d s c r] Hd. cbn [Edge_Depth] in Hd. apply int_value in Hd.
  unfold lineageEdge_json, field, omit_nil.
  cbn [From To Edge_Input Edge_Output Edge_Depth Edge_State Edge_Compatibility Edge_Requirement].
  destruct r as [[p v]|]; unfold InputContract_json, field;
    cbn [MinimumVersion Contract_Protocol]; seen_fields; cbn -[pretty]; rewrite Hd; reflexivity.
Qed.

Lemma decode_node : decodes_seen node_wide lineageNode_json seen_node.
Proof.
  intros [k st i dn v ow g o h] (Hg & Ho & Hh). cbn [Node_Generation Node_ObservedGeneration Node_Health] in *.
  apply int_value in Hg, Ho. pose proof (decode_health h Hh ∅) as Hm.
  unfold lineageNode_json, field, omit_nil, omit_string, seen_node.
  cbn [Node_Key Node_State Node_ID Node_DisplayName Node_Version Node_Owner Node_Generation
    Node_ObservedGeneration Node_Health].
  destruct h as [|e h]; [clear Hm|fold (seen_health (e :: h)) in Hm; change (map _ (e :: h)) with (map member (e :: h));
    revert Hm; generalize (JObject (map member (e :: h))), (seen_health (e :: h)); intros hj m Hm];
    (destruct ow as [[on ou]|]; [unfold ProductOwner_json, omit_string, field; cbn [Owner_Name Owner_URL]|]);
    repeat case_bool_decide; subst; seen_fields; cbn -[pretty]; rewrite Hg; cbn -[pretty]; rewrite Ho;
    first [reflexivity|cbn; rewrite Hm; reflexivity].
Qed.

Lemma decode_trace t : Forall node_wide (Trace_Nodes t) → Forall (λ e, wide (Edge_Depth e)) (Trace_Edges t) →
  decode_into zero_value (seen_value (lineageTrace_json t)) = Some (seen_trace t).
Proof.
  destruct t as [v r c iss ns es]. cbn [Trace_Nodes Trace_Edges]. intros Hn He.
  pose proof (decode_slice _ _ _ iss decode_string ltac:(by apply list.Forall_forall)) as Hi.
  apply (decode_slice _ _ _ _ decode_node) in Hn. apply (decode_slice _ _ _ _ decode_edge) in He.
  unfold lineageTrace_json, field, strings_json, seen_trace.
  cbn [Trace_APIVersion Trace_Root Complete Trace_Issues Trace_Nodes Trace_Edges].
  revert Hi Hn He.
  generalize (JArray (map JString iss)), (JArray (map lineageNode_json ns)), (JArray (map lineageEdge_json es)),
    (fresh (map valid_text iss)), (fresh (map seen_node ns)), (fresh (map seen_edge es)).
  intros ji jn je i n e Hi Hn He. seen_fields. cbn in Hi, Hn, He |- *.
  rewrite Hi. cbn. rewrite Hn. cbn. rewrite He. reflexivity.
Qed.

(** ** The document *)

Lemma nested_array d l : Forall (λ j, nested d j = true) l → nested (S d) (JArray l) = true.
Proof. intros Hl. apply forallb_elem. by apply list.Forall_forall. Qed.

Lemma nested_map {A} d (f : A → json) l : (∀ a, nested d (f a) = true) → nested (S d) (JArray (map f l)) = true.
Proof. intros Hf. apply nested_array, list.Forall_fmap, list.Forall_forall. intros a _. apply Hf. Qed.

Lemma nested_health d l : nested (S (S d)) (JObject (map member l)) = true.
Proof. apply forallb_elem. intros f (e & -> & _)%list_elem_of_fmap. by destruct d. Qed.

Lemma nested_object d fs : Forall (λ f, nested d (snd f) = true) fs → nested (S d) (JObject fs) = true.
Proof. intros Hl. apply forallb_elem. by apply list.Forall_forall. Qed.

Lemma nested_owner d o : nested (S d) (ProductOwner_json o) = true.
Proof.
  unfold ProductOwner_json, omit_string, field. case_bool_decide; apply nested_object;
    repeat (apply list.Forall_cons; split; [by destruct d|]); constructor.
Qed.

Lemma nested_node n : nested 3 (lineageNode_json n) = true.
Proof.
  apply nested_object. unfold field, omit_string, omit_nil. rewrite !Forall_app.
  split_and!; repeat case_bool_decide; repeat (apply list.Forall_cons; split; [done|]); try constructor.
  - destruct (Node_Owner n) as [o|]; constructor; [exact (nested_owner 1 o)|constructor].
  - destruct (Node_Health n) as [|e h]; constructor; [exact (nested_health 0 (e :: h))|constructor].
Qed.

Lemma nested_edge e : nested 3 (lineageEdge_json e) = true.
Proof. by destruct e as [f t i o d s c [[p v]|]]. Qed.

Lemma nested_trace t : nested 5 (lineageTrace_json t) = true.
Proof.
  pose proof (nested_map 3 JString (Trace_Issues t) (λ _, eq_refl)) as Hi.
  pose proof (nested_map 3 _ (Trace_Nodes t) nested_node) as Hn.
  pose proof (nested_map 3 _ (Trace_Edges t) nested_edge) as He.
  apply forallb_elem. intros f. unfold field, strings_json. cbn [app].
  rewrite !elem_of_cons, elem_of_nil. intros [->|[->|[->|[->|[->|[->|[]]]]]]]; cbn [snd fst];
    [done|done|done|exact Hi|exact Hn|exact He].
Qed.

(** A small enough trace of bounded size is read back. *)
Lemma read_trace t :
  Trace_APIVersion t = "data-product-lineage/v1" → valid_text (Trace_Root t) ≠ "" →
  Forall node_wide (Trace_Nodes t) → Forall (λ e, wide (Edge_Depth e)) (Trace_Edges t) →
  (len (Trace_Nodes t) <= 256)%Z → (len (Trace_Edges t) <= 1024)%Z →
  (slen (encode (lineageTrace_json t)) <= 2097152)%Z →
  readTraceFile (Some (true, Some (encode (lineageTrace_json t)))) = Some (seen_trace t).
Proof.
  intros Hv Hr Hn He Ln Le Hs. unfold readTraceFile. rewrite (proj2 (Z.ltb_ge _ _) Hs).
  rewrite <- (str_app_nil_r (encode _)).
  rewrite (next_value_seen 5 _ _ (nested_trace t)) by first [done|vm_compute; discriminate].
  cbn [mbind option_bind]. rewrite (decode_trace t Hn He). cbn [mbind option_bind].
  change (negb (at_eof "")) with false. cbv iota.
  change (T_APIVersion (seen_trace t)) with (valid_text (Trace_APIVersion t)).
  change (T_Root (seen_trace t)) with (valid_text (Trace_Root t)).
  change (items (T_Nodes (seen_trace t))) with (map seen_node (Trace_Nodes t)).
  change (items (T_Edges (seen_trace t))) with (map seen_edge (Trace_Edges t)).
  rewrite Hv, (bool_decide_eq_false_2 (valid_text (Trace_Root t) = "")) by done.
  unfold len in *. rewrite !length_map, (proj2 (Z.ltb_ge _ _) Ln), (proj2 (Z.ltb_ge _ _) Le).
  change (valid_text "data-product-lineage/v1") with "data-product-lineage/v1"%string. by rewrite bool_decide_true.
Qed.

(** ** A served trace *)

Section Served.
Context `{E : Env} `{C : ConditionApi} `{N : NameValidation}.

Lemma served_trace (s : server) slot ctx r w data w' :
  productLineage s slot ctx r w = (Success data, w') →
  ∃ compatibility ctx' w1 result g w2, server_inputCompatibility s = Some compatibility ∧
    trace_root s compatibility ctx' (mkKey (PathNamespace r) (PathName r)) w1 = ((Traced result, g), w2) ∧
    data = encode (lineageTrace_json (publish g)) ∧ (slen data <= 2097152)%Z.
Proof.
  unfold productLineage, mbind, st_bind.
  destruct (lineageAvailable s ctx w) as [[] w1]; [|done].
  destruct (server_inputCompatibility s) as [compatibility|]; [|done].
  destruct (_ || _); [done|]. destruct slot; [|done]. cbn [negb].
  destruct (WithTimeout ctx _ w1) as [ctx' w2].
  destruct (trace_root s compatibility ctx' _ w2) as [[outcome g] w3] eqn:Ht.
  destruct outcome as [state|result]; [done|].
  destruct (Z.ltb_spec maxDiscoveryResponseBytes (slen (encode (lineageTrace_json (publish g))))) as [|Hs]; [done|].
  intros [= <- <-]. exists compatibility, ctx', w2, result, g, w3. by split_and!.
Qed.

(** What the walk leaves for the reader. *)
Lemma published s compatibility ctx key w result g w' :
  trace_root s compatibility ctx key w = ((Traced result, g), w') →
  let t := publish g in
  Trace_APIVersion t = "data-product-lineage/v1" ∧ Trace_Root t = key_String key ∧
  Trace_Nodes t ≡ₚ map snd (map_to_list (lw_nodes g)) ∧
  Forall node_wide (Trace_Nodes t) ∧ Forall (λ e, wide (Edge_Depth e)) (Trace_Edges t) ∧
  (len (Trace_Nodes t) <= 256)%Z ∧ (len (Trace_Edges t) <= 1024)%Z ∧
  (∀ id n, lw_nodes g !! id = Some n → Node_Key n = id).
Proof.
  intros (I & G & _)%trace_root_spec. cbv zeta.
  destruct G as [_ _ _ _ (new & He & Hok & _) _ Hh]. injection Hh as Hv Hr _ Hn. cbn in He. subst new.
  cbn [publish Trace_APIVersion Trace_Root Trace_Nodes Trace_Edges]. rewrite Hn. cbn [app].
  assert (sort_slice (less_by Node_Key) (map snd (map_to_list (lw_nodes g))) ≡ₚ map snd (map_to_list (lw_nodes g))) as Hp
    by apply sort_slice_perm.
  split_and!; [done|done|done|..].
  - rewrite Hp. apply list.Forall_fmap, list.Forall_forall. intros [id n] Hin%elem_of_map_to_list.
    apply exact_node. by apply (i_exact _ _ I id).
  - rewrite sort_slice_perm. eapply list.Forall_impl; [exact Hok|]. intros e [Hd _]. unfold wide. lia.
  - unfold len. rewrite Hp, length_map, length_map_to_list. apply I.
  - unfold len. rewrite sort_slice_perm. apply I.
  - intros id n Hid. by apply (i_keys _ _ I) in Hid as [? _].
Qed.

Lemma seen_states g (l : list lineageNode) : l ≡ₚ map snd (map_to_list (lw_nodes g)) →
  (∀ id n, lw_nodes g !! id = Some n → Node_Key n = id) →
  map_Forall (λ id _, ValidString id = true) (lw_nodes g) →
  ∀ k, node_states (map seen_node l) !! k = (λ n, valid_text (Node_State n)) <$> lw_nodes g !! k.
Proof.
  intros Hl Hk Hv k.
  assert (∀ n, n ∈ l ↔ lw_nodes g !! Node_Key n = Some n) as Hin.
  { intros n. rewrite Hl. split.
    - intros ([id n'] & -> & Hm%elem_of_map_to_list)%list_elem_of_fmap. cbn. by rewrite (Hk id n').
    - intros Hn. apply list_elem_of_fmap. exists (Node_Key n, n). by rewrite elem_of_map_to_list. }
  assert (∀ n, n ∈ l → Key (seen_node n) = Node_Key n) as Hkey.
  { intros n Hn%Hin. apply Hv in Hn. by apply valid_text_id. }
  assert (map Key (map seen_node l) = map Node_Key l) as Hmap.
  { rewrite map_map. apply map_ext_in. intros n Hn%list_elem_of_In. by apply Hkey. }
  assert (NoDup (map Node_Key l)) as Hnd.
  { rewrite Hl, map_map. pose proof (NoDup_fst_map_to_list (lw_nodes g)) as Hf.
    assert (map (λ x, Node_Key x.2) (map_to_list (lw_nodes g)) = (map_to_list (lw_nodes g)).*1) as ->; [|done].
    apply map_ext_in. intros [id n] Hm%list_elem_of_In%elem_of_map_to_list. cbn. by rewrite (Hk id n). }
  assert (NoDup (map Key (map seen_node l))) as Hnd' by (by rewrite Hmap).
  destruct (lw_nodes g !! k) as [n|] eqn:Hn.
  - assert (Node_Key n = k) as Hid by by apply Hk.
    assert (n ∈ l) as Hnl by (apply Hin; by rewrite Hid). cbn.
    rewrite <- Hid, <- (Hkey n Hnl).
    apply (fill_lookup Key State _ _ (seen_node n) Hnd'). by apply list_elem_of_fmap_2.
  - unfold node_states. rewrite fill_other; [done|]. rewrite Hmap. intros (n & -> & Hin')%list_elem_of_fmap.
    apply Hin in Hin'. congruence.
Qed.

Context `{F : GoFmt}.

(** The line of an edge: the names it was declared with, and the state of the node the walk recorded for
    its producer, if it recorded one. *)
Definition producer_state (g : lineageWalk) (id : string) : string :=
  match lw_nodes g !! id with
  | Some n => if valid_text (Node_State n) == "" then "not-inspected" else valid_text (Node_State n)
  | None => "not-inspected"
  end.
Definition reported (g : lineageWalk) (e : lineageEdge) : string :=
  Quote (valid_text (From e)) +:+ " input " +:+ Quote (valid_text (Edge_Input e)) +:+ " -> " +:+
  Quote (valid_text (To e)) +:+ " output " +:+ Quote (valid_text (Edge_Output e)) +:+ ": " +:+
  Quote (valid_text (Edge_Compatibility e)) +:+ "; producer " +:+
  Quote (producer_state g (valid_text (To e))) +:+ "; trace " +:+ Quote (valid_text (Edge_State e)).

(** C24.  Whatever trace the registry serves, the reader accepts: it reads back the published trace field
    by field, and, when the product keys are UTF-8, it prints the root, the completeness the walk
    established, and one line per edge of the walk in the published order, with the state the walk
    recorded for the edge's producer. *)
Theorem served_trace_read (s : server) slot ctx r w data w' :
  productLineage s slot ctx r w = (Success data, w') →
  ∃ compatibility ctx' w1 result g w2, server_inputCompatibility s = Some compatibility ∧
    trace_root s compatibility ctx' (mkKey (PathNamespace r) (PathName r)) w1 = ((Traced result, g), w2) ∧
    readTraceFile (Some (true, Some data)) = Some (seen_trace (publish g)) ∧
    (map_Forall (λ id _, ValidString id = true) (lw_nodes g) →
     LineageClient.main 2 (Some (true, Some data)) =
       (0%Z, (Quote (valid_text (PathNamespace r +:+ "/" +:+ PathName r)) +:+ ": " +:+
              (if Complete (Lineage.trace g) then "complete" else "incomplete")) ::
             map (reported g) (sort_slice edge_less (Trace_Edges (Lineage.trace g))), [])).
Proof.
  intros (compatibility & ctx' & w1 & result & g & w2 & Hc & Ht & -> & Hs)%served_trace.
  exists compatibility, ctx', w1, result, g, w2. split; [done|]. split; [done|].
  destruct (published _ _ _ _ _ _ _ _ Ht) as (Hv & Hr & Hp & Hn & He & Ln & Le & Hk).
  assert (readTraceFile (Some (true, Some (encode (lineageTrace_json (publish g))))) = Some (seen_trace (publish g))) as HR.
  { apply read_trace; try done. rewrite Hr. unfold key_String. cbn [key_Namespace key_Name].
    intros Hnil%valid_text_nil. by destruct (PathNamespace r). }
  split; [done|]. intros Hutf. unfold LineageClient.main. cbn [Nat.eqb negb]. rewrite HR.
  do 3 f_equal.
  - unfold root_line. change (T_Root (seen_trace (publish g))) with (valid_text (Trace_Root (publish g))).
    by rewrite Hr.
  - change (items (T_Edges (seen_trace (publish g)))) with (map seen_edge (Trace_Edges (publish g))).
    change (items (T_Nodes (seen_trace (publish g)))) with (map seen_node (Trace_Nodes (publish g))).
    rewrite map_map. apply map_ext. intros e. unfold edge_line, reported, producer_state.
    cbn [seen_edge TE_From TE_To TE_Input TE_Output TE_State TE_Compatibility].
    rewrite (seen_states g _ Hp Hk Hutf). by destruct (lw_nodes g !! _).
Qed.
End Served.

(** ** Witnesses: the trace of two products, printed *)

#[local] Existing Instance ref_env.
#[local] Existing Instance ref_conditions.
#[local] Existing Instance ref_names.
#[local] Existing Instance ref_versions.
#[local] Existing Instance ref_fmt.

Definition orders_request : Request := mkRequest 0 [] "" "shop" "orders".
Definition orders_served : Response * RefWorld := productLineage sample_server true tt orders_request sample_world.
Definition orders_data : string := match fst orders_served with Success data => data | _ => "" end.
Definition orders_printed : list string :=
  [Quote "shop/orders" +:+ ": complete";
   Quote "shop/orders" +:+ " input " +:+ Quote "u" +:+ " -> " +:+ Quote "shop/users" +:+ " output " +:+
   Quote "api" +:+ ": " +:+ Quote "compatible" +:+ "; producer " +:+ Quote "ready" +:+ "; trace " +:+
   Quote "resolved"]%string.

Example orders_run : LineageClient.main 2 (Some (true, Some orders_data)) = (0%Z, orders_printed, []).
Proof. vm_compute. reflexivity. Qed.
(** Trailing data, an unknown field and a missing file are refused. *)
Example refused_traces :
  readTraceFile (Some (true, Some (orders_data +:+ "0"))) = None ∧
  readTraceFile (Some (true, Some ("{" +:+ json_string "note" +:+ ":1}"))) = None ∧
  LineageClient.main 2 None = (1%Z, [], ["Could not read a supported dependency trace."%string]).
Proof. split_and!; vm_compute; reflexivity. Qed.

Lemma served_trace_read_witness :
  fst orders_served = Success orders_data ∧ ∃ t, readTraceFile (Some (true, Some orders_data)) = Some t.
Proof.
  assert (orders_served = (Success orders_data, snd orders_served)) as H by (vm_compute; reflexivity).
  unfold orders_served at 1 in H. split; [vm_compute; reflexivity|].
  destruct (served_trace_read (E := ref_env) _ _ _ _ _ _ _ H) as (_ & _ & _ & _ & g & _ & _ & _ & Ht & _).
  exists (seen_trace (publish g)). exact Ht.
Defined.
