(* ===== verification/Dataspace.v ===== *)
(** * The dataspace export

    [internal/dataspace]: [json.go] refuses documents a typed decoder would read ambiguously,
    [source.go] validates a published DCAT catalog, and [export.go] projects the selected datasets and
    the provider's offers to a DSP catalog. *)

From Stdlib Require Import Ascii.
From S2P Require Import Prelude Kube Regex GoJson GoStrings GoUrl Config Descriptor Catalog GoJsonRead GoDecode JsonInput Input.

Definition contextURL : string := "https://w3id.org/dspace/2025/1/context.jsonld".
Definition maxCatalog : Z := 2097152.
Definition maxBindings : Z := 1048576.
Definition maxDatasets : Z := 256.
Definition maxDistributions : Z := 1024.

(** ** json.go *)

Definition knownKeys : list string :=
  ["@id"; "@type"; "@context"; "dcat"; "dcterms"; "foaf";
   "dcat:dataset"; "dcat:service"; "dcterms:identifier"; "dcterms:title"; "dcterms:description";
   "dcat:version"; "dcterms:publisher"; "dcat:landingPage"; "dcat:distribution"; "foaf:name";
   "foaf:page"; "dcat:accessURL"; "dcat:accessService"; "dcterms:format"; "dcat:endpointURL";
   "dcat:endpointDescription"; "dcat:servesDataset";
   "version"; "catalogId"; "participantId"; "service"; "id"; "endpointURL"; "datasets";
   "distributions"; "sourceId"; "format"; "offers"; "assigner"; "permission"; "prohibition";
   "obligation"; "action"; "constraint"; "leftOperand"; "operator"; "rightOperand"]%string.
(** [knownKey]. *)
Definition knownKey (s : string) : bool := existsb (String.eqb s) knownKeys.

(** [value]: the check of one subtree.  The code reads tokens and stops at the first violation; which
    one it meets first is not observable here, since the caller keeps only that there is one. *)
Fixpoint value (depth : Z) (v : jvalue) : bool :=
  if (32 <? depth)%Z then false
  else match v with
  | DObject members =>
      (fix check_members (seen : gset string) (ms : list (string * jvalue)) : bool :=
         match ms with
         | [] => true
         | (key, w) :: ms' =>
             if bool_decide (key ∈ seen) || negb (knownKey key) then false
             else if (key == "@context") && (depth != 0%Z) then false
             else value (depth + 1) w && check_members ({[key]} ∪ seen) ms'
         end) ∅ members
  | DArray l => forallb (value (depth + 1)) l
  | DString s => negb (16384 <? slen s)%Z
  | DNull => false
  | DBool _ | DNumber _ => true
  end.

(** [checkJSON]: the value of an accepted document. *)
Definition checkJSON (b : string) : option jvalue :=
  if negb (ValidString b) then None
  else if negb (ValidUnicodeEscapes b) then None
  else match next_value b with
  | Some (v, rest) => if value 0 v && at_eof rest then Some v else None
  | None => None
  end.

(** ** source.go *)

Record reference := mkReference { ref_ID : string }.
Record sourcePublisher := mkSourcePublisher {
  sp_Type : string; sp_Name : string; sp_Page : option reference
}.
Record sourceDistribution := mkSourceDistribution {
  sd_ID : string;
  sd_Type : string;
  sd_Title : string;
  sd_AccessURL : reference;
  sd_AccessService : reference;
  sd_Format : string
}.
Record sourceService := mkSourceService {
  ss_ID : string;
  ss_Type : option (list string);
  ss_Title : string;
  ss_Endpoint : reference;
  ss_Contract : reference;
  ss_Dataset : reference
}.
Record sourceDataset := mkSourceDataset {
  src_ID : string;
  src_Type : option (list string);
  src_Identifier : string;
  src_Title : string;
  src_Description : string;
  src_Version : string;
  src_Publisher : sourcePublisher;
  src_Landing : option reference;
  src_Distributions : option (list sourceDistribution)
}.
Record sourceCatalog := mkSourceCatalog {
  sc_Context : gmap string string;
  sc_ID : string;
  sc_Type : string;
  sc_Datasets : option (list sourceDataset);
  sc_Services : option (list sourceService)
}.

#[export] Instance decodes_reference : Decodes reference := {|
  zero_value := mkReference "";
  decode_into := decode_struct [stores "@id" ref_ID (λ s _, mkReference s)]
|}.

#[export] Instance decodes_publisher : Decodes sourcePublisher := {|
  zero_value := mkSourcePublisher "" "" None;
  decode_into := decode_struct
    [stores "@type" sp_Type (λ s p, mkSourcePublisher s (sp_Name p) (sp_Page p));
     stores "foaf:name" sp_Name (λ s p, mkSourcePublisher (sp_Type p) s (sp_Page p));
     stores "foaf:page" sp_Page (λ r p, mkSourcePublisher (sp_Type p) (sp_Name p) r)]
|}.

#[export] Instance decodes_distribution : Decodes sourceDistribution := {|
  zero_value := mkSourceDistribution "" "" "" zero_value zero_value "";
  decode_into := decode_struct
    [stores "@id" sd_ID (λ s d, mkSourceDistribution s (sd_Type d) (sd_Title d) (sd_AccessURL d)
       (sd_AccessService d) (sd_Format d));
     stores "@type" sd_Type (λ s d, mkSourceDistribution (sd_ID d) s (sd_Title d) (sd_AccessURL d)
       (sd_AccessService d) (sd_Format d));
     stores "dcterms:title" sd_Title (λ s d, mkSourceDistribution (sd_ID d) (sd_Type d) s
       (sd_AccessURL d) (sd_AccessService d) (sd_Format d));
     stores "dcat:accessURL" sd_AccessURL (λ r d, mkSourceDistribution (sd_ID d) (sd_Type d)
       (sd_Title d) r (sd_AccessService d) (sd_Format d));
     stores "dcat:accessService" sd_AccessService (λ r d, mkSourceDistribution (sd_ID d) (sd_Type d)
       (sd_Title d) (sd_AccessURL d) r (sd_Format d));
     stores "dcterms:format" sd_Format (λ s d, mkSourceDistribution (sd_ID d) (sd_Type d)
       (sd_Title d) (sd_AccessURL d) (sd_AccessService d) s)]
|}.

#[export] Instance decodes_service : Decodes sourceService := {|
  zero_value := mkSourceService "" None "" zero_value zero_value zero_value;
  decode_into := decode_struct
    [stores "@id" ss_ID (λ s d, mkSourceService s (ss_Type d) (ss_Title d) (ss_Endpoint d)
       (ss_Contract d) (ss_Dataset d));
     stores "@type" ss_Type (λ l d, mkSourceService (ss_ID d) l (ss_Title d) (ss_Endpoint d)
       (ss_Contract d) (ss_Dataset d));
     stores "dcterms:title" ss_Title (λ s d, mkSourceService (ss_ID d) (ss_Type d) s (ss_Endpoint d)
       (ss_Contract d) (ss_Dataset d));
     stores "dcat:endpointURL" ss_Endpoint (λ r d, mkSourceService (ss_ID d) (ss_Type d) (ss_Title d) r
       (ss_Contract d) (ss_Dataset d));
     stores "dcat:endpointDescription" ss_Contract (λ r d, mkSourceService (ss_ID d) (ss_Type d)
       (ss_Title d) (ss_Endpoint d) r (ss_Dataset d));
     stores "dcat:servesDataset" ss_Dataset (λ r d, mkSourceService (ss_ID d) (ss_Type d) (ss_Title d)
       (ss_Endpoint d) (ss_Contract d) r)]
|}.

#[export] Instance decodes_dataset : Decodes sourceDataset := {|
  zero_value := mkSourceDataset "" None "" "" "" "" zero_value None None;
  decode_into := decode_struct
    [stores "@id" src_ID (λ s d, mkSourceDataset s (src_Type d) (src_Identifier d) (src_Title d)
       (src_Description d) (src_Version d) (src_Publisher d) (src_Landing d) (src_Distributions d));
     stores "@type" src_Type (λ l d, mkSourceDataset (src_ID d) l (src_Identifier d) (src_Title d)
       (src_Description d) (src_Version d) (src_Publisher d) (src_Landing d) (src_Distributions d));
     stores "dcterms:identifier" src_Identifier (λ s d, mkSourceDataset (src_ID d) (src_Type d) s
       (src_Title d) (src_Description d) (src_Version d) (src_Publisher d) (src_Landing d)
       (src_Distributions d));
     stores "dcterms:title" src_Title (λ s d, mkSourceDataset (src_ID d) (src_Type d)
       (src_Identifier d) s (src_Description d) (src_Version d) (src_Publisher d) (src_Landing d)
       (src_Distributions d));
     stores "dcterms:description" src_Description (λ s d, mkSourceDataset (src_ID d) (src_Type d)
       (src_Identifier d) (src_Title d) s (src_Version d) (src_Publisher d) (src_Landing d)
       (src_Distributions d));
     stores "dcat:version" src_Version (λ s d, mkSourceDataset (src_ID d) (src_Type d)
       (src_Identifier d) (src_Title d) (src_Description d) s (src_Publisher d) (src_Landing d)
       (src_Distributions d));
     stores "dcterms:publisher" src_Publisher (λ p d, mkSourceDataset (src_ID d) (src_Type d)
       (src_Identifier d) (src_Title d) (src_Description d) (src_Version d) p (src_Landing d)
       (src_Distributions d));
     stores "dcat:landingPage" src_Landing (λ r d, mkSourceDataset (src_ID d) (src_Type d)
       (src_Identifier d) (src_Title d) (src_Description d) (src_Version d) (src_Publisher d) r
       (src_Distributions d));
     stores "dcat:distribution" src_Distributions (λ l d, mkSourceDataset (src_ID d) (src_Type d)
       (src_Identifier d) (src_Title d) (src_Description d) (src_Version d) (src_Publisher d)
       (src_Landing d) l)]
|}.

#[export] Instance decodes_catalog : Decodes sourceCatalog := {|
  zero_value := mkSourceCatalog ∅ "" "" None None;
  decode_into := decode_struct
    [stores "@context" sc_Context (λ m c, mkSourceCatalog m (sc_ID c) (sc_Type c) (sc_Datasets c)
       (sc_Services c));
     stores "@id" sc_ID (λ s c, mkSourceCatalog (sc_Context c) s (sc_Type c) (sc_Datasets c)
       (sc_Services c));
     stores "@type" sc_Type (λ s c, mkSourceCatalog (sc_Context c) (sc_ID c) s (sc_Datasets c)
       (sc_Services c));
     stores "dcat:dataset" sc_Datasets (λ l c, mkSourceCatalog (sc_Context c) (sc_ID c) (sc_Type c) l
       (sc_Services c));
     stores "dcat:service" sc_Services (λ l c, mkSourceCatalog (sc_Context c) (sc_ID c) (sc_Type c)
       (sc_Datasets c) l)]
|}.

(** [publicURL]; [ForceQuery] is a question mark with nothing behind it. *)
Definition force_query (s : string) (u : URL) : bool :=
  (RawQuery u == "") && has_byte "?" (fst (span_until "#" s)).
Definition publicURL (s : string) (base : bool) : bool :=
  if contains_any s forbidden_iri || existsb (λ r, IsSpace r || IsControl r) (runes s) then false
  else match Parse s with
  | None => false
  | Some u =>
      if (Scheme u != "https") || (Hostname u == "") || User u || (Opaque u != "") ||
         contains_any s (String.String " " (String.String (ascii_of_N 9) (String.String (ascii_of_N 13)
           (String.String (ascii_of_N 10) (String.String backslash "")))))
      then false
      else if contains_any (RawPath u +:+ RawQuery u +:+ RawFragment u) "[]" then false
      else if base && HasSuffix (Host u) ":" then false
      else if base && (Port u != "") &&
        match Atoi (Port u) with
        | None => true
        | Some number => (number <? 1)%Z || (65535 <? number)%Z
        end then false
      else negb base ||
        ((RawQuery u == "") && negb (force_query s u) && (Fragment u == "") && negb (has_byte "#" s))
  end.

(** [validID]. *)
Definition validID (s : string) : bool :=
  (slen s <=? 2048)%Z && (MatchString urnPattern s || publicURL s false).

(** [vocabularyIRI]. *)
Definition vocabularyIRI (s : string) : bool :=
  if MatchString urnPattern s then true
  else publicURL s false ||
       (HasPrefix s "http://" && publicURL ("https://" +:+ TrimPrefix s "http://") false).

(** [claim]: the identities with the new one, or an error. *)
Definition claim (ids : gset string) (id : string) : option (gset string) :=
  if negb (validID id) || bool_decide (id ∈ ids) then None else Some ({[id]} ∪ ids).

(** [types]. *)
Definition types (got : option (list string)) (kind : string) : bool :=
  let got := default [] got in
  (len got =? 2)%Z && existsb (String.eqb kind) got && existsb (String.eqb "dcat:Resource") got.

(** The loop over the services of [index]. *)
Fixpoint index_services (l : list sourceService) (ids : gset string)
    (services : gmap string sourceService) : option (gset string * gmap string sourceService) :=
  match l with
  | [] => Some (ids, services)
  | v :: l' =>
      match claim ids (ss_ID v) with
      | None => None
      | Some ids =>
          if negb (types (ss_Type v) "dcat:DataService") || (ss_Title v == "") ||
             negb (publicURL (ref_ID (ss_Endpoint v)) false) ||
             negb (publicURL (ref_ID (ss_Contract v)) false)
          then None
          else index_services l' ids (<[ss_ID v := v]> services)
      end
  end.

(** The loop over the distributions of one dataset. *)
Fixpoint index_distributions (services : gmap string sourceService) (dataset : string)
    (l : list sourceDistribution) (ids used : gset string) : option (gset string * gset string) :=
  match l with
  | [] => Some (ids, used)
  | v :: l' =>
      match claim ids (sd_ID v), services !! ref_ID (sd_AccessService v) with
      | Some ids, Some service =>
          if (sd_Type v != "dcat:Distribution") || (sd_Title v == "") ||
             negb (publicURL (ref_ID (sd_AccessURL v)) false) || bool_decide (ss_ID service ∈ used) ||
             (ss_Title service != sd_Title v) || (ref_ID (ss_Dataset service) != dataset) ||
             (ref_ID (ss_Endpoint service) != ref_ID (sd_AccessURL v))
          then None
          else index_distributions services dataset l' ids ({[ss_ID service]} ∪ used)
      | _, _ => None
      end
  end.

(** The checks of one dataset before its distributions. *)
Definition dataset_valid (d : sourceDataset) : bool :=
  types (src_Type d) "dcat:Dataset" && (src_Identifier d == src_ID d) && (src_Title d != "") &&
  (src_Description d != "") && (src_Version d != "") && (sp_Type (src_Publisher d) == "foaf:Agent") &&
  (sp_Name (src_Publisher d) != "").
Definition links_valid (d : sourceDataset) : bool :=
  forallb (λ r, match r with Some r => publicURL (ref_ID r) false | None => true end)
    [src_Landing d; sp_Page (src_Publisher d)].

(** The loop over the datasets. *)
Fixpoint index_datasets (services : gmap string sourceService) (l : list sourceDataset)
    (ids used : gset string) (outputs : Z) (index : gmap string sourceDataset)
  : option (gmap string sourceDataset * gset string * gset string) :=
  match l with
  | [] => Some (index, ids, used)
  | d :: l' =>
      match claim ids (src_ID d) with
      | None => None
      | Some ids =>
          let dists := default [] (src_Distributions d) in
          let outputs := (outputs + len dists)%Z in
          if negb (dataset_valid d) || negb (links_valid d) || (len dists =? 0)%Z ||
             (maxDistributions <? outputs)%Z
          then None
          else match index_distributions services (src_ID d) dists ids used with
          | None => None
          | Some (ids, used) => index_datasets services l' ids used outputs (<[src_ID d := d]> index)
          end
      end
  end.

Definition source_context : gmap string string := list_to_map catalog_context.

(** [index]: the datasets by identity and every identity of the graph, or an error. *)
Definition index (s : sourceCatalog) : option (gmap string sourceDataset * gset string) :=
  match sc_Datasets s, sc_Services s with
  | Some datasets, Some services =>
      if (sc_Context s != source_context) || (sc_Type s != "dcat:Catalog") ||
         (maxDatasets <? len datasets)%Z || (maxDistributions <? len services)%Z
      then None
      else match claim ∅ (sc_ID s) with
      | None => None
      | Some ids =>
          match index_services services ids ∅ with
          | None => None
          | Some (ids, byID) =>
              match index_datasets byID datasets ids ∅ 0 ∅ with
              | None => None
              | Some (idx, ids, used) =>
                  if forallb (λ v, non_nil (idx !! ref_ID (ss_Dataset v)) &&
                                   bool_decide (ss_ID v ∈ used)) services
                  then Some (idx, ids) else None
              end
          end
      end
  | _, _ => None
  end.

(** ** The bindings document *)

Record constraint := mkConstraint { c_Left : string; c_Operator : string; c_Right : string }.
Record rule := mkRule { r_Action : string; r_Constraints : option (list constraint) }.
Record offer := mkOffer {
  o_ID : string;
  o_Type : string;
  o_Assigner : string;
  o_Permission : option (list rule);
  o_Prohibition : option (list rule);
  o_Obligation : option (list rule)
}.
Record distributionBinding := mkDistributionBinding {
  db_SourceID : string; db_ID : string; db_Format : string
}.
Record datasetBinding := mkDatasetBinding {
  b_ID : string;
  b_Distributions : option (list distributionBinding);
  b_Offers : option (list offer)
}.
Record serviceBinding := mkServiceBinding { sb_ID : string; sb_Endpoint : string }.
Record bindingsDocument := mkBindings {
  bd_Version : string;
  bd_ID : string;
  bd_Participant : string;
  bd_Service : serviceBinding;
  bd_Datasets : option (list datasetBinding)
}.

#[export] Instance decodes_constraint : Decodes constraint := {|
  zero_value := mkConstraint "" "" "";
  decode_into := decode_struct
    [stores "leftOperand" c_Left (λ s c, mkConstraint s (c_Operator c) (c_Right c));
     stores "operator" c_Operator (λ s c, mkConstraint (c_Left c) s (c_Right c));
     stores "rightOperand" c_Right (λ s c, mkConstraint (c_Left c) (c_Operator c) s)]
|}.
#[export] Instance decodes_rule : Decodes rule := {|
  zero_value := mkRule "" None;
  decode_into := decode_struct
    [stores "action" r_Action (λ s r, mkRule s (r_Constraints r));
     stores "constraint" r_Constraints (λ l r, mkRule (r_Action r) l)]
|}.
#[export] Instance decodes_offer : Decodes offer := {|
  zero_value := mkOffer "" "" "" None None None;
  decode_into := decode_struct
    [stores "@id" o_ID (λ s o, mkOffer s (o_Type o) (o_Assigner o) (o_Permission o) (o_Prohibition o)
       (o_Obligation o));
     stores "@type" o_Type (λ s o, mkOffer (o_ID o) s (o_Assigner o) (o_Permission o) (o_Prohibition o)
       (o_Obligation o));
     stores "assigner" o_Assigner (λ s o, mkOffer (o_ID o) (o_Type o) s (o_Permission o)
       (o_Prohibition o) (o_Obligation o));
     stores "permission" o_Permission (λ l o, mkOffer (o_ID o) (o_Type o) (o_Assigner o) l
       (o_Prohibition o) (o_Obligation o));
     stores "prohibition" o_Prohibition (λ l o, mkOffer (o_ID o) (o_Type o) (o_Assigner o)
       (o_Permission o) l (o_Obligation o));
     stores "obligation" o_Obligation (λ l o, mkOffer (o_ID o) (o_Type o) (o_Assigner o)
       (o_Permission o) (o_Prohibition o) l)]
|}.
#[export] Instance decodes_distribution_binding : Decodes distributionBinding := {|
  zero_value := mkDistributionBinding "" "" "";
  decode_into := decode_struct
    [stores "sourceId" db_SourceID (λ s d, mkDistributionBinding s (db_ID d) (db_Format d));
     stores "id" db_ID (λ s d, mkDistributionBinding (db_SourceID d) s (db_Format d));
     stores "format" db_Format (λ s d, mkDistributionBinding (db_SourceID d) (db_ID d) s)]
|}.
#[export] Instance decodes_dataset_binding : Decodes datasetBinding := {|
  zero_value := mkDatasetBinding "" None None;
  decode_into := decode_struct
    [stores "id" b_ID (λ s b, mkDatasetBinding s (b_Distributions b) (b_Offers b));
     stores "distributions" b_Distributions (λ l b, mkDatasetBinding (b_ID b) l (b_Offers b));
     stores "offers" b_Offers (λ l b, mkDatasetBinding (b_ID b) (b_Distributions b) l)]
|}.
#[export] Instance decodes_service_binding : Decodes serviceBinding := {|
  zero_value := mkServiceBinding "" "";
  decode_into := decode_struct
    [stores "id" sb_ID (λ s b, mkServiceBinding s (sb_Endpoint b));
     stores "endpointURL" sb_Endpoint (λ s b, mkServiceBinding (sb_ID b) s)]
|}.
#[export] Instance decodes_bindings : Decodes bindingsDocument := {|
  zero_value := mkBindings "" "" "" zero_value None;
  decode_into := decode_struct
    [stores "version" bd_Version (λ s b, mkBindings s (bd_ID b) (bd_Participant b) (bd_Service b)
       (bd_Datasets b));
     stores "catalogId" bd_ID (λ s b, mkBindings (bd_Version b) s (bd_Participant b) (bd_Service b)
       (bd_Datasets b));
     stores "participantId" bd_Participant (λ s b, mkBindings (bd_Version b) (bd_ID b) s (bd_Service b)
       (bd_Datasets b));
     stores "service" bd_Service (λ v b, mkBindings (bd_Version b) (bd_ID b) (bd_Participant b) v
       (bd_Datasets b));
     stores "datasets" bd_Datasets (λ l b, mkBindings (bd_Version b) (bd_ID b) (bd_Participant b)
       (bd_Service b) l)]
|}.

(** ** Policies *)

Definition operators : list string :=
  ["eq"; "gt"; "gteq"; "lt"; "lteq"; "neq"; "isA"; "hasPart"; "isPartOf"; "isAllOf"; "isAnyOf";
   "isNoneOf"]%string.

Definition constraint_ok (c : constraint) : bool :=
  vocabularyIRI (c_Left c) && (c_Right c != "") && existsb (String.eqb (c_Operator c)) operators.

Definition constraint_error : string :=
  "unsupported atomic constraint; provide an absolute left operand, standard operator and nonempty string right operand".

(** The checks of one rule. *)
Definition rule_error (r : rule) : option string :=
  if (r_Action r != "use") && negb (vocabularyIRI (r_Action r)) then
    Some "rule action must be use or an absolute vocabulary IRI"
  else match r_Constraints r with
  | None => None
  | Some constraints =>
      if (len constraints =? 0)%Z || (16 <? len constraints)%Z then
        Some "rules support 1 to 16 atomic constraints when present"
      else if forallb constraint_ok constraints then None else Some constraint_error
  end.

(** The first error of a list of checks. *)
Fixpoint first_error {A} (check : A → option string) (l : list A) : option string :=
  match l with
  | [] => None
  | x :: l' => match check x with Some e => Some e | None => first_error check l' end
  end.

Definition category_error (rules : option (list rule)) : option string :=
  match rules with
  | None => None
  | Some rules =>
      if (len rules =? 0)%Z || (32 <? len rules)%Z then
        Some "offer rule categories require 1 to 32 rules"
      else first_error rule_error rules
  end.

(** [offer.validate]. *)
Definition validate (o : offer) (participant : string) : option string :=
  if (o_Type o != "Offer") || (o_Assigner o != participant) ||
     (len (default [] (o_Permission o)) + len (default [] (o_Prohibition o)) =? 0)%Z
  then Some "each offer requires type Offer, matching assigner, and permissions or prohibitions"
  else first_error category_error [o_Permission o; o_Prohibition o; o_Obligation o].

Definition constraint_json (c : constraint) : json :=
  JObject (field "leftOperand" (JString (c_Left c)) ++ field "operator" (JString (c_Operator c)) ++
           field "rightOperand" (JString (c_Right c))).
Definition rule_json (r : rule) : json :=
  JObject (field "action" (JString (r_Action r)) ++
           omit_empty "constraint" constraint_json (default [] (r_Constraints r))).
Definition offer_json (o : offer) : json :=
  JObject (field "@id" (JString (o_ID o)) ++ field "@type" (JString (o_Type o)) ++
           field "assigner" (JString (o_Assigner o)) ++
           omit_empty "permission" rule_json (default [] (o_Permission o)) ++
           omit_empty "prohibition" rule_json (default [] (o_Prohibition o)) ++
           omit_empty "obligation" rule_json (default [] (o_Obligation o))).

(** ** export.go *)

(** The errors: an input that could not be read or decoded, whose detail is left open, or a refusal with
    its text. *)
Inductive exportError :=
  | InvalidInput (name : string)
  | Refused (text : string).

Definition identity_error : exportError := Refused "invalid or conflicting resource identity".
Definition claimed (ids : gset string) (id : string) : gset string + exportError :=
  match claim ids id with Some ids => inl ids | None => inr identity_error end.

(** Maps are marshalled with sorted keys. *)
Definition dsp_service_json (s : serviceBinding) : json :=
  JObject (field "@id" (JString (sb_ID s)) ++ field "@type" (JString "DataService") ++
           field "endpointURL" (JString (sb_Endpoint s))).
Definition dsp_distribution_json (s : serviceBinding) (d : distributionBinding) : json :=
  JObject (field "@id" (JString (db_ID d)) ++ field "@type" (JString "Distribution") ++
           field "accessService" (dsp_service_json s) ++ field "format" (JString (db_Format d))).
Definition dsp_dataset_json (s : serviceBinding) (src : sourceDataset) (b : datasetBinding) : json :=
  JObject (field "@id" (JString (src_ID src)) ++ field "@type" (JString "Dataset") ++
           field "dcat:version" (JString (src_Version src)) ++
           field "dct:description" (JString (src_Description src)) ++
           field "dct:title" (JString (src_Title src)) ++
           field "distribution"
             (JArray (map (dsp_distribution_json s) (default [] (b_Distributions b)))) ++
           field "hasPolicy" (JArray (map offer_json (default [] (b_Offers b))))).
Definition dsp_catalog_json (b : bindingsDocument) (datasets : list json) : json :=
  JObject (field "@context" (JArray [JString contextURL]) ++ field "@id" (JString (bd_ID b)) ++
           field "@type" (JString "Catalog") ++
           (match datasets with [] => [] | _ => field "dataset" (JArray datasets) end) ++
           field "participantId" (JString (bd_Participant b)) ++
           field "service" (JArray [dsp_service_json (bd_Service b)])).

(** The loop over the offers of one binding. *)
Fixpoint export_offers (participant : string) (l : list offer) (ids : gset string)
  : gset string + exportError :=
  match l with
  | [] => inl ids
  | o :: l' =>
      match claimed ids (o_ID o) with
      | inr err => inr err
      | inl ids =>
          match validate o participant with
          | Some text => inr (Refused text)
          | None => export_offers participant l' ids
          end
      end
  end.

(** The loop over the selected distributions; [outputs] are the source distributions not selected
    yet. *)
Fixpoint export_distributions (l : list distributionBinding) (outputs ids : gset string)
  : gset string + exportError :=
  match l with
  | [] => inl ids
  | d :: l' =>
      if negb (bool_decide (db_SourceID d ∈ outputs)) then
        inr (Refused "binding selects a missing or repeated source distribution")
      else match claimed ids (db_ID d) with
      | inr err => inr err
      | inl ids =>
          if negb (vocabularyIRI (db_Format d)) then
            inr (Refused "transfer format must be an explicit absolute vocabulary IRI")
          else export_distributions l' (outputs ∖ {[db_SourceID d]}) ids
      end
  end.

(** The loop over the bindings: the encoded datasets so far. *)
Fixpoint export_datasets (doc : bindingsDocument) (idx : gmap string sourceDataset)
    (l : list datasetBinding) (ids selected : gset string) (total : Z) (datasets : list json)
  : list json + exportError :=
  match l with
  | [] => inl datasets
  | b :: l' =>
      let dists := default [] (b_Distributions b) in
      let offers := default [] (b_Offers b) in
      match idx !! b_ID b with
      | None => inr (Refused "binding selects a missing or repeated dataset")
      | Some src =>
          if bool_decide (b_ID b ∈ selected) then
            inr (Refused "binding selects a missing or repeated dataset")
          else
            let total := (total + len dists)%Z in
            if (len dists =? 0)%Z || (maxDistributions <? total)%Z then
              inr (Refused "select 1 to 1,024 distributions across the catalog")
            else if (len offers =? 0)%Z || (16 <? len offers)%Z then
              inr (Refused "each dataset requires 1 to 16 provider offers")
            else match export_offers (bd_Participant doc) offers ids with
            | inr err => inr err
            | inl ids =>
                let outputs := list_to_set (map sd_ID (default [] (src_Distributions src))) in
                match export_distributions dists outputs ids with
                | inr err => inr err
                | inl ids =>
                    export_datasets doc idx l' ids ({[b_ID b]} ∪ selected) total
                      (datasets ++ [dsp_dataset_json (bd_Service doc) src b])
                end
            end
      end
  end.

(** [Export] after both inputs were decoded. *)
Definition project_export (source : sourceCatalog) (binding : bindingsDocument) : string + exportError :=
  match index source with
  | None => inr (Refused "source is not a valid bounded controller DCAT catalog")
  | Some (idx, ids) =>
      match bd_Datasets binding with
      | None =>
          inr (Refused
            "bindings require version dsp-catalog/v1 and at most 256 explicitly selected datasets")
      | Some selections =>
          if (bd_Version binding != "dsp-catalog/v1") || (maxDatasets <? len selections)%Z then
            inr (Refused
              "bindings require version dsp-catalog/v1 and at most 256 explicitly selected datasets")
          else if negb (validID (bd_Participant binding)) then
            inr (Refused "bindings require a public participant identifier")
          else match claimed ids (bd_ID binding) with
          | inr err => inr err
          | inl ids =>
              match claimed ids (sb_ID (bd_Service binding)) with
              | inr err => inr err
              | inl ids =>
                  if bool_decide (bd_Participant binding ∈ ids) then
                    inr (Refused "participant identity conflicts with a catalog resource")
                  else if negb (publicURL (sb_Endpoint (bd_Service binding)) true) then
                    inr (Refused
                      "service requires an HTTPS base URL without credentials, query or fragment")
                  else match export_datasets binding idx selections ({[bd_Participant binding]} ∪ ids)
                         ∅ 0 [] with
                  | inr err => inr err
                  | inl datasets =>
                      let body := encode (dsp_catalog_json binding datasets) in
                      if (maxCatalog <? slen body + 1)%Z then
                        inr (Refused "encoded catalog exceeds 2 MiB")
                      else inl (body +:+ one (ascii_of_N 10))
                  end
              end
          end
      end
  end.

(** The bytes of an input as a value: [checkJSON], then the typed decoder. *)
Definition decode_document {A} `{Decodes A} (b : string) : option A :=
  match checkJSON b with Some v => decode_into zero_value v | None => None end.

Section Exporting.
Context `{E : Env}.

(** [decode]; [None] for a reader that makes no progress. *)
Definition decode {A} `{Decodes A} (r : io_Reader) (limit : Z) : ST World (option (option A)) :=
  input ← ReadAll (Z.to_nat (limit + 1)) r (limit + 1) "";
  match input with
  | None => mret None
  | Some (inr _) => mret (Some None)
  | Some (inl b) => mret (Some (if (limit <? slen b)%Z then None else decode_document b))
  end.

(** [Export]. *)
Definition Export (catalog bindings : io_Reader) : ST World (option (string + exportError)) :=
  source ← decode catalog maxCatalog;
  match source with
  | None => mret None
  | Some None => mret (Some (inr (InvalidInput "catalog")))
  | Some (Some source) =>
      binding ← decode bindings maxBindings;
      match binding with
      | None => mret None
      | Some None => mret (Some (inr (InvalidInput "bindings")))
      | Some (Some binding) => mret (Some (project_export source binding))
      end
  end.
End Exporting.
