(* ===== verification/DataspaceSpec.v ===== *)
(** * The dataspace export: what is guaranteed

    Every catalog the controller serves is accepted by the exporter, with exactly the published
    datasets; and whatever the exporter writes names every resource once. *)

From Stdlib Require Import Ascii.
From S2P Require Import Prelude Kube Api Regex GoJson GoStrings GoUrl Config Descriptor Sha256 Reference Catalog CatalogSpec.
From S2P Require Import GoJsonRead GoDecode JsonInput GoJsonSpec Input Dataspace.

(** ** Identities and links *)

Lemma ascii_wide a b : byte_in 0 0x7F a = true → byte_in 0 0x7F b = false → Ascii.eqb b a = false.
Proof. intros Ha Hb. apply Ascii.eqb_neq. intros ->. congruence. Qed.

(** An ASCII byte of a string is one of its runes. *)
Lemma ascii_rune a s : byte_in 0 0x7F a = true → wf_utf8 s → has_byte a s = true → N_of_ascii a ∈ runes s.
Proof.
  intros Ha. induction 1 as [|b s Hb Hs IH|b c s Hb Hn Hs IH|b c d s Hb Hn Hs IH|b c d e s Hb Hn Hs IH];
    [done|rewrite !has_byte_cons; cbn [runes]..].
  - unfold rune_size. rewrite Hb. intros [->%Ascii.eqb_eq|H]%orb_true_iff; [by left|right; auto].
  - rewrite Hn, (ascii_wide a b) by done. specialize (Hn ""). unfold rune_size in Hn. rewrite Hb in Hn.
    repeat (split_guard_in Hn; try done).
    rewrite (ascii_wide a c) by (done || by apply tail_ascii). intros Hin. right. by apply IH.
  - rewrite Hn, (ascii_wide a b) by done. specialize (Hn ""). unfold rune_size in Hn. rewrite Hb in Hn.
    repeat (split_guard_in Hn; try done). go_bool. destruct_and?.
    rewrite (ascii_wide a c), (ascii_wide a d)
      by (done || (by apply tail_ascii) || (by eapply second_ascii)).
    intros Hin. right. apply IH. naive_solver.
  - rewrite Hn, (ascii_wide a b) by done. specialize (Hn ""). unfold rune_size in Hn. rewrite Hb in Hn.
    repeat (split_guard_in Hn; try done). go_bool. destruct_and?.
    rewrite (ascii_wide a c), (ascii_wide a d), (ascii_wide a e)
      by (done || (by apply tail_ascii) || (by eapply second_ascii)).
    intros Hin. right. apply IH. naive_solver.
Qed.

Lemma MatchString_empty s : MatchString REmpty s = false.
Proof. by induction s. Qed.

(** The identifiers and links the catalog accepts are ones the exporter accepts. *)
Lemma validIRI_public s : validIRI s = true →
  (slen s <= 2048)%Z ∧ (MatchString urnPattern s = true ∨ publicURL s false = true).
Proof.
  unfold validIRI, publicURL. destruct (_ || _) eqn:Hg; [done|].
  apply orb_false_iff in Hg as [Hg Hrunes]. apply orb_false_iff in Hg as [Hg Hchars].
  apply orb_false_iff in Hg as [Hg Hv]. apply orb_false_iff in Hg as [_ Hlen].
  apply Z.ltb_ge in Hlen. apply negb_false_iff, ValidString_wf in Hv.
  rewrite Hrunes, Hchars. cbn [orb].
  assert (contains_any s (String.String " " (String.String (ascii_of_N 9) (String.String (ascii_of_N 13)
    (String.String (ascii_of_N 10) (String.String backslash ""))))) = false) as ->.
  { unfold contains_any in *. cbn [String.list_ascii_of_string existsb forbidden_iri] in Hchars |- *.
    assert (∀ a, byte_in 0 0x7F a = true → IsSpace (N_of_ascii a) || IsControl (N_of_ascii a) = true →
      has_byte a s = false) as Hno.
    { intros a Ha Hs. apply not_true_is_false. intros Hin. apply (ascii_rune a s Ha Hv) in Hin.
      apply not_true_iff_false in Hrunes. apply Hrunes, existsb_exists_elem. eauto. }
    rewrite !Hno by done. apply orb_false_iff in Hchars as [-> _]. done. }
  destruct (Parse s) as [u|]; [|done]. destruct (User u); [done|].
  case_bool_decide as Hs; [by auto|].
  destruct (contains_any _ "[]"); [done|]. destruct (HasSuffix (Host u) ":"); [done|].
  destruct (negb _); [done|]. intros H. split; [done|]. right. cbn [andb negb orb]. go_bool.
  destruct H as [[H1 H2] H3]. rewrite bool_decide_true, bool_decide_false, bool_decide_true by done.
  done.
Qed.

Lemma validIRI_ID s : validIRI s = true → validID s = true.
Proof.
  intros [H1 H2]%validIRI_public. unfold validID. apply andb_true_iff. split; [by apply Z.leb_le|].
  apply orb_true_iff. tauto.
Qed.

Lemma validHTTPS_public s : validHTTPS s = true → publicURL s false = true.
Proof.
  unfold validHTTPS. intros [(t & ->)%HasPrefix_spec [_ [H|H]]%validIRI_public]%andb_true_iff; [|done].
  exfalso. change (MatchString urnPattern ("https://" +:+ t)) with (MatchString REmpty ("ttps://" +:+ t)) in H.
  by rewrite MatchString_empty in H.
Qed.

(** ** Node identities *)

Definition hex_char (a : ascii) : bool := lower a || digit a.

Lemma hex_bytes_chars l : Forall (λ b, (b < 256)%N) l → all_bytes hex_char (hex_bytes l) = true.
Proof.
  assert (∀ n, (n < 16)%N → hex_char (hex_nibble n) = true) as Hn.
  { intros n Hn. assert (forallb (λ m, hex_char (hex_nibble (N.of_nat m))) (seq 0 16) = true) as Hall
      by (vm_compute; reflexivity).
    rewrite forallb_elem in Hall. rewrite <- (N2Nat.id n). apply Hall, elem_of_seq. lia. }
  induction 1 as [|b l Hb Hl IH]; [done|]. cbn [hex_bytes all_bytes].
  rewrite IH, !Hn; [done|apply N.mod_lt; lia|]. apply N.Div0.div_lt_upper_bound. lia.
Qed.

Lemma big_endian_bytes n : ∀ x, Forall (λ b, (b < 256)%N) (big_endian n x) ∧ length (big_endian n x) = n.
Proof.
  induction n as [|n IH]; intros x; [by split; [constructor|]|]. cbn [big_endian].
  destruct (IH (x / 256)%N) as [H1 H2]. split.
  - apply Forall_app. split; [done|]. constructor; [|constructor]. apply N.mod_lt. lia.
  - rewrite length_app, H2. cbn. lia.
Qed.

Lemma blocks_length n : ∀ bytes hash, length hash = 8 → length (blocks n bytes hash) = 8.
Proof.
  induction n as [|n IH]; intros bytes hash Hh; [done|]. cbn [blocks]. apply IH. unfold compress.
  assert (∀ ks w v, length v = 8 → length (rounds ks w v) = 8) as Hr.
  { induction ks as [|k ks IHk]; intros w v Hv; [done|]. cbn [rounds]. apply IHk.
    do 8 (destruct v as [|? v]; [done|]). destruct v; [done|]. done. }
  rewrite length_zip_with, Hh, Hr by done. done.
Qed.

(** A digest is 64 lower-case hexadecimal digits. *)
Lemma digest_hex s : all_bytes hex_char (hex_bytes (Sum256 s)) = true ∧
  String.length (hex_bytes (Sum256 s)) = 64.
Proof.
  unfold Sum256. set (h := blocks _ _ _).
  assert (length h = 8) as Hh by (apply blocks_length; reflexivity).
  assert (Forall (λ b, (b < 256)%N) (concat (map (big_endian 4) h)) ∧
          length (concat (map (big_endian 4) h)) = 4 * length h) as [H1 H2].
  { clearbody h. clear Hh. induction h as [|x h [IH1 IH2]]; [by split; [constructor|]|].
    cbn [map concat]. destruct (big_endian_bytes 4 x) as [H1 H2]. split; [by apply Forall_app|].
    rewrite length_app, H2, IH2. cbn. lia. }
  split; [by apply hex_bytes_chars|].
  assert (∀ l, String.length (hex_bytes l) = 2 * length l) as ->.
  { induction l as [|b l IH]; [done|]. cbn [hex_bytes String.length length]. rewrite IH. lia. }
  rewrite H2, Hh. done.
Qed.

(** A byte of the paths the catalog makes up. *)
Definition path_char (a : ascii) : bool := alnum a || one_of "-./" a.

Lemma unescape_plain s : has_byte "%" s = false → unescape encodePath s = Some s.
Proof.
  induction s as [|a s IH]; [done|]. rewrite has_byte_cons. intros [Ha Hs]%orb_false_iff.
  cbn [unescape]. rewrite Ha, IH; done.
Qed.

Lemma escape_plain s : all_bytes (λ a, negb (shouldEscape encodePath a)) s = true → escape encodePath s = s.
Proof.
  induction s as [|a s IH]; [done|]. cbn [all_bytes escape]. intros [Ha Hs]%andb_true_iff.
  apply negb_true_iff in Ha. by rewrite Ha, IH.
Qed.

Lemma path_char_facts a : path_char a = true →
  byte_in 0x21 0x7E a = true ∧ negb (ctl_byte a) = true ∧ negb (shouldEscape encodePath a) = true ∧
  negb (IsSpace (N_of_ascii a) || IsControl (N_of_ascii a)) = true.
Proof. destruct a as [[] [] [] [] [] [] [] []]; intros Ha; try discriminate Ha; done. Qed.

Lemma runes_plain f s : all_bytes (λ a, byte_in 0 0x7F a && negb (f (N_of_ascii a))) s = true →
  existsb f (runes s) = false.
Proof.
  induction s as [|a s IH]; [done|]. cbn [all_bytes]. intros [[Ha Hf]%andb_true_iff Hs]%andb_true_iff.
  cbn [runes]. unfold rune_size. rewrite Ha. cbn [existsb]. apply negb_true_iff in Hf. by rewrite Hf, IH.
Qed.

Lemma Parse_own_path t : all_bytes path_char t = true →
  Parse ("https://devantler.tech/" +:+ t) =
    Some (mkURL "https" "" false "devantler.tech" ("/" +:+ t) "" "" "" "").
Proof.
  intros Ht. set (raw := "https://devantler.tech/" +:+ t).
  assert (∀ a, path_char a = false → a ≠ ":"%char → has_byte a raw = false) as Hno.
  { intros a Ha Hc. apply (all_bytes_absent (λ b, path_char b || Ascii.eqb b ":")).
    - subst raw. rewrite all_bytes_app. apply andb_true_iff. split; [done|].
      eapply all_bytes_impl; [|exact Ht]. intros b ->. done.
    - rewrite Ha. by apply Ascii.eqb_neq. }
  unfold Parse. rewrite (cut_first_absent "#" raw) by (by apply Hno). unfold parse_url.
  assert (all_bytes (λ a, negb (ctl_byte a)) raw = true) as ->.
  { subst raw. rewrite all_bytes_app. apply andb_true_iff. split; [done|].
    eapply all_bytes_impl; [|exact Ht]. intros a Ha. by apply path_char_facts in Ha as (_ & ? & _). }
  cbn [negb]. rewrite bool_decide_false by done.
  change (getScheme raw) with (Some ("https", "//devantler.tech/" +:+ t)). cbv beta iota.
  change (lower_ascii "https") with "https".
  rewrite (cut_first_absent "?" ("//devantler.tech/" +:+ t)); [|by apply (all_bytes_absent path_char); [exact Ht|]].
  rewrite (bool_decide_false ("https" = "")) by done.
  change (HasPrefix ("//devantler.tech/" +:+ t) "/") with true.
  change (HasPrefix ("//devantler.tech/" +:+ t) "//") with true. cbn [negb andb orb].
  change (span_until "/" (drop_bytes 2 ("//devantler.tech/" +:+ t))) with ("devantler.tech", "/" +:+ t).
  cbv beta iota. change (parseAuthority "https" "devantler.tech") with (Some (false, "devantler.tech")).
  rewrite unescape_plain; [|by apply (all_bytes_absent path_char); [exact Ht|]].
  unfold raw_form. rewrite escape_plain; [by rewrite bool_decide_true|].
  apply (all_bytes_impl path_char); [|exact Ht]. intros a Ha. by apply path_char_facts in Ha as (_ & _ & ? & _).
Qed.

Lemma publicURL_own_path t : all_bytes path_char t = true →
  publicURL ("https://devantler.tech/" +:+ t) false = true.
Proof.
  intros Ht. set (raw := "https://devantler.tech/" +:+ t).
  assert (∀ a, path_char a = false → a ≠ ":"%char → has_byte a raw = false) as Hno.
  { intros a Ha Hc. apply (all_bytes_absent (λ b, path_char b || Ascii.eqb b ":")).
    - subst raw. rewrite all_bytes_app. apply andb_true_iff. split; [done|].
      eapply all_bytes_impl; [|exact Ht]. intros b ->. done.
    - rewrite Ha. by apply Ascii.eqb_neq. }
  unfold publicURL, contains_any.
  let l := eval vm_compute in (String.list_ascii_of_string forbidden_iri) in
    change (String.list_ascii_of_string forbidden_iri) with l.
  rewrite runes_plain.
  2:{ subst raw. rewrite all_bytes_app. apply andb_true_iff. split; [done|].
      eapply all_bytes_impl; [|exact Ht]. intros [[] [] [] [] [] [] [] []] Ha; try discriminate Ha; done. }
  subst raw. rewrite Parse_own_path by done. cbn -[has_byte]. rewrite !Hno by done. reflexivity.
Qed.

Lemma entityID_valid kind product output : all_bytes path_char kind = true → (slen kind <=? 16)%Z = true →
  validID (entityID kind product output) = true.
Proof.
  intros Hk Hl%Z.leb_le. unfold entityID. destruct (digest_hex (encode
    (JArray [JString kind; JString product; JString output]))) as [Hd Hn].
  set (h := hex_bytes _) in *. unfold validID. apply andb_true_iff. split.
  - apply Z.leb_le. rewrite !slen_app. unfold slen in *. rewrite Hn. cbn. lia.
  - apply orb_true_iff. right.
    change ("https://devantler.tech/.well-known/data-product/" +:+ ?u) with
      ("https://devantler.tech/" +:+ (".well-known/data-product/" +:+ u)).
    apply publicURL_own_path. rewrite !all_bytes_app, Hk. apply andb_true_iff. split; [done|].
    cbn [andb]. apply (all_bytes_impl hex_char); [|done]. intros a Ha. unfold path_char, alnum.
    unfold hex_char in Ha. destruct (lower a), (digit a), (upper a); done.
Qed.

(** ** A served document read back *)

Definition source_publisher (p : publisher) : sourcePublisher :=
  mkSourcePublisher (pub_Type p) (pub_Name p) (mkReference <$> pub_Page p).
Definition source_distribution (d : distribution) : sourceDistribution :=
  mkSourceDistribution (dist_ID d) (dist_Type d) (dist_Title d) (mkReference (dist_AccessURL d))
    (mkReference (dist_AccessService d)) (dist_Format d).
Definition source_service (s : service) : sourceService :=
  mkSourceService (svc_ID s) (Some (svc_Type s)) (svc_Title s) (mkReference (svc_Endpoint s))
    (mkReference (svc_Contract s)) (mkReference (svc_Dataset s)).
Definition source_dataset (d : dataset) : sourceDataset :=
  mkSourceDataset (ds_ID d) (Some (ds_Type d)) (ds_Identifier d) (ds_Title d) (ds_Description d)
    (ds_Version d) (source_publisher (ds_Publisher d)) (mkReference <$> ds_LandingPage d)
    (Some (map source_distribution (ds_Distributions d))).
Definition source_of (c : catalogDocument) : sourceCatalog :=
  mkSourceCatalog source_context (cat_ID c) (cat_Type c) (Some (map source_dataset (cat_Datasets c)))
    (Some (map source_service (cat_Services c))).

(** [decodes f g]: what [f] writes decodes to what [g] gives. *)
Definition decodes_as {A B} `{Decodes B} (f : A → json) (g : A → B) : Prop :=
  ∀ a, decode_into zero_value (to_value (f a)) = Some (g a).

Lemma decode_list {A B} `{Decodes B} (f : A → json) (g : A → B) l : decodes_as f g →
  decode_into (A := option (list B)) None (to_value (JArray (map f l))) = Some (Some (map g l)).
Proof.
  intros Hf. cbn [to_value decode_into decodes_slice]. rewrite map_map.
  assert (mapM (decode_into zero_value) (map (λ a, to_value (f a)) l) = Some (map g l)) as ->; [|done].
  induction l as [|a l IH]; [done|]. cbn [map mapM]. rewrite Hf. cbn [mbind option_bind].
  by rewrite IH.
Qed.

Lemma decode_reference : decodes_as reference_json mkReference.
Proof. intros s. reflexivity. Qed.

Lemma decode_publisher : decodes_as publisher_json source_publisher.
Proof. intros [t n [p|]]; reflexivity. Qed.

Lemma decode_distribution : decodes_as distribution_json source_distribution.
Proof.
  intros [i t n u s f]. unfold distribution_json, omit_string. cbn [dist_Format].
  case_bool_decide as Hf; [subst f|]; reflexivity.
Qed.

Lemma decode_strings : decodes_as JString (λ s, s).
Proof. intros s. reflexivity. Qed.

(** Lists stay folded while the structs around them are computed. *)
#[local] Opaque decodes_slice decodes_map.

Lemma decode_service : decodes_as service_json source_service.
Proof.
  intros [i t n u c d].
  pose proof (decode_list JString (λ s, s) t decode_strings) as Ht. rewrite map_id in Ht.
  cbn in Ht |- *. rewrite Ht. reflexivity.
Qed.

Lemma decode_dataset : decodes_as dataset_json source_dataset.
Proof.
  intros [i t n u c d p l ds].
  pose proof (decode_list JString (λ s, s) t decode_strings) as Ht. rewrite map_id in Ht.
  pose proof (decode_list _ _ ds decode_distribution) as Hds.
  destruct p as [pt pn [pp|]], l as [l|]; cbn in Ht, Hds |- *;
    rewrite Ht; cbn; rewrite Hds; reflexivity.
Qed.

Lemma decode_catalog c : cat_Context c = catalog_context →
  decode_into zero_value (to_value (catalog_json c)) = Some (source_of c).
Proof.
  destruct c as [ctx i t ds ss]. cbn [cat_Context]. intros ->.
  pose proof (decode_list _ _ ds decode_dataset) as Hds.
  pose proof (decode_list _ _ ss decode_service) as Hss.
  assert (decode_into (A := gmap string string) ∅ (to_value (JObject (map (λ e, (fst e, JString (snd e))) catalog_context)))
    = Some source_context) as Hctx by (vm_compute; reflexivity).
  cbn in Hds, Hss, Hctx |- *. rewrite Hctx. cbn. rewrite Hds. cbn. rewrite Hss. reflexivity.
Qed.

(** ** The structural check *)

Fixpoint keys_ok (depth : Z) (seen : gset string) (keys : list string) : bool :=
  match keys with
  | [] => true
  | key :: keys' =>
      if bool_decide (key ∈ seen) || negb (knownKey key) then false
      else if (key == "@context") && (depth != 0%Z) then false
      else keys_ok depth ({[key]} ∪ seen) keys'
  end.

Lemma value_object depth ms : value depth (DObject ms) =
  negb (32 <? depth)%Z && keys_ok depth ∅ (map fst ms) && forallb (value (depth + 1)) (map snd ms).
Proof.
  cbn [value]. destruct (32 <? depth)%Z; [done|]. cbn [negb andb]. generalize (∅ : gset string).
  induction ms as [|[key w] ms IH]; intros seen; [done|]. cbn [map fst snd keys_ok forallb].
  destruct (_ || _); [done|]. destruct (_ && _); [done|]. rewrite IH.
  rewrite !andb_assoc. f_equal. apply andb_comm.
Qed.

Lemma value_array depth l : (depth <= 32)%Z → forallb (value (depth + 1)) l = true →
  value depth (DArray l) = true.
Proof. intros Hd Hl. cbn [value]. destruct (Z.ltb_spec 32 depth); [lia|done]. Qed.

(** A string within the limit. *)
Definition bounded (s : string) : Prop := ValidString s = true ∧ (slen s ≤ 16384)%Z.

Lemma value_string depth s : (depth <= 32)%Z → bounded s → value depth (DString s) = true.
Proof.
  intros Hd [_ Hs]. cbn [value]. destruct (Z.ltb_spec 32 depth); [lia|].
  by destruct (Z.ltb_spec 16384 (slen s)); [lia|].
Qed.

(** [fits d j]: at depth [d] the document [j] passes the check and is text the codec preserves. *)
Definition fits (d : nat) (j : json) : Prop :=
  value (Z.of_nat d) (to_value j) = true ∧ textual (8 - d) j = true.

Lemma fits_string d s : d <= 8 → bounded s → fits d (JString s).
Proof.
  intros Hd Hs. split; [apply value_string; [lia|done]|]. destruct Hs. cbn. by destruct (8 - d).
Qed.

Lemma fits_array d l : d < 8 → Forall (fits (S d)) l → fits d (JArray l).
Proof.
  intros Hd Hl. rewrite list.Forall_forall in Hl. split.
  - cbn [to_value]. apply value_array; [lia|]. apply forallb_elem. intros v Hv.
    apply list_elem_of_fmap in Hv as (j & -> & Hj). specialize (Hl j Hj) as [Hl _].
    by replace (Z.of_nat d + 1)%Z with (Z.of_nat (S d)) by lia.
  - replace (8 - d) with (S (8 - S d)) by lia. cbn [textual]. apply forallb_elem.
    intros j Hj. by apply Hl.
Qed.

Lemma fits_object d fs : d < 8 → keys_ok (Z.of_nat d) ∅ (map fst fs) = true →
  forallb ValidString (map fst fs) = true → Forall (fits (S d)) (map snd fs) → fits d (JObject fs).
Proof.
  intros Hd Hk Hv Hl. rewrite list.Forall_forall in Hl. split.
  - cbn [to_value]. rewrite value_object, !map_map. cbn [fst snd]. change (λ x, x.1) with (@fst string json).
    destruct (Z.ltb_spec 32 (Z.of_nat d)); [lia|]. rewrite Hk. cbn [negb andb].
    apply forallb_elem. intros v (f & -> & Hf)%list_elem_of_fmap.
    destruct (Hl (snd f)) as [Hl' _]; [by apply list_elem_of_fmap_2|].
    by replace (Z.of_nat d + 1)%Z with (Z.of_nat (S d)) by lia.
  - replace (8 - d) with (S (8 - S d)) by lia. cbn [textual]. apply forallb_elem.
    intros f Hf. rewrite forallb_elem in Hv. rewrite Hv by (by apply list_elem_of_fmap_2).
    apply Hl. by apply list_elem_of_fmap_2.
Qed.

(** Every string of a node within the limit. *)
Ltac fit_strings :=
  repeat match goal with
  | |- Forall _ (_ :: _) => apply list.Forall_cons; split
  | |- Forall _ [] => constructor
  | |- fits _ (JString _) => apply fits_string; [lia|]
  end; try assumption.

Lemma fits_reference d s : d < 8 → bounded s → fits d (reference_json s).
Proof.
  intros Hd Hs. apply fits_object; [done| |done|cbn; fit_strings].
  by destruct d as [|[|[|[|[|[|[|[|d]]]]]]]]; [vm_compute..|lia].
Qed.

Lemma fits_distribution x : bounded (dist_ID x) → bounded (dist_Type x) → bounded (dist_Title x) →
  bounded (dist_AccessURL x) → bounded (dist_AccessService x) → bounded (dist_Format x) →
  fits 4 (distribution_json x).
Proof.
  intros. unfold distribution_json, omit_string. case_bool_decide;
    (apply fits_object; [lia|vm_compute; reflexivity|vm_compute; reflexivity|]); cbn; fit_strings;
    apply fits_reference; (done || lia).
Qed.

Lemma fits_service x : bounded (svc_ID x) → Forall bounded (svc_Type x) → bounded (svc_Title x) →
  bounded (svc_Endpoint x) → bounded (svc_Contract x) → bounded (svc_Dataset x) →
  fits 2 (service_json x).
Proof.
  intros. apply fits_object; [lia|vm_compute; reflexivity|vm_compute; reflexivity|]. cbn. fit_strings;
    try (apply fits_reference; (done || lia)). apply fits_array; [lia|]. apply list.Forall_fmap.
  eapply list.Forall_impl; [done|]. intros s Hs. by apply fits_string; [lia|].
Qed.

Lemma fits_publisher x : bounded (pub_Type x) → bounded (pub_Name x) →
  (∀ s, pub_Page x = Some s → bounded s) → fits 3 (publisher_json x).
Proof.
  intros Ht Hn Hp. unfold publisher_json, omit_nil. destruct (pub_Page x) as [p|];
    (apply fits_object; [lia|vm_compute; reflexivity|vm_compute; reflexivity|]); cbn; fit_strings.
  apply fits_reference; [lia|auto].
Qed.

Lemma fits_dataset x : bounded (ds_ID x) → Forall bounded (ds_Type x) → bounded (ds_Identifier x) →
  bounded (ds_Title x) → bounded (ds_Description x) → bounded (ds_Version x) →
  fits 3 (publisher_json (ds_Publisher x)) → (∀ s, ds_LandingPage x = Some s → bounded s) →
  Forall (λ y, fits 4 (distribution_json y)) (ds_Distributions x) → fits 2 (dataset_json x).
Proof.
  intros Hi Ht Hn Hu Hd Hv Hp Hl Hds.
  assert (fits 3 (JArray (map JString (ds_Type x)))) as Hts.
  { apply fits_array; [lia|]. apply list.Forall_fmap. eapply list.Forall_impl; [exact Ht|].
    intros s Hs. by apply fits_string; [lia|]. }
  assert (fits 3 (JArray (map distribution_json (ds_Distributions x)))) as Hdj.
  { apply fits_array; [lia|]. by apply list.Forall_fmap. }
  unfold dataset_json, omit_nil. destruct (ds_LandingPage x) as [p|];
    (apply fits_object; [lia|vm_compute; reflexivity|vm_compute; reflexivity|]); cbn; fit_strings.
  apply fits_reference; [lia|auto].
Qed.

Lemma fits_catalog c : cat_Context c = catalog_context → bounded (cat_ID c) → bounded (cat_Type c) →
  Forall (λ x, fits 2 (dataset_json x)) (cat_Datasets c) →
  Forall (λ x, fits 2 (service_json x)) (cat_Services c) → fits 0 (catalog_json c).
Proof.
  intros Hc Hi Ht Hds Hss.
  assert (fits 1 (JArray (map dataset_json (cat_Datasets c)))) as Hd.
  { apply fits_array; [lia|]. by apply list.Forall_fmap. }
  assert (fits 1 (JArray (map service_json (cat_Services c)))) as Hs.
  { apply fits_array; [lia|]. by apply list.Forall_fmap. }
  unfold catalog_json. rewrite Hc.
  apply fits_object; [lia|vm_compute; reflexivity|vm_compute; reflexivity|]. cbn. fit_strings.
  split; vm_compute; reflexivity.
Qed.

(** ** The index *)

Lemma claim_fresh ids id : validID id = true → id ∉ ids → claim ids id = Some ({[id]} ∪ ids).
Proof. intros Hv Hn. unfold claim. by rewrite Hv, bool_decide_false. Qed.

(** A map filled by a loop. *)
Definition insert_all {A} (key : A → string) (l : list A) (m : gmap string A) : gmap string A :=
  foldl (λ m v, <[key v := v]> m) m l.
Lemma insert_all_lookup {A} (key : A → string) (l : list A) : ∀ m : gmap string A,
  NoDup (map key l) →
  (∀ v, v ∈ l → insert_all key l m !! key v = Some v) ∧
  (∀ k, k ∉ map key l → insert_all key l m !! k = m !! k).
Proof.
  induction l as [|x l IH]; intros m; [by split; [intros v ?%elem_of_nil|]|].
  cbn [map]. unfold insert_all. cbn [foldl]. fold (insert_all key l (<[key x := x]> m)).
  intros [Hx Hl]%list.NoDup_cons. destruct (IH (<[key x := x]> m) Hl) as [H1 H2]. split.
  - intros v [->|Hv]%elem_of_cons; [|auto]. rewrite H2 by done. apply lookup_insert_eq.
  - intros k Hk. rewrite H2 by set_solver. apply lookup_insert_ne. set_solver.
Qed.

Lemma insert_all_dom {A} (key : A → string) (l : list A) : ∀ m : gmap string A,
  dom (insert_all key l m) = list_to_set (map key l) ∪ dom m.
Proof.
  induction l as [|x l IH]; intros m; unfold insert_all; cbn [foldl map list_to_set]; [set_solver|].
  fold (insert_all key l (<[key x := x]> m)). rewrite IH, dom_insert_L. set_solver.
Qed.

Record service_ok (v : sourceService) : Prop := {
  sv_id : validID (ss_ID v) = true;
  sv_types : types (ss_Type v) "dcat:DataService" = true;
  sv_title : ss_Title v ≠ "";
  sv_endpoint : publicURL (ref_ID (ss_Endpoint v)) false = true;
  sv_contract : publicURL (ref_ID (ss_Contract v)) false = true
}.

Lemma index_services_ok l : ∀ ids m, Forall service_ok l → fresh (map ss_ID l) ids →
  index_services l ids m =
    Some (list_to_set (map ss_ID l) ∪ ids, insert_all ss_ID l m).
Proof.
  induction l as [|v l IH]; intros ids m; cbn [map list_to_set]; [by rewrite union_empty_l_L|].
  intros [[Hi Ht Hn He Hc] Hl]%list.Forall_cons [Hv Hf]%fresh_cons. cbn [index_services].
  rewrite claim_fresh, Ht, bool_decide_false, He, Hc, IH by done. cbn [negb orb list_to_set].
  do 2 f_equal. set_solver.
Qed.

(** A distribution whose service is indexed and agrees with it. *)
Definition access (v : sourceDistribution) : string := ref_ID (sd_AccessService v).
Record distribution_ok (services : gmap string sourceService) (dataset : string)
    (v : sourceDistribution) : Prop := {
  di_id : validID (sd_ID v) = true;
  di_type : sd_Type v = "dcat:Distribution";
  di_title : sd_Title v ≠ "";
  di_url : publicURL (ref_ID (sd_AccessURL v)) false = true;
  di_service : ∃ s, services !! access v = Some s ∧ ss_ID s = access v ∧ ss_Title s = sd_Title v ∧
    ref_ID (ss_Dataset s) = dataset ∧ ref_ID (ss_Endpoint s) = ref_ID (sd_AccessURL v)
}.

Lemma index_distributions_ok services dataset l : ∀ ids used,
  Forall (distribution_ok services dataset) l → fresh (map sd_ID l) ids → fresh (map access l) used →
  index_distributions services dataset l ids used =
    Some (list_to_set (map sd_ID l) ∪ ids, list_to_set (map access l) ∪ used).
Proof.
  induction l as [|v l IH]; intros ids used; cbn [map list_to_set]; [by rewrite !union_empty_l_L|].
  intros [[Hi Ht Hn Hu (s & Hs & Ha & Htt & Hd & He)] Hl]%list.Forall_cons [Hv Hf]%fresh_cons
    [Hw Hg]%fresh_cons.
  cbn [index_distributions]. rewrite claim_fresh by done. fold (access v). rewrite Hs, Ht, Htt, Hd, He, Ha, Hu.
  rewrite (bool_decide_false (sd_Title v = "")), (bool_decide_false (access v ∈ used)) by done.
  rewrite !bool_decide_true, IH by done. cbn [negb orb list_to_set].
  do 2 f_equal; set_solver.
Qed.

Definition dists_of (d : sourceDataset) : list sourceDistribution := default [] (src_Distributions d).
Record dataset_ok (services : gmap string sourceService) (d : sourceDataset) : Prop := {
  da_id : validID (src_ID d) = true;
  da_valid : dataset_valid d = true;
  da_links : links_valid d = true;
  da_some : dists_of d ≠ [];
  da_dists : Forall (distribution_ok services (src_ID d)) (dists_of d)
}.
Definition dataset_ids (d : sourceDataset) : list string := src_ID d :: map sd_ID (dists_of d).
Definition output_count (l : list sourceDataset) : Z := foldr Z.add 0%Z (map (λ d, len (dists_of d)) l).

Lemma output_count_nonneg l : (0 <= output_count l)%Z.
Proof. induction l as [|d l IH]; unfold output_count, len in *; cbn; lia. Qed.

Lemma index_datasets_ok services l : ∀ ids used outputs idx, Forall (dataset_ok services) l →
  fresh (concat (map dataset_ids l)) ids → fresh (concat (map (map access ∘ dists_of) l)) used →
  (outputs + output_count l <= maxDistributions)%Z →
  index_datasets services l ids used outputs idx =
    Some (insert_all src_ID l idx,
          list_to_set (concat (map dataset_ids l)) ∪ ids,
          list_to_set (concat (map (map access ∘ dists_of) l)) ∪ used).
Proof.
  induction l as [|d l IH]; intros ids used outputs idx; cbn [map concat list_to_set]; [by rewrite !union_empty_l_L|].
  intros [[Hi Hv Hl Hs Hd] Hok]%list.Forall_cons Hf [Hu1 Hu2]%fresh_app Hn.
  unfold dataset_ids at 1 in Hf. cbn [app] in Hf. apply fresh_cons in Hf as [Hf1 Hf2].
  apply fresh_app in Hf2 as [Hf2 Hf3].
  cbn [index_datasets]. rewrite claim_fresh, Hv, Hl by done. fold (dists_of d).
  unfold output_count in Hn. cbn [map foldr] in Hn. fold (output_count l) in Hn.
  pose proof (output_count_nonneg l). cbn [negb orb].
  destruct (len (dists_of d) =? 0)%Z eqn:E0.
  { destruct (dists_of d); [done|]. unfold len in E0. cbn in E0. by apply Z.eqb_eq in E0. }
  destruct (Z.ltb_spec maxDistributions (outputs + len (dists_of d))); [lia|]. cbn [orb].
  rewrite index_distributions_ok by done. rewrite IH; [|done| | |lia].
  - cbn [foldl]. do 2 f_equal; [f_equal|]; unfold dataset_ids, compose; cbn [list_to_set]; set_solver.
  - exact Hf3.
  - exact Hu2.
Qed.

Section Index.
Context (s : sourceCatalog) (ds : list sourceDataset) (ss : list sourceService).
Definition indexed_services : gmap string sourceService := insert_all ss_ID ss ∅.
Definition graph_ids : list string := sc_ID s :: map ss_ID ss ++ concat (map dataset_ids ds).
Definition used_services : list string := concat (map (map access ∘ dists_of) ds).

Lemma index_ok :
  sc_Context s = source_context → sc_Type s = "dcat:Catalog" → sc_Datasets s = Some ds →
  sc_Services s = Some ss → (len ds <= maxDatasets)%Z → (len ss <= maxDistributions)%Z →
  validID (sc_ID s) = true → NoDup graph_ids → NoDup used_services → Forall service_ok ss →
  Forall (dataset_ok indexed_services) ds → (output_count ds <= maxDistributions)%Z →
  Forall (λ v, ref_ID (ss_Dataset v) ∈ map src_ID ds ∧ ss_ID v ∈ used_services) ss →
  index s = Some (insert_all src_ID ds ∅, list_to_set graph_ids).
Proof.
  intros Hc Ht Hds Hss Hn Hm Hi Hg Hu Hsv Hdv Ho Hlinks. unfold index.
  rewrite Hds, Hss, Hc, Ht, !bool_decide_true by done. cbn [negb orb].
  destruct (Z.ltb_spec maxDatasets (len ds)); [lia|].
  destruct (Z.ltb_spec maxDistributions (len ss)); [lia|]. cbn [orb].
  assert (∀ l : list string, NoDup l → fresh l ∅) as Hfresh.
  { intros l Hl. split; [done|]. intros x _. set_solver. }
  apply Hfresh in Hu. apply Hfresh, fresh_cons in Hg as [Hg1 Hg]. apply fresh_app in Hg as [Hg2 Hg3].
  rewrite claim_fresh, index_services_ok by done. fold indexed_services.
  rewrite index_datasets_ok by done. fold used_services.
  rewrite (proj2 (forallb_elem _ ss)).
  - do 2 f_equal. unfold graph_ids. cbn [list_to_set]. set_solver.
  - intros v Hv. rewrite list.Forall_forall in Hlinks. destruct (Hlinks v Hv) as [Hd Hs].
    apply andb_true_iff. split; [|apply bool_decide_eq_true; set_solver].
    apply non_nil_true, elem_of_dom. rewrite insert_all_dom. set_solver.
Qed.
End Index.

(** ** The graph of a served catalog *)

Lemma ValidString_ascii s : all_bytes (byte_in 0 0x7F) s = true → ValidString s = true.
Proof.
  induction s as [|a s IH]; [done|]. cbn [all_bytes ValidString]. intros [Ha Hs]%andb_true_iff.
  unfold rune_size. rewrite Ha. auto.
Qed.

Lemma entityID_bounded kind product output : all_bytes path_char kind = true → (slen kind <=? 16)%Z = true →
  bounded (entityID kind product output).
Proof.
  intros Hk Hl. split.
  - apply ValidString_ascii. unfold entityID. rewrite !all_bytes_app.
    assert (∀ a, path_char a = true → byte_in 0 0x7F a = true) as Hp
      by (intros [[] [] [] [] [] [] [] []] Ha; try discriminate Ha; done).
    rewrite (all_bytes_impl path_char _ kind) by done.
    rewrite (all_bytes_impl hex_char _ (hex_bytes _)); [done| |apply digest_hex].
    intros [[] [] [] [] [] [] [] []] Ha; try discriminate Ha; done.
  - pose proof (entityID_valid kind product output Hk Hl) as H. unfold validID in H.
    apply andb_true_iff in H as [H%Z.leb_le _]. lia.
Qed.

Lemma IRI_bounded s : validIRI s = true → bounded s.
Proof.
  intros Hs. split; [|by apply validIRI_public in Hs as [? _]; lia].
  unfold validIRI in Hs. destruct (_ || _) eqn:Hg; [done|].
  do 2 apply orb_false_iff in Hg as [Hg _]. apply orb_false_iff in Hg as [_ Hv]. by apply negb_false_iff.
Qed.

Lemma word_bounded s : all_bytes (byte_in 0 0x7F) s = true → (slen s <= 16384)%Z → bounded s.
Proof. intros Hs Hl. split; [by apply ValidString_ascii|done]. Qed.
Ltac word := apply word_bounded; [reflexivity|vm_compute; discriminate].

Section OneProduct.
Context (spec : DataProductSpec) (Hok : spec_ok spec).

Lemma spec_texts v : v ∈ spec_fields spec → bounded v.
Proof.
  intros Hv. pose proof (so_fields _ Hok) as H. rewrite list.Forall_forall in H. apply H.
  apply elem_of_app. by left.
Qed.

Lemma sorted_port port : port ∈ sorted_ports spec → port ∈ Outputs spec.
Proof. apply sort_slice_elem. Qed.

Lemma port_texts port v : port ∈ Outputs spec → v ∈ port_fields port → bounded v.
Proof.
  intros Hp Hv. pose proof (so_fields _ Hok) as H. rewrite list.Forall_forall in H. apply H.
  apply elem_of_app. right. apply list_elem_of_In, in_concat. exists (port_fields port).
  split; [|by apply list_elem_of_In]. apply in_map, list_elem_of_In, Hp.
Qed.

Lemma port_valid port : port ∈ Outputs spec → Output_Name port ≠ "" ∧
  publicURL (Output_URL port) false = true ∧ publicURL (Output_ContractURL port) false = true.
Proof.
  intros Hp. pose proof (so_ports _ Hok) as H. rewrite forallb_elem in H. specialize (H port Hp).
  unfold Catalog.port_ok in H. apply andb_true_iff in H as [[H1 H2]%andb_true_iff H3].
  apply negb_true_iff, bool_decide_eq_false in H1. auto using validHTTPS_public.
Qed.

Lemma link_valid value : optional_link_ok value = true →
  match mkReference <$> optionalReference value with
  | Some r => publicURL (ref_ID r) false | None => true end = true.
Proof.
  unfold optional_link_ok, optionalReference. case_bool_decide; [done|]. apply validHTTPS_public.
Qed.

Lemma optional_bounded value s : bounded value → optionalReference value = Some s → bounded s.
Proof. unfold optionalReference. intros Hv. case_bool_decide; [done|]. by intros [= <-]. Qed.

(** The nodes of one product fit the structural check. *)
Lemma fits_port_distribution port : port ∈ Outputs spec →
  fits 4 (distribution_json (port_distribution spec port)).
Proof.
  intros Hp. pose proof (λ v, port_texts port v Hp) as Ht. unfold port_fields in Ht.
  apply fits_distribution; cbn [port_distribution dist_ID dist_Type dist_Title dist_AccessURL dist_AccessService dist_Format];
    [by apply entityID_bounded|word|apply Ht; set_solver|apply Ht; set_solver|by apply entityID_bounded|
     apply Ht; set_solver].
Qed.

Lemma fits_port_service port : port ∈ Outputs spec → fits 2 (service_json (port_service spec port)).
Proof.
  intros Hp. pose proof (λ v, port_texts port v Hp) as Ht. unfold port_fields in Ht.
  apply fits_service; cbn [port_service svc_ID svc_Type svc_Title svc_Endpoint svc_Contract svc_Dataset];
    [by apply entityID_bounded| |apply Ht; set_solver|apply Ht; set_solver|apply Ht; set_solver|
     by apply IRI_bounded, so_id].
  repeat constructor; by vm_compute.
Qed.

Lemma fits_dataset_of : fits 2 (dataset_json (dataset_of spec)).
Proof.
  pose proof spec_texts as Ht. unfold spec_fields in Ht.
  apply fits_dataset; unfold dataset_of, project_dataset;
    cbn [ds_ID ds_Type ds_Identifier ds_Title ds_Description ds_Version ds_Publisher ds_LandingPage ds_Distributions];
    try (apply Ht; set_solver).
  - repeat constructor; by vm_compute.
  - apply fits_publisher; cbn [pub_Type pub_Name pub_Page]; [word|apply Ht; set_solver|].
    intros s. apply optional_bounded, Ht. set_solver.
  - intros s. apply optional_bounded, Ht. set_solver.
  - apply list.Forall_fmap, list.Forall_forall. intros port Hp. by apply fits_port_distribution, sorted_port.
Qed.

(** They are what the index accepts. *)
Lemma service_ok_port port : port ∈ Outputs spec → service_ok (source_service (port_service spec port)).
Proof.
  intros (Hn & Hu & Hc)%port_valid.
  constructor; cbn [source_service port_service ss_ID ss_Type ss_Title ss_Endpoint ss_Contract ref_ID
    svc_ID svc_Type svc_Title svc_Endpoint svc_Contract]; [by apply entityID_valid|done..].
Qed.

Lemma dataset_ok_spec services :
  (∀ port, port ∈ Outputs spec →
     services !! service_id spec port = Some (source_service (port_service spec port))) →
  dataset_ok services (source_dataset (dataset_of spec)).
Proof.
  intros Hserv. destruct Hok as [Hi Ht Hd Hv Ho [Hl1 Hl2] Hne _ _]. constructor.
  - by apply validIRI_ID.
  - unfold dataset_valid. cbn. rewrite (bool_decide_true (ID spec = ID spec)),
      (bool_decide_false (DisplayName spec = "")), (bool_decide_false (Description spec = "")),
      (bool_decide_false (Spec_Version spec = "")), (bool_decide_false (Owner_Name (Owner spec) = ""))
      by done. reflexivity.
  - unfold links_valid. cbn [forallb source_dataset dataset_of project_dataset src_Landing src_Publisher
      ds_LandingPage ds_Publisher source_publisher sp_Page pub_Page].
    by rewrite !link_valid.
  - unfold dists_of. cbn. unfold sorted_ports. intros H. apply Hne.
    destruct (sort_slice _ _) eqn:E; [|done]. apply Permutation_nil_r. by rewrite <- E, sort_slice_perm.
  - unfold dists_of. cbn [source_dataset dataset_of project_dataset src_Distributions ds_Distributions default].
    apply list.Forall_fmap, list.Forall_fmap, list.Forall_forall. intros port Hp%sorted_port.
    destruct (port_valid port Hp) as (Hn & Hu & _).
    constructor; [by apply entityID_valid|done..|].
    exists (source_service (port_service spec port)). split; [by apply Hserv|done].
Qed.
End OneProduct.

Section Served.
Context (id : string) (specs : list DataProductSpec).
Let c := catalog_of id specs.
Let ds := map source_dataset (cat_Datasets c).
Let ss := map source_service (cat_Services c).

Lemma served_service v : v ∈ ss ↔ ∃ spec port, spec ∈ specs ∧ port ∈ Outputs spec ∧
  v = source_service (port_service spec port).
Proof.
  unfold ss, c, catalog_of. cbn [cat_Services]. split.
  - intros (x & -> & Hx)%list_elem_of_fmap. apply list_elem_of_In, in_concat in Hx as (l & Hl & Hx).
    apply list_elem_of_In, list_elem_of_fmap in Hl as (spec & -> & Hspec).
    apply list_elem_of_In, list_elem_of_fmap in Hx as (port & -> & Hport).
    exists spec, port. split; [by apply sort_slice_elem in Hspec|]. split; [by apply sorted_port|done].
  - intros (spec & port & Hs & Hp & ->). apply list_elem_of_fmap_2, list_elem_of_In, in_concat.
    exists (map (port_service spec) (sorted_ports spec)).
    split; [apply (in_map (λ spec, map (port_service spec) (sorted_ports spec)))|apply in_map];
      apply list_elem_of_In; by apply sort_slice_elem.
Qed.

Lemma served_dataset d : d ∈ ds ↔ ∃ spec, spec ∈ specs ∧ d = source_dataset (dataset_of spec).
Proof.
  unfold ds, c, catalog_of. cbn [cat_Datasets]. rewrite map_map, list_elem_of_fmap. split.
  - intros (spec & -> & H%sort_slice_elem). eauto.
  - intros (spec & H & ->). exists spec. split; [done|]. by apply sort_slice_elem.
Qed.

Lemma served_graph_ids : graph_ids (source_of c) ds ss ≡ₚ node_ids c.
Proof.
  unfold graph_ids, node_ids, ds, ss. cbn [source_of sc_ID]. apply Permutation_skip.
  rewrite !map_map. rewrite (Permutation_app_comm (map _ _)). apply Permutation_app; [|done].
  assert (∀ d, dataset_ids (source_dataset d) = ds_ID d :: map dist_ID (ds_Distributions d)) as Hd.
  { intros d. unfold dataset_ids, dists_of. cbn. by rewrite map_map. }
  by rewrite (map_ext _ _ Hd).
Qed.

Lemma served_used : used_services ds = map ss_ID ss.
Proof.
  unfold used_services, ds, ss, c, catalog_of. cbn [cat_Datasets cat_Services].
  rewrite !map_map, concat_map, map_map. f_equal. apply map_ext. intros spec.
  unfold compose, dists_of. cbn. by rewrite !map_map.
Qed.

Lemma served_outputs : output_count ds = total_outputs specs ∧ len ss = total_outputs specs.
Proof.
  unfold output_count, ds, ss, c, catalog_of, total_outputs. cbn [cat_Datasets cat_Services].
  rewrite <- (sum_proper _ _ (Permutation_map (λ s, len (Outputs s)) (sort_slice_perm (less_by ID) specs))).
  assert (∀ spec, len (sorted_ports spec) = len (Outputs spec)) as Hp.
  { intros spec. unfold len, sorted_ports. by rewrite (Permutation_length (sort_slice_perm _ _)). }
  split.
  - rewrite !map_map. f_equal. apply map_ext. intros spec. unfold dists_of. cbn. rewrite <- Hp.
    unfold len. by rewrite !length_map.
  - induction (sort_slice (less_by ID) specs) as [|spec l IH]; [done|]. cbn [map concat foldr].
    rewrite map_app, len_app, <- Hp, IH. unfold len. by rewrite !length_map.
Qed.

Context (Hspecs : Forall spec_ok specs) (Hid : validIRI id = true).
Context (Hnd : NoDup (node_ids c)) (Hlen : (len specs <= 256)%Z) (Hout : (total_outputs specs <= 1024)%Z).

Lemma served_index : index (source_of c) =
  Some (insert_all src_ID ds ∅, list_to_set (node_ids c)).
Proof.
  destruct served_outputs as [Ho Hm].
  assert (NoDup (graph_ids (source_of c) ds ss)) as Hg by (by rewrite served_graph_ids).
  assert (NoDup (map ss_ID ss)) as Hss.
  { unfold graph_ids in Hg. apply list.NoDup_cons in Hg as [_ Hg]. by apply list.NoDup_app in Hg as [? _]. }
  rewrite list.Forall_forall in Hspecs.
  rewrite (index_ok (source_of c) ds ss); try done.
  - do 2 f_equal. apply list_to_set_perm_L, served_graph_ids.
  - unfold ds, c, catalog_of, len in *. cbn [cat_Datasets]. rewrite !length_map.
    rewrite (Permutation_length (sort_slice_perm _ _)). exact Hlen.
  - unfold maxDistributions. lia.
  - by apply validIRI_ID.
  - by rewrite served_used.
  - apply list.Forall_forall. intros v (spec & port & Hs & Hp & ->)%served_service.
    apply service_ok_port; auto.
  - apply list.Forall_forall. intros d (spec & Hs & ->)%served_dataset. apply dataset_ok_spec; [auto|].
    intros port Hp. apply (proj1 (insert_all_lookup ss_ID ss ∅ Hss) (source_service (port_service spec port))).
    apply served_service. eauto 6.
  - unfold maxDistributions. lia.
  - apply list.Forall_forall. intros v Hv. rewrite served_used. split; [|by apply list_elem_of_fmap_2].
    apply served_service in Hv as (spec & port & Hs & Hp & ->). apply list_elem_of_fmap.
    exists (source_dataset (dataset_of spec)). split; [done|]. apply served_dataset. eauto.
Qed.

Lemma served_lookup :
  let idx := insert_all src_ID ds ∅ in
  (∀ k, is_Some (idx !! k) ↔ k ∈ map ID specs) ∧
  (∀ spec, spec ∈ specs → idx !! ID spec = Some (source_dataset (dataset_of spec))).
Proof.
  assert (NoDup (map src_ID ds)) as Hds.
  { assert (NoDup (graph_ids (source_of c) ds ss)) as Hg by (by rewrite served_graph_ids).
    unfold graph_ids in Hg. apply list.NoDup_cons in Hg as [_ Hg]. apply list.NoDup_app in Hg as (_ & _ & Hg).
    revert Hg. clear. induction ds as [|d l IH]; [constructor|]. cbn [map concat]. unfold dataset_ids at 1.
    intros [Hd Hg]%list.NoDup_cons. cbn [app] in Hd. apply list.NoDup_app in Hg as (_ & _ & Hg).
    apply list.NoDup_cons. split; [|by apply IH]. intros Hin. apply Hd, elem_of_app. right.
    apply list_elem_of_fmap in Hin as (d' & -> & Hd'). apply list_elem_of_In, in_concat.
    exists (dataset_ids d'). split; [apply in_map, list_elem_of_In, Hd'|by left]. }
  split.
  - intros k. rewrite <- elem_of_dom, insert_all_dom.
    assert (map src_ID ds ≡ₚ map ID specs) as ->; [|set_solver].
    unfold ds, c, catalog_of. cbn [cat_Datasets]. rewrite !map_map.
    by rewrite (Permutation_map ID (sort_slice_perm (less_by ID) specs)).
  - intros spec Hs. apply (proj1 (insert_all_lookup src_ID ds ∅ Hds) (source_dataset (dataset_of spec))).
    apply served_dataset. eauto.
Qed.

Lemma served_fits : fits 0 (catalog_json c).
Proof.
  rewrite list.Forall_forall in Hspecs.
  apply fits_catalog; [done|by apply IRI_bounded|word| |]; apply list.Forall_forall.
  - intros d Hd. unfold c, catalog_of in Hd. cbn [cat_Datasets] in Hd.
    apply list_elem_of_fmap in Hd as (spec & -> & Hs%sort_slice_elem). apply fits_dataset_of; auto.
  - intros x Hx. unfold c, catalog_of in Hx. cbn [cat_Services] in Hx.
    apply list_elem_of_In, in_concat in Hx as (l & Hl & Hx).
    apply list_elem_of_In, list_elem_of_fmap in Hl as (spec & -> & Hspec%sort_slice_elem).
    apply list_elem_of_In, list_elem_of_fmap in Hx as (port & -> & Hport%sorted_port).
    apply fits_port_service; auto.
Qed.

Lemma served_decode :
  decode_document (encode (catalog_json c) +:+ String.String (ascii_of_N 10) "") = Some (source_of c).
Proof.
  destruct served_fits as [Hv Ht]. unfold decode_document, checkJSON.
  pose proof (textual_nested _ _ Ht) as Hn. rewrite ValidString_app by (by eapply ValidString_encode).
  rewrite (ValidUnicodeEscapes_encode _ _ _ Hn), (next_value_encode _ _ _ Ht) by first [done|vm_compute; discriminate].
  change (Z.of_nat 0) with 0%Z in Hv.
  rewrite Hv, (eq_refl : ValidString (String.String (ascii_of_N 10) "") = true),
    (eq_refl : ValidUnicodeEscapes (String.String (ascii_of_N 10) "") = true),
    (eq_refl : at_eof (String.String (ascii_of_N 10) "") = true).
  cbn [negb andb]. by apply decode_catalog.
Qed.
End Served.

(** ** Failures of an export *)

(** A failure that does not concern the catalog. *)
Definition of_bindings (err : exportError) : Prop :=
  err ≠ InvalidInput "catalog" ∧ err ≠ Refused "source is not a valid bounded controller DCAT catalog".

Lemma first_error_in {A} (check : A → option string) (P : string → Prop) l e :
  (∀ x e, check x = Some e → P e) → first_error check l = Some e → P e.
Proof.
  intros Hc. induction l as [|x l IH]; [done|]. cbn [first_error].
  destruct (check x) as [e'|] eqn:E; [|exact IH]. intros [= <-]. by eapply Hc.
Qed.

Ltac refusals := repeat (case_match; try done); intros [= <-]; split; discriminate.

Lemma validate_of_bindings o p e : validate o p = Some e → of_bindings (Refused e).
Proof.
  unfold validate. destruct (_ || _); [intros [= <-]; split; discriminate|].
  apply (first_error_in _ (λ e, of_bindings (Refused e))). intros rules e'. unfold category_error. destruct rules as [rules|]; [|done].
  destruct (_ || _); [intros [= <-]; split; discriminate|].
  apply (first_error_in _ (λ e, of_bindings (Refused e))). intros r e''. unfold rule_error. refusals.
Qed.

Lemma claimed_of_bindings ids id err : claimed ids id = inr err → of_bindings err.
Proof. unfold claimed. destruct (claim ids id); [done|]. intros [= <-]. split; discriminate. Qed.

Lemma export_offers_of_bindings p l : ∀ ids err, export_offers p l ids = inr err → of_bindings err.
Proof.
  induction l as [|o l IH]; intros ids err; [done|]. cbn [export_offers].
  destruct (claimed ids (o_ID o)) as [ids'|e] eqn:E; [|intros [= <-]; by eapply claimed_of_bindings].
  destruct (validate o p) as [t|] eqn:E'; [intros [= <-]; by eapply validate_of_bindings|]. apply IH.
Qed.

Lemma export_distributions_of_bindings l : ∀ outputs ids err,
  export_distributions l outputs ids = inr err → of_bindings err.
Proof.
  induction l as [|d l IH]; intros outputs ids err; [done|]. cbn [export_distributions].
  destruct (negb _); [intros [= <-]; split; discriminate|].
  destruct (claimed ids (db_ID d)) as [ids'|e] eqn:E; [|intros [= <-]; by eapply claimed_of_bindings].
  destruct (negb _); [intros [= <-]; split; discriminate|]. apply IH.
Qed.

Lemma export_datasets_of_bindings doc idx l : ∀ ids selected total datasets err,
  export_datasets doc idx l ids selected total datasets = inr err → of_bindings err.
Proof.
  induction l as [|b l IH]; intros ids selected total datasets err; [done|]. cbn [export_datasets].
  destruct (idx !! b_ID b) as [src|]; [|intros [= <-]; split; discriminate].
  do 3 (match goal with |- context [if ?c then _ else _] => destruct c end;
    [intros [= <-]; split; discriminate|]).
  destruct (export_offers _ _ _) as [ids1|e] eqn:E1; [|intros [= <-]; by eapply export_offers_of_bindings].
  destruct (export_distributions _ _ _) as [ids2|e] eqn:E2;
    [|intros [= <-]; by eapply export_distributions_of_bindings]. apply IH.
Qed.

Lemma project_export_of_bindings source binding r err :
  index source = Some r → project_export source binding = inr err → of_bindings err.
Proof.
  unfold project_export. intros ->. destruct r as [idx ids].
  destruct (bd_Datasets binding) as [l|]; [|intros [= <-]; split; discriminate].
  do 2 (match goal with |- context [if ?c then _ else _] => destruct c end;
    [intros [= <-]; split; discriminate|]).
  do 2 (match goal with |- context [claimed ?i ?d] => destruct (claimed i d) as [?|e] eqn:? end;
    [|intros [= <-]; by eapply claimed_of_bindings]).
  do 2 (match goal with |- context [if ?c then _ else _] => destruct c end;
    [intros [= <-]; split; discriminate|]).
  destruct (export_datasets _ _ _ _ _ _ _) as [datasets|e] eqn:E;
    [|intros [= <-]; by eapply export_datasets_of_bindings].
  match goal with |- context [if ?c then _ else _] => destruct c end; [intros [= <-]; split; discriminate|done].
Qed.

(** ** What an export contains *)

(** The selected distributions and the offers of a binding. *)
Definition selected_of (b : datasetBinding) : list distributionBinding := default [] (b_Distributions b).
Definition offers_of (b : datasetBinding) : list offer := default [] (b_Offers b).
Definition selections_of (doc : bindingsDocument) : list datasetBinding := default [] (bd_Datasets doc).

(** The identities an export introduces. *)
Definition binding_ids (b : datasetBinding) : list string := map o_ID (offers_of b) ++ map db_ID (selected_of b).
Definition new_ids (doc : bindingsDocument) : list string :=
  bd_ID doc :: sb_ID (bd_Service doc) :: bd_Participant doc :: concat (map binding_ids (selections_of doc)).

(** A binding of a dataset. *)
Record bound_to (doc : bindingsDocument) (idx : gmap string sourceDataset) (b : datasetBinding)
    (src : sourceDataset) : Prop := {
  bt_source : idx !! b_ID b = Some src;
  bt_offers : (1 <= len (offers_of b) <= 16)%Z;
  bt_policies : Forall (λ o, validate o (bd_Participant doc) = None) (offers_of b);
  bt_some : (1 <= len (selected_of b))%Z;
  bt_once : NoDup (map db_SourceID (selected_of b));
  bt_outputs : ∀ x, x ∈ map db_SourceID (selected_of b) → x ∈ map sd_ID (dists_of src);
  bt_formats : Forall (λ d, vocabularyIRI (db_Format d) = true) (selected_of b)
}.

(** An exported document: what it is made of, and that every resource has an identity of its own. *)
Record exported (idx : gmap string sourceDataset) (ids : gset string) (doc : bindingsDocument)
    (out : string) (srcs : list sourceDataset) : Prop := {
  ex_bound : Forall2 (bound_to doc idx) (selections_of doc) srcs;
  ex_once : NoDup (map b_ID (selections_of doc));
  ex_fresh : fresh (new_ids doc) ids;
  ex_valid : Forall (λ x, validID x = true) (new_ids doc);
  ex_endpoint : publicURL (sb_Endpoint (bd_Service doc)) true = true;
  ex_total : (foldr Z.add 0 (map (λ b, len (selected_of b)) (selections_of doc)) <= 1024)%Z;
  ex_size : (slen out <= 2097152)%Z;
  ex_body : out = encode (dsp_catalog_json doc
    (zip_with (dsp_dataset_json (bd_Service doc)) srcs (selections_of doc))) +:+ one (ascii_of_N 10)
}.

Lemma fresh_nil ids : fresh [] ids.
Proof. split; [constructor|]. by intros ? ?%elem_of_nil. Qed.

Lemma claimed_ok ids id ids' : claimed ids id = inl ids' →
  validID id = true ∧ (id ∉ ids) ∧ ids' = {[id]} ∪ ids.
Proof.
  unfold claimed, claim. destruct (validID id); [|done]. cbn [negb orb].
  case_bool_decide; [done|]. by intros [= <-].
Qed.

Lemma export_offers_ok p l : ∀ ids ids', export_offers p l ids = inl ids' →
  fresh (map o_ID l) ids ∧ Forall (λ x, validID x = true) (map o_ID l) ∧
  ids' = list_to_set (map o_ID l) ∪ ids ∧ Forall (λ o, validate o p = None) l.
Proof.
  induction l as [|o l IH]; intros ids ids'; cbn [export_offers map list_to_set].
  - intros [= <-]. split_and!; [apply fresh_nil|constructor|set_solver|constructor].
  - destruct (claimed ids (o_ID o)) as [ids1|] eqn:E; [|done]. apply claimed_ok in E as (Hv & Hn & ->).
    destruct (validate o p) eqn:E'; [done|]. intros (H1 & H2 & -> & H4)%IH.
    split_and!; [by apply fresh_cons|by constructor|set_solver|by constructor].
Qed.

Lemma export_distributions_ok l : ∀ outputs ids ids', export_distributions l outputs ids = inl ids' →
  fresh (map db_ID l) ids ∧ Forall (λ x, validID x = true) (map db_ID l) ∧
  ids' = list_to_set (map db_ID l) ∪ ids ∧ NoDup (map db_SourceID l) ∧
  (∀ x, x ∈ map db_SourceID l → x ∈ outputs) ∧ Forall (λ d, vocabularyIRI (db_Format d) = true) l.
Proof.
  induction l as [|d l IH]; intros outputs ids ids'; cbn [export_distributions map list_to_set].
  - intros [= <-]. split_and!; [apply fresh_nil|constructor|set_solver|constructor|by intros x ?%elem_of_nil|constructor].
  - case_bool_decide as Ho; [cbn [negb]|done].
    destruct (claimed ids (db_ID d)) as [ids1|] eqn:E; [|done]. apply claimed_ok in E as (Hv & Hn & ->).
    destruct (vocabularyIRI (db_Format d)) eqn:Hf; [cbn [negb]|done].
    intros (H1 & H2 & -> & H4 & H5 & H6)%IH.
    split_and!; [by apply fresh_cons|by constructor|set_solver| | |by constructor].
    + apply list.NoDup_cons. split; [|done]. intros Hin%H5. apply elem_of_difference in Hin as [_ Hin].
      by apply Hin, elem_of_singleton.
    + intros x [->|Hx%H5]%elem_of_cons; [done|]. by apply elem_of_difference in Hx as [Hx _].
Qed.

Lemma export_datasets_ok doc idx l : ∀ ids selected total datasets js, (total <= 1024)%Z →
  export_datasets doc idx l ids selected total datasets = inl js →
  ∃ srcs, Forall2 (bound_to doc idx) l srcs ∧ fresh (map b_ID l) selected ∧
    fresh (concat (map binding_ids l)) ids ∧ Forall (λ x, validID x = true) (concat (map binding_ids l)) ∧
    (total + foldr Z.add 0 (map (λ b, len (selected_of b)) l) <= 1024)%Z ∧
    js = datasets ++ zip_with (dsp_dataset_json (bd_Service doc)) srcs l.
Proof.
  induction l as [|b l IH]; intros ids selected total datasets js Ht; cbn [export_datasets].
  { intros [= <-]. exists []. cbn. rewrite app_nil_r.
    split_and!; [constructor|apply fresh_nil|apply fresh_nil|constructor|lia|done]. }
  destruct (idx !! b_ID b) as [src|] eqn:Hsrc; [|done]. case_bool_decide as Hsel; [done|].
  fold (selected_of b) (offers_of b).
  destruct (_ || _) eqn:Hn; [done|]. apply orb_false_iff in Hn as [Hn1%Z.eqb_neq Hn2%Z.ltb_ge].
  destruct (_ || _) eqn:Ho; [done|]. apply orb_false_iff in Ho as [Ho1%Z.eqb_neq Ho2%Z.ltb_ge].
  destruct (export_offers _ _ _) as [ids1|] eqn:E1; [|done]. apply export_offers_ok in E1 as (F1 & V1 & -> & P1).
  destruct (export_distributions _ _ _) as [ids2|] eqn:E2; [|done].
  apply export_distributions_ok in E2 as (F2 & V2 & -> & N2 & S2 & P2). unfold maxDistributions in Hn2.
  intros (srcs & B & F & G & V & T & ->)%IH; [|lia]. exists (src :: srcs).
  cbn [map concat foldr zip_with]. rewrite <- app_assoc. split_and!.
  - constructor; [|done]. constructor; auto; [unfold len in *; lia|unfold len in *; lia|].
    intros x Hx%S2. unfold dists_of. set_solver.
  - apply fresh_cons. split; [done|exact F].
  - unfold binding_ids at 1. rewrite <- app_assoc. apply fresh_app. split; [done|].
    apply fresh_app. split; [done|]. exact G.
  - unfold binding_ids at 1. by repeat apply Forall_app_2.
  - lia.
  - done.
Qed.

Lemma project_export_ok source doc idx ids out :
  index source = Some (idx, ids) → project_export source doc = inl out →
  ∃ srcs, exported idx ids doc out srcs.
Proof.
  unfold project_export. intros ->.
  destruct (bd_Datasets doc) as [l|] eqn:Hl; [|done]. destruct (_ || _); [done|].
  destruct (validID (bd_Participant doc)) eqn:Hp; [cbn [negb]|done].
  destruct (claimed ids (bd_ID doc)) as [ids1|] eqn:E1; [|done]. apply claimed_ok in E1 as (V1 & N1 & ->).
  destruct (claimed _ (sb_ID _)) as [ids2|] eqn:E2; [|done]. apply claimed_ok in E2 as (V2 & N2 & ->).
  case_bool_decide as N3; [done|]. destruct (publicURL _ true) eqn:Hu; [cbn [negb]|done].
  destruct (export_datasets _ _ _ _ _ _ _) as [js|] eqn:E; [|done].
  apply export_datasets_ok in E as (srcs & B & F & G & V & T & ->); [|done].
  destruct (maxCatalog <? _)%Z eqn:Hs; [done|]. apply Z.ltb_ge in Hs. intros [= <-]. exists srcs.
  assert (selections_of doc = l) as Hsel by (unfold selections_of; by rewrite Hl).
  constructor; unfold new_ids; rewrite ?Hsel; auto.
  - apply F.
  - rewrite !fresh_cons. auto.
  - rewrite slen_app. exact Hs.
Qed.

(** A reader whose bytes, up to the limit of a catalog, are [b]. *)
Definition delivers `{E : Env} (r : io_Reader) (b : string) : Prop :=
  ∀ w, ∃ w', ReadAll (Z.to_nat (maxCatalog + 1)) r (maxCatalog + 1) "" w = (Some (inl b), w').

(** A reader whose bytes decode to some bindings. *)
Definition holds `{E : Env} (r : io_Reader) (doc : bindingsDocument) : Prop :=
  ∃ w b w', ReadAll (Z.to_nat (maxBindings + 1)) r (maxBindings + 1) "" w = (Some (inl b), w') ∧
    (slen b <= maxBindings)%Z ∧ decode_document b = Some doc.

(** C40: the exporter accepts whatever the catalog serves.  A body served under an accepted catalog
    identity passes the structural check, decodes to the served graph, and is indexed with exactly its
    identities and, for each published product, that product's dataset.  An export of a file that
    holds the body is therefore refused only because of the bindings; and when it succeeds, it is the
    projection of the selected datasets, within every limit, in which every offer is valid, every
    selected distribution belongs to its dataset and every new resource has a valid identity that
    nothing else in the source or the export has. *)
Theorem served_catalog_accepted `{E : Env} reader id enabled free ctx w body w'
    (Hid : NewHandler id = None)
    (Hserved : catalog_handler reader id enabled free ctx w = (CatalogBody body, w')) :
  ∃ ctx' items idx, inventory reader ctx' "" 0 items ∧
    let c := catalog_of id (published items) in
    decode_document body = Some (source_of c) ∧
    index (source_of c) = Some (idx, list_to_set (node_ids c)) ∧
    (∀ k, is_Some (idx !! k) ↔ k ∈ map ID (published items)) ∧
    (∀ spec, spec ∈ published items → idx !! ID spec = Some (source_dataset (dataset_of spec))) ∧
    ∀ file bindings w1 result w2, delivers file body →
      Export file bindings w1 = (Some result, w2) →
      match result with
      | inr err => of_bindings err
      | inl out => ∃ doc srcs, holds bindings doc ∧ exported idx (list_to_set (node_ids c)) doc out srcs
      end.
Proof.
  destruct (catalog_body _ _ _ _ _ _ _ _ Hserved)
    as (_ & Hne & ctx' & items & Hinv & Hlen & Hok & Hout & _ & _ & -> & Hsize & Hnd).
  assert (validIRI id = true) as Hvalid.
  { unfold NewHandler in Hid. rewrite bool_decide_false in Hid by done. by destruct (validIRI id). }
  apply published_ok in Hok. pose proof (published_length items) as Hpub.
  pose proof (served_index id _ Hok Hvalid Hnd ltac:(lia) Hout) as Hidx.
  pose proof (served_decode id _ Hok Hvalid) as Hdec.
  destruct (served_lookup id _ Hok Hvalid Hnd ltac:(lia) Hout) as [Hdom Hlook].
  eexists ctx', items, _. split; [exact Hinv|]. cbv zeta. repeat (split; [eassumption|]).
  intros file bindings w1 result w2 Hfile. unfold Export, mbind, st_bind, decode, mbind, st_bind.
  destruct (Hfile w1) as [w1' ->]. cbn [mret st_ret].
  destruct (Z.ltb_spec maxCatalog (slen (encode (catalog_json (catalog_of id (published items))) +:+
    String.String (ascii_of_N 10) ""))); [unfold maxCatalog in *; lia|].
  rewrite Hdec. destruct (ReadAll _ bindings _ _ w1') as [[[b|e]|] w3] eqn:Hb; [| |done].
  - destruct (Z.ltb_spec maxBindings (slen b)); [intros [= <- _]; cbn; split; discriminate|].
    destruct (decode_document b) as [doc|] eqn:Hdoc.
    + intros [= He _]. destruct result as [out|err]; [|by eapply project_export_of_bindings].
      destruct (project_export_ok _ _ _ _ _ Hidx He) as [srcs Hs]. exists doc, srcs.
      split; [|done]. by exists w1', b, w3.
    + intros [= <- _]. cbn. split; discriminate.
  - intros [= <- _]. cbn. split; discriminate.
Qed.

#[local] Existing Instance ref_env.

(** The sample catalog read from a file, with bindings that select one of its two distributions. *)
Definition file_of (b : string) : io_Reader := λ _ w, ((b, ReadEOF), w).
Lemma file_delivers b : delivers (file_of b) b.
Proof. intros w. exists w. reflexivity. Qed.

Definition quoted (s : string) : string := quote_byte +:+ s +:+ quote_byte.
Definition member (key text : string) : string := quoted key +:+ ":" +:+ text.
Definition object (members : list string) : string := "{" +:+ join "," members +:+ "}".
Definition sample_bindings : string :=
  object [member "version" (quoted "dsp-catalog/v1"); member "catalogId" (quoted "urn:dsp:catalog");
    member "participantId" (quoted "urn:dsp:provider");
    member "service" (object [member "id" (quoted "urn:dsp:service");
      member "endpointURL" (quoted "https://connector.example/dsp")]);
    member "datasets" ("[" +:+ (object [member "id" (quoted "urn:example:users");
      member "distributions" ("[" +:+ (object [
        member "sourceId" (quoted (entityID "distribution" "urn:example:users" "api"));
        member "id" (quoted "urn:dsp:distribution"); member "format" (quoted "urn:dsp:http-pull")] +:+ "]"));
      member "offers" ("[" +:+ (object [member "@id" (quoted "urn:dsp:offer");
        member "@type" (quoted "Offer"); member "assigner" (quoted "urn:dsp:provider");
        member "permission" ("[" +:+ (object [member "action" (quoted "use")] +:+ "]"))] +:+ "]"))] +:+ "]"))].

Definition sample_export : option (string + exportError) :=
  fst (Export (file_of sample_body) (file_of sample_bindings) sample_world).
Lemma with_state {A B} (p : A * B) a : fst p = a → p = (a, snd p).
Proof. by destruct p; intros <-. Qed.

Lemma served_catalog_accepted_witness :
  NewHandler "https://catalog.example/" = None ∧
  ∃ ctx' items idx, inventory sample_list ctx' "" 0 items ∧
    ∃ out doc srcs, sample_export = Some (inl out) ∧
      exported idx (list_to_set (node_ids (catalog_of "https://catalog.example/" (published items)))) doc out srcs.
Proof.
  split; [vm_compute; reflexivity|].
  assert (catalog_handler sample_list "https://catalog.example/" flag_true true tt sample_world =
          (CatalogBody sample_body, snd sample_catalog)) as H by (vm_compute; reflexivity).
  destruct (served_catalog_accepted _ _ _ _ _ _ _ _ (eq_refl : NewHandler "https://catalog.example/" = None) H)
    as (ctx' & items & idx & Hinv & _ & _ & _ & _ & Hexp).
  exists ctx', items, idx. split; [exact Hinv|].
  assert (∃ out, sample_export = Some (inl out)) as [out Hout] by (eexists; vm_compute; reflexivity).
  set (run := Export (file_of sample_body) (file_of sample_bindings) sample_world).
  destruct (Hexp (file_of sample_body) (file_of sample_bindings) sample_world (inl out) (snd run)
    (file_delivers _) (with_state run _ Hout)) as (doc & srcs & _ & Hx).
  exists out, doc, srcs. split; [exact Hout|exact Hx].
Defined.
