(* ===== verification/CiPlan.v ===== *)
(** * The CI planner

    [scripts/ci-plan/main.go]: from trusted base code, it admits the reduced browser profile for a
    candidate commit, or retains the full suite; after the jobs, it checks their results against the
    profile.  Git is part of the outside world; the Go parser is an interface. *)

From Stdlib Require Import Ascii.
From stdpp Require Import pretty.
From S2P Require Import Prelude Kube Regex GoJson GoStrings GoUrl Config GoMime.

Definition browser_dir : string := "internal/browser/".
Definition browserFiles : list string :=
  map (λ name, browser_dir +:+ name +:+ "_test.go")
    ["asset_upgrade_browser"; "authenticated_workspace_browser"; "catalog_admission_browser";
     "composition_browser"; "descriptor_admission_browser"; "descriptor_browser"; "discovery_browser";
     "history_integrity_browser"; "host_integrity_browser"; "kit_workspace_browser";
     "launch_browser_profile"; "launch_browser"; "lineage_browser"; "public_url_browser";
     "publisher_browser"; "raw_metadata_browser"; "raw_response_browser"; "registry_bounds_browser";
     "registry_browser"; "theme_browser"; "trace_integrity_browser"; "ui_contract_browser";
     "workspace_browser"]%string.

Definition firstPartyPackages : list string :=
  ["api/v1alpha1"; "config/crd"; "internal/catalog"; "internal/config"; "internal/connector/v1";
   "internal/controller"; "internal/demoproduct"; "internal/preflight"; "internal/provider/v1";
   "internal/provisioner/v1"; "internal/registry"; "internal/uibundle"; "web"]%string.

Definition jobIDs : list string :=
  ["plan"; "core"; "browser"; "release-contract"; "source-integration"; "percona-acceptance";
   "arango-acceptance"; "age-image"; "postgres-acceptance"]%string.

Record jobResult := mkJob { Result : string; Job_Outputs : gmap string string }.

(** ** Text *)

Definition newline : ascii := ascii_of_N 10.
Definition nul : ascii := ascii_of_N 0.

(** [sha]: 40 lower-case hexadecimal digits. *)
Fixpoint repeat_re (n : nat) (r : re) : re :=
  match n with O => REps | S n' => RCat r (repeat_re n' r) end.
Definition sha : re := repeat_re 40 (RClass (λ a, digit a || in_range "a" "f" a)).

(** ** Git and the Go parser *)

(** A parsed Go file, as far as it is read: the package name, the texts of the comment groups, and
    the imports with their literal and their name. *)
Record GoFile := mkGoFile {
  PackageName : string;
  Comments : list (list string);
  Imports : list (string * option string)
}.

Class Toolchain `{E : Env} := {
  (** The standard output of one [git] command in a repository, given its arguments and its standard
      input. *)
  git : string → list string → string → ST World (string + error);
  (** [parser.ParseFile] with comments, and [strconv.Unquote]. *)
  ParseFile : string → string → option GoFile;
  Unquote : string → option string
}.

Section Planner.
Context `{T : Toolchain}.

(** The errors of the program: one of a callee, or a message of its own. *)
Inductive planError := CalleeError | errPlan (message : string).

Definition cat_check : list string := ["--no-replace-objects"; "cat-file"; "--batch-check"]%string.
Definition cat_batch : list string := ["--no-replace-objects"; "cat-file"; "--batch"]%string.
Definition maxObject : Z := 1048576.

(** The kind and size a [--batch-check] line announces. *)
Definition announced (meta : string) : (string * Z) + planError :=
  match Fields meta with
  | [_; kind; text] =>
      match Atoi text with
      | Some size =>
          if (size <? 0)%Z || (maxObject <? size)%Z then inr (errPlan "Git object exceeds review bound")
          else inl (kind, size)
      | None => inr (errPlan "Git object exceeds review bound")
      end
  | _ => inr (errPlan "missing Git object")
  end.

(** The object in a [--batch] answer, whose first line repeats the announcement. *)
Definition object_data (meta : string) (size : Z) (data : string) : option string :=
  match cut_first newline data with
  | None => None
  | Some (head, rest) =>
      if (head != TrimSpace meta) || (slen data != (slen head + 1 + size + 1)%Z) then None
      else Some (take_bytes (Z.to_nat size) rest)
  end.

(** [gitObject]: the kind and the data of one object. *)
Definition gitObject (repo object : string) : ST World ((string * string) + planError) :=
  checked ← git repo cat_check (object +:+ one newline);
  match checked with
  | inr _ => mret (inr CalleeError)
  | inl meta =>
      match announced meta with
      | inr err => mret (inr err)
      | inl (kind, size) =>
          batch ← git repo cat_batch (object +:+ one newline);
          match batch with
          | inr _ => mret (inr CalleeError)
          | inl data =>
              match object_data meta size data with
              | Some contents => mret (inl (kind, contents))
              | None => mret (inr (errPlan "Git object changed or was incomplete"))
              end
          end
      end
  end.

(** The loop over a tree object: every entry is a regular file with a name of its own.  An entry has at
    least 21 bytes. *)
Fixpoint tree_paths (fuel : nat) (data : string) (got : gset string) : gset string + planError :=
  if data == "" then inl got
  else match fuel with
  | O => inr (errPlan "browser inventory has a non-regular file")
  | S fuel' =>
      match cut_first nul data with
      | None => inr (errPlan "browser inventory has a non-regular file")
      | Some (entry, rest) =>
          match cut_first " " entry with
          | Some (mode, name) =>
              if (slen rest <? 20)%Z || (mode != "100644") then
                inr (errPlan "browser inventory has a non-regular file")
              else
                let path := browser_dir +:+ name in
                if bool_decide (path ∈ got) then inr (errPlan "duplicate browser file")
                else tree_paths fuel' (drop_bytes 20 rest) ({[path]} ∪ got)
          | None => inr (errPlan "browser inventory has a non-regular file")
          end
      end
  end.

(** The checks of [inventory] on the tree. *)
Definition inventory_paths (kind data : string) : gset string + planError :=
  if kind != "tree" then inr (errPlan "browser inventory is not a Git tree")
  else match tree_paths (String.length data) data ∅ with
  | inr err => inr err
  | inl got =>
      if (Z.of_nat (size got) != len browserFiles)%Z then inr (errPlan "browser inventory changed")
      else if forallb (λ path, bool_decide (path ∈ got)) browserFiles then inl got
      else inr (errPlan "browser inventory omitted a file")
  end.

(** [inventory]. *)
Definition inventory (repo commit : string) : ST World (gset string + planError) :=
  object ← gitObject repo (commit +:+ ":internal/browser");
  match object with
  | inr err => mret (inr err)
  | inl (kind, data) => mret (inventory_paths kind data)
  end.

Definition module_prefix : string := "github.com/devantler-tech/data-product-controller/".

(** The loop over the imports. *)
Fixpoint imports_error (imports : list (string * option string)) : option planError :=
  match imports with
  | [] => None
  | (literal, name) :: imports' =>
      match Unquote literal with
      | None => Some CalleeError
      | Some value =>
          if HasPrefix value module_prefix &&
             negb (existsb (String.eqb (TrimPrefix value module_prefix)) firstPartyPackages)
          then Some (errPlan "unreviewed first-party dependency")
          else if name == Some "." then Some (errPlan "dot import")
          else imports_error imports'
      end
  end.

Definition forbidden_comment (text : string) : bool :=
  HasPrefix text "//go:embed" || HasPrefix text "// +build".
Definition cgo_literal : string := quote_byte +:+ "C" +:+ quote_byte.

(** The checks of [admittedTest] on one file. *)
Definition test_error (path kind data : string) : option planError :=
  if (kind != "blob") || (maxObject <? slen data)%Z then
    Some (errPlan "browser test exceeds review bound")
  else if negb (HasPrefix data ("//go:build browser" +:+ one newline)) then
    Some (errPlan "browser build constraint changed")
  else match ParseFile path data with
  | None => Some CalleeError
  | Some file =>
      if PackageName file != "browser_test" then Some (errPlan "browser package changed")
      else if existsb (existsb forbidden_comment) (Comments file) then
        Some (errPlan "additional build or asset directive")
      else match imports_error (Imports file) with
      | Some err => Some err
      | None =>
          if existsb (λ i, fst i == cgo_literal) (Imports file) then Some (errPlan "cgo import")
          else None
      end
  end.

(** [admittedTest]. *)
Definition admittedTest (repo commit path : string) : ST World (option planError) :=
  object ← gitObject repo (commit +:+ ":" +:+ path);
  match object with
  | inr err => mret (Some err)
  | inl (kind, data) => mret (test_error path kind data)
  end.

(** The loop that rechecks every file of the inventory at both commits. *)
Fixpoint admitted_tests (repo base head : string) (paths : list string) : ST World (option planError) :=
  match paths with
  | [] => mret None
  | path :: paths' =>
      err ← admittedTest repo base path;
      match err with
      | Some e => mret (Some e)
      | None =>
          err ← admittedTest repo head path;
          match err with
          | Some e => mret (Some e)
          | None => admitted_tests repo base head paths'
          end
      end
  end.

Definition diff_tree : list string :=
  ["--no-replace-objects"; "diff-tree"; "--stdin"; "--no-commit-id"; "--no-renames";
   "--name-status"; "-r"; "-z"]%string.

(** The changed paths: whether all are modifications of allowed files, or an error for an odd number
    of fields. *)
Fixpoint changes_allowed (allowed : gset string) (changes : list string) : bool :=
  match changes with
  | [] => true
  | status :: path :: changes' =>
      if (status != "M") || negb (bool_decide (path ∈ allowed)) then false
      else changes_allowed allowed changes'
  | [_] => false
  end.
Definition changed_fields (data : string) : list string := Split (TrimSuffix data (one nul)) nul.

(** [classify]: the profile and the error. *)
Definition classify (repo base head : string) : ST World (string * option planError) :=
  if negb (MatchString sha base) || negb (MatchString sha head) then
    mret ("full", Some (errPlan "exact commit IDs required"))
  else
    allowed ← inventory repo base;
    match allowed with
    | inr err => mret ("full", Some err)
    | inl allowed =>
        candidate ← inventory repo head;
        match candidate with
        | inr err => mret ("full", Some err)
        | inl _ =>
            diff ← git repo diff_tree (base +:+ " " +:+ head +:+ one newline);
            match diff with
            | inr _ => mret ("full", Some CalleeError)
            | inl data =>
                if data == "" then mret ("full", None)
                else
                  let changes := changed_fields data in
                  if negb (Nat.even (length changes)) then
                    mret ("full", Some (errPlan "malformed changed paths"))
                  else if negb (changes_allowed allowed changes) then mret ("full", None)
                  else
                    err ← admitted_tests repo base head browserFiles;
                    match err with
                    | Some e => mret ("full", Some e)
                    | None => mret ("browser", None)
                    end
            end
        end
    end.
End Planner.

(** ** The results of the jobs *)

(** The result a job must have in a profile. *)
Definition wanted (profile id : string) : string :=
  if (profile == "browser") && (id != "plan") && (id != "core") && (id != "browser") &&
     (id != "release-contract")
  then "skipped" else "success".

(** The loop over the jobs; the message quotes the result. *)
Fixpoint jobs_error `{GoFmt} (profile : string) (needs : gmap string jobResult) (ids : list string)
  : option string :=
  match ids with
  | [] => None
  | id :: ids' =>
      match needs !! id with
      | None => Some ("missing job " +:+ id)
      | Some job =>
          if Result job != wanted profile id then
            Some (id +:+ " requires " +:+ wanted profile id +:+ ", got " +:+ Quote (Result job))
          else jobs_error profile needs ids'
      end
  end.

(** [checkResults]; indexing a missing job or output gives the empty string. *)
Definition checkResults `{GoFmt} (profile : string) (needs : gmap string jobResult) : option string :=
  if (profile != "full") && (profile != "browser") then Some "unknown selected profile"
  else if (Z.of_nat (size needs) != len jobIDs)%Z then Some "missing or extra job result"
  else match jobs_error profile needs jobIDs with
  | Some e => Some e
  | None =>
      let selected :=
        match needs !! "plan" with Some job => default "" (Job_Outputs job !! "profile") | None => "" end in
      if selected != profile then Some "profile does not match successful classifier" else None
  end.
