(* ===== verification/CiPlanSpec.v ===== *)
(** * The CI planner: what is guaranteed

    The reduced profile is admitted only for a candidate that modifies reviewed browser tests and
    nothing else, and the required check passes exactly when the jobs ended as the profile asks. *)

From Stdlib Require Import Ascii.
From stdpp Require Import pretty.
From S2P Require Import Prelude Kube Regex GoJson GoStrings GoUrl Config GoMime Reference CiPlan.

(** ** Git objects *)

(** An entry of a tree object that is a regular file: its name and the 20 bytes of its object id. *)
Record tree_entry := mkEntry { entry_name : string; entry_id : string }.
Definition entry_path (e : tree_entry) : string := browser_dir +:+ entry_name e.
Definition entry_text (e : tree_entry) : string :=
  "100644 " +:+ (entry_name e +:+ (one nul +:+ entry_id e)).
Fixpoint tree_text (entries : list tree_entry) : string :=
  match entries with [] => "" | e :: entries' => entry_text e +:+ tree_text entries' end.

Lemma tree_paths_ok fuel : ∀ data got got', tree_paths fuel data got = inl got' →
  ∃ entries, data = tree_text entries ∧ Forall (λ e, slen (entry_id e) = 20%Z) entries ∧
    NoDup (map entry_path entries) ∧ (∀ e, e ∈ entries → entry_path e ∉ got) ∧
    got' = list_to_set (map entry_path entries) ∪ got.
Proof.
  induction fuel as [|fuel IH]; intros data got got'; cbn [tree_paths].
  - case_bool_decide as Hd; [|done]. intros [= <-]. exists []. subst.
    split_and!; [done|constructor|constructor|by intros e ?%elem_of_nil|set_solver].
  - case_bool_decide as Hd; [intros [= <-]; exists []; subst;
      split_and!; [done|constructor|constructor|by intros e ?%elem_of_nil|set_solver]|].
    destruct (cut_first nul data) as [[entry rest]|] eqn:E1; [|done].
    apply cut_first_Some in E1 as [-> _].
    destruct (cut_first " " entry) as [[mode name]|] eqn:E2; [|done].
    apply cut_first_Some in E2 as [-> _].
    destruct (_ || _) eqn:Hg; [done|]. apply orb_false_iff in Hg as [Hlen%Z.ltb_ge Hm].
    apply negb_false_iff, bool_decide_eq_true in Hm as ->.
    case_bool_decide as Hin; [done|]. intros (entries & Hr & Hids & Hnd & Hnew & ->)%IH.
    exists (mkEntry name (take_bytes 20 rest) :: entries). cbn [map entry_path entry_name]. split_and!.
    + cbn [tree_text]. unfold entry_text. cbn [entry_name entry_id]. rewrite <- Hr.
      rewrite <- !str_app_assoc. unfold one. rewrite !str_app_cons, !str_app_nil.
      by rewrite <- take_drop_bytes.
    + constructor; [|done]. cbn [entry_id]. unfold slen in *. rewrite take_bytes_length; lia.
    + apply list.NoDup_cons. split; [|done]. intros (e & He & Hin')%list_elem_of_fmap.
      apply (Hnew e Hin'). rewrite <- He. set_solver.
    + intros e [->|He]%elem_of_cons; [done|]. specialize (Hnew e He). set_solver.
    + cbn [list_to_set]. set_solver.
Qed.

Lemma inventory_paths_ok kind data got : inventory_paths kind data = inl got →
  kind = "tree" ∧ got = list_to_set browserFiles ∧
  ∃ entries, data = tree_text entries ∧ Forall (λ e, slen (entry_id e) = 20%Z) entries ∧
    map entry_path entries ≡ₚ browserFiles.
Proof.
  unfold inventory_paths. case_bool_decide as Hk; [cbn [negb]|done].
  destruct (tree_paths _ _ _) as [got'|] eqn:E; [|done].
  apply tree_paths_ok in E as (entries & Hd & Hids & Hnd & _ & ->).
  rewrite union_empty_r_L. case_bool_decide as Hs; [cbn [negb]|done].
  destruct (forallb _ _) eqn:Hall; [|done]. intros [= <-]. rewrite forallb_elem in Hall.
  assert (NoDup browserFiles) as Hb by (apply (bool_decide_unpack _); vm_compute; exact I).
  assert (list_to_set browserFiles = (list_to_set (map entry_path entries) : gset string)) as Heq.
  { apply set_subseteq_size_eq.
    - intros x Hx%elem_of_list_to_set. specialize (Hall x Hx). by apply bool_decide_eq_true in Hall.
    - unfold len in Hs. rewrite (size_list_to_set browserFiles) by done. lia. }
  split; [done|]. split; [done|]. exists entries. split; [done|]. split; [done|].
  apply NoDup_Permutation; [done..|]. intros x.
  rewrite <- (elem_of_list_to_set (C := gset string)), <- Heq. apply elem_of_list_to_set.
Qed.

Section Planner.
Context `{T : Toolchain}.

(** Git answered a command with this output. *)
Definition answers (repo : string) (args : list string) (input out : string) : Prop :=
  ∃ w w', git repo args input w = (inl out, w').

(** Git described and delivered an object of at most 1 MiB: its answer to the batch command repeats the
    description and holds the data, one more byte and nothing else. *)
Definition object_is (repo object kind data : string) : Prop :=
  ∃ meta name text last, answers repo cat_check (object +:+ one newline) meta ∧
    Fields meta = [name; kind; text] ∧ Atoi text = Some (slen data) ∧ (slen data <= 1048576)%Z ∧
    slen last = 1%Z ∧
    answers repo cat_batch (object +:+ one newline)
      (TrimSpace meta +:+ (String.String newline (data +:+ last))).

Lemma object_data_ok meta size data contents : (0 <= size)%Z → object_data meta size data = Some contents →
  slen contents = size ∧ ∃ last, slen last = 1%Z ∧
    data = TrimSpace meta +:+ (String.String newline (contents +:+ last)).
Proof.
  unfold object_data. intros Hs. destruct (cut_first newline data) as [[head rest]|] eqn:Heq; [|done].
  apply cut_first_Some in Heq as [-> _]. destruct (_ || _) eqn:Hg; [done|].
  apply orb_false_iff in Hg as [Hh%negb_false_iff%bool_decide_eq_true Hl%negb_false_iff%bool_decide_eq_true].
  subst head. intros [= <-]. rewrite slen_app in Hl.
  assert (slen rest = size + 1)%Z as Hr by (unfold slen in *; cbn [String.length] in Hl; lia).
  assert (slen (take_bytes (Z.to_nat size) rest) = size) as Ht
    by (unfold slen in *; rewrite take_bytes_length; lia).
  split; [done|]. exists (drop_bytes (Z.to_nat size) rest). rewrite <- take_drop_bytes. split; [|done].
  pose proof (f_equal slen (take_drop_bytes (Z.to_nat size) rest)) as Hsum.
  rewrite slen_app in Hsum. lia.
Qed.

Lemma gitObject_ok repo object kind data w w' :
  gitObject repo object w = (inl (kind, data), w') → object_is repo object kind data.
Proof.
  unfold gitObject, mbind, st_bind.
  destruct (git repo cat_check _ w) as [[meta|e] w1] eqn:E1; [|done].
  destruct (announced meta) as [[k size]|e] eqn:Ea; [|done].
  destruct (git repo cat_batch _ w1) as [[batch|e] w2] eqn:E2; [|done].
  destruct (object_data meta size batch) as [contents|] eqn:Ed; [|done]. intros [= <- <- <-].
  unfold announced in Ea. destruct (Fields meta) as [|name [|kd [|text [|? ?]]]] eqn:Ef; try done.
  destruct (Atoi text) as [n|] eqn:Et; [|done]. destruct (_ || _) eqn:Hg; [done|].
  injection Ea as -> ->. apply orb_false_iff in Hg as [H0%Z.ltb_ge H1%Z.ltb_ge].
  apply object_data_ok in Ed as (Hs & last & Hl & ->); [|done]. unfold maxObject in H1.
  exists meta, name, text, last. split_and!; try done; [by exists w, w1|by rewrite Hs|lia|by exists w1, w2].
Qed.

(** ** The reduced profile *)

(** The reviewed inventory at a commit: the tree of the browser package holds exactly the known files, all
    regular. *)
Definition reviewed_inventory (repo commit : string) : Prop :=
  ∃ entries, object_is repo (commit +:+ ":internal/browser") "tree" (tree_text entries) ∧
    Forall (λ e, slen (entry_id e) = 20%Z) entries ∧ map entry_path entries ≡ₚ browserFiles.

Lemma inventory_ok repo commit got w w' : inventory repo commit w = (inl got, w') →
  got = list_to_set browserFiles ∧ reviewed_inventory repo commit.
Proof.
  unfold inventory, mbind, st_bind.
  destruct (gitObject repo _ w) as [[[kind data]|e] w1] eqn:Heq; [|done]. intros [= Hi _].
  apply gitObject_ok in Heq. apply inventory_paths_ok in Hi as (-> & -> & entries & -> & Hids & Hp).
  split; [done|]. by exists entries.
Qed.

(** An import the reduced profile allows. *)
Definition import_ok (i : string * option string) : Prop :=
  fst i ≠ cgo_literal ∧ snd i ≠ Some "." ∧
  ∃ path, Unquote (fst i) = Some path ∧
    ∀ package, path = module_prefix +:+ package → package ∈ firstPartyPackages.

(** A browser test at a commit that stays within the reviewed closure. *)
Definition reviewed_test (repo commit path : string) : Prop :=
  ∃ data file, object_is repo (commit +:+ ":" +:+ path) "blob" data ∧
    HasPrefix data ("//go:build browser" +:+ one newline) = true ∧ ParseFile path data = Some file ∧
    PackageName file = "browser_test" ∧
    (∀ group text, group ∈ Comments file → text ∈ group → forbidden_comment text = false) ∧
    Forall import_ok (Imports file).

Lemma TrimPrefix_app p s : TrimPrefix (p +:+ s) p = s.
Proof.
  unfold TrimPrefix. rewrite (proj2 (HasPrefix_spec _ _)) by eauto. apply drop_bytes_app.
Qed.

Lemma imports_ok l : imports_error l = None → existsb (λ i, fst i == cgo_literal) l = false →
  Forall import_ok l.
Proof.
  induction l as [|[literal name] l IH]; [constructor|]. cbn [imports_error existsb fst].
  destruct (Unquote literal) as [path|] eqn:Hu; [|done]. destruct (_ && _) eqn:Hp; [done|].
  case_bool_decide as Hn; [done|]. intros Hl [Hc%bool_decide_eq_false Hrest]%orb_false_iff.
  constructor; [|by apply IH]. split; [done|]. split; [done|]. exists path. split; [done|].
  intros package ->. rewrite TrimPrefix_app, (proj2 (HasPrefix_spec _ _)) in Hp by eauto.
  apply negb_false_iff, existsb_exists_elem in Hp as (q & Hq & Heq%String.eqb_eq). by subst.
Qed.

Lemma admittedTest_ok repo commit path w w' :
  admittedTest repo commit path w = (None, w') → reviewed_test repo commit path.
Proof.
  unfold admittedTest, mbind, st_bind.
  destruct (gitObject repo _ w) as [[[kind data]|e] w1] eqn:Heq; [|done]. intros [= Ht _].
  apply gitObject_ok in Heq. unfold test_error in Ht. destruct (_ || _) eqn:Hk; [done|].
  apply orb_false_iff in Hk as [Hk%negb_false_iff%bool_decide_eq_true _]. subst kind.
  destruct (HasPrefix data _) eqn:Hb; [cbn [negb] in Ht|done].
  destruct (ParseFile path data) as [file|] eqn:Hf; [|done].
  case_bool_decide as Hp; [cbn [negb] in Ht|done]. destruct (existsb (existsb _) _) eqn:Hc; [done|].
  destruct (imports_error _) eqn:Hi; [done|]. destruct (existsb _ (Imports file)) eqn:Hcgo; [done|].
  exists data, file. split_and!; try done; [|by apply imports_ok].
  intros group text Hg Hx. apply not_true_is_false. intros Hbad. apply not_true_iff_false in Hc.
  apply Hc, existsb_exists_elem. exists group. split; [done|]. apply existsb_exists_elem. eauto.
Qed.

Lemma admitted_tests_ok repo base head paths : ∀ w w',
  admitted_tests repo base head paths w = (None, w') →
  ∀ path, path ∈ paths → reviewed_test repo base path ∧ reviewed_test repo head path.
Proof.
  induction paths as [|p paths IH]; intros w w'; [by intros _ path ?%elem_of_nil|].
  cbn [admitted_tests]. unfold mbind, st_bind.
  destruct (admittedTest repo base p w) as [[e|] w1] eqn:E1; [done|].
  destruct (admittedTest repo head p w1) as [[e|] w2] eqn:E2; [done|].
  intros H path [->|Hp]%elem_of_cons; [|by eapply IH].
  split; by eapply admittedTest_ok.
Qed.

(** The fields of a diff that only modifies the given paths. *)
Definition modified (paths : list string) : list string := concat (map (λ p, ["M"; p]) paths).

Lemma changes_allowed_ok allowed changes : changes_allowed allowed changes = true →
  ∃ paths, changes = modified paths ∧ ∀ p, p ∈ paths → p ∈ allowed.
Proof.
  assert (∀ n l, length l <= n → changes_allowed allowed l = true →
    ∃ paths, l = modified paths ∧ ∀ p, p ∈ paths → p ∈ allowed) as H; [|by apply (H (length changes))].
  induction n as [|n IH]; intros [|s [|p l]] Hn; cbn in Hn; try lia; try done;
    try (intros _; exists []; split; [done|]; by intros p ?%elem_of_nil).
  cbn [changes_allowed]. destruct (_ || _) eqn:Hg; [done|]. intros (paths & -> & Hp)%IH; [|lia].
  apply orb_false_iff in Hg as [Hs%negb_false_iff%bool_decide_eq_true Ha%negb_false_iff%bool_decide_eq_true].
  subst s. exists (p :: paths). split; [done|]. intros q [->|Hq]%elem_of_cons; auto.
Qed.

(** C8.  The reduced profile is admitted for exact commits whose whole inventory is reviewed at both, and only
    modifications of its files between them. *)
Theorem browser_plan_sound repo base head w profile err w'
    (Hplan : classify repo base head w = ((profile, err), w')) :
  (profile = "full" ∨ profile = "browser") ∧
  (profile = "browser" →
    err = None ∧ MatchString sha base = true ∧ MatchString sha head = true ∧
    (∀ commit, commit ∈ [base; head] → reviewed_inventory repo commit ∧
       ∀ path, path ∈ browserFiles → reviewed_test repo commit path) ∧
    ∃ diff paths, answers repo diff_tree (base +:+ " " +:+ head +:+ one newline) diff ∧ diff ≠ "" ∧
      changed_fields diff = modified paths ∧ ∀ path, path ∈ paths → path ∈ browserFiles).
Proof.
  unfold classify in Hplan. destruct (_ || _) eqn:Hsha; [by (injection Hplan as <- _ _; split; [left|])|].
  apply orb_false_iff in Hsha as [Hb%negb_false_iff Hh%negb_false_iff].
  unfold mbind, st_bind in Hplan.
  destruct (inventory repo base w) as [[allowed|e] w1] eqn:E1; [|by (injection Hplan as <- _ _; split; [left|])].
  destruct (inventory repo head w1) as [[candidate|e] w2] eqn:E2; [|by (injection Hplan as <- _ _; split; [left|])].
  destruct (git repo diff_tree _ w2) as [[diff|e] w3] eqn:E3; [|by (injection Hplan as <- _ _; split; [left|])].
  case_bool_decide as Hd; [by (injection Hplan as <- _ _; split; [left|])|].
  destruct (negb (Nat.even _)); [by (injection Hplan as <- _ _; split; [left|])|].
  destruct (changes_allowed _ _) eqn:Hc; [cbn [negb] in Hplan|by (injection Hplan as <- _ _; split; [left|])].
  destruct (admitted_tests _ _ _ _ w3) as [[e|] w4] eqn:E4; [by (injection Hplan as <- _ _; split; [left|])|]. injection Hplan as <- <- _.
  split; [by right|]. intros _.
  apply inventory_ok in E1 as [-> Hi1]. apply inventory_ok in E2 as [_ Hi2].
  pose proof (admitted_tests_ok _ _ _ _ _ _ E4) as Ht.
  apply changes_allowed_ok in Hc as (paths & Hp & Hall). split_and!; try done.
  - intros commit Hcm. assert (commit = base ∨ commit = head) as [-> | ->] by set_solver;
      (split; [done|]); intros path Hpath; by apply Ht.
  - exists diff, paths. split_and!; try done; [by exists w2, w3|]. intros path Hpath.
    by apply Hall, elem_of_list_to_set in Hpath.
Qed.
End Planner.

(** ** The required check *)

Lemma jobs_error_ok `{GoFmt} profile needs ids : jobs_error profile needs ids = None ↔
  ∀ id, id ∈ ids → ∃ job, needs !! id = Some job ∧ Result job = wanted profile id.
Proof.
  induction ids as [|i ids IH]; cbn [jobs_error].
  { split; [by intros _ id ?%elem_of_nil|done]. }
  destruct (needs !! i) as [job|] eqn:Hi.
  - case_bool_decide as Hw; cbn [negb].
    + rewrite IH. split.
      * intros Hall id [->|Hid]%elem_of_cons; eauto.
      * intros Hall id Hid. apply Hall. by right.
    + split; [done|]. intros Hall. destruct (Hall i) as (j & Hj & Hr); [by left|]. congruence.
  - split; [done|]. intros Hall. destruct (Hall i) as (j & Hj & _); [by left|]. congruence.
Qed.

(** The jobs a profile runs. *)
Definition reduced_jobs : list string := ["plan"; "core"; "browser"; "release-contract"]%string.

Lemma wanted_cases profile id : profile = "full" ∨ profile = "browser" →
  wanted profile id = "success" ∧ (profile = "full" ∨ id ∈ reduced_jobs) ∨
  wanted profile id = "skipped" ∧ profile = "browser" ∧ id ∉ reduced_jobs.
Proof.
  unfold wanted, reduced_jobs. intros [-> | ->]; [left; split; [reflexivity|by left]|].
  rewrite bool_decide_true by done. cbn [andb].
  repeat (case_bool_decide; cbn [negb andb]; [left; split; [done|]; right; set_solver|]).
  right. split; [done|]. split; [done|]. set_solver.
Qed.

(** The required check passes exactly when the profile is one of the two, the results are those of the known
    jobs and no others, the planner job itself announced the profile, every job the profile runs
    succeeded, and the reduced profile skipped every other job. *)
Theorem required_check_exact `{GoFmt} (profile : string) (needs : gmap string jobResult) :
  checkResults profile needs = None ↔
  (profile = "full" ∨ profile = "browser") ∧ dom needs = list_to_set jobIDs ∧
  (∃ plan, needs !! "plan" = Some plan ∧ default "" (Job_Outputs plan !! "profile") = profile) ∧
  ∀ id job, needs !! id = Some job →
    Result job = "success" ∧ (profile = "full" ∨ id ∈ reduced_jobs) ∨
    Result job = "skipped" ∧ profile = "browser" ∧ id ∉ reduced_jobs.
Proof.
  assert (NoDup jobIDs) as Hnd by (apply (bool_decide_unpack _); vm_compute; exact I).
  unfold checkResults. destruct (_ && _) eqn:Hp.
  { apply andb_true_iff in Hp as [H1%negb_true_iff%bool_decide_eq_false H2%negb_true_iff%bool_decide_eq_false].
    split; [done|]. intros [[?|?] _]; done. }
  assert (profile = "full" ∨ profile = "browser") as Hprofile.
  { apply andb_false_iff in Hp as [Hp|Hp]; apply negb_false_iff, bool_decide_eq_true in Hp; auto. }
  clear Hp.
  assert (∀ X : gset string, size X = length jobIDs → list_to_set jobIDs ⊆ X → X = list_to_set jobIDs) as Hdom.
  { intros X Hs Hsub. symmetry. apply set_subseteq_size_eq; [done|].
    rewrite (size_list_to_set jobIDs) by done. lia. }
  case_bool_decide as Hs; cbn [negb].
  2:{ split; [done|]. intros (_ & Hd & _). exfalso. apply Hs. unfold len. f_equal.
      by rewrite <- (size_dom needs), Hd, (size_list_to_set jobIDs). }
  pose proof (jobs_error_ok profile needs jobIDs) as Hjobs.
  assert (dom needs = list_to_set jobIDs → ∀ id job, needs !! id = Some job → id ∈ jobIDs) as Hids.
  { intros Hd id job Hj. apply (elem_of_list_to_set (C := gset string)). rewrite <- Hd. by apply elem_of_dom. }
  destruct (jobs_error profile needs jobIDs) as [e|].
  - split; [done|]. intros (_ & Hd & _ & Hall). exfalso.
    assert (Some e = None) as [=]. apply Hjobs. intros id Hid.
    assert (id ∈ dom needs) as [job Hjob]%elem_of_dom by (rewrite Hd; by apply elem_of_list_to_set).
    exists job. split; [done|]. destruct (Hall id job Hjob) as [[-> Hr]|(-> & Hb & Hr)];
      destruct (wanted_cases profile id Hprofile) as [[-> Hw]|(-> & Hb' & Hw)]; try done; exfalso;
      subst; naive_solver.
  - assert (dom needs = list_to_set jobIDs) as Hd.
    { apply Hdom; [rewrite size_dom; unfold len in Hs; lia|]. intros id Hid%elem_of_list_to_set.
      destruct (proj1 Hjobs eq_refl id Hid) as (job & Hj & _). by apply elem_of_dom. }
    assert ("plan" ∈ jobIDs) as Hplan by (by left).
    destruct (proj1 Hjobs eq_refl "plan" Hplan) as (plan & Hpl & _). rewrite Hpl.
    assert (∀ id job, needs !! id = Some job →
      Result job = "success" ∧ (profile = "full" ∨ id ∈ reduced_jobs) ∨
      Result job = "skipped" ∧ profile = "browser" ∧ id ∉ reduced_jobs) as Hall.
    { intros id job Hj. destruct (proj1 Hjobs eq_refl id (Hids Hd id job Hj)) as (j & Hj' & Hr).
      assert (j = job) as -> by congruence. rewrite Hr. by apply wanted_cases. }
    case_bool_decide as Ho; cbn [negb]; split; try done.
    + intros _. split_and!; try done. by exists plan.
    + intros (_ & _ & (plan' & Hp' & Ho') & _). exfalso. apply Ho. congruence.
Qed.

(** ** A candidate *)

#[local] Existing Instances ref_env.

(** A repository in which every commit holds the reviewed inventory, and the candidate modifies one test. *)
Definition sample_tree : string :=
  tree_text (map (λ path, mkEntry (TrimPrefix path browser_dir) "aaaaaaaaaaaaaaaaaaaa") browserFiles).
Definition sample_blob : string := "//go:build browser" +:+ one newline.
Definition sample_git (repo : string) (args : list string) (input : string) : ST World (string + error) :=
  let '(kind, data) :=
    if HasSuffix input (":internal/browser" +:+ one newline) then ("tree", sample_tree)
    else ("blob", sample_blob) in
  let meta := "aaaa " +:+ kind +:+ " " +:+ pretty (slen data) +:+ one newline in
  mret (inl (if args == cat_check then meta
             else if args == cat_batch then meta +:+ data +:+ one newline
             else "M" +:+ one nul +:+ "internal/browser/theme_browser_test.go" +:+ one nul)).
#[local] Instance sample_tools : Toolchain := {|
  git := sample_git;
  ParseFile := λ _ _, Some (mkGoFile "browser_test" [] []);
  Unquote := λ s, Some s
|}.
Definition sample_base : string := "0123456789012345678901234567890123456789".
Definition sample_head : string := "abcdefabcdabcdefabcdabcdefabcdabcdefabcd".

Lemma browser_plan_sound_witness :
  classify "." sample_base sample_head sample_world = (("browser", None), sample_world) ∧
  (∀ commit, commit ∈ [sample_base; sample_head] → reviewed_inventory "." commit ∧
     ∀ path, path ∈ browserFiles → reviewed_test "." commit path).
Proof.
  assert (classify "." sample_base sample_head sample_world = (("browser", None), sample_world)) as H
    by (vm_compute; reflexivity).
  split; [exact H|].
  destruct (browser_plan_sound (E := ref_env) "." sample_base sample_head sample_world "browser" None sample_world H) as [_ Hs].
  exact (proj1 (proj2 (proj2 (proj2 (Hs eq_refl))))).
Defined.
