(* ===== verification/PreflightClient.v ===== *)
(** * The report reader

    [docs/examples/preflight-client/main.go]: an independent reader of a saved publisher report.  It
    trusts no claim of the report: shape, counts, provenance and plan are checked against each other.
    Every failure is the one error [errUnsupported], so the functions are in the option monad. *)

From Stdlib Require Import Ascii.
From stdpp Require Import pretty.
From S2P Require Import Prelude Kube Regex GoJson GoStrings GoUrl Config Descriptor GoMime GoJsonRead JsonInput.

Definition knownFeatures : list string := Fields
  "provisioned-sources engine-providers connector-readiness composition contract-readiness ui-contract ui-appearance dcat-catalog".
Definition knownCodes : list string := Fields
  "NoProducts SourceLimit DocumentLimit ReadFailed InputLimit ProductLimit DepthLimit InvalidDocument UnsupportedResource UnknownField AdmissionInvalid NamespaceRequired InvalidNamespace IdentityConflict InvalidPublicMetadata InvalidUI ContractOutputNotFound ProducerUnresolved OutputNotFound ContractIncompatible CrossNamespaceInput CompositionCycle CompositionLimit ValidationLimit ValidationUnavailable PreviewLimit InvalidField RequiredField DuplicateListItem CrossFieldInvalid".

Definition path_word : re := RCat (RClass (λ a, lower a || upper a)) (RStar (RClass alnum)).
Definition knownPath : re :=
  ROpt (RCat (RChr "/")
    (RCat (RAlt (RStr "apiVersion") (RAlt (RStr "kind") (RAlt (RStr "metadata") (RStr "spec"))))
      (RStar (RAlt (RCat (RChr "/") path_word) (RCat (RChr "/") (RPlus (RClass digit))))))).

(** ** Objects

    A value is what [readValue] returns: null is Go's nil, and an object is a map, so its members have
    distinct keys. *)

Definition object : Type := list (string * jvalue).

(** [value, exists := object[key]]. *)
Definition lookup_key (o : object) (key : string) : option jvalue :=
  option_map snd (find_first (λ m, String.eqb key (fst m)) o).
(** [object[key]]; a missing member reads as nil. *)
Definition get (o : object) (key : string) : jvalue := default DNull (lookup_key o key).
Definition is_nil (v : jvalue) : bool := match v with DNull => true | _ => false end.
(** A comparison with a string. *)
Definition equals (v : jvalue) (s : string) : bool :=
  match v with DString t => String.eqb t s | _ => false end.
(** [slices.Contains]. *)
Definition contains (l : list string) (s : string) : bool := existsb (String.eqb s) l.

Definition exact (value : jvalue) (required optional : string) : option object :=
  match value with
  | DObject o =>
      if existsb (λ key, is_nil (get o key)) (Fields required) then None
      else if existsb (λ m, is_nil (snd m) ||
                (negb (contains (Fields required) (fst m)) && negb (contains (Fields optional) (fst m)))) o
      then None
      else Some o
  | _ => None
  end.

Definition array (value : jvalue) (limit : Z) : option (list jvalue) :=
  match value with
  | DArray l => if (limit <? len l)%Z then None else Some l
  | _ => None
  end.

(** [Int64] parses a decimal in 64 bits, as [Atoi] does. *)
Definition integer (value : jvalue) (maximum : Z) : option Z :=
  match value with
  | DNumber t =>
      match Atoi t with
      | Some n => if (n <? 0)%Z || (maximum <? n)%Z then None else Some n
      | None => None
      end
  | _ => None
  end.

Definition text (value : jvalue) (maximum : Z) : option string :=
  match value with
  | DString s => if (s == "") || (maximum <? slen s)%Z then None else Some s
  | _ => None
  end.

Definition boolean (value : jvalue) : option bool :=
  match value with DBool b => Some b | _ => None end.

(** [featureSet]: the loop, and the whole. *)
Fixpoint feature_loop (values : list jvalue) (result : gset string) (previous : string)
  : option (gset string) :=
  match values with
  | [] => Some result
  | value :: values' =>
      feature ← text value 64;
      if negb (contains knownFeatures feature) || bool_decide (feature ∈ result) ||
         String.leb feature previous
      then None
      else feature_loop values' ({[feature]} ∪ result) feature
  end.
Definition featureSet (value : jvalue) : option (gset string) :=
  values ← array value 8; feature_loop values ∅ "".

(** [readValue]: the check of one value; what the decoder's tokens spell is [next_value].  The code
    stops at the first violation; every one has the same outcome. *)
Fixpoint readValue (depth : Z) (v : jvalue) : bool :=
  if (64 <? depth)%Z then false
  else match v with
  | DObject members =>
      (fix read_members (seen : gset string) (ms : object) : bool :=
         match ms with
         | [] => true
         | (key, child) :: ms' =>
             if bool_decide (key ∈ seen) then false
             else readValue (depth + 1) child && read_members ({[key]} ∪ seen) ms'
         end) ∅ members
  | DArray l => (len l <=? 1024)%Z && forallb (readValue (depth + 1)) l
  | _ => true
  end.

(** ** Descriptors *)

Record publicProduct := mkPublic {
  key : string;
  id : string;
  inputs : list object;
  outputs : gset string;
  requiredFeatures : gset string
}.

(** Every member holds a text of at most [maximum] bytes. *)
Definition texts (o : object) (maximum : Z) : bool :=
  forallb (λ m, non_nil (text (snd m) maximum)) o.

Definition reference (value : jvalue) : option object :=
  ref ← exact value "name output" "namespace";
  if forallb (λ m, non_nil (text (snd m) (if fst m == "name" then 253 else 63))) ref
  then Some ref else None.

Definition owner (value : jvalue) : bool :=
  match exact value "name" "url" with
  | Some o => texts o 16384
  | None => false
  end.

Definition readiness (value : jvalue) : bool :=
  match exact value "reason message" "" with
  | Some o =>
      match text (get o "reason") 32 with
      | Some reason => (reason == "unobserved") && non_nil (text (get o "message") 16384)
      | None => false
      end
  | None => false
  end.

(** One dimension of [health]. *)
Definition health_dimension (value : jvalue) : bool :=
  match exact value "state message generation observedGeneration" "" with
  | Some d =>
      (equals (get d "state") "unobserved" || equals (get d "state") "not-applicable") &&
      non_nil (text (get d "message") 16384) &&
      non_nil (integer (get d "generation") 0) && non_nil (integer (get d "observedGeneration") 0)
  | None => false
  end.
Definition health (value : jvalue) : bool :=
  match exact value "source connector contracts composition" "" with
  | Some o => forallb (λ m, health_dimension (snd m)) o
  | None => false
  end.

Definition protocols : list string := Fields "OpenAPI AsyncAPI GraphQL DCAT ArrowFlight".

(** The loop over the outputs. *)
Fixpoint read_outputs (values : list jvalue) (seen : gset string) : option (gset string) :=
  match values with
  | [] => Some seen
  | value :: values' =>
      output ← exact value "name protocol url contractUrl" "mediaType";
      if negb (texts output 16384) then None
      else
        let name := default "" (text (get output "name") 63) in
        let protocol := default "" (text (get output "protocol") 32) in
        if (name == "") || bool_decide (name ∈ seen) || negb (contains protocols protocol) then None
        else read_outputs values' ({[name]} ∪ seen)
  end.

(** The contract of an input. *)
Definition input_contract (value : jvalue) : bool :=
  match exact value "minimumVersion protocol" "" with
  | Some c =>
      non_nil (text (get c "minimumVersion") 64) &&
      match text (get c "protocol") 32 with
      | Some protocol => contains protocols protocol
      | None => false
      end
  | None => false
  end.

(** The loop over the inputs; it keeps the objects themselves. *)
Fixpoint read_inputs (values : list jvalue) (seen : gset string) : option (list object) :=
  match values with
  | [] => Some []
  | value :: values' =>
      input ← exact value "name productRef" "contract";
      name ← text (get input "name") 63;
      if bool_decide (name ∈ seen) then None
      else
        _ ← reference (get input "productRef");
        if match lookup_key input "contract" with Some c => negb (input_contract c) | None => false end
        then None
        else rest ← read_inputs values' ({[name]} ∪ seen); Some (input :: rest)
  end.

(** A loop over texts that are pairwise distinct and satisfy a condition. *)
Fixpoint distinct_texts (maximum : Z) (ok : string → bool) (values : list jvalue) (seen : gset string)
  : bool :=
  match values with
  | [] => true
  | value :: values' =>
      match text value maximum with
      | Some s =>
          if bool_decide (s ∈ seen) || negb (ok s) then false
          else distinct_texts maximum ok values' ({[s]} ∪ seen)
      | None => false
      end
  end.

(** The contract of a user interface: the features it requires. *)
Definition ui_contract (value : jvalue) : option (gset string) :=
  contract ← exact value "apiVersion hostOrigins capabilities" "";
  let version := get contract "apiVersion" in
  if negb (equals version "data-product-ui/v1") && negb (equals version "data-product-ui/v2") then None
  else
    let features : gset string :=
      if equals version "data-product-ui/v2" then {["ui-contract"; "ui-appearance"]} else {["ui-contract"]} in
    origins ← array (get contract "hostOrigins") 16;
    if (len origins =? 0)%Z || negb (distinct_texts 253 (λ _, true) origins ∅) then None
    else
      capabilities ← array (get contract "capabilities") 3;
      let allowed (capability : string) : bool :=
        contains ["status"; "resize"; "appearance"]%string capability &&
        negb (equals version "data-product-ui/v1" && (capability == "appearance")) in
      if negb (distinct_texts 32 allowed capabilities ∅) then None else Some features.

(** The user interface: the features it requires. *)
Definition user_interface (value : jvalue) : option (gset string) :=
  ui ← exact value "url title" "contract";
  _ ← text (get ui "url") 2048;
  title ← text (get ui "title") 800;
  if (200 <? utf16_length (runes title))%Z then None
  else match lookup_key ui "contract" with
  | Some c => ui_contract c
  | None => Some ∅
  end.

(** [json.Marshal] of a value: members sorted by key, numbers as they were read. *)
Fixpoint marshal (v : jvalue) : string :=
  match v with
  | DNull => "null"
  | DBool b => if b then "true" else "false"
  | DNumber t => t
  | DString s => json_string s
  | DArray l => "[" +:+ join "," (map marshal l) +:+ "]"
  | DObject ms =>
      "{" +:+ join "," (map (λ m : string * string, json_string (fst m) +:+ ":" +:+ snd m)
        (sort_slice (λ a b : string * string, String.ltb (fst a) (fst b)) (map (λ m, (fst m, marshal (snd m))) ms))) +:+ "}"
  end.

(** The optional members of a descriptor that are texts when they exist. *)
Definition public_texts : list string :=
  ["namespace"; "name"; "id"; "displayName"; "description"; "version"; "documentationUrl"]%string.

Definition descriptor (value : jvalue) : option publicProduct :=
  o ← exact value
    "apiVersion kind namespace name id displayName description version owner outputs ready readiness generation observedGeneration health"
    "documentationUrl inputs ui composition lineage";
  if negb (equals (get o "apiVersion") "data-product-descriptor/v1") ||
     negb (equals (get o "kind") "DataProduct")
  then None
  else if negb (forallb (λ k, match lookup_key o k with
                              | Some v => non_nil (text v 16384) | None => true end) public_texts)
  then None
  else
    let namespace := default "" (text (get o "namespace") 63) in
    let name := default "" (text (get o "name") 253) in
    if (namespace == "") || (name == "") then None
    else
      id ← text (get o "id") 16384;
      ready ← boolean (get o "ready");
      if (ready : bool) || negb (non_nil (integer (get o "generation") 0)) ||
         negb (non_nil (integer (get o "observedGeneration") 0)) ||
         negb (owner (get o "owner")) || negb (readiness (get o "readiness")) ||
         negb (health (get o "health"))
      then None
      else
        outputs ← array (get o "outputs") 1024;
        if (len outputs =? 0)%Z then None
        else
          outputs ← read_outputs outputs ∅;
          inputs ← match lookup_key o "inputs" with
                   | Some v => values ← array v 1024; read_inputs values ∅
                   | None => Some []
                   end;
          if match lookup_key o "composition" with Some v => negb (readiness v) | None => false end ||
             match lookup_key o "lineage" with Some v => negb (non_nil (array v 0)) | None => false end
          then None
          else
            features ← match lookup_key o "ui" with Some v => user_interface v | None => Some ∅ end;
            if (65536 <? slen (marshal (DObject o)))%Z then None
            else
              let composed : gset string := match inputs with [] => ∅ | _ => {["composition"]} end in
              Some (mkPublic (namespace +:+ "/" +:+ name) id inputs outputs (composed ∪ features)).

(** ** Reports *)

Record sourceSummary := mkSource { src_documents : Z; src_products : Z }.

(** The loop over the sources; [index] counts the earlier ones. *)
Fixpoint read_summaries (index : Z) (values : list jvalue) : option (list sourceSummary) :=
  match values with
  | [] => Some []
  | value :: values' =>
      source ← exact value "source documents products" "";
      ordinal ← integer (get source "source") 32;
      if ordinal != (index + 1)%Z then None
      else
        documents ← integer (get source "documents") 4097;
        count ← integer (get source "products") 256;
        if (documents <? count)%Z then None
        else rest ← read_summaries (index + 1) values'; Some (mkSource documents count :: rest)
  end.
Definition total (f : sourceSummary → Z) (sources : list sourceSummary) : Z :=
  foldr Z.add 0%Z (map f sources).

(** [position]: the place a source and a document number name. *)
Definition position (sources : list sourceSummary) (source document : jvalue) (allowGlobal : bool)
  : option string :=
  s ← integer source 32;
  d ← integer document 4097;
  let place := pretty s +:+ "/" +:+ pretty d in
  if (s =? 0)%Z then if negb allowGlobal || negb (d =? 0)%Z then None else Some place
  else match sources !! Z.to_nat (s - 1) with
  | None => None
  | Some summary =>
      if (src_documents summary <? d)%Z || (negb allowGlobal && (d =? 0)%Z) then None else Some place
  end.

(** The loop over the product features: the set at each place, and the number of entries per source. *)
Fixpoint read_features (sources : list sourceSummary) (values : list jvalue)
    (places : gmap string (gset string)) (numbers : gmap Z Z)
  : option (gmap string (gset string) * gmap Z Z) :=
  match values with
  | [] => Some (places, numbers)
  | value :: values' =>
      entry ← exact value "source document requiredFeatures" "";
      key ← position sources (get entry "source") (get entry "document") false;
      if non_nil (places !! key) then None
      else
        let source := default 0%Z (integer (get entry "source") 32) in
        set ← featureSet (get entry "requiredFeatures");
        read_features sources values' (<[key := set]> places)
          (<[source := (default 0 (numbers !! source) + 1)%Z]> numbers)
  end.
(** The features of all places. *)
Definition feature_union (places : gmap string (gset string)) : gset string :=
  ⋃ (map snd (map_to_list places)).

(** No source has more entries than products, and as many in a complete report. *)
Fixpoint feature_counts_ok (complete : bool) (numbers : gmap Z Z) (index : Z)
    (sources : list sourceSummary) : bool :=
  match sources with
  | [] => true
  | source :: sources' =>
      let count := default 0%Z (numbers !! (index + 1)%Z) in
      if (src_products source <? count)%Z || (complete && negb (count =? src_products source)%Z) then false
      else feature_counts_ok complete numbers (index + 1) sources'
  end.

Record countNumbers := mkNumbers { n_total : Z; n_errors : Z; n_warnings : Z; n_omitted : Z }.
Definition maxCount : Z := 1048576.
(** [diagnosticCounts]. *)
Definition read_counts (value : jvalue) : option countNumbers :=
  counts ← exact value "total errors warnings omitted" "";
  total ← integer (get counts "total") maxCount;
  errors ← integer (get counts "errors") maxCount;
  warnings ← integer (get counts "warnings") maxCount;
  omitted ← integer (get counts "omitted") maxCount;
  Some (mkNumbers total errors warnings omitted).

Definition path_ok (value : jvalue) : bool :=
  match value with DString p => (slen p <=? 4096)%Z && MatchString knownPath p | _ => false end.

(** One step of a witness. *)
Definition witness_ok (sources : list sourceSummary) (value : jvalue) : bool :=
  match exact value "source document path" "" with
  | Some step =>
      non_nil (position sources (get step "source") (get step "document") false) &&
      path_ok (get step "path")
  | None => false
  end.

Definition maxPlace : Z := 2097153.
(** One diagnostic: whether it is an error, or else a warning. *)
Definition read_diagnostic (sources : list sourceSummary) (value : jvalue) : option bool :=
  d ← exact value "source document line column severity code path message witness witnessTruncated" "";
  _ ← position sources (get d "source") (get d "document") true;
  line ← integer (get d "line") maxPlace;
  column ← integer (get d "column") maxPlace;
  if bool_decide (line = 0%Z) != bool_decide (column = 0%Z) then None
  else
    code ← text (get d "code") 64;
    if negb (contains knownCodes code) || negb (path_ok (get d "path")) then None
    else
      _ ← text (get d "message") 256;
      if negb (equals (get d "severity") "error") && negb (equals (get d "severity") "warning") then None
      else
        _ ← boolean (get d "witnessTruncated");
        witness ← array (get d "witness") 64;
        if negb (forallb (witness_ok sources) witness) then None
        else Some (equals (get d "severity") "error").

(** The loop over the diagnostics: retained errors and warnings. *)
Fixpoint read_diagnostics (sources : list sourceSummary) (values : list jvalue) : option (Z * Z) :=
  match values with
  | [] => Some (0, 0)%Z
  | value :: values' =>
      is_error ← read_diagnostic sources value;
      rest ← read_diagnostics sources values';
      Some (if (is_error : bool) then (fst rest + 1, snd rest)%Z else (fst rest, snd rest + 1)%Z)
  end.

(** The accounting of the diagnostics. *)
Definition counts_ok (n : countNumbers) (retained errors warnings : Z) : bool :=
  (n_total n =? n_errors n + n_warnings n)%Z && (n_total n - retained =? n_omitted n)%Z &&
  (errors <=? n_errors n)%Z && (warnings <=? n_warnings n)%Z &&
  (negb (n_omitted n =? 0)%Z || ((errors =? n_errors n)%Z && (warnings =? n_warnings n)%Z)).

(** ** Plans *)

(** The loop over the descriptors, by key. *)
Fixpoint read_descriptors (values : list jvalue) (byKey : gmap string publicProduct) (ids : gset string)
  : option (gmap string publicProduct) :=
  match values with
  | [] => Some byKey
  | value :: values' =>
      product ← descriptor value;
      if non_nil (byKey !! key product) || bool_decide (id product ∈ ids) then None
      else read_descriptors values' (<[key product := product]> byKey) ({[id product]} ∪ ids)
  end.

(** The loop over the order: rank and place of each product. *)
Fixpoint read_order (sources : list sourceSummary) (byKey : gmap string publicProduct)
    (places : gmap string (gset string)) (index : Z) (values : list jvalue)
    (rank : gmap string Z) (origins : gmap string string) (used : gset string)
  : option (gmap string Z * gmap string string) :=
  match values with
  | [] => Some (rank, origins)
  | value :: values' =>
      entry ← exact value "key source document" "";
      k ← text (get entry "key") 317;
      product ← byKey !! k;
      if non_nil (rank !! k) then None
      else
        at_ ← position sources (get entry "source") (get entry "document") false;
        features ← places !! at_;
        if bool_decide (at_ ∈ used) || negb (bool_decide (requiredFeatures product ⊆ features)) then None
        else read_order sources byKey places (index + 1) values' (<[k := index]> rank)
               (<[k := at_]> origins) ({[at_]} ∪ used)
  end.

(** [strings.SplitN(key, "/", 2)[0]]. *)
Definition before_slash (s : string) : string :=
  match cut_first "/" s with Some (a, _) => a | None => s end.

(** One edge: the identity it stands for, its consumer and the index of the input. *)
Definition read_edge (sources : list sourceSummary) (byKey : gmap string publicProduct)
    (rank : gmap string Z) (origins : gmap string string) (value : jvalue) : option string :=
  edge ← exact value "consumer producer input inputIndex output source document" "";
  consumer ← text (get edge "consumer") 317;
  producer ← text (get edge "producer") 317;
  c ← byKey !! consumer;
  p ← byKey !! producer;
  if (default 0 (rank !! consumer) <=? default 0 (rank !! producer))%Z then None
  else
    index ← integer (get edge "inputIndex") 1023;
    input ← inputs c !! Z.to_nat index;
    let ref := default [] (reference (get input "productRef")) in
    namespace ← match lookup_key ref "namespace" with
                | Some selected => text selected 63
                | None => Some (before_slash consumer)
                end;
    if (namespace != before_slash consumer) || (before_slash producer != before_slash consumer) then None
    else
      name ← text (get ref "name") 253;
      output ← text (get ref "output") 63;
      input_name ← text (get input "name") 63;
      if (namespace +:+ "/" +:+ name != producer) || negb (equals (get edge "input") input_name) ||
         negb (equals (get edge "output") output) || negb (bool_decide (output ∈ outputs p))
      then None
      else
        at_ ← position sources (get edge "source") (get edge "document") false;
        if at_ != default "" (origins !! consumer) then None
        else Some (consumer +:+ "/" +:+ pretty index).

(** The loop over the edges. *)
Fixpoint read_edges (sources : list sourceSummary) (byKey : gmap string publicProduct)
    (rank : gmap string Z) (origins : gmap string string) (values : list jvalue) (seen : gset string)
  : bool :=
  match values with
  | [] => true
  | value :: values' =>
      match read_edge sources byKey rank origins value with
      | Some k =>
          if bool_decide (k ∈ seen) then false
          else read_edges sources byKey rank origins values' ({[k]} ∪ seen)
      | None => false
      end
  end.

(** The edges that must exist. *)
Definition expected (byKey : gmap string publicProduct) : Z :=
  foldr Z.add 0%Z (map (λ e : string * publicProduct, len (inputs (snd e))) (map_to_list byKey)).

(** The second half of [validateReport], for a complete report. *)
Definition complete_ok (sources : list sourceSummary) (places : gmap string (gset string))
    (products : Z) (features : list jvalue) (descriptors : list jvalue) (plan : jvalue) : bool :=
  if (products =? 0)%Z || negb (len descriptors =? products)%Z || negb (len features =? products)%Z
  then false
  else non_nil (
    byKey ← read_descriptors descriptors ∅ ∅;
    planObject ← exact plan "order edges" "";
    order ← array (get planObject "order") 256;
    if negb (len order =? products)%Z then None
    else
      '(rank, origins) ← read_order sources byKey places 0 order ∅ ∅ ∅;
      edges ← array (get planObject "edges") 1024;
      if negb (len edges =? expected byKey)%Z ||
         negb (read_edges sources byKey rank origins edges ∅)
      then None else Some tt).

(** [validateReport]: the report itself; [raw] without its plan has exactly the other members. *)
Definition validateReport (value : jvalue) : option object :=
  match value with
  | DObject raw =>
      plan ← lookup_key raw "plan";
      report ← exact (DObject (List.filter (λ m, negb (String.eqb "plan" (fst m))) raw))
        "apiVersion valid complete products sources requiredFeatures productFeatures diagnostics diagnosticCounts descriptors"
        "";
      if negb (equals (get report "apiVersion") "data-product-preflight/v2") then None
      else
        valid ← boolean (get report "valid");
        complete ← boolean (get report "complete");
        if (complete : bool) && negb valid then None
        else
          products ← integer (get report "products") 256;
          sourceValues ← array (get report "sources") 32;
          sources ← read_summaries 0 sourceValues;
          if negb (total src_products sources =? products)%Z ||
             (4097 <? total src_documents sources)%Z ||
             ((valid : bool) && (4096 <? total src_documents sources)%Z)
          then None
          else
            required ← featureSet (get report "requiredFeatures");
            features ← array (get report "productFeatures") 256;
            '(places, numbers) ← read_features sources features ∅ ∅;
            if negb (feature_counts_ok complete numbers 0 sources) ||
               negb (bool_decide (size (feature_union places) = size (required : gset string))) ||
               negb (bool_decide (feature_union places ⊆ required))
            then None
            else
              counts ← read_counts (get report "diagnosticCounts");
              diagnostics ← array (get report "diagnostics") 128;
              '(retainedErrors, retainedWarnings) ← read_diagnostics sources diagnostics;
              if negb (counts_ok counts (len diagnostics) retainedErrors retainedWarnings) ||
                 (valid != bool_decide (n_errors counts = 0%Z)) ||
                 (complete != bool_decide (n_total counts = 0%Z))
              then None
              else
                descriptors ← array (get report "descriptors") 256;
                if if complete then negb (complete_ok sources places products features descriptors plan)
                   else negb (is_nil plan) || negb (len descriptors =? 0)%Z
                then None
                else Some raw
  | _ => None
  end.

(** ** Reading and printing *)

(** [validUnicodeEscapes] repeats the scan of [internal/jsoninput] statement by statement. *)
Definition validUnicodeEscapes (data : string) : bool := ValidUnicodeEscapes data.

Definition maxReport : Z := 2097152.
(** [readReportFile], for the file the path names: whether it is regular, and what reading it gives,
    [None] for an error.  The limited reader delivers one byte more than the limit of a longer file. *)
Definition readReportFile (file : option (bool * option string)) : option object :=
  match file with
  | Some (true, Some data) =>
      if (maxReport <? slen data)%Z || negb (ValidString data) || negb (validUnicodeEscapes data) then None
      else
        '(value, rest) ← next_value data;
        if readValue 0 value && at_eof rest then validateReport value else None
  | _ => None
  end.

Definition show_bool (v : jvalue) : string :=
  match v with DBool b => if b then "true" else "false" | _ => "" end.
Definition show_number (v : jvalue) : string := match v with DNumber t => t | _ => "" end.

(** [main]: the exit code and the lines of standard output, for the number of arguments and the file
    the second one names. *)
Section Printing.
Context `{F : GoFmt}.

Definition show_text (v : jvalue) : string := match v with DString s => Quote s | _ => "" end.

Definition claims_line (report : object) : string :=
  "Declarations: valid=" +:+ show_bool (get report "valid") +:+ " complete=" +:+
  show_bool (get report "complete") +:+ " products=" +:+ show_number (get report "products") +:+
  "; live readiness and access remain unverified.".
Definition diagnostic_line (v : jvalue) : string :=
  match v with
  | DObject d =>
      "source " +:+ show_number (get d "source") +:+ " document " +:+ show_number (get d "document") +:+
      " " +:+ show_text (get d "code") +:+ " " +:+ show_text (get d "path") +:+ ": " +:+
      show_text (get d "message")
  | _ => ""
  end.
Definition review_line (v : jvalue) : string :=
  match v with DObject e => "Review " +:+ show_text (get e "key") | _ => "" end.

Definition main (arguments : nat) (file : option (bool * option string)) : Z * list string :=
  if negb (arguments =? 2)%nat then (2%Z, [])
  else match readReportFile file with
  | None => (1%Z, [])
  | Some report =>
      (0%Z,
       claims_line report ::
       map diagnostic_line (default [] (array (get report "diagnostics") 128)) ++
       match get report "plan" with
       | DObject plan => map review_line (default [] (array (get plan "order") 256))
       | _ => []
       end)
  end.
End Printing.
