(* ===== verification/PreflightClientSpec.v ===== *)
(** * The report reader: what is guaranteed

    Whatever bytes the selected file holds, a report that is accepted is consistent: its flags are its
    counts, and the review order printed for a complete one is a topological order of exactly the
    described products, with every declared input on the plan once. *)

From Stdlib Require Import Ascii.
From stdpp Require Import pretty.
From S2P Require Import Prelude Kube Regex GoJson GoStrings GoUrl Config Descriptor GoMime GoJsonRead JsonInput Reference PreflightClient.

(** ** Option monad *)

Lemma opt_bind_inv {A B} (o : option A) (f : A → option B) (b : B) :
  mbind f o = Some b → ∃ a, o = Some a ∧ f a = Some b.
Proof. destruct o as [a|]; [|done]. intros H. by exists a. Qed.

(** Takes the next step of a computation that succeeded, naming its result. *)
Ltac opt_step H a E := apply opt_bind_inv in H as (a & E & H); cbn beta iota in H.
(** The next guard of a computation that succeeded did not refuse. *)
Ltac opt_pass H E :=
  match type of H with (if ?b then None else _) = Some _ => destruct b eqn:E; [discriminate H|] end.

(** ** Leaves *)

Lemma integer_range v maximum n : integer v maximum = Some n → (0 <= n <= maximum)%Z.
Proof.
  unfold integer. destruct v; try done. destruct (Atoi _) as [m|]; [|done].
  destruct (_ || _) eqn:Hg; [done|]. intros [= <-]. apply orb_false_iff in Hg as [H1 H2]. lia.
Qed.

Lemma array_inv v limit l : array v limit = Some l → v = DArray l ∧ (len l <= limit)%Z.
Proof.
  unfold array. destruct v; try done. destruct (_ <? _)%Z eqn:Hl; [done|]. intros [= <-].
  split; [done|]. lia.
Qed.

Lemma boolean_inv v b : boolean v = Some b → v = DBool b.
Proof. destruct v; try done. by intros [= ->]. Qed.

Lemma exact_inv v required optional o : exact v required optional = Some o → v = DObject o.
Proof.
  unfold exact. destruct v; try done. destruct (existsb _ _); [done|]. destruct (existsb _ _); [done|].
  by intros [= ->].
Qed.

(** Members other than a removed one read the same. *)
Lemma get_filter (o : object) k : k ≠ "plan" →
  get (List.filter (λ m, negb (String.eqb "plan" (fst m))) o) k = get o k.
Proof.
  intros Hk. unfold get, lookup_key. do 2 f_equal. induction o as [|[k' v] o IH]; [done|].
  cbn [List.filter find_first fst]. destruct (String.eqb_spec "plan" k') as [<-|Hne]; cbn [negb find_first fst].
  - destruct (String.eqb_spec k "plan") as [->|]; [done|exact IH].
  - by destruct (String.eqb k k').
Qed.

(** ** Descriptors by key *)

Definition keyed (products : list publicProduct) : list (string * publicProduct) :=
  map (λ p, (key p, p)) products.

Lemma keyed_keys products : (keyed products).*1 = map key products.
Proof. unfold keyed. rewrite <- list_fmap_compose. done. Qed.

Lemma read_descriptors_ok values : ∀ byKey ids byKey', read_descriptors values byKey ids = Some byKey' →
  ∃ products, mapM descriptor values = Some products ∧ NoDup (map key products) ∧
    NoDup (map id products) ∧ (∀ p, p ∈ products → byKey !! key p = None ∧ id p ∉ ids) ∧
    byKey' = list_to_map (keyed products) ∪ byKey.
Proof.
  induction values as [|v values IH]; intros byKey ids byKey' H; cbn [read_descriptors] in H.
  { injection H as <-. exists []. split_and!; try by constructor.
    - by intros p ?%elem_of_nil.
    - by rewrite (left_id_L _ _). }
  opt_step H p E. opt_pass H Hg. apply orb_false_iff in Hg as [Hk%non_nil_false Hi%bool_decide_eq_false].
  apply IH in H as (products & Hm & Hnk & Hni & Hnew & ->). exists (p :: products). split_and!.
  - cbn [mapM]. rewrite E. cbn [mbind option_bind]. by rewrite Hm.
  - cbn [map]. apply list.NoDup_cons. split; [|done]. intros (q & Heq & Hq)%list_elem_of_fmap.
    destruct (Hnew q Hq) as [Hnone _]. by rewrite <- Heq, lookup_insert_eq in Hnone.
  - cbn [map]. apply list.NoDup_cons. split; [|done]. intros (q & Heq & Hq)%list_elem_of_fmap.
    destruct (Hnew q Hq) as [_ Hnot]. apply Hnot. rewrite <- Heq. set_solver.
  - intros q [->|Hq]%elem_of_cons; [done|]. destruct (Hnew q Hq) as [Hnone Hnot]. split; [|set_solver].
    rewrite lookup_insert_ne in Hnone; [done|]. intros Heq. by rewrite Heq, lookup_insert_eq in Hnone.
  - change (keyed (p :: products)) with ((key p, p) :: keyed products). rewrite list_to_map_cons, <- insert_union_l.
    symmetry. apply insert_union_r.
    apply not_elem_of_list_to_map_1. rewrite keyed_keys. intros (q & Heq & Hq)%list_elem_of_fmap.
    destruct (Hnew q Hq) as [Hnone _]. by rewrite <- Heq, lookup_insert_eq in Hnone.
Qed.

Lemma keyed_lookup products k p : NoDup (map key products) →
  (list_to_map (keyed products) : gmap string publicProduct) !! k = Some p ↔ p ∈ products ∧ key p = k.
Proof.
  intros Hnd. rewrite <- elem_of_list_to_map by (by rewrite keyed_keys). unfold keyed.
  rewrite list_elem_of_fmap. split; [intros (q & [= -> ->] & Hq); done|]. intros [Hp <-]. by exists p.
Qed.

(** ** The order *)

Definition order_key (v : jvalue) : option string :=
  entry ← exact v "key source document" ""; text (get entry "key") 317.

Lemma read_order_ok sources byKey places values : ∀ index rank origins used rank' origins',
  read_order sources byKey places index values rank origins used = Some (rank', origins') →
  ∃ keys, mapM order_key values = Some keys ∧ NoDup keys ∧
    (∀ k, k ∈ keys → is_Some (byKey !! k) ∧ rank !! k = None) ∧
    (∀ i k, keys !! i = Some k → rank' !! k = Some (index + Z.of_nat i)%Z) ∧
    (∀ k, k ∉ keys → rank' !! k = rank !! k).
Proof.
  induction values as [|v values IH]; intros index rank origins used rank' origins' H; cbn [read_order] in H.
  { injection H as <- <-. exists []. split_and!;
      [done|constructor|by intros k ?%elem_of_nil|by intros i k Hi; rewrite lookup_nil in Hi|done]. }
  opt_step H entry E1. opt_step H k E2. opt_step H p E3. opt_pass H Hr. apply non_nil_false in Hr.
  opt_step H place E4. opt_step H features E5. opt_pass H Hu.
  apply IH in H as (keys & Hm & Hnd & Hknown & Hrank & Hother).
  assert (k ∉ keys) as Hk.
  { intros Hin. destruct (Hknown k Hin) as [_ Hnone]. by rewrite lookup_insert_eq in Hnone. }
  exists (k :: keys). split_and!.
  - assert (order_key v = Some k) as Ho by (unfold order_key; by rewrite E1).
    cbn [mapM]. rewrite Ho. cbn [mbind option_bind]. by rewrite Hm.
  - by apply list.NoDup_cons.
  - intros k' [->|Hin]%elem_of_cons; [by rewrite E3|]. destruct (Hknown k' Hin) as [Hs Hnone].
    split; [done|]. rewrite lookup_insert_ne in Hnone; [done|]. by intros ->.
  - intros [|i] k' Hi; cbn in Hi.
    + injection Hi as <-. rewrite Hother, lookup_insert_eq by done. f_equal. lia.
    + rewrite (Hrank i k' Hi). f_equal. lia.
  - intros k' Hn. rewrite Hother, lookup_insert_ne by set_solver. done.
Qed.

(** ** The edges *)

(** The input of a product an edge is about. *)
Definition edge_link (v : jvalue) : option (string * Z) :=
  edge ← exact v "consumer producer input inputIndex output source document" "";
  consumer ← text (get edge "consumer") 317;
  index ← integer (get edge "inputIndex") 1023;
  Some (consumer, index).

(** The inputs the products declare. *)
Definition declared_links (products : list publicProduct) : list (string * Z) :=
  concat (map (λ p, imap (λ i _, (key p, Z.of_nat i)) (inputs p)) products).

Lemma declared_links_length products :
  len (declared_links products) = foldr Z.add 0%Z (map (λ p, len (inputs p)) products).
Proof.
  induction products as [|p products IH]; [done|]. unfold declared_links in *. cbn [map concat foldr].
  rewrite len_app, IH. unfold len at 1. by rewrite length_imap.
Qed.

Lemma elem_of_declared_links products k n : (k, n) ∈ declared_links products ↔
  ∃ p i input, p ∈ products ∧ key p = k ∧ n = Z.of_nat i ∧ inputs p !! i = Some input.
Proof.
  unfold declared_links. rewrite list_elem_of_In, in_concat. split.
  - intros (l & Hl%list_elem_of_In & Hin%list_elem_of_In). apply list_elem_of_fmap in Hl as (p & -> & Hp).
    apply elem_of_lookup_imap in Hin as (i & input & [= -> ->] & Hi). by exists p, i, input.
  - intros (p & i & input & Hp & <- & -> & Hi). eexists. split; apply list_elem_of_In.
    + apply list_elem_of_fmap. by exists p.
    + apply elem_of_lookup_imap. by exists i, input.
Qed.

(** An input of the product [k] is supplied by the product [q]: its reference stays in the namespace,
    names [q] and selects an output that [q] declares. *)
Definition supplied (k : string) (input : object) (q : publicProduct) : Prop :=
  ∃ ref name output, reference (get input "productRef") = Some ref ∧
    get ref "name" = DString name ∧ get ref "output" = DString output ∧
    (lookup_key ref "namespace" = None ∨ lookup_key ref "namespace" = Some (DString (before_slash k))) ∧
    key q = before_slash k +:+ "/" +:+ name ∧ before_slash (key q) = before_slash k ∧ output ∈ outputs q.

Lemma text_inv v maximum s : text v maximum = Some s → v = DString s.
Proof. destruct v; try done. cbn. destruct (_ || _); [done|]. by intros [= ->]. Qed.

Section Edges.
Context (sources : list sourceSummary) (byKey : gmap string publicProduct) (rank : gmap string Z)
  (origins : gmap string string).

Lemma read_edges_ok values : ∀ seen, read_edges sources byKey rank origins values seen = true →
  ∃ ids, mapM (read_edge sources byKey rank origins) values = Some ids ∧ NoDup ids ∧
    ∀ x, x ∈ ids → x ∉ seen.
Proof.
  induction values as [|v values IH]; intros seen H; cbn [read_edges] in H.
  { exists []. split_and!; [done|constructor|by intros x ?%elem_of_nil]. }
  destruct (read_edge _ _ _ _ v) as [e|] eqn:E; [|done]. case_bool_decide as Hin; [done|].
  apply IH in H as (ids & Hm & Hnd & Hnew). exists (e :: ids). split_and!.
  - cbn [mapM]. rewrite E. cbn [mbind option_bind]. by rewrite Hm.
  - apply list.NoDup_cons. split; [|done]. intros He. apply (Hnew e He). set_solver.
  - intros x [->|Hx]%elem_of_cons; [done|]. specialize (Hnew x Hx). set_solver.
Qed.
Context (Hkeys : ∀ k p, byKey !! k = Some p → key p = k).

Lemma read_edge_ok v e : read_edge sources byKey rank origins v = Some e →
  ∃ consumer index c p input, edge_link v = Some (consumer, index) ∧
    e = consumer +:+ "/" +:+ pretty index ∧ (0 <= index)%Z ∧
    byKey !! consumer = Some c ∧ byKey !! key p = Some p ∧ inputs c !! Z.to_nat index = Some input ∧
    supplied consumer input p ∧ (default 0 (rank !! key p) < default 0 (rank !! consumer))%Z.
Proof.
  unfold read_edge. intros H. opt_step H edge E1. opt_step H consumer E2. opt_step H producer E3.
  opt_step H c E4. opt_step H p E5. opt_pass H Hrank. apply Z.leb_gt in Hrank.
  opt_step H index E6. pose proof (integer_range _ _ _ E6) as Hi. opt_step H input E7.
  pose proof (Hkeys _ _ E5) as <-.
  opt_step H namespace E8. opt_pass H Hns. apply orb_false_iff in Hns as [Hn1 Hn2].
  apply negb_false_iff, bool_decide_eq_true in Hn1 as ->. apply negb_false_iff, bool_decide_eq_true in Hn2.
  opt_step H name E9. opt_step H output E10. opt_step H input_name E11. opt_pass H Hg.
  rewrite !orb_false_iff, !negb_false_iff, !bool_decide_eq_true in Hg. destruct Hg as [[[Hkey _] _] Hout].
  opt_step H place E12. opt_pass H Hat. injection H as <-.
  exists consumer, index, c, p, input. split_and!; try done; try lia.
  - unfold edge_link. rewrite E1. cbn [mbind option_bind]. rewrite E2. cbn [mbind option_bind]. by rewrite E6.
  - destruct (reference (get input "productRef")) as [ref|] eqn:Er; [|done].
    change (default [] (Some ref)) with ref in *.
    exists ref, name, output. split_and!; try done; try (by eapply text_inv).
    destruct (lookup_key ref "namespace") as [selected|]; [right|by left].
    by apply text_inv in E8 as ->.
Qed.

End Edges.

(** ** Plans *)

(** A review order of products: it lists each of them once, and every declared input is supplied by a
    product that is reviewed before its consumer. *)
Record sound_order (products : list publicProduct) (order : list string) : Prop := {
  so_some : products ≠ [];
  so_keys : NoDup (map key products);
  so_ids : NoDup (map id products);
  so_order : order ≡ₚ map key products;
  so_inputs : ∀ p i input, p ∈ products → inputs p !! i = Some input →
    ∃ q a b, q ∈ products ∧ supplied (key p) input q ∧
      order !! a = Some (key q) ∧ order !! b = Some (key p) ∧ a < b
}.

(** What a report states: its products, the order of its plan, and edges that are exactly the declared
    inputs. *)
Definition states (descriptors : list jvalue) (plan : jvalue) (products : list publicProduct)
    (order : list string) : Prop :=
  mapM descriptor descriptors = Some products ∧
  ∃ o entries edges links, plan = DObject o ∧ get o "order" = DArray entries ∧ (len entries <= 256)%Z ∧
    mapM order_key entries = Some order ∧ get o "edges" = DArray edges ∧
    mapM edge_link edges = Some links ∧ links ≡ₚ declared_links products.

Lemma rank_of (order : list string) (rank : gmap string Z) k :
  (∀ i k, order !! i = Some k → rank !! k = Some (0 + Z.of_nat i)%Z) → k ∈ order →
  ∃ i, order !! i = Some k ∧ default 0%Z (rank !! k) = Z.of_nat i.
Proof.
  intros Hr [i Hi]%list_elem_of_lookup. exists i. split; [done|]. by rewrite (Hr i k Hi).
Qed.

Lemma expected_keyed products : NoDup (map key products) →
  expected (list_to_map (keyed products)) = foldr Z.add 0%Z (map (λ p, len (inputs p)) products).
Proof.
  intros Hnd. unfold expected.
  pose proof (map_to_list_to_map (M := gmap string) (keyed products) ltac:(by rewrite keyed_keys)) as Hp.
  rewrite (sum_proper _ _ (Permutation_map (λ e : string * publicProduct, len (inputs (snd e))) Hp)).
  unfold keyed. by rewrite map_map.
Qed.

(** The edges that were read name their inputs. *)
Lemma edges_links sources byKey rank origins (Hkeys : ∀ k p, byKey !! k = Some p → key p = k) edges ids :
  mapM (read_edge sources byKey rank origins) edges = Some ids →
  ∃ links, mapM edge_link edges = Some links ∧
    ids = map (λ l : string * Z, fst l +:+ "/" +:+ pretty (snd l)) links ∧
    ∀ k n, (k, n) ∈ links → (0 <= n)%Z ∧ ∃ c p input, byKey !! k = Some c ∧ byKey !! key p = Some p ∧
      inputs c !! Z.to_nat n = Some input ∧ supplied k input p ∧
      (default 0 (rank !! key p) < default 0 (rank !! k))%Z.
Proof.
  intros H%mapM_Some. induction H as [|v e edges ids Hv _ (links & Hm & -> & Hall)].
  { exists []. split_and!; [done..|]. by intros k n ?%elem_of_nil. }
  apply read_edge_ok in Hv as (k & n & c & p & input & Hl & -> & Hn & Hrest); [|done].
  exists ((k, n) :: links). split_and!; [|done|].
  - cbn [mapM]. rewrite Hl. cbn [mbind option_bind]. by rewrite Hm.
  - intros k' n' [[= -> ->]|Hin]%elem_of_cons; [|by apply Hall]. split; [done|]. by exists c, p, input.
Qed.

(** Pairwise distinct elements of a list that are as many as it has are all of them. *)
Lemma all_of_them {A} (l l' : list A) : NoDup l → (∀ x, x ∈ l → x ∈ l') → (len l' <= len l)%Z → l ≡ₚ l'.
Proof.
  intros Hnd Hin Hlen. apply submseteq_length_Permutation; [by apply NoDup_submseteq|]. unfold len in Hlen. lia.
Qed.

Lemma complete_ok_sound sources places n features descriptors plan :
  complete_ok sources places n features descriptors plan = true →
  ∃ products order, states descriptors plan products order ∧ sound_order products order ∧ len products = n.
Proof.
  unfold complete_ok. destruct (_ || _ || _) eqn:Hn; [done|].
  rewrite !orb_false_iff, !negb_false_iff, Z.eqb_neq, Z.eqb_eq in Hn. destruct Hn as [[Hn Hd] _].
  rewrite non_nil_true. intros [u H]. opt_step H byKey E1. opt_step H o E2. opt_step H entries E3.
  opt_pass H Hlen. apply negb_false_iff, Z.eqb_eq in Hlen. opt_step H read E4. destruct read as [rank origins].
  opt_step H edges E5. opt_pass H He. apply orb_false_iff in He as [He1 He2].
  apply negb_false_iff, Z.eqb_eq in He1. apply negb_false_iff in He2.
  apply read_descriptors_ok in E1 as (products & Hm & Hnk & Hni & _ & Hby).
  rewrite (right_id_L _ _) in Hby. subst byKey.
  apply read_order_ok in E4 as (order & Hmo & Hndo & Hknown & Hrank & _).
  apply exact_inv in E2. apply array_inv in E3 as [E3 He3]. apply array_inv in E5 as [E5 _].
  pose proof (λ k p, keyed_lookup products k p Hnk) as Hlook.
  assert (order ≡ₚ map key products) as Hperm.
  { apply all_of_them; [done| |].
    - intros k Hk. destruct (Hknown k Hk) as [[p Hp] _]. apply Hlook in Hp as [Hp <-]. by apply list_elem_of_fmap_2.
    - pose proof (length_mapM _ _ _ Hm). pose proof (length_mapM _ _ _ Hmo). unfold len in *. rewrite length_map. lia. }
  apply read_edges_ok in He2 as (ids & Hids & Hndi & _).
  assert (∀ k p, (list_to_map (keyed products) : gmap string publicProduct) !! k = Some p → key p = k) as Hkeys
    by (by intros k p [_ Hp]%Hlook).
  destruct (edges_links _ _ _ _ Hkeys _ _ Hids) as (links & Hml & -> & Hlinks).
  assert (links ≡ₚ declared_links products) as Hall.
  { apply all_of_them.
    - by eapply NoDup_fmap_1.
    - intros [k m] Hk. destruct (Hlinks k m Hk) as (Hm0 & c & p & input & [Hc <-]%Hlook & _ & Hi & _).
      apply elem_of_declared_links. exists c, (Z.to_nat m), input. split_and!; [done..|lia|done].
    - rewrite expected_keyed in He1 by done. rewrite declared_links_length, <- He1. unfold len.
      by rewrite (length_mapM _ _ _ Hml). }
  exists products, order. split_and!; [|constructor; try done|].
  - split; [done|]. by exists o, entries, edges, links.
  - intros ->. pose proof (length_mapM _ _ _ Hm) as Hl. unfold len in *. cbn in Hl. lia.
  - intros p i input Hp Hi.
    assert ((key p, Z.of_nat i) ∈ links) as Hin by (rewrite Hall; apply elem_of_declared_links; by exists p, i, input).
    destruct (Hlinks _ _ Hin) as (_ & c & q & input' & Hc & Hq & Hi' & Hs & Hlt).
    rewrite (proj2 (Hlook (key p) p)) in Hc by done. injection Hc as <-. rewrite Nat2Z.id, Hi in Hi'. injection Hi' as <-.
    apply Hlook in Hq as [Hq _].
    destruct (rank_of order rank (key q) Hrank) as (a & Ha & Hra); [rewrite Hperm; by apply list_elem_of_fmap_2|].
    destruct (rank_of order rank (key p) Hrank) as (b & Hb & Hrb); [rewrite Hperm; by apply list_elem_of_fmap_2|].
    exists q, a, b. split_and!; try done. lia.
  - pose proof (length_mapM _ _ _ Hm). unfold len in *. lia.
Qed.

(** ** Reports *)

(** What an accepted report states beside its plan: the displayed diagnostics and their accounting. *)
Definition accounted (report : object) (diagnostics : list jvalue) (n : countNumbers) : Prop :=
  get report "diagnostics" = DArray diagnostics ∧ (len diagnostics <= 128)%Z ∧
  read_counts (get report "diagnosticCounts") = Some n ∧
  n_total n = (n_errors n + n_warnings n)%Z ∧ n_omitted n = (n_total n - len diagnostics)%Z ∧
  get report "valid" = DBool (bool_decide (n_errors n = 0%Z)) ∧
  get report "complete" = DBool (bool_decide (n_total n = 0%Z)).

Lemma counts_nonneg v n : read_counts v = Some n → (0 <= n_omitted n)%Z.
Proof.
  unfold read_counts. intros H. opt_step H o E. opt_step H t E1. opt_step H e E2. opt_step H w E3. opt_step H m E4.
  injection H as <-. cbn. apply integer_range in E4. lia.
Qed.

Lemma validateReport_ok v report : validateReport v = Some report →
  ∃ diagnostics n descriptors, accounted report diagnostics n ∧ get report "descriptors" = DArray descriptors ∧
    if bool_decide (n_total n = 0%Z) then
      ∃ products order, states descriptors (get report "plan") products order ∧
        sound_order products order ∧ integer (get report "products") 256 = Some (len products)
    else get report "plan" = DNull ∧ descriptors = [].
Proof.
  unfold validateReport. destruct v as [| | | | |raw]; try done. intros H.
  opt_step H plan Hplan. opt_step H o E1. opt_pass H Hapi. opt_step H valid E2. opt_step H complete E3.
  opt_pass H Hcv. opt_step H products E4. opt_step H sourceValues E5. opt_step H sources E6. opt_pass H Htot.
  opt_step H required E7. opt_step H features E8. opt_step H read E9. destruct read as [places numbers].
  opt_pass H Hfeat. opt_step H n E10. opt_step H diagnostics E11. opt_step H read E12. destruct read as [re rw].
  opt_pass H Hok. opt_step H descriptors E13. opt_pass H Hc. injection H as <-.
  apply exact_inv in E1. injection E1 as <-.
  rewrite !get_filter in E2, E3, E4, E10, E11, E13 by done.
  apply boolean_inv in E2. apply boolean_inv in E3. apply array_inv in E11 as [E11 Hl]. apply array_inv in E13 as [E13 _].
  rewrite !orb_false_iff, !negb_false_iff, !bool_decide_eq_true in Hok. destruct Hok as [[Hcounts ->] ->].
  unfold counts_ok in Hcounts. rewrite !andb_true_iff, !Z.eqb_eq in Hcounts. destruct Hcounts as [[[[Ht Ho] _] _] _].
  exists diagnostics, n, descriptors. split_and!; [done..|].
  assert (get raw "plan" = plan) as Hp by (unfold get; by rewrite Hplan). rewrite Hp.
  destruct (bool_decide (n_total n = 0%Z)).
  - apply negb_false_iff, complete_ok_sound in Hc as (ps & order & Hs & Ho' & Hlen).
    exists ps, order. split_and!; [done..|]. by rewrite Hlen.
  - apply orb_false_iff in Hc as [Hnil%negb_false_iff Hd%negb_false_iff%Z.eqb_eq].
    split; [by destruct plan|]. by destruct descriptors.
Qed.

Section Printed.
Context `{F : GoFmt}.

Lemma review_lines entries order : mapM order_key entries = Some order →
  map review_line entries = map (λ k, "Review " +:+ Quote k) order.
Proof.
  intros H%mapM_Some. induction H as [|v k entries order Hv _ IH]; [done|]. cbn [map]. f_equal; [|done].
  unfold order_key in Hv. opt_step Hv entry E. apply exact_inv in E as ->. apply text_inv in Hv.
  cbn [review_line]. by rewrite Hv.
Qed.

(** C22.  Whatever file is read, what is printed with success is an accounted report: its validity and its
    completeness are its own counts, and it reviews nothing unless it is complete; then the order it
    prints lists every described product once, after all the products that supply its inputs. *)
Theorem review_order_sound arguments file lines (Hmain : main arguments file = (0%Z, lines)) :
  ∃ report diagnostics n order, readReportFile file = Some report ∧ accounted report diagnostics n ∧
    lines = claims_line report :: map diagnostic_line diagnostics ++ map (λ k, "Review " +:+ Quote k) order ∧
    if bool_decide (n_total n = 0%Z) then
      diagnostics = [] ∧ ∃ descriptors products, get report "descriptors" = DArray descriptors ∧
        states descriptors (get report "plan") products order ∧ sound_order products order
    else order = [].
Proof.
  unfold main in Hmain. destruct (negb _); [done|]. destruct (readReportFile file) as [report|] eqn:Hr; [|done].
  injection Hmain as <-.
  assert (∃ v, validateReport v = Some report) as [v Hv].
  { unfold readReportFile in Hr. destruct file as [[[] [data|]]|]; try done. opt_pass Hr Hg.
    destruct (next_value data) as [[v rest]|]; [|done]. cbn in Hr. destruct (_ && _); [|done]. by exists v. }
  apply validateReport_ok in Hv as (diagnostics & n & descriptors & Hacc & Hd & Hplan).
  pose proof Hacc as (Hdiag & Hl & Hcounts & _ & Ho & _).
  assert (default [] (array (get report "diagnostics") 128) = diagnostics) as ->.
  { rewrite Hdiag. cbn [array]. by rewrite (proj2 (Z.ltb_ge _ _)). }
  case_bool_decide as Hn.
  - destruct Hplan as (products & order & Hs & Hso & _). exists report, diagnostics, n, order.
    rewrite bool_decide_true by done. split_and!; [done..| | |by exists descriptors, products].
    + destruct Hs as (_ & o & entries & edges & links & -> & He & Hlong & Hm & _). rewrite He. do 2 f_equal.
      rewrite <- (review_lines entries order Hm). cbn [array].
      by rewrite (proj2 (Z.ltb_ge _ _)).
    + apply counts_nonneg in Hcounts.
      destruct diagnostics; [done|]. unfold len in Ho. cbn in Ho. lia.
  - destruct Hplan as [-> ->]. exists report, diagnostics, n, []. rewrite bool_decide_false by done.
    by split_and!.
Qed.
End Printed.

(** ** A report *)

(** JSON written with apostrophes for quotes. *)
Fixpoint quoted (s : string) : string :=
  match s with
  | String.EmptyString => ""
  | String.String a s' => String.String (if Ascii.eqb a "'" then ascii_of_N 34 else a) (quoted s')
  end.
Definition sample_descriptor (name output extra : string) : string :=
  "{'apiVersion':'data-product-descriptor/v1','kind':'DataProduct','namespace':'shop','name':'" +:+ name +:+
  "','id':'urn:shop:" +:+ name +:+ "','displayName':'D','description':'T','version':'1.0.0','owner':{'name':'O'}," +:+
  "'outputs':[{'name':'" +:+ output +:+ "','protocol':'OpenAPI','url':'https://a/','contractUrl':'https://b/'}]," +:+
  extra +:+ "'ready':false,'readiness':{'reason':'unobserved','message':'m'},'generation':0,'observedGeneration':0," +:+
  "'health':{'source':{'state':'unobserved','message':'m','generation':0,'observedGeneration':0}," +:+
  "'connector':{'state':'unobserved','message':'m','generation':0,'observedGeneration':0}," +:+
  "'contracts':{'state':'unobserved','message':'m','generation':0,'observedGeneration':0}," +:+
  "'composition':{'state':'unobserved','message':'m','generation':0,'observedGeneration':0}}}".
(** Two products: the orders consume the users; the file lists the consumer first. *)
Definition sample_file : string := quoted (
  "{'apiVersion':'data-product-preflight/v2','valid':true,'complete':true,'products':2," +:+
  "'sources':[{'source':1,'documents':2,'products':2}],'requiredFeatures':['composition']," +:+
  "'productFeatures':[{'source':1,'document':1,'requiredFeatures':['composition']}," +:+
  "{'source':1,'document':2,'requiredFeatures':[]}],'diagnostics':[]," +:+
  "'diagnosticCounts':{'total':0,'errors':0,'warnings':0,'omitted':0},'descriptors':[" +:+
  sample_descriptor "orders" "api" "'inputs':[{'name':'people','productRef':{'name':'users','output':'list'}}]," +:+ "," +:+
  sample_descriptor "users" "list" "" +:+ "],'plan':{'order':[{'key':'shop/users','source':1,'document':2}," +:+
  "{'key':'shop/orders','source':1,'document':1}],'edges':[{'consumer':'shop/orders','producer':'shop/users'," +:+
  "'input':'people','inputIndex':0,'output':'list','source':1,'document':1}]}}").
#[local] Existing Instance ref_fmt.
Definition sample_lines : list string :=
  ["Declarations: valid=true complete=true products=2; live readiness and access remain unverified.";
   "Review " +:+ Quote "shop/users"; "Review " +:+ Quote "shop/orders"]%string.

Lemma review_order_sound_witness :
  main 2 (Some (true, Some sample_file)) = (0%Z, sample_lines) ∧
  ∃ report diagnostics n order,
    readReportFile (Some (true, Some sample_file)) = Some report ∧ accounted report diagnostics n ∧
    sample_lines = claims_line report :: map diagnostic_line diagnostics ++ map (λ k, "Review " +:+ Quote k) order ∧
    if bool_decide (n_total n = 0%Z) then
      diagnostics = [] ∧ ∃ descriptors products, get report "descriptors" = DArray descriptors ∧
        states descriptors (get report "plan") products order ∧ sound_order products order
    else order = [].
Proof.
  assert (main 2 (Some (true, Some sample_file)) = (0%Z, sample_lines)) as H by (vm_compute; reflexivity).
  split; [exact H|]. exact (review_order_sound 2 (Some (true, Some sample_file)) sample_lines H).
Defined.
