(* ===== verification/GoFlag.v ===== *)
(** * [flag]

    [flag.FlagSet.Parse] with [ContinueOnError], for flags that store into a state: a flag has a name,
    says whether it is boolean, and sets its value or refuses it. *)

From Stdlib Require Import Ascii.
From S2P Require Import Prelude Regex GoJson GoStrings GoUrl Config.

Record flag (S : Type) := mkFlag {
  flag_name : string;
  IsBoolFlag : bool;
  Set_ : string → S → option S
}.
Arguments mkFlag {S} _ _ _.
Arguments flag_name {S} _.
Arguments IsBoolFlag {S} _.
Arguments Set_ {S} _ _ _.

Definition StringVar {S} (name : string) (store : string → S → S) : flag S :=
  mkFlag name false (λ v s, Some (store v s)).
Definition BoolVar {S} (name : string) (store : bool → S → S) : flag S :=
  mkFlag name true (λ v s, option_map (λ b, store b s) (ParseBool v)).

(** What the first argument is: no flag, the terminator [--], or a flag behind one or two minuses. *)
Inductive argument := Positional | Terminator | Named (text : string).
Definition minus : ascii := "-".
Definition read_argument (arg : string) : argument :=
  match arg with
  | String.String a (String.String b rest) =>
      if negb (Ascii.eqb a minus) then Positional
      else if Ascii.eqb b minus then if rest == "" then Terminator else Named rest
      else Named (String.String b rest)
  | _ => Positional
  end.

(** The name and the value after the first equals sign behind the first byte; bad syntax is [None]. *)
Definition name_value (text : string) : option (string * option string) :=
  match text with
  | String.EmptyString => None
  | String.String a rest =>
      if Ascii.eqb a minus || Ascii.eqb a "=" then None
      else match cut_first "=" rest with
      | Some (name, v) => Some (String.String a name, Some v)
      | None => Some (text, None)
      end
  end.

Inductive flag_error := ErrHelp | FlagError.

(** [Parse]: the state, the names that were set and the remaining arguments. *)
Fixpoint ParseFlags {S} (flags : list (flag S)) (args : list string) (s : S) (actual : list string)
  : (S * list string * list string) + flag_error :=
  match args with
  | [] => inl (s, actual, [])
  | arg :: rest =>
      match read_argument arg with
      | Positional => inl (s, actual, args)
      | Terminator => inl (s, actual, rest)
      | Named text =>
          match name_value text with
          | None => inr FlagError
          | Some (name, value) =>
              match find_first (λ f, String.eqb name (flag_name f)) flags with
              | None => inr (if (name == "help") || (name == "h") then ErrHelp else FlagError)
              | Some f =>
                  if IsBoolFlag f then
                    match Set_ f (default "true" value) s with
                    | Some s => ParseFlags flags rest s (name :: actual)
                    | None => inr FlagError
                    end
                  else match value, rest with
                  | Some v, _ =>
                      match Set_ f v s with
                      | Some s => ParseFlags flags rest s (name :: actual)
                      | None => inr FlagError
                      end
                  | None, v :: rest' =>
                      match Set_ f v s with
                      | Some s => ParseFlags flags rest' s (name :: actual)
                      | None => inr FlagError
                      end
                  | None, [] => inr FlagError
                  end
              end
          end
      end
  end.

(** ** What a state gains by parsing *)

(** A property of the state that every flag keeps is kept by parsing. *)
Lemma ParseFlags_keeps {S} (flags : list (flag S)) (P : S → Prop)
    (HP : ∀ f v s s', f ∈ flags → P s → Set_ f v s = Some s' → P s') :
  ∀ args s actual s' actual' rest, P s → ParseFlags flags args s actual = inl (s', actual', rest) → P s'.
Proof.
  assert (∀ p f v s s', find_first p flags = Some f → P s → Set_ f v s = Some s' → P s') as Hset.
  { intros p f v s s' [Hf _]%find_first_elem. by apply HP. }
  assert (∀ n args s actual s' actual' rest, length args <= n → P s →
    ParseFlags flags args s actual = inl (s', actual', rest) → P s') as H; [|intros args s actual s' actual' rest; by apply (H (length args))].
  induction n as [|n IH]; intros [|arg rest] s actual s' actual' rest' Hn Hs; cbn in Hn; try lia;
    cbn [ParseFlags]; try (by intros [= <- _ _]).
  destruct (read_argument arg) as [| |text]; [by intros [= <- _ _]..|].
  destruct (name_value text) as [[name value]|]; [|done].
  destruct (find_first _ flags) as [f|] eqn:Hf; [|done].
  destruct (IsBoolFlag f).
  { destruct (Set_ f _ s) as [s1|] eqn:E; [|done]. eapply IH; [lia|by eapply Hset]. }
  destruct value as [v|].
  { destruct (Set_ f v s) as [s1|] eqn:E; [|done]. eapply IH; [lia|by eapply Hset]. }
  destruct rest as [|v rest]; [done|]. destruct (Set_ f v s) as [s1|] eqn:E; [|done].
  eapply IH; [cbn in Hn; lia|by eapply Hset].
Qed.
