(* ===== verification/Commands.v ===== *)
(** * The offline commands

    [pkg/featureflag], [cmd/product-check] and [cmd/dsp-catalog]: release gates, arguments, selected
    files and exit codes around the preflight check and the dataspace export.  The OpenFeature SDK and
    the operating system are interfaces. *)

From Stdlib Require Import Ascii.
From stdpp Require Import pretty.
From S2P Require Import Prelude Kube Api GoJson GoStrings Descriptor Report Admission Input Check Dataspace GoFlag.

(** ** featureflag.go *)

Record InMemoryFlag := mkMemFlag {
  State_Enabled : bool;
  DefaultVariant : string;
  Variants : gmap string bool
}.

(** [NewProvider]. *)
Definition NewProvider (flags : gmap string bool) : gmap string InMemoryFlag :=
  (λ on : bool, mkMemFlag true (if on then "on" else "off") {["on" := true; "off" := false]}) <$> flags.

(** [openfeature]: registering a provider under a domain, and a boolean evaluation by a client of a
    domain. *)
Class FlagSdk `{E : Env} := {
  SetNamedProviderAndWait : string → gmap string InMemoryFlag → ST World (option error);
  Boolean : Ctx → string → string → bool → ST World bool
}.

(** What the in-memory provider documents: an enabled flag evaluates to its default variant, a missing
    one to the caller's default, without further effect, as long as the provider is [registered]. *)
Definition evaluate_flag (provider : gmap string InMemoryFlag) (key : string) (fallback : bool) : bool :=
  match provider !! key with
  | Some f => if State_Enabled f then default fallback (Variants f !! DefaultVariant f) else fallback
  | None => fallback
  end.
Class FlagSdkLaws `{F : FlagSdk} := {
  registered : string → gmap string InMemoryFlag → World → Prop;
  set_registers domain provider w w' :
    SetNamedProviderAndWait domain provider w = (None, w') → registered domain provider w';
  registered_evaluates domain provider ctx key fallback w :
    registered domain provider w →
    Boolean ctx domain key fallback w = (evaluate_flag provider key fallback, w)
}.

(** ** The operating system *)

(** Files are opened for reading without blocking; [Regular] is a [Stat] without error of a regular
    file; [Output] writes to the command's output and tells how many bytes were written. *)
Class Files `{E : Env} := {
  handle : Type;
  OpenFile : string → ST World (handle + error);
  Regular : handle → ST World bool;
  ReadFile : handle → io_Reader;
  Close : handle → ST World unit;
  Output : string → ST World (Z * option error);
  errorsNew : string → error
}.

Section Gate.
Context `{F : FlagSdk}.

(** [Enabled]. *)
Definition Enabled (ctx : Ctx) (client flag : string) : ST World bool := Boolean ctx client flag false.
(** [NewClient]: a client is its domain. *)
Definition NewClient (domain : string) (provider : gmap string InMemoryFlag) : ST World (string + error) :=
  err ← SetNamedProviderAndWait domain provider;
  mret (match err with Some e => inr e | None => inl domain end).

(** The first statements of both commands: a setting, and the gate it configures. *)
Inductive gate := Misconfigured | Unavailable | GateOff | GateOn.
Definition release_gate (ctx : Ctx) (domain flag setting : string) : ST World gate :=
  if (setting != "") && (setting != "true") && (setting != "false") then mret Misconfigured
  else
    client ← NewClient domain (NewProvider {[flag := bool_decide (setting = "true")]});
    match client with
    | inr _ => mret Unavailable
    | inl client =>
        on ← Enabled ctx client flag;
        mret (if (on : bool) then GateOn else GateOff)
    end.
End Gate.

(** ** product-check: the arguments *)

Record checkOptions := mkCheckOptions {
  files : list string;
  version : string;
  profile : string;
  namespace : string;
  format : string
}.
Definition default_options : checkOptions := mkCheckOptions [] "v1" "compatibility" "" "text".

(** [selectedFiles.Set]. *)
Definition selectedFiles_Set (value : string) (o : checkOptions) : option checkOptions :=
  if (value == "") || (32 <=? len (files o))%Z then None
  else Some (mkCheckOptions (files o ++ [value]) (version o) (profile o) (namespace o) (format o)).

Definition check_flags : list (flag checkOptions) :=
  [mkFlag "file" false selectedFiles_Set;
   StringVar "report-version" (λ v o, mkCheckOptions (files o) v (profile o) (namespace o) (format o));
   StringVar "profile" (λ v o, mkCheckOptions (files o) (version o) v (namespace o) (format o));
   StringVar "namespace" (λ v o, mkCheckOptions (files o) (version o) (profile o) v (format o));
   StringVar "format" (λ v o, mkCheckOptions (files o) (version o) (profile o) (namespace o) v)].

(** The arguments as options, or a usage error. *)
Definition check_options (args : list string) : option checkOptions :=
  match ParseFlags check_flags args default_options [] with
  | inr _ => None
  | inl (o, _, rest) =>
      if (len (files o) =? 0)%Z || (32 <? len (files o))%Z || negb (len rest =? 0)%Z ||
         ((format o != "text") && (format o != "json")) ||
         ((version o != "v1") && (version o != "v2")) ||
         ((profile o != "compatibility") && (profile o != "api-only"))
      then None else Some o
  end.

(** ** product-check: the selected files *)

(** [selectedInput]. *)
Record selectedInput `{Files} := mkInput {
  si_path : string;
  si_file : option handle;
  si_opened : bool;
  si_failed : bool
}.

Section Inputs.
Context `{E : Env} {O : Files}.

(** [close]. *)
Definition selectedInput_close : ST (selectedInput * World) unit := λ '(s, w),
  match si_file s with
  | Some file => let '(_, w) := Close file w in (tt, (mkInput _ _ (si_path s) None (si_opened s) (si_failed s), w))
  | None => (tt, (s, w))
  end.

Definition failing (s : selectedInput) : selectedInput :=
  mkInput _ _ (si_path s) (si_file s) (si_opened s) true.

(** The read of an input whose file may be open. *)
Definition read_opened (n : Z) : ST (selectedInput * World) (string * read_end) := λ '(s, w),
  match si_file s with
  | None => (("", ReadEOF), (s, w))
  | Some file =>
      let '((chunk, ending), w) := ReadFile file n w in
      match ending with
      | ReadMore => ((chunk, ending), (s, w))
      | ReadEOF => let '(_, sw) := selectedInput_close (s, w) in ((chunk, ending), sw)
      | ReadError _ => let '(_, sw) := selectedInput_close (failing s, w) in ((chunk, ending), sw)
      end
  end.

(** [selectedInput.Read]: the file is opened by the first call. *)
Definition selectedInput_Read (n : Z) : ST (selectedInput * World) (string * read_end) := λ '(s, w),
  if si_opened s then read_opened n (s, w)
  else
    let s := mkInput _ _ (si_path s) (si_file s) true (si_failed s) in
    match OpenFile (si_path s) w with
    | (inr _, w) => (("", ReadError (errorsNew "unreadable selection")), (failing s, w))
    | (inl file, w) =>
        let s := mkInput _ _ (si_path s) (Some file) true (si_failed s) in
        let '(regular, w) := Regular file w in
        if (regular : bool) then read_opened n (s, w)
        else
          let '(_, sw) := selectedInput_close (failing s, w) in
          (("", ReadError (errorsNew "invalid selection")), sw)
    end.

Definition lift {A B} (m : ST A B) {S} : ST (A * S) B := λ '(a, s), let '(b, a) := m a in (b, (a, s)).

(** The environment of the check the command runs: the outside world and the command's inputs. *)
Definition command_env : Env := {|
  World := @World E * list selectedInput;
  Ctx := @Ctx E;
  error := @error E;
  IsNotFound := IsNotFound;
  IsForbidden := IsForbidden;
  IsUnauthorized := IsUnauthorized;
  Err := λ ctx, lift (Err ctx);
  WithTimeout := λ ctx d, lift (WithTimeout ctx d);
  Now := lift Now
|}.

Definition lift_end (r : string * @read_end E) : string * @read_end command_env :=
  (fst r, match snd r with
          | ReadMore => @ReadMore command_env
          | ReadEOF => @ReadEOF command_env
          | ReadError e => @ReadError command_env e
          end).

(** The inputs of the selected files, none of them open. *)
Definition selected_inputs (o : checkOptions) : list selectedInput :=
  map (λ path, mkInput _ _ path None false false) (files o).

(** The reader of the input at an index. *)
Definition input_reader (index : nat) : @io_Reader command_env := λ n '(w, inputs),
  match inputs !! index with
  | Some s =>
      let '(r, (s, w)) := selectedInput_Read n (s, w) in (lift_end r, (w, <[index := s]> inputs))
  | None => (("", @ReadEOF command_env), (w, inputs))
  end.

(** The deferred loop that closes every input. *)
Fixpoint close_all (inputs : list selectedInput) : ST World unit := λ w,
  match inputs with
  | [] => (tt, w)
  | s :: inputs' => let '(_, (_, w)) := selectedInput_close (s, w) in close_all inputs' w
  end.
End Inputs.

(** ** product-check: the run *)

Definition newline_text : string := one (ascii_of_N 10).

Definition diagnostic_text (d : Diagnostic) : string :=
  "document " +:+ pretty (D_Document d) +:+ " " +:+ D_Code d +:+ " " +:+ D_Path d +:+ ": " +:+ D_Message d +:+
  newline_text.
Definition finding_text (d : BundleDiagnostic) : string :=
  "source " +:+ pretty (Pos_Source (BD_Position d)) +:+ " document " +:+ pretty (Pos_Document (BD_Position d)) +:+
  " line " +:+ pretty (Pos_Line (BD_Position d)) +:+ " column " +:+ pretty (Pos_Column (BD_Position d)) +:+ " " +:+
  BD_Code d +:+ " " +:+ BD_Path d +:+ ": " +:+ BD_Message d +:+ newline_text.

(** What both report versions tell the rest of the command; [sum_json] is the encoded report. *)
Record summary := mkSum {
  sum_valid : bool;
  sum_complete : bool;
  sum_products : Z;
  sum_features : list string;
  sum_diagnostics : list Diagnostic;
  sum_rich : option BundleReport;
  sum_json : string
}.
Definition report_summary (r : Report) : summary :=
  mkSum (Valid r) (Report_Complete r) (Products r) (RequiredFeatures r) (Diagnostics r) None (report_json r).
Definition bundle_summary (b : BundleReport) : summary :=
  mkSum (BR_Valid b) (BR_Complete b) (BR_Products b) (BR_RequiredFeatures b) [] (Some b) (bundle_json b).

Definition concat_text (l : list string) : string := foldr String.append "" l.
Definition summary_text (s : summary) : string :=
  (if sum_valid s && sum_complete s then
     "Validated " +:+ pretty (sum_products s) +:+
     " product(s): declarations only; live readiness and access remain unverified." +:+ newline_text
   else "Preflight is incomplete for " +:+ pretty (sum_products s) +:+ " product(s)." +:+ newline_text) +:+
  concat_text (map diagnostic_text (sum_diagnostics s)) +:+
  match sum_rich s with
  | Some b =>
      concat_text (map finding_text (BR_Diagnostics b)) +:+
      (if (0 <? Omitted (BR_DiagnosticCounts b))%Z then
         pretty (Omitted (BR_DiagnosticCounts b)) +:+ " additional finding(s) omitted." +:+ newline_text
       else "")
  | None => ""
  end +:+
  (if (len (sum_features s) =? 0)%Z then ""
   else "Required operational features: " +:+ join ", " (sum_features s) +:+ newline_text).

Definition summary_output (format : string) (s : summary) : string :=
  if format == "json" then sum_json s +:+ newline_text else summary_text s.

Section Run.
Context `{E : Env} `{C : ConditionApi} `{N : NameValidation} `{V : VersionApi}.
Context `{D : DecoderApi} `{M : ObjectMetaApi} {F : FlagSdk} {O : Files}.
Context `{A : AdmissionApi}.
(** What [loadAdmission] returns, for the environment of the command. *)
Context (validator : option (@admission command_env)).

(** The check of the selected profile and version; [None] is a check that never ends. *)
Definition checked_summary (o : checkOptions) (ctx : Ctx)
  : ST (World * list selectedInput) (option summary) :=
  let inputs := imap (λ index _, Some (input_reader index)) (files o) in
  if version o == "v2" then
    r ← (if profile o == "api-only" then CheckAPIOnlyBundle (E := command_env) else CheckBundle (E := command_env))
          validator ctx inputs (namespace o);
    mret (bundle_summary <$> r)
  else
    r ← (if profile o == "api-only" then CheckAPIOnlyFiles (E := command_env) else CheckFiles (E := command_env))
          validator ctx inputs (namespace o);
    mret (report_summary <$> r).

(** After the check: failed selections, the output and the exit code. *)
Definition conclude_check (o : checkOptions) (inputs : list selectedInput) (s : summary)
  : ST World (Z * option string) :=
  if existsb si_failed inputs then mret (1%Z, Some "select a readable regular local file")
  else
    let result := summary_output (format o) s in
    written ← Output result;
    let '(n, err) := written in
    if non_nil err || negb (n =? slen result)%Z then mret (1%Z, Some "unable to write preflight report")
    else if negb (sum_valid s) then mret (1%Z, None)
    else if negb (sum_complete s) then mret (2%Z, None)
    else mret (0%Z, None).

(** From the selected files to the end, where every input is closed. *)
Definition check_files (o : checkOptions) (ctx : Ctx) : ST World (option (Z * option string)) := λ w,
  let '(checked, (w, inputs)) := checked_summary o ctx (w, selected_inputs o) in
  match checked with
  | None => (None, w)
  | Some s =>
      let '(result, w) := conclude_check o inputs s w in
      let '(_, w) := close_all inputs w in
      (Some result, w)
  end.

Definition check_usage : string :=
  "usage: product-check --file FILE [--file FILE ...] [--namespace NAMESPACE] [--report-version v1|v2] [--profile compatibility|api-only] [--format text|json]".

(** [run]: the exit code and the error; [None] is a check that never ends. *)
Definition product_check (ctx : Ctx) (args : list string) (setting : string)
  : ST World (option (Z * option string)) :=
  opened ← release_gate ctx "publisher-preflight" "publisher-preflight" setting;
  match opened with
  | Misconfigured => mret (Some (1%Z, Some "PUBLISHER_PREFLIGHT_ENABLED must be true or false"))
  | Unavailable => mret (Some (1%Z, Some "unable to configure publisher preflight"))
  | GateOff =>
      mret (Some (1%Z, Some "publisher preflight is disabled; set PUBLISHER_PREFLIGHT_ENABLED=true to opt in"))
  | GateOn =>
      match check_options args with
      | None => mret (Some (1%Z, Some check_usage))
      | Some o => check_files o ctx
      end
  end.
End Run.

(** ** dsp-catalog *)

Record exportOptions := mkExportOptions { catalog_path : string; bindings_path : string }.
Definition export_flags : list (flag exportOptions) :=
  [StringVar "catalog" (λ v o, mkExportOptions v (bindings_path o));
   StringVar "bindings" (λ v o, mkExportOptions (catalog_path o) v)].
(** The arguments as options, or a usage error. *)
Definition export_options (args : list string) : option exportOptions :=
  match ParseFlags export_flags args (mkExportOptions "" "") [] with
  | inr _ => None
  | inl (o, _, rest) =>
      if (catalog_path o == "") || (bindings_path o == "") || negb (len rest =? 0)%Z then None else Some o
  end.

(** The errors of the command: its own texts and those of the export. *)
Inductive command_error := Message (text : string) | ExportFailed (err : exportError).

Section Exporting.
Context `{E : Env} {F : FlagSdk} {O : Files}.

(** [openInputWith]. *)
Definition openInput (path : string) : ST World (handle + command_error) :=
  opened ← OpenFile path;
  match opened with
  | inr _ => mret (inr (Message "open input: unable to read file"))
  | inl file =>
      regular ← Regular file;
      if (regular : bool) then mret (inl file)
      else _ ← Close file; mret (inr (Message "open input: provide a readable regular file"))
  end.

(** The export of two open files and its output. *)
Definition export_files (source provider : handle) : ST World (option (option command_error)) :=
  exported ← Export (ReadFile source) (ReadFile provider);
  match exported with
  | None => mret None
  | Some (inr err) => mret (Some (Some (ExportFailed err)))
  | Some (inl b) =>
      written ← Output b;
      mret (Some (if non_nil (snd written) then Some (Message "unable to write catalog") else None))
  end.

(** From the options to the end; each file is closed when it was opened. *)
Definition export_selected (o : exportOptions) : ST World (option (option command_error)) :=
  source ← openInput (catalog_path o);
  match source with
  | inr err => mret (Some (Some err))
  | inl source =>
      provider ← openInput (bindings_path o);
      match provider with
      | inr err => _ ← Close source; mret (Some (Some err))
      | inl provider =>
          result ← export_files source provider;
          _ ← Close provider;
          _ ← Close source;
          mret result
      end
  end.

Definition export_usage : string := "usage: dsp-catalog --catalog FILE --bindings FILE".

(** [run]: a nil error is [Some None]; [None] is a read that never ends.  The text of a provider that
    could not be registered is followed by the error of the SDK, which is left out. *)
Definition dsp_catalog (ctx : Ctx) (args : list string) (setting : string)
  : ST World (option (option command_error)) :=
  opened ← release_gate ctx "dsp-catalog" "dsp-catalog-export" setting;
  match opened with
  | Misconfigured => mret (Some (Some (Message "DSP_CATALOG_EXPORT_ENABLED must be true or false")))
  | Unavailable => mret (Some (Some (Message "configure DSP export flag")))
  | GateOff =>
      mret (Some (Some (Message
        "DSP catalog export is disabled; set DSP_CATALOG_EXPORT_ENABLED=true to opt in")))
  | GateOn =>
      match export_options args with
      | None => mret (Some (Some (Message export_usage)))
      | Some o => export_selected o
      end
  end.
End Exporting.
