(* ===== verification/CommandsSpec.v ===== *)
(** * The offline commands: what their exits mean

    A disabled command consults neither its arguments nor the file system.  The exit code of
    product-check is exact: success stands for a complete check of every selected file whose result was
    written in full, and then for products the controller accepts. *)

From Stdlib Require Import Ascii.
From S2P Require Import Prelude Kube Api GoJson GoStrings Composition CompositionProofs CompositionComplete Reference Report Plan Witness Graph Admission Input InputSpec Check CheckSpec BundleSpec Dataspace GoFlag Commands.

(** ** The gate *)

Section Gate.
Context `{L : FlagSdkLaws}.

(** A registered gate evaluates to its setting. *)
Lemma gate_exact domain flags flag on ctx w : registered domain (NewProvider flags) w → flags !! flag = Some on →
  Enabled ctx domain flag w = (on, w).
Proof.
  intros Hr Hf. unfold Enabled. rewrite (registered_evaluates _ _ ctx flag false w Hr).
  unfold evaluate_flag, NewProvider. rewrite lookup_fmap, Hf.
  cbn [fmap option_fmap option_map State_Enabled DefaultVariant Variants].
  destruct on; [by rewrite lookup_insert_eq|by rewrite lookup_insert_ne, lookup_singleton_eq].
Qed.

Lemma release_gate_cases ctx domain flag setting w : ∃ g w', release_gate ctx domain flag setting w = (g, w') ∧
  (g = GateOn → setting = "true").
Proof.
  unfold release_gate, NewClient, mbind, st_bind. destruct (_ && _); [by exists Misconfigured, w|].
  destruct (SetNamedProviderAndWait domain _ w) as [[e|] w1] eqn:Hs; [by exists Unavailable, w1|].
  cbn [mret st_ret]. rewrite (gate_exact _ _ _ (bool_decide (setting = "true")) ctx w1 (set_registers _ _ _ _ Hs))
    by apply lookup_singleton_eq.
  case_bool_decide; [by exists GateOn, w1|by exists GateOff, w1].
Qed.
End Gate.

(** Unless its setting is [true], a command fails with one text and one effect on the world, whatever
    its arguments are and whatever the file system holds. *)
Theorem disabled_commands_inert `{E : Env} `{C : ConditionApi} `{N : NameValidation} `{V : VersionApi}
    `{D : DecoderApi} `{A : AdmissionApi} `{M : ObjectMetaApi} {F : FlagSdk} {L : FlagSdkLaws}
    ctx setting w (Hoff : setting ≠ "true") :
  (∃ text w', ∀ (O : Files) validator args,
     product_check validator ctx args setting w = (Some (1%Z, Some text), w')) ∧
  (∃ text w', ∀ (O : Files) args, dsp_catalog ctx args setting w = (Some (Some (Message text)), w')).
Proof.
  split.
  - destruct (release_gate_cases ctx "publisher-preflight" "publisher-preflight" setting w) as (g & w' & Hg & Hon).
    destruct g; [| | |by destruct (Hoff (Hon eq_refl))]; eexists _, w'; intros O validator args;
      unfold product_check, mbind, st_bind; rewrite Hg; reflexivity.
  - destruct (release_gate_cases ctx "dsp-catalog" "dsp-catalog-export" setting w) as (g & w' & Hg & Hon).
    destruct g; [| | |by destruct (Hoff (Hon eq_refl))]; eexists _, w'; intros O args;
      unfold dsp_catalog, mbind, st_bind; rewrite Hg; reflexivity.
Qed.

(** ** The inputs of the check *)

Section Inputs.
Context `{E : Env} {O : Files}.
Context (Hprogress : ∀ file, progressive (ReadFile file)).

Definition progress (n : Z) (r : string * read_end) : Prop :=
  (slen (fst r) <= n)%Z ∧ (snd r = ReadMore → (0 < slen (fst r))%Z).

Lemma no_bytes n (e : read_end) : (0 < n)%Z → e ≠ ReadMore → progress n ("", e).
Proof. intros Hn He. split; [unfold slen; cbn; lia|done]. Qed.

Lemma read_opened_progress n s w : (0 < n)%Z → progress n (fst (read_opened n (s, w))).
Proof.
  intros Hn. unfold read_opened. destruct (si_file s) as [file|]; [|by apply no_bytes].
  specialize (Hprogress file n w Hn). destruct (ReadFile file n w) as [[chunk ending] w1]. cbn in Hprogress.
  destruct ending as [| |e]; [done|..]; destruct (selectedInput_close _) as [[] ?]; exact Hprogress.
Qed.

Lemma selectedInput_progress n s w : (0 < n)%Z → progress n (fst (selectedInput_Read n (s, w))).
Proof.
  intros Hn. unfold selectedInput_Read. cbn [si_path si_file si_failed si_opened]. destruct (si_opened s); [by apply read_opened_progress|].
  destruct (OpenFile (si_path s) w) as [[file|e] w1]; [|by apply no_bytes].
  destruct (Regular file w1) as [regular w2]. destruct regular; [by apply read_opened_progress|].
  destruct (selectedInput_close _) as [[] ?]. by apply no_bytes.
Qed.

Lemma input_reader_progressive index : @progressive command_env (input_reader index).
Proof.
  intros n [w inputs] Hn. unfold input_reader. destruct (inputs !! index) as [s|].
  - pose proof (selectedInput_progress n s w Hn) as [H1 H2].
    destruct (selectedInput_Read n (s, w)) as [[chunk ending] [s' w']]. cbn in *. split; [done|].
    destruct ending; try done. auto.
  - cbn. split; [unfold slen; cbn; lia|done].
Qed.

Lemma inputs_progressive (files : list string) :
  Forall (λ r, ∀ reader, r = Some reader → @progressive command_env reader)
    (imap (λ index _, Some (input_reader index)) files).
Proof.
  apply list.Forall_forall. intros r (i & path & -> & _)%elem_of_lookup_imap reader [= <-].
  apply input_reader_progressive.
Qed.
End Inputs.

(** ** The exit *)

Section Exit.
Context `{E : Env} `{C : ConditionApi} `{N : NameValidation} `{V : VersionApi} `{G : GoFmt}.
Context `{D : DecoderApi} `{A : AdmissionApi} `{M : ObjectMetaApi} {F : FlagSdk} {O : Files} {L : FlagSdkLaws}.
Context (validator : option (@admission command_env)).
Context (Hlabel : ∀ s, IsDNS1123Label s = [] → no_slash s).
Context (Hprogress : ∀ file, progressive (ReadFile file)).

(** A summary of success comes from an accepted report. *)
Lemma summary_accepted o ctx w s w' : checked_summary validator o ctx w = (Some s, w') →
  profile o = "compatibility" → sum_valid s = true → sum_complete s = true →
  ∃ r, bundle_ok r ∧
    checked_selection (E := command_env) validator ctx (imap (λ index _, Some (input_reader index)) (files o))
      (namespace o) w (documents r) ∧ (version o = "v2" → ∃ b, sum_rich s = Some b ∧ BR_Plan b = report_plan r).
Proof.
  unfold checked_summary. intros Hrun Hp. rewrite (bool_decide_false (profile o = "api-only")) in Hrun by (by rewrite Hp).
  pose proof (inputs_progressive Hprogress (files o)) as Hin. case_bool_decide as Hv.
  - unfold CheckBundle, mbind, st_bind in Hrun.
    destruct (checkSelected (E := command_env) _ _ _ _ false w) as [[r|] w1] eqn:Hsel; [|done]. cbn in Hrun. injection Hrun as <- _.
    unfold bundleReport. destruct (_ <? _)%Z; [done|]. intros Hval Hcom.
    change (Valid r = true) in Hval. change (Report_Complete r = true) in Hcom.
    exists r. destruct (checkSelected_accepted Hlabel _ _ _ _ _ _ _ Hin Hsel Hval Hcom) as [Hb Hd].
    split; [exact Hb|]. split; [exact Hd|]. intros _.
    eexists. split; [reflexivity|]. cbn [BR_Plan]. by rewrite Hval, Hcom.
  - unfold CheckFiles, mbind, st_bind in Hrun.
    destruct (checkSelected (E := command_env) _ _ _ _ false w) as [[r|] w1] eqn:Hsel; [|done]. cbn in Hrun. injection Hrun as <- _.
    intros Hval Hcom. exists r.
    destruct (checkSelected_accepted Hlabel _ _ _ _ _ _ _ Hin Hsel Hval Hcom) as [Hb Hd]. by split_and!.
Qed.

(** The options the arguments spell are usable. *)
Lemma check_options_ok args o : check_options args = Some o → (0 < len (files o) ≤ 32)%Z ∧
  (format o = "text" ∨ format o = "json") ∧ (version o = "v1" ∨ version o = "v2") ∧
  (profile o = "compatibility" ∨ profile o = "api-only").
Proof.
  unfold check_options. destruct (ParseFlags _ _ _ _) as [[[o' actual] rest]|]; [|done].
  destruct (_ || _) eqn:Hg; [done|]. intros [= ->]. go_bool. destruct_and!. unfold len in *. split_and!; try tauto; lia.
Qed.

(** A run that ends with a code other than one. *)
Lemma check_files_exit o ctx w code err w' : check_files validator o ctx w = (Some (code, err), w') →
  (code = 1 ∨ err = None ∧ ∃ s w1 inputs w2, (code = 0 ∨ code = 2) ∧
     checked_summary validator o ctx (w, selected_inputs o) = (Some s, (w1, inputs)) ∧
     (∀ i, i ∈ inputs → si_failed i = false) ∧
     Output (summary_output (format o) s) w1 = ((slen (summary_output (format o) s), None), w2) ∧
     sum_valid s = true ∧ (code = 0 ↔ sum_complete s = true))%Z.
Proof.
  unfold check_files.
  destruct (checked_summary validator o ctx (w, selected_inputs o)) as [[s|] [w1 inputs]] eqn:Hs; [|done].
  destruct (conclude_check o inputs s w1) as [[c e] w2] eqn:Hc. destruct (close_all inputs w2) as [[] w3].
  intros [= -> -> _]. unfold conclude_check in Hc. destruct (existsb _ _) eqn:Hf; [injection Hc as <- _ _; by left|].
  unfold mbind, st_bind in Hc. destruct (Output _ w1) as [[n e] w4] eqn:Ho.
  destruct (_ || _) eqn:Hw; [injection Hc as <- _ _; by left|].
  apply orb_false_iff in Hw as [He%non_nil_false Hn%negb_false_iff%Z.eqb_eq]. subst.
  destruct (sum_valid s) eqn:Hv; cbn [negb] in Hc; [|injection Hc as <- _ _; by left]. right.
  assert (∀ i, i ∈ inputs → si_failed i = false) as Hall.
  { intros i Hi. apply not_true_is_false. intros Hbad. apply not_true_iff_false in Hf. apply Hf, existsb_exists_elem. eauto. }
  destruct (sum_complete s) eqn:Hcom; cbn [negb] in Hc; injection Hc as <- <- _; split; try done;
    exists s, w1, inputs, w4; rewrite Hcom; split_and!; auto; by split.
Qed.

(** C10.  The exit code of product-check is exact: a run ends with 0, 1 or 2, a message means 1, and any
    other code means that the release setting was [true], that the arguments name between 1 and 32 files
    with usable options, that the check of those files ended without a failed selection, that its whole
    result was written, and that the report is valid; the code is 0 exactly when it is also complete.
    In the compatibility profile the declarations the check read from those files, each product in its
    namespace or the given one, then have distinct keys and product identities, each is publishable,
    their review plan is a topological order of them and is the one reported, and a controller of a
    cluster that serves them accepts the composition walk of each. *)
Theorem product_check_exit ctx args setting w code err w'
    (Hrun : product_check validator ctx args setting w = (Some (code, err), w')) :
  (code = 0 ∨ code = 1 ∨ code = 2)%Z ∧ (is_Some err → code = 1%Z) ∧
  (code ≠ 1%Z → err = None ∧ setting = "true" ∧ ∃ o s w0 w1 inputs w2,
     release_gate ctx "publisher-preflight" "publisher-preflight" setting w = (GateOn, w0) ∧
     check_options args = Some o ∧ (0 < len (files o) ≤ 32)%Z ∧
     checked_summary validator o ctx (w0, selected_inputs o) = (Some s, (w1, inputs)) ∧
     (∀ i, i ∈ inputs → si_failed i = false) ∧
     Output (summary_output (format o) s) w1 = ((slen (summary_output (format o) s), None), w2) ∧
     sum_valid s = true ∧ (code = 0%Z ↔ sum_complete s = true) ∧
     (code = 0%Z → profile o = "compatibility" → ∃ docs plan,
        checked_selection (E := command_env) validator ctx
          (imap (λ index _, Some (input_reader index)) (files o)) (namespace o)
          (w0, selected_inputs o) docs ∧ (0 < len docs ≤ 256)%Z ∧
        NoDup (map productKey docs) ∧ NoDup (map product_id docs) ∧ Forall declaration_ok docs ∧
        reviewPlan docs = Some plan ∧ topological docs (map PP_Key (Plan_Order plan)) ∧
        (version o = "v2" → ∃ b, sum_rich s = Some b ∧ BR_Plan b = Some plan) ∧
        ∀ reader ctx' doc w3, doc ∈ docs → serves (bundle_snapshot docs) reader ctx' →
          reader_keyed reader → reason (fst (fst (walk_root reader ctx' (doc_product doc) w3))) = "")).
Proof.
  unfold product_check, mbind, st_bind in Hrun.
  destruct (release_gate_cases ctx "publisher-preflight" "publisher-preflight" setting w) as (g & w0 & Hg & Hon).
  rewrite Hg in Hrun. destruct g; try (injection Hrun as <- <- _; split_and!; auto; done).
  destruct (check_options args) as [o|] eqn:Ho; [|injection Hrun as <- <- _; split_and!; auto; done].
  apply check_files_exit in Hrun as [->|(-> & s & w1 & inputs & w2 & Hc & Hs & Hf & Hw & Hv & Hcode)];
    [split_and!; auto; done|].
  split; [tauto|]. split; [by intros [? ?]|]. intros _. split; [done|]. split; [by apply Hon|].
  exists o, s, w0, w1, inputs, w2. destruct (check_options_ok args o Ho) as (Hlen & _).
  split_and!; try done; try tauto. intros H0 Hp.
  destruct (summary_accepted _ _ _ _ _ Hs Hp Hv (proj1 Hcode H0)) as (r & Hok & Hfrom & Hr).
  destruct Hok as [B1 B2 B3 B4 B5 B6 (plan & B7 & B8 & B10) (rank & B9)].
  exists (documents r), plan. split_and!; auto.
  - destruct (documents r); [done|]. unfold len. cbn. lia.
  - intros Hv2. destruct (Hr Hv2) as (b & Hb & Hplan). exists b. by rewrite Hplan.
  - intros reader ctx' doc w3 Hd Hserves Hkeyed.
    pose proof (walk_root_complete _ rank reader ctx' (doc_product doc) w3 B9 Hserves Hkeyed
      (snapshot_lookup _ B4 doc Hd)) as H.
    destruct (walk_root reader ctx' (doc_product doc) w3) as [[o' g] w4]. apply H.
Qed.
End Exit.

(** ** A run *)

(** A process whose world is the registry of flag providers; files are named by their paths. *)
Definition flag_env : Env := {|
  World := gmap string (gmap string InMemoryFlag);
  Ctx := unit;
  error := string;
  IsNotFound := λ _, false;
  IsForbidden := λ _, false;
  IsUnauthorized := λ _, false;
  Err := λ _, mret None;
  WithTimeout := λ c _, mret c;
  Now := mret 0%Z
|}.
#[local] Existing Instances flag_env ref_conditions ref_names ref_versions ref_fmt.
#[local] Existing Instances sample_decoders sample_admission_api sample_object_meta.
#[local] Instance sample_sdk : FlagSdk := {|
  SetNamedProviderAndWait := λ domain provider w, (None, <[domain := provider]> w);
  Boolean := λ _ domain key fallback w,
    (match w !! domain with Some p => evaluate_flag p key fallback | None => fallback end, w)
|}.
#[local] Program Instance sample_sdk_laws : FlagSdkLaws := {|
  registered := λ domain provider w, w !! domain = Some provider
|}.
Next Obligation. cbn. intros domain provider w w' [= <-]. by rewrite lookup_insert_eq. Qed.
Next Obligation. cbn. intros domain provider ctx key fallback w Hw. cbn in *. by rewrite Hw. Qed.
#[local] Instance sample_files : Files := {|
  handle := string;
  OpenFile := λ path, mret (inl path);
  Regular := λ _, mret true;
  ReadFile := λ path n, mret (if (n <? slen path)%Z then ""%string else path, ReadEOF);
  Close := λ _, mret tt;
  Output := λ s, mret (slen s, None);
  errorsNew := λ s, s
|}.
Definition command_admission : @admission command_env :=
  @mkAdmission command_env (mkStructural [("metadata"%string, mkStructural [] None)] None) (λ _, []) None.
Definition sample_args : list string :=
  ["--file"; "x"; "-namespace=shop"; "--report-version"; "v2"; "--format=json"]%string.

Lemma product_check_exit_witness :
  ∃ w', product_check (Some command_admission) tt sample_args "true" ∅ = (Some (0%Z, None), w') ∧
    ∃ o s, check_options sample_args = Some o ∧ files o = ["x"%string] ∧ sum_valid s = true ∧ sum_complete s = true ∧
      ∃ docs plan b, topological docs (map PP_Key (Plan_Order plan)) ∧ sum_rich s = Some b ∧ BR_Plan b = Some plan.
Proof.
  assert (∃ w', product_check (Some command_admission) tt sample_args "true" ∅ = (Some (0%Z, None), w')) as [w' Hrun].
  { set (run := product_check _ _ _ _ _).
    assert (fst run = Some (0%Z, None)) as Hf by (vm_compute; reflexivity).
    clearbody run. destruct run as [result w']. exists w'. exact (f_equal (λ r, (r, w')) Hf). }
  exists w'. split; [exact Hrun|].
  assert (∀ file : handle, progressive (ReadFile file)) as Hprogress.
  { intros file n w Hn. cbn. split; [|done]. destruct (n <? slen file)%Z eqn:Hl; [unfold slen; cbn; lia|].
    by apply Z.ltb_ge. }
  destruct (product_check_exit (Some command_admission) ref_label_no_slash Hprogress tt sample_args "true" ∅ 0 None w' Hrun)
    as (_ & _ & H). destruct (H ltac:(done)) as (_ & _ & o & s & w0 & w1 & inputs & w2 & _ & Ho & _ & _ & _ & _ & Hv & Hc & Hd).
  exists o, s.
  assert (check_options sample_args = Some (mkCheckOptions ["x"%string] "v2" "compatibility" "shop" "json"))
    as Ho' by (vm_compute; reflexivity). rewrite Ho in Ho'. injection Ho' as ->.
  destruct (Hd eq_refl eq_refl) as (docs & plan & _ & _ & _ & _ & _ & _ & Ht & Hp & _).
  destruct (Hp eq_refl) as (b & Hb & Hplan).
  exact (conj Ho (conj eq_refl (conj Hv (conj (proj1 Hc eq_refl)
    (ex_intro _ docs (ex_intro _ plan (ex_intro _ b (conj Ht (conj Hb Hplan))))))))).
Defined.
