(* ===== verification/Consumer.v ===== *)
(** * The API consumer

    [examples/api-consumer/main.go]: a command that reads an exported descriptor, insists on an endpoint
    its caller approved, asks that endpoint for observations and writes the validated answer.  The HTTP
    client, the float and time types of the standard library and the operating system are interfaces. *)

From Stdlib Require Import Ascii.
From S2P Require Import Prelude Kube Api Regex GoJson GoStrings GoUrl Config Descriptor Input GoJsonRead.
From S2P Require Import GoDecode GoRawJson GoUrlString GoQuery GoMime GoFlag Commands.

(** [float64] and [time.Time]: [ParseFloat] fails out of range, [UnmarshalTime] is given the raw JSON text,
    and [MarshalTime] fails for a year outside of RFC 3339. *)
Class ScalarApi := {
  float64 : Type;
  ParseFloat : string → option float64;
  MarshalFloat : float64 → string;
  time : Type;
  UnmarshalTime : string → option time;
  IsZeroTime : time → bool;
  MarshalTime : time → option string
}.

Inductive consumer_error :=
  | errDescriptor | errEndpoint | errQuery | errResponse
  | Usage (text : string) | NotWritten.

(** [portName]. *)
Definition portName : re :=
  RCat (RClass label_edge)
    (ROpt (RCat (RStar (RClass (λ a, label_edge a || Ascii.eqb a "-"))) (RClass label_edge))).
Definition port_name (s : string) : bool := (slen s <=? 63)%Z && MatchString portName s.

(** ** Bounded JSON *)

(** [uniqueValue] on the value its tokens spell: the nodes counted so far, unless a key repeats or a limit
    is passed. *)
Fixpoint uniqueValue (depth : Z) (v : jvalue) (nodes : Z) : option Z :=
  let nodes := (nodes + 1)%Z in
  if (32 <? depth)%Z || (16384 <? nodes)%Z then None
  else match v with
  | DObject members =>
      (fix more (keys : gset string) (ms : list (string * jvalue)) (nodes : Z) : option Z :=
         match ms with
         | [] => Some nodes
         | (name, w) :: ms' =>
             if bool_decide (name ∈ keys) then None
             else match uniqueValue (depth + 1) w nodes with
             | Some nodes => more ({[name]} ∪ keys) ms' nodes
             | None => None
             end
         end) ∅ members nodes
  | DArray l =>
      (fix more (l : list jvalue) (nodes : Z) : option Z :=
         match l with
         | [] => Some nodes
         | w :: l' =>
             match uniqueValue (depth + 1) w nodes with Some nodes => more l' nodes | None => None end
         end) l nodes
  | _ => Some nodes
  end.

(** What [boundedJSON] accepts. *)
Definition bounded_text (data : string) (limit : Z) : bool :=
  if (limit <? slen data)%Z || negb (ValidString data) then false
  else match next_value data with
  | Some (v, rest) => non_nil (uniqueValue 0 v 0) && at_eof rest
  | None => false
  end.

(** [exactFields]. *)
Definition exactFields (data : string) (required optional : list string) : bool :=
  match object_texts data with
  | Some (Some fields) =>
      forallb (λ name, existsb (String.eqb name) (map fst fields)) required &&
      forallb (λ name, existsb (String.eqb name) (required ++ optional)) (map fst fields)
  | _ => false
  end.

(** [json.Unmarshal] into a string that is empty. *)
Definition unmarshal_string (raw : string) : option string :=
  v ← document_value raw; decode_into "" v.

(** ** Endpoints *)

(** The host of an endpoint: a canonical address without zone, or a lower-case DNS name whose last label a
    browser does not read as a number. *)
Definition literal_host (host : string) : bool :=
  match ParseAddr host with
  | Some address => (Zone address == "") && canonical_address host address
  | None =>
      let labels := Split host "." in
      let last := List.last labels "" in
      (slen host <=? 253)%Z && negb (all_digits last) && negb (HasPrefix last "0x") && forallb port_name labels
  end.

(** [literalHTTPS]. *)
Definition literalHTTPS (value : string) : bool :=
  if (slen value =? 0)%Z || (1024 <? slen value)%Z || negb (all_bytes (λ a, negb (one_of "\%" a)) value) then false
  else if negb (all_bytes (byte_in 0x21 0x7E) value) then false
  else match Parse value with
  | None => false
  | Some parsed =>
      if (Scheme parsed != "https") || (Hostname parsed == "") || User parsed || (Fragment parsed != "") ||
         (Opaque parsed != "") || (URL_String (ForceQuery value parsed) parsed != value) ||
         HasSuffix (Host parsed) ":"
      then false
      else literal_host (Hostname parsed) && public_port (Port parsed)
  end.

(** ** The selected output *)

Record output := mkOutput { O_Name : string; O_Protocol : string; O_URL : string; O_ContractURL : string; O_MediaType : string }.

Definition decode_output : output → jvalue → option output := decode_known
  [stores "name" O_Name (λ s o, mkOutput s (O_Protocol o) (O_URL o) (O_ContractURL o) (O_MediaType o));
   stores "protocol" O_Protocol (λ s o, mkOutput (O_Name o) s (O_URL o) (O_ContractURL o) (O_MediaType o));
   stores "url" O_URL (λ s o, mkOutput (O_Name o) (O_Protocol o) s (O_ContractURL o) (O_MediaType o));
   stores "contractUrl" O_ContractURL (λ s o, mkOutput (O_Name o) (O_Protocol o) (O_URL o) s (O_MediaType o));
   stores "mediaType" O_MediaType (λ s o, mkOutput (O_Name o) (O_Protocol o) (O_URL o) (O_ContractURL o) s)].
Definition unmarshal_output (raw : string) : option output :=
  v ← document_value raw; decode_output (mkOutput "" "" "" "" "") v.

(** The loop over the outputs: the selected one, if any. *)
Fixpoint select_loop (name : string) (outputs : list string) (seen : gset string) (selected : option output)
  : option (option output) :=
  match outputs with
  | [] => Some selected
  | raw :: outputs' =>
      if negb (exactFields raw ["name"; "protocol"; "url"; "contractUrl"]%string ["mediaType"%string]) then None
      else
        candidate ← unmarshal_output raw;
        if negb (port_name (O_Name candidate)) || bool_decide (O_Name candidate ∈ seen) then None
        else select_loop name outputs' ({[O_Name candidate]} ∪ seen)
               (if O_Name candidate == name then Some candidate else selected)
  end.

(** The outputs of a descriptor. *)
Definition descriptor_outputs (data : string) : option (list string) :=
  members ← object_texts data;
  let descriptor := text_map (default [] members) in
  version ← unmarshal_string (default "" (descriptor !! "apiVersion"));
  if version != "data-product-descriptor/v1" then None
  else
    kind ← unmarshal_string (default "" (descriptor !! "kind"));
    if kind != "DataProduct" then None
    else
      outputs ← array_texts (default "" (descriptor !! "outputs"));
      let outputs := default [] outputs in
      if (len outputs =? 0)%Z || (1024 <? len outputs)%Z then None else Some outputs.

(** [selectOutput], once a bounded descriptor was read. *)
Definition select_text (data name approved : string) : string + consumer_error :=
  if negb (port_name name) then inr errDescriptor
  else match descriptor_outputs data with
  | None => inr errDescriptor
  | Some outputs =>
      match select_loop name outputs ∅ None with
      | Some (Some selected) =>
          if (O_Protocol selected != "OpenAPI") || (O_MediaType selected != "application/json") ||
             negb (literalHTTPS (O_ContractURL selected))
          then inr errDescriptor
          else if negb (literalHTTPS approved) || (O_URL selected != approved) then inr errEndpoint
          else inl approved
      | _ => inr errDescriptor
      end
  end.

(** ** Observations *)

Section Consumer.
Context `{E : Env} {O : Files} {T : ScalarApi}.

Record observation := mkObservation {
  Station : string;
  Temperature : float64;
  Salinity : float64;
  ObservedAt : time
}.

(** The struct of pointers an item is decoded into. *)
Record item := mkItem {
  I_Station : option string;
  I_Temperature : option float64;
  I_Salinity : option float64;
  I_ObservedAt : option time
}.

(** A member of a number field. *)
Definition unmarshal_float (v : jvalue) : option (option float64) :=
  match v with
  | DNull => Some None
  | DNumber t => option_map Some (ParseFloat t)
  | _ => None
  end.
(** One member, with its raw text; an unknown one is skipped. *)
Definition store_item (m : string * string) (i : item) : option item :=
  v ← document_value (snd m);
  match field_named ["station"; "temperatureCelsius"; "salinityPsu"; "observedAt"]%string (fst m) with
  | None => Some i
  | Some f =>
      if f == "station" then
        match v with
        | DNull => Some (mkItem None (I_Temperature i) (I_Salinity i) (I_ObservedAt i))
        | DString s => Some (mkItem (Some s) (I_Temperature i) (I_Salinity i) (I_ObservedAt i))
        | _ => None
        end
      else if f == "temperatureCelsius" then
        x ← unmarshal_float v; Some (mkItem (I_Station i) x (I_Salinity i) (I_ObservedAt i))
      else if f == "salinityPsu" then
        x ← unmarshal_float v; Some (mkItem (I_Station i) (I_Temperature i) x (I_ObservedAt i))
      else
        match v with
        | DNull => Some (mkItem (I_Station i) (I_Temperature i) (I_Salinity i) None)
        | _ =>
            x ← UnmarshalTime (snd m);
            Some (mkItem (I_Station i) (I_Temperature i) (I_Salinity i) (Some x))
        end
  end.
Definition unmarshal_item (raw : string) : option item :=
  members ← object_texts raw;
  foldl (λ i m, i ← i; store_item m i) (Some (mkItem None None None None)) (default [] members).

(** One item of the answer, for the station that was asked for. *)
Definition read_item (station raw : string) : option observation :=
  if negb (exactFields raw ["station"; "temperatureCelsius"; "salinityPsu"; "observedAt"]%string []) then None
  else
    i ← unmarshal_item raw;
    match i with
    | mkItem (Some s) (Some temperature) (Some salinity) (Some observed) =>
        if negb (port_name s) || ((station != "") && (s != station)) || IsZeroTime observed then None
        else Some (mkObservation s temperature salinity observed)
    | _ => None
    end.

(** The body of the answer. *)
Definition read_items (station data : string) : option (list observation) :=
  if negb (exactFields data ["items"%string] []) then None
  else
    members ← object_texts data;
    raws ← array_texts (default "" (text_map (default [] members) !! "items"));
    match raws with
    | None => None
    | Some raws => if (64 <? len raws)%Z then None else mapM (read_item station) raws
    end.

(** ** The request *)

(** A [GET] without cookies whose redirects are not followed. *)
Record http_request := mkRequest { RequestURL : string; Accept : string }.
Record http_response := mkResponse {
  StatusCode : Z;
  ContentType : string;
  Body : io_Reader;
  CloseBody : ST World unit
}.
Definition http_client : Type := Ctx → http_request → ST World (http_response + error).

(** The URL that is asked. *)
Definition query_url (endpoint station : string) : option string :=
  queryURL ← Parse endpoint;
  let force := ForceQuery endpoint queryURL in
  if (RawQuery queryURL != "") || force then None
  else
    Some (URL_String force
      (if station == "" then queryURL
       else mkURL (Scheme queryURL) (Opaque queryURL) (User queryURL) (Host queryURL) (Path queryURL)
              (encode_values [("station"%string, station)]) (Fragment queryURL) (RawPath queryURL)
              (RawFragment queryURL))).

(** [boundedJSON]; [None] is a read that never ends. *)
Definition boundedJSON (input : io_Reader) (limit : Z) : ST World (option (option string)) :=
  read ← ReadAll (Z.to_nat (limit + 1)) input (limit + 1) "";
  mret (match read with
        | None => None
        | Some (inr _) => Some None
        | Some (inl data) => Some (if bounded_text data limit then Some data else None)
        end).

(** The type of the answer is JSON, and its character set UTF-8 if it states one. *)
Definition json_response (response : http_response) : bool :=
  (StatusCode response =? 200)%Z && bool_decide (ParseMediaType (ContentType response) = Some "application/json"%string) &&
  match media_parameter (ContentType response) "charset" with
  | Some charset => (charset == "") || String.eqb (fold_name charset) (fold_name "utf-8")
  | None => false
  end.

(** From the answer to the observations. *)
Definition read_response (ctx : Ctx) (station : string) (response : http_response)
  : ST World (option (list observation + consumer_error)) :=
  if negb (json_response response) then mret (Some (inr errResponse))
  else
    read ← boundedJSON (Body response) 1048576;
    match read with
    | None => mret None
    | Some data =>
        late ← (if non_nil data then Err ctx else mret None);
        mret (Some (match data with
          | Some data =>
              if non_nil late then inr errResponse
              else match read_items station data with Some items => inl items | None => inr errResponse end
          | None => inr errResponse
          end))
    end.

(** [selectOutput]: [None] is a read that never ends. *)
Definition selectOutput (input : io_Reader) (name approved : string)
  : ST World (option (string + consumer_error)) :=
  read ← boundedJSON input 65536;
  mret (match read with
        | None => None
        | Some None => Some (inr errDescriptor)
        | Some (Some data) => Some (select_text data name approved)
        end).

(** The exchange with the endpoint. *)
Definition ask (ctx : Ctx) (client : http_client) (url station : string)
  : ST World (option (list observation + consumer_error)) :=
  answer ← client ctx (mkRequest url "application/json");
  match answer with
  | inr _ => mret (Some (inr errQuery))
  | inl response =>
      result ← read_response ctx station response;
      _ ← CloseBody response;
      mret result
  end.

(** [consume]; a nil client is [None]. *)
Definition consume (ctx : Ctx) (descriptor : io_Reader) (name approved station : string)
    (client : option http_client) : ST World (option (list observation + consumer_error)) :=
  selected ← selectOutput descriptor name approved;
  match selected with
  | None => mret None
  | Some (inr err) => mret (Some (inr err))
  | Some (inl endpoint) =>
      match client with
      | None => mret (Some (inr errQuery))
      | Some client =>
          if (station != "") && negb (port_name station) then mret (Some (inr errQuery))
          else
            ctx ← WithTimeout ctx (10 * Second);
            match query_url endpoint station with
            | None => mret (Some (inr errEndpoint))
            | Some url =>
                if non_nil (Parse url) then ask ctx client url station else mret (Some (inr errQuery))
            end
      end
  end.

(** ** The command *)

(** The answer as [json.Encoder] writes it; [None] when a time cannot be written. *)
Definition observation_text (o : observation) : option string :=
  observed ← MarshalTime (ObservedAt o);
  Some ("{" +:+ json_string "station" +:+ ":" +:+ json_string (Station o) +:+ "," +:+
        json_string "temperatureCelsius" +:+ ":" +:+ MarshalFloat (Temperature o) +:+ "," +:+
        json_string "salinityPsu" +:+ ":" +:+ MarshalFloat (Salinity o) +:+ "," +:+
        json_string "observedAt" +:+ ":" +:+ observed +:+ "}").
Definition items_text (items : list observation) : option string :=
  texts ← mapM observation_text items;
  Some ("{" +:+ json_string "items" +:+ ":[" +:+ join "," texts +:+ "]}" +:+ newline_text).

Record options := mkOptions { path : string; name : string; approved : string; station : string }.
Definition consumer_flags : list (flag options) :=
  [StringVar "descriptor" (λ v o, mkOptions v (name o) (approved o) (station o));
   StringVar "output" (λ v o, mkOptions (path o) v (approved o) (station o));
   StringVar "approved-endpoint" (λ v o, mkOptions (path o) (name o) v (station o));
   StringVar "station" (λ v o, mkOptions (path o) (name o) (approved o) v)].
Definition consumer_options (args : list string) : option options :=
  match ParseFlags consumer_flags args (mkOptions "" "" "" "") [] with
  | inl (o, _, []) => if (path o == "") || (name o == "") || (approved o == "") then None else Some o
  | _ => None
  end.
Definition consumer_usage : string :=
  "usage: api-consumer --descriptor FILE --output NAME --approved-endpoint HTTPS_URL [--station STATION]".

(** [run]: [Some None] is a nil error, [None] a read that never ends. *)
Definition run (ctx : Ctx) (args : list string) (client : option http_client)
  : ST World (option (option consumer_error)) :=
  match consumer_options args with
  | None => mret (Some (Some (Usage consumer_usage)))
  | Some o =>
      opened ← OpenFile (path o);
      match opened with
      | inr _ => mret (Some (Some errDescriptor))
      | inl file =>
          regular ← Regular file;
          result ← (if (regular : bool) then consume ctx (ReadFile file) (name o) (approved o) (station o) client
                    else mret (Some (inr errDescriptor)));
          written ← match result with
                    | Some (inl items) =>
                        match items_text items with
                        | Some text => r ← Output text; mret (non_nil (snd r))
                        | None => mret true
                        end
                    | _ => mret false
                    end;
          _ ← Close file;
          mret (match result with
                | None => None
                | Some (inr err) => Some (Some err)
                | Some (inl _) => Some (if (written : bool) then Some NotWritten else None)
                end)
      end
  end.
End Consumer.
