(* ===== verification/ConsumerSpec.v ===== *)
(** * What the API consumer promises

    It accepts every descriptor the registry publishes and selects exactly a declared output with the
    approved endpoint; it contacts nothing but that endpoint; and what it returns is validated. *)

From Stdlib Require Import Ascii.
From stdpp Require Import pretty.
From S2P Require Import Prelude Kube Api Regex GoJson GoStrings GoUrl Config Composition Descriptor DescriptorSpec DiscoverySpec Reference.
From S2P Require Import Input InputSpec GoJsonRead JsonInput GoJsonSpec GoDecode GoRawJson GoUrlString GoQuery GoMime GoFlag Commands Consumer.

(** ** Documents the registry writes

    [tidy d j e]: nested at most [d] deep, keys that differ, and at least five bytes of text per node up to
    [e] bytes. *)

Fixpoint node_count (j : json) : Z :=
  match j with
  | JArray l => 1 + foldr (λ x n, node_count x + n) 0 l
  | JObject fs => 1 + foldr (λ f n, node_count (snd f) + n) 0 fs
  | _ => 1
  end%Z.

Definition plain_key (k : string) : bool := ValidString k && (2 <=? String.length k)%nat.
Fixpoint distinct_keys (j : json) : bool :=
  match j with
  | JArray l => forallb distinct_keys l
  | JObject fs => bool_decide (NoDup (map fst fs)) && forallb (λ f, plain_key (fst f) && distinct_keys (snd f)) fs
  | _ => true
  end.

Record tidy (d : nat) (j : json) (e : Z) : Prop := {
  tidy_nested : nested d j = true;
  tidy_distinct : distinct_keys j = true;
  tidy_count : (5 * node_count j <= slen (encode j) + e)%Z
}.

Lemma tidy_weaken d j e e' : tidy d j e → (e <= e')%Z → tidy d j e'.
Proof. intros [] ?. constructor; [done..|lia]. Qed.

Lemma tidy_string d s : tidy d (JString s) 3.
Proof.
  constructor; [by destruct d|done|]. pose proof (json_string_length s). cbn [node_count encode]. lia.
Qed.
Lemma tidy_int d n : tidy d (JInt n) 4.
Proof.
  constructor; [by destruct d|done|]. cbn [node_count encode].
  destruct (pretty_head n) as (a & u & -> & _). unfold slen. cbn. lia.
Qed.
Lemma tidy_bool d b : tidy d (JBool b) 4.
Proof. by constructor; [destruct d|..|destruct b]. Qed.
Lemma tidy_null d : tidy d JNull 4.
Proof. by constructor; [destruct d|..]. Qed.

Lemma slen_cons a s : slen (String.String a s) = (1 + slen s)%Z.
Proof. unfold slen. cbn. lia. Qed.

Lemma join_slen l : slen (join "," l) = (foldr (λ s n, slen s + n) 0 l + Z.max 0 (len l - 1))%Z.
Proof.
  induction l as [|s l IH]; [done|]. rewrite join_cons, slen_app. cbn [foldr]. destruct l as [|t l].
  - unfold len, slen. cbn. lia.
  - rewrite slen_app, IH. unfold len. cbn [length]. change (slen ",") with 1%Z. lia.
Qed.

Lemma tidy_list d e l : Forall (λ j, tidy d j e) l → tidy (S d) (JArray l) (4 + len l * (e - 1)).
Proof.
  intros Hl. constructor.
  - apply forallb_elem. intros j Hj. rewrite list.Forall_forall in Hl. apply (Hl j Hj).
  - apply forallb_elem. intros j Hj. rewrite list.Forall_forall in Hl. apply (Hl j Hj).
  - cbn [node_count encode]. rewrite !slen_app, join_slen.
    change (slen "[") with 1%Z. change (slen "]") with 1%Z. unfold len. rewrite length_map.
    assert (5 * foldr (λ x n, node_count x + n) 0 l <=
      foldr (λ s n, slen s + n) 0 (map encode l) + Z.of_nat (length l) * e)%Z; [|lia].
    induction Hl as [|j l [_ _ Hj] _ IH]; [done|]. cbn [foldr map length]. lia.
Qed.

Lemma tidy_array d e l : (e <= 1)%Z → Forall (λ j, tidy d j e) l → tidy (S d) (JArray l) 4.
Proof. intros He Hl. eapply tidy_weaken; [by apply tidy_list|]. unfold len. nia. Qed.

Lemma tidy_map {A} d e (f : A → json) l : (e <= 1)%Z → (∀ a, tidy d (f a) e) → tidy (S d) (JArray (map f l)) 4.
Proof.
  intros He Hf. apply (tidy_array d e); [done|]. apply list.Forall_fmap, list.Forall_forall. intros a _. apply Hf.
Qed.

Lemma tidy_strings d l : tidy (S d) (JArray (map JString l)) (4 + 2 * len l).
Proof.
  eapply tidy_weaken; [apply (tidy_list d 3), list.Forall_fmap, list.Forall_forall; intros s _; apply tidy_string|].
  unfold len. rewrite length_map. lia.
Qed.

(** Escapes only make a text longer. *)
Lemma escape_length a : 1 <= String.length (escape_ascii a).
Proof. apply escape_ascii_length. Qed.
Lemma json_chars_length s : String.length s <= String.length (json_chars s).
Proof.
  text_cases s; [done|cbn [json_chars]; rewrite Ha; try rewrite Hn..].
  - rewrite str_length_app. pose proof (escape_length a). cbn [String.length]. lia.
  - cbn [String.length]. lia.
  - destruct (is_line_separator a b c); rewrite !str_length_app; unfold one; cbn [String.length]; lia.
  - change (one a +:+ one b +:+ one c +:+ one d +:+ json_chars s) with
      (String.String a (String.String b (String.String c (String.String d (json_chars s))))). cbn [String.length]. lia.
  - change (one backslash +:+ "ufffd" +:+ json_chars s) with ((one backslash +:+ "ufffd") +:+ json_chars s).
    rewrite !str_length_app. unfold one. cbn [String.length]. lia.
Qed.

(** The members of an object. *)
Inductive tidy_fields (d : nat) : list (string * json) → Z → Prop :=
  | tidy_nil e : (0 <= e)%Z → tidy_fields d [] e
  | tidy_cons k v fs e e' e'' : plain_key k = true → tidy d v e → tidy_fields d fs e' →
      (e - 5 + e' <= e'')%Z → tidy_fields d ((k, v) :: fs) e''.

Lemma tidy_fields_weaken d fs e e' : tidy_fields d fs e → (e <= e')%Z → tidy_fields d fs e'.
Proof. intros [e1 H|k v fs' e1 e2 e3 Hk Hv Hf He] Hle; econstructor; eauto; lia. Qed.

Lemma tidy_fields_app d fs gs e e' : tidy_fields d fs e → tidy_fields d gs e' → tidy_fields d (fs ++ gs) (e + e').
Proof.
  induction 1 as [e1 H|k v fs e1 e2 e3 Hk Hv _ IH He]; intros Hg; [eapply tidy_fields_weaken; [done|lia]|].
  cbn. econstructor; [done..|by apply IH|lia].
Qed.

Lemma tidy_field d k v e : plain_key k = true → tidy d v e → tidy_fields d (field k v) (e - 5).
Proof. intros Hk Hv. eapply (tidy_cons d k v [] e 0); [done..|by constructor|lia]. Qed.
Lemma tidy_text d k s : plain_key k = true → tidy_fields d (field k (JString s)) (-2).
Proof. intros Hk. by apply (tidy_field d k _ 3), tidy_string. Qed.
Lemma tidy_omit_string d k s : plain_key k = true → tidy_fields d (omit_string k s) 0.
Proof.
  intros Hk. unfold omit_string. case_bool_decide; [by constructor|].
  eapply tidy_fields_weaken; [by apply (tidy_field d k _ 3), tidy_string|lia].
Qed.
Lemma tidy_omit_int d k n : plain_key k = true → tidy_fields d (omit_int k n) 0.
Proof.
  intros Hk. unfold omit_int. destruct (n =? 0)%Z; [by constructor|].
  eapply tidy_fields_weaken; [by apply (tidy_field d k _ 4), tidy_int|lia].
Qed.
Lemma tidy_omit_nil {A} d k (f : A → json) o e : plain_key k = true → (∀ a, tidy d (f a) e) →
  tidy_fields d (omit_nil k f o) (Z.max 0 (e - 5)).
Proof.
  intros Hk Hf. destruct o as [a|]; [|constructor; lia].
  eapply tidy_fields_weaken; [by eapply (tidy_field d k _ e)|lia].
Qed.
Lemma tidy_omit_empty {A} d k (f : A → json) l e : plain_key k = true → (e <= 1)%Z → (∀ a, tidy d (f a) e) →
  tidy_fields (S d) (omit_empty k f l) 0.
Proof.
  intros Hk He Hf. unfold omit_empty. destruct l as [|a l]; [by constructor|].
  eapply tidy_fields_weaken; [eapply (tidy_field (S d) k _ 4); [done|by apply (tidy_map d e)]|lia].
Qed.

Lemma tidy_object d fs e : tidy_fields d fs e → NoDup (map fst fs) → tidy (S d) (JObject fs) (3 + e).
Proof.
  intros Hfs Hk. constructor.
  - apply forallb_elem. clear Hk. induction Hfs as [e1 _|k v fs e1 e2 e3 _ Hv _ IH _]; [by intros ? ?%elem_of_nil|].
    intros f [->|Hf]%elem_of_cons; [apply Hv|by apply IH].
  - cbn [distinct_keys]. rewrite bool_decide_true by done. clear Hk. cbn [andb].
    induction Hfs as [e1 _|k v fs e1 e2 e3 Hk Hv _ IH _]; [done|]. cbn [forallb fst snd].
    by rewrite Hk, (tidy_distinct _ _ _ Hv).
  - change (encode (JObject fs)) with ("{" +:+ join "," (map encode_member fs) +:+ "}").
    rewrite !slen_app, join_slen. change (slen "{") with 1%Z. change (slen "}") with 1%Z. clear Hk.
    cbn [node_count]. unfold len. rewrite length_map.
    enough (5 * foldr (λ f n, node_count (snd f) + n) 0 fs <=
            foldr (λ s n, slen s + n) 0 (map encode_member fs) + e)%Z by lia.
    induction Hfs as [e1 He|k v fs e1 e2 e3 Hk [_ _ Hv] _ IH He]; [cbn; lia|]. cbn [foldr map snd].
    unfold encode_member at 1. rewrite !slen_app. cbn [fst snd]. change (slen ":") with 1%Z.
    unfold plain_key in Hk. apply andb_true_iff in Hk as [_ Hk%Nat.leb_le].
    assert (Z.of_nat (String.length k) + 2 <= slen (json_string k))%Z; [|lia].
    unfold json_string. rewrite !slen_app. change (slen quote_byte) with 1%Z.
    pose proof (json_chars_length k). unfold slen. lia.
Qed.

(** ** The bounds of the reader *)

Lemma node_count_pos j : (1 <= node_count j)%Z.
Proof.
  revert j. fix IH 1. intros [|b|n|s|l|fs]; cbn [node_count]; try lia.
  - assert (0 <= foldr (λ x n, node_count x + n) 0 l)%Z; [|lia].
    induction l as [|j l IHl]; cbn [foldr]; [lia|]. specialize (IH j). lia.
  - assert (0 <= foldr (λ f n, node_count (snd f) + n) 0 fs)%Z; [|lia].
    induction fs as [|f fs IHl]; cbn [foldr]; [lia|]. specialize (IH (snd f)). lia.
Qed.
Lemma nodes_of_elements l : (0 <= foldr (λ x n, node_count x + n) 0 l)%Z.
Proof. induction l as [|j l IH]; cbn [foldr]; [lia|]. pose proof (node_count_pos j). lia. Qed.
Lemma nodes_of_members fs : (0 <= foldr (λ f : string * json, λ n, node_count (snd f) + n) 0 fs)%Z.
Proof. induction fs as [|f fs IH]; cbn [foldr]; [lia|]. pose proof (node_count_pos (snd f)). lia. Qed.

Lemma unique_written d j : nested d j = true → distinct_keys j = true → ∀ depth n,
  (depth + Z.of_nat d <= 32)%Z → (n + node_count j <= 16384)%Z →
  uniqueValue depth (seen_value j) n = Some (n + node_count j)%Z.
Proof.
  revert d j. apply (shaped_ind false (λ d j, distinct_keys j = true → ∀ depth n,
    (depth + Z.of_nat d <= 32)%Z → (n + node_count j <= 16384)%Z →
    uniqueValue depth (seen_value j) n = Some (n + node_count j)%Z)).
  1-4: intros; cbn [uniqueValue seen_value node_count] in *; rewrite !(proj2 (Z.ltb_ge _ _)) by lia; done.
  - intros d l Hl Hk depth n Hd Hn. cbn [uniqueValue seen_value node_count distinct_keys] in *.
    pose proof (nodes_of_elements l). rewrite !(proj2 (Z.ltb_ge _ _)) by lia. cbn [orb].
    rewrite Z.add_assoc in Hn |- *. clear H. revert Hn. generalize (n + 1)%Z. clear n.
    induction Hl as [|j l Hj _ IH]; intros n Hn; cbn [map foldr forallb] in *; [by rewrite Z.add_0_r|].
    apply andb_true_iff in Hk as [Hkj Hk]. pose proof (nodes_of_elements l).
    rewrite Hj by (try done; lia). rewrite IH by (try done; lia). f_equal. lia.
  - intros d fs Hfs Hk depth n Hd Hn. cbn [uniqueValue seen_value node_count distinct_keys] in *.
    pose proof (nodes_of_members fs). rewrite !(proj2 (Z.ltb_ge _ _)) by lia. cbn [orb].
    rewrite Z.add_assoc in Hn |- *. clear H. revert Hn. generalize (n + 1)%Z. clear n.
    apply andb_true_iff in Hk as [Hnd%bool_decide_eq_true Hk].
    assert (∀ k, k ∈ map fst fs → k ∉ (∅ : gset string)) as Hseen by set_solver.
    revert Hseen. generalize (∅ : gset string).
    induction Hfs as [|[k v] fs [_ Hj] _ IH]; intros seen Hseen n Hn; cbn [map foldr forallb fst snd] in *;
      [by rewrite Z.add_0_r|].
    apply list.NoDup_cons in Hnd as [Hfresh Hnd]. apply andb_true_iff in Hk as [Hkj Hk].
    apply andb_true_iff in Hkj as [Hplain Hkj]. unfold plain_key in Hplain. apply andb_true_iff in Hplain as [Hv _].
    pose proof (nodes_of_members fs).
    rewrite (valid_text_id k Hv), bool_decide_false by (apply Hseen; left).
    rewrite Hj by (try done; lia). rewrite IH; [f_equal; lia|done|done| |lia].
    intros k' Hk'. apply not_elem_of_union. split; [|apply Hseen; by right].
    intros ->%elem_of_singleton. done.
Qed.

(** A tidy document within a limit of bytes is accepted. *)
Lemma bounded_written d j e limit : tidy d j e → (d <= 32) → (e <= 16384)%Z → (slen (encode j) <= limit)%Z →
  (limit <= 65536)%Z → bounded_text (encode j) limit = true.
Proof.
  intros [Hn Hk Hc] Hd He Hl Hlim. unfold bounded_text. rewrite (proj2 (Z.ltb_ge _ _) Hl).
  rewrite (ValidString_encode d) by done. cbn [negb orb].
  assert (Z.of_nat d <= maxNestingDepth)%Z as Hd' by (unfold maxNestingDepth; lia).
  pose proof (next_value_seen d j "" Hn Hd' eq_refl) as Hnext. rewrite str_app_nil_r in Hnext. rewrite Hnext.
  rewrite (unique_written d) by (try done; lia). done.
Qed.

(** ** A published descriptor is tidy *)

(** The keys of optional members are among the keys of all members. *)
Lemma keys_within (fs : list (string * json)) all : map fst fs `sublist_of` all → NoDup all → NoDup (map fst fs).
Proof. intros Hs Ha. by eapply sublist_NoDup. Qed.

Lemma keys_omit_string (k : string) s : map fst (omit_string k s) `sublist_of` [k].
Proof. unfold omit_string. case_bool_decide; cbn; [apply sublist_nil_l|done]. Qed.
Lemma keys_omit_int (k : string) n : map fst (omit_int k n) `sublist_of` [k].
Proof. unfold omit_int. destruct (n =? 0)%Z; cbn; [apply sublist_nil_l|done]. Qed.
Lemma keys_omit_nil {A} (k : string) (f : A → json) o : map fst (omit_nil k f o) `sublist_of` [k].
Proof. destruct o; cbn; [done|apply sublist_nil_l]. Qed.
Lemma keys_omit_empty {A} (k : string) (f : A → json) l : map fst (omit_empty k f l) `sublist_of` [k].
Proof. destruct l; cbn; [apply sublist_nil_l|done]. Qed.
Lemma keys_field (k : string) (v : json) : map fst (field k v) `sublist_of` [k].
Proof. done. Qed.

(** An object is tidy piece by piece; its keys are found from the pieces. *)
Ltac keys_of fs :=
  lazymatch fs with
  | ?a ++ ?b => let x := keys_of a in let y := keys_of b in constr:(x ++ y)
  | field ?k _ => constr:([k])
  | omit_string ?k _ => constr:([k])
  | omit_int ?k _ => constr:([k])
  | omit_nil ?k _ _ => constr:([k])
  | omit_empty ?k _ _ => constr:([k])
  end.
Ltac distinct_members :=
  match goal with |- NoDup (map fst ?fs) =>
    let all := keys_of fs in
    apply (keys_within fs all); [rewrite ?map_app; repeat apply sublist_app;
      first [apply keys_field|apply keys_omit_string|apply keys_omit_int|apply keys_omit_nil|apply keys_omit_empty]
    | apply (bool_decide_unpack _); vm_compute; exact I]
  end.
Ltac tidy_pieces :=
  eapply tidy_weaken;
  [eapply tidy_object; [repeat eapply tidy_fields_app;
     first [apply tidy_text; reflexivity
           |apply tidy_omit_string; reflexivity|apply tidy_omit_int; reflexivity
           |eapply tidy_omit_nil; [reflexivity|intros ?; eauto with tidy]
           |eapply tidy_omit_empty; [reflexivity| |intros ?; eauto with tidy]; lia
           |eapply tidy_field; [reflexivity|eauto with tidy]] | distinct_members]|lia].

Create HintDb tidy.
#[export] Hint Resolve tidy_int tidy_bool tidy_null tidy_string : tidy.

Lemma tidy_reference d r : tidy (S d) (ProductReference_json r) 0.
Proof. unfold ProductReference_json. tidy_pieces. Qed.
#[export] Hint Resolve tidy_reference : tidy.
Lemma tidy_owner d o : tidy (S d) (ProductOwner_json o) 1.
Proof. unfold ProductOwner_json. tidy_pieces. Qed.
Lemma tidy_output d o : tidy (S d) (OutputPort_json o) 0.
Proof. unfold OutputPort_json. tidy_pieces. Qed.
Lemma tidy_outputs d l : tidy (S (S d)) (JArray (map OutputPort_json l)) 4.
Proof. apply (tidy_map (S d) 0); [done|]. intros o. apply tidy_output. Qed.
Lemma tidy_contract d c : tidy (S d) (InputContract_json c) 0.
Proof. unfold InputContract_json. tidy_pieces. Qed.
Lemma tidy_readiness d r : tidy (S d) (readiness_json r) 0.
Proof. unfold readiness_json. tidy_pieces. Qed.
Lemma tidy_health d h : tidy (S d) (health_json h) 0.
Proof. unfold health_json. tidy_pieces. Qed.
#[export] Hint Resolve tidy_owner tidy_output tidy_outputs tidy_contract tidy_readiness tidy_health : tidy.

Lemma tidy_status d s : tidy (S (S d)) (InputStatus_json s) 0.
Proof. unfold InputStatus_json. tidy_pieces. Qed.
Lemma tidy_input d i : tidy (S (S d)) (InputPort_json i) 0.
Proof. unfold InputPort_json. tidy_pieces. Qed.
#[export] Hint Resolve tidy_status tidy_input : tidy.

(** The lists of a published interface contract are short. *)
Definition short_ui (u : ProductUI) : Prop :=
  match UI_Contract u with
  | Some c => (len (UI_HostOrigins c) <= 16)%Z ∧ (len (default [] (UI_Capabilities c)) <= 3)%Z
  | None => True
  end.

Lemma tidy_ui_contract d c : (len (UI_HostOrigins c) <= 16)%Z → (len (default [] (UI_Capabilities c)) <= 3)%Z →
  tidy (S (S d)) (UIContract_json c) 40.
Proof.
  intros Ho Hc. unfold UIContract_json, strings_json.
  assert (tidy (S d) (match UI_Capabilities c with Some l => JArray (map JString l) | None => JNull end) 10) as H.
  { destruct (UI_Capabilities c) as [l|]; cbn in Hc; (eapply tidy_weaken; [apply tidy_strings || apply tidy_null|lia]). }
  assert (tidy (S d) (JArray (map JString (UI_HostOrigins c))) 36) as H'.
  { eapply tidy_weaken; [apply tidy_strings|lia]. }
  tidy_pieces.
Qed.

Lemma tidy_ui d u : short_ui u → tidy (S (S (S d))) (ProductUI_json u) 40.
Proof.
  intros Hu. unfold ProductUI_json, short_ui in *. destruct (UI_Contract u) as [c|]; unfold omit_nil.
  - destruct Hu as [Ho Hc]. pose proof (tidy_ui_contract d c Ho Hc). fold (field "contract" (UIContract_json c)).
    tidy_pieces.
  - rewrite app_nil_r. tidy_pieces.
Qed.

(** ** Names and texts *)

Lemma pattern_ascii f s : MatchString portName s = true → (∀ a, label_byte a = true → f a = true) → all_bytes f s = true.
Proof.
  intros Hm%MatchString_spec Hf. apply (within_spec f _ _ Hm).
  assert (∀ a, label_edge a = true → f a = true) as He.
  { intros a Ha. apply Hf. unfold label_byte. unfold label_edge in Ha. by rewrite Ha. }
  cbn. split_and!; done.
Qed.

Lemma label_ascii a : label_byte a = true → byte_in 0 0x7F a = true.
Proof. destruct a as [[] [] [] [] [] [] [] []]; done. Qed.

Lemma port_name_valid s : port_name s = true → ValidString s = true.
Proof.
  intros [_ Hm]%andb_true_iff. apply (ascii_valid label_byte); [apply label_ascii|]. by apply pattern_ascii.
Qed.

Lemma url_bytes_valid s : all_bytes url_byte s = true → ValidString s = true.
Proof. apply ascii_valid. intros a. destruct a as [[] [] [] [] [] [] [] []]; done. Qed.

(** A text the decoder sees as ASCII is the text itself. *)
Lemma valid_text_ascii s : all_bytes (byte_in 0 0x7F) (valid_text s) = true → valid_text s = s.
Proof.
  text_cases s; [done|cbn [valid_text]; rewrite Ha; try rewrite Hn..]; cbn [all_bytes]; rewrite ?Ha; try done.
  intros H. cbn [andb] in H. by rewrite IH.
Qed.

Lemma valid_text_is s t : all_bytes (byte_in 0 0x7F) t = true → valid_text s = t ↔ s = t.
Proof.
  intros Ht. split; [intros <-; by rewrite (valid_text_ascii s)|intros ->]. apply valid_text_id.
  by apply (ascii_valid (byte_in 0 0x7F)).
Qed.

(** ** Outputs read back *)

Definition seen_output (o : OutputPort) : output :=
  mkOutput (valid_text (Output_Name o)) (valid_text (Output_Protocol o)) (valid_text (Output_URL o))
    (valid_text (Output_ContractURL o)) (valid_text (Output_MediaType o)).

Lemma nested_output d o : nested (S d) (OutputPort_json o) = true.
Proof. apply (tidy_nested _ _ _ (tidy_output d o)). Qed.

Lemma exact_output o : exactFields (encode (OutputPort_json o))
  ["name"; "protocol"; "url"; "contractUrl"]%string ["mediaType"%string] = true.
Proof.
  unfold exactFields, OutputPort_json.
  rewrite (object_texts_encode 0); [|exact (nested_output 0 o)|vm_compute; discriminate].
  unfold omit_string. case_bool_decide; rewrite !map_map; reflexivity.
Qed.

Lemma read_output o : unmarshal_output (encode (OutputPort_json o)) = Some (seen_output o).
Proof.
  unfold unmarshal_output. rewrite (document_value_encode 1); [|exact (nested_output 0 o)|vm_compute; discriminate].
  destruct o as [n p u c m]. unfold OutputPort_json, omit_string, seen_output. cbn [Output_Name Output_Protocol
    Output_URL Output_ContractURL Output_MediaType].
  case_bool_decide as Hm; [subst m|]; reflexivity.
Qed.

(** The loop over outputs with distinct names ends with the one of that name. *)
Definition with_name (name : string) (l : list OutputPort) : option OutputPort :=
  find_first (λ o, String.eqb (Output_Name o) name) l.

Lemma select_published name l : ∀ seen selected,
  Forall (λ o, port_name (Output_Name o) = true ∧ Output_Name o ∉ seen) l → NoDup (map Output_Name l) →
  select_loop name (map encode (map OutputPort_json l)) seen selected =
    Some (match with_name name l with Some o => Some (seen_output o) | None => selected end).
Proof.
  induction l as [|o l IH]; intros seen selected; [done|].
  intros [[Ho Hs] Hl]%list.Forall_cons [Hn Hd]%list.NoDup_cons. cbn [map select_loop].
  rewrite exact_output, read_output. cbn [negb mbind option_bind O_Name seen_output].
  rewrite (valid_text_id _ (port_name_valid _ Ho)), Ho, bool_decide_eq_false_2 by done. cbn [negb orb].
  unfold with_name. cbn [find_first]. rewrite IH; [|apply list.Forall_forall; intros p Hp|done].
  - unfold with_name. destruct (String.eqb_spec (Output_Name o) name) as [Heq|Hne].
    + rewrite bool_decide_eq_true_2 by done. destruct (find_first _ l) as [p|] eqn:Hf; [|done].
      apply find_first_elem in Hf as [Hp Hq%String.eqb_eq]. exfalso. apply Hn. rewrite Heq, <- Hq.
      by apply list_elem_of_fmap_2.
    + by rewrite bool_decide_eq_false_2.
  - rewrite list.Forall_forall in Hl. destruct (Hl p Hp) as [Hpn Hps]. split; [done|].
    apply not_elem_of_union. split; [|done]. intros Heq%elem_of_singleton.
    apply Hn. rewrite <- Heq. by apply list_elem_of_fmap_2.
Qed.

Lemma with_name_spec name l : NoDup (map Output_Name l) → ∀ o,
  with_name name l = Some o ↔ o ∈ l ∧ Output_Name o = name.
Proof.
  intros Hd o. unfold with_name. split.
  - by intros [Ho Hn%String.eqb_eq]%find_first_elem.
  - induction l as [|p l IH]; [by intros [?%elem_of_nil _]|]. cbn [map] in Hd.
    apply list.NoDup_cons in Hd as [Hn Hd]. cbn [find_first].
    intros [[->|Ho]%elem_of_cons Hname]; [by rewrite (proj2 (String.eqb_eq _ _) Hname)|].
    destruct (String.eqb_spec (Output_Name p) name) as [Hp|_]; [|by apply IH].
    exfalso. apply Hn. rewrite Hp, <- Hname. by apply list_elem_of_fmap_2.
Qed.

(** A member of a written object, by name. *)
Lemma written_lookup fs k v : NoDup (map fst fs) → Forall (λ f, plain_key (fst f) = true) fs → (k, v) ∈ fs →
  text_map (map written_member fs) !! k = Some (encode v).
Proof.
  intros Hd Hk Hin.
  assert (map fst (map written_member fs) = map fst fs) as Hmap.
  { rewrite map_map. apply map_ext_in. intros f Hf%list_elem_of_In. rewrite list.Forall_forall in Hk.
    specialize (Hk f Hf). unfold plain_key in Hk. apply andb_true_iff in Hk as [Hk _]. by apply valid_text_id. }
  assert (plain_key k = true) as Hp by (rewrite list.Forall_forall in Hk; by apply (Hk (k, v))).
  unfold plain_key in Hp. apply andb_true_iff in Hp as [Hp _].
  assert (written_member (k, v) = (k, encode v)) as Hw by (unfold written_member; cbn [fst snd]; by rewrite valid_text_id).
  unfold text_map. change k with (fst (k, encode v)) at 1. change (encode v) with (snd (k, encode v)) at 2. rewrite <- Hw.
  apply fill_lookup; [by rewrite Hmap|]. by apply list_elem_of_fmap_2.
Qed.

Lemma read_text s : unmarshal_string (encode (JString s)) = Some (valid_text s).
Proof. unfold unmarshal_string. by rewrite (document_value_encode 0). Qed.

Lemma written_outputs fs version kind (l : list json) (d : nat) e : tidy (S d) (JObject fs) e →
  (Z.of_nat d <= 32)%Z → ("apiVersion"%string, JString version) ∈ fs → ("kind"%string, JString kind) ∈ fs →
  ("outputs"%string, JArray l) ∈ fs → (0 < len l <= 1024)%Z →
  valid_text version = "data-product-descriptor/v1" → valid_text kind = "DataProduct" →
  descriptor_outputs (encode (JObject fs)) = Some (map encode l).
Proof.
  intros [Hn Hk _] Hd Hv Hki Ho Hl Ev Ek. unfold descriptor_outputs.
  rewrite (object_texts_encode d) by (try done; unfold maxNestingDepth; lia). cbn [mbind option_bind from_option id].
  cbn [distinct_keys] in Hk. apply andb_true_iff in Hk as [Hd'%bool_decide_eq_true Hk].
  assert (Forall (λ f, plain_key (fst f) = true) fs) as Hp.
  { apply list.Forall_forall. intros f Hf. rewrite forallb_elem in Hk. by apply Hk, andb_true_iff in Hf as [? _]. }
  rewrite (written_lookup fs _ _ Hd' Hp Hv), (written_lookup fs _ _ Hd' Hp Hki), (written_lookup fs _ _ Hd' Hp Ho).
  cbn [from_option id]. rewrite !read_text, Ev, Ek. cbn [mbind option_bind]. rewrite !bool_decide_eq_true_2 by done. cbn [negb].
  assert (nested d (JArray l) = true) as Hnl.
  { unfold nested in Hn |- *. cbn [shaped] in Hn. rewrite forallb_elem in Hn.
    by apply Hn, andb_true_iff in Ho as [_ ?]. }
  destruct d as [|d]; [done|].
  rewrite (array_texts_encode d) by (try done; unfold maxNestingDepth; lia). cbn [mbind option_bind from_option id].
  unfold len in *. rewrite length_map, (proj2 (Z.eqb_neq _ _)), (proj2 (Z.ltb_ge _ _)) by lia. done.
Qed.

Section Published.
Context `{C : ConditionApi} `{N : NameValidation}.

Lemma tidy_descriptor p :
  match UI (Spec p) with Some u => short_ui u | None => True end →
  tidy 8 (descriptor_json (portableDescriptorFor p)) 64.
Proof.
  intros Hu. unfold descriptor_json, product_fields.
  assert (PD_UI (P_Descriptor (portableDescriptorFor p)) = UI (Spec p)) as E.
  { unfold portableDescriptorFor, descriptorFor. destruct (readiness_for p), (composition_for p). done. }
  assert (tidy 7 (JObject (map (λ e, (fst e, health_json (snd e))) (P_Health (portableDescriptorFor p)))) 10) as Hh.
  { cbn [P_Health portableDescriptorFor map fst snd]. fold descriptorFor.
    set (d := descriptorFor p).
    eapply tidy_weaken; [eapply tidy_object; [repeat (eapply tidy_cons; [reflexivity|eauto with tidy| |apply Z.le_refl]);
      by constructor|apply (bool_decide_unpack _); vm_compute; exact I]|lia]. }
  rewrite E. clear E. revert Hh.
  generalize (JObject (map (λ e, (fst e, health_json (snd e))) (P_Health (portableDescriptorFor p)))).
  generalize (portableDescriptorFor p). intros d hj Hh.
  destruct (UI (Spec p)) as [u|]; unfold omit_nil at 1.
  - pose proof (tidy_ui 4 u Hu). fold (field "ui" (ProductUI_json u)). tidy_pieces.
  - cbn [app]. tidy_pieces.
Qed.
Lemma valid_short_ui u : validPublicUI u = true → short_ui u.
Proof.
  unfold validPublicUI, short_ui. destruct (_ || _); [done|]. destruct (_ <? _)%Z; [done|].
  destruct (UI_Contract u) as [c|]; [|done]. unfold validUIContract.
  destruct (UI_Capabilities c) as [l|]; [|done]. destruct (_ || _) eqn:Hg; [done|]. intros _.
  apply orb_false_iff in Hg as [Hg H3%Z.ltb_ge]. apply orb_false_iff in Hg as [_ H16%Z.ltb_ge]. done.
Qed.

Lemma projected p : PD_Outputs (P_Descriptor (portableDescriptorFor p)) = Outputs (Spec p) ∧
  PD_UI (P_Descriptor (portableDescriptorFor p)) = UI (Spec p).
Proof. unfold portableDescriptorFor, descriptorFor. by destruct (readiness_for p), (composition_for p). Qed.

(** What the registry has checked before it publishes. *)
Lemma published_facts p data : encodePortableDescriptor p = inl data →
  data = encode (descriptor_json (portableDescriptorFor p)) ∧ (slen data <= 65536)%Z ∧
  Forall (λ o, validPublicOutput o = true) (Outputs (Spec p)) ∧ NoDup (map Output_Name (Outputs (Spec p))) ∧
  (0 < len (Outputs (Spec p)) <= 1024)%Z ∧ match UI (Spec p) with Some u => short_ui u | None => True end.
Proof.
  intros Hp. pose proof (published_descriptor_profile p data Hp) as (Hdata & Hs & _ & (_ & Hnd & Hne & _) & _).
  unfold encodePortableDescriptor in Hp. destruct (withinDiscoveryBounds _) eqn:Hb; [|done].
  destruct (validPortableMetadata _) eqn:HV; [|done]. clear Hp. destruct (projected p) as [Eo Eu].
  unfold validPortableMetadata in HV. repeat match type of HV with (if ?b then _ else _) = _ => destruct b; [done|] end. rewrite !andb_true_iff in HV.
  destruct HV as ((((_ & Ho) & _) & _) & Hu).
  assert (len (map output_value (PD_Outputs (P_Descriptor (portableDescriptorFor p)))) <= 1024)%Z as Hl.
  { revert Hb. unfold descriptor_value, product_value. cbn [withinDiscoveryBounds forallb].
    rewrite !andb_true_iff, !Z.leb_le. tauto. }
  rewrite Eo, Eu in *. unfold len in *. rewrite length_map in Hl.
  split_and!; [done|done| |done| |done|].
  - apply list.Forall_forall. by apply forallb_elem.
  - destruct (Outputs (Spec p)); [done|]. cbn. lia.
  - destruct (UI (Spec p)); [|done]. by apply valid_short_ui.
Qed.
(** The documented rule of [IsDNS1123Label] is the consumer's rule for names. *)
Definition labels_are_ports : Prop := ∀ s, IsDNS1123Label s = [] → port_name s = true.

Lemma label_port s : labels_are_ports → validPublicLabel s = true → port_name s = true.
Proof.
  intros H Hs. apply H. unfold validPublicLabel, len in Hs. destruct (IsDNS1123Label s); [done|]. cbn in Hs.
  apply Z.eqb_eq in Hs. lia.
Qed.

Lemma public_https_valid s : validPublicHTTPS s = true → valid_text s = s.
Proof.
  unfold validPublicHTTPS. destruct (_ || _) eqn:Hg; [done|]. intros _.
  apply orb_false_iff in Hg as [_ Hg%negb_false_iff]. by apply valid_text_id, url_bytes_valid.
Qed.

Lemma protocol_valid s : validPublicProtocol s = true → valid_text s = s.
Proof.
  unfold validPublicProtocol. cbn [existsb]. rewrite !orb_true_iff, !bool_decide_eq_true.
  by intros [->|[->|[->|[->|[->|?]]]]].
Qed.

(** The output a consumer may use, from the product's declaration alone. *)
Definition supported (o : OutputPort) : bool :=
  (Output_Protocol o == "OpenAPI") && (Output_MediaType o == "application/json") &&
  literalHTTPS (Output_ContractURL o).
Definition chosen (outputs : list OutputPort) (name approved : string) : string + consumer_error :=
  match with_name name outputs with
  | Some o =>
      if negb (supported o) then inr errDescriptor
      else if literalHTTPS approved && (Output_URL o == approved) then inl approved
      else inr errEndpoint
  | None => inr errDescriptor
  end.

Lemma published_bounded p data : encodePortableDescriptor p = inl data → bounded_text data 65536 = true.
Proof.
  intros (-> & Hs & _ & _ & _ & Hu)%published_facts.
  apply (bounded_written 8 _ 64); [by apply tidy_descriptor|lia..|done|lia].
Qed.

Lemma published_outputs p data : encodePortableDescriptor p = inl data →
  descriptor_outputs data = Some (map encode (map OutputPort_json (Outputs (Spec p)))).
Proof.
  intros (-> & _ & _ & _ & Hl & Hu)%published_facts. pose proof (tidy_descriptor p Hu) as Ht.
  destruct (projected p) as [Eo _]. rewrite <- Eo in *. unfold descriptor_json in *.
  eapply (written_outputs _ _ _ _ 7 _ Ht); [done|..]; unfold product_fields, field;
    rewrite ?elem_of_app, ?list_elem_of_singleton; try tauto; try done.
  unfold len in *. by rewrite length_map.
Qed.

Lemma published_select p data name approved : labels_are_ports → encodePortableDescriptor p = inl data →
  select_text data name approved = chosen (Outputs (Spec p)) name approved.
Proof.
  intros HN Hp. pose proof (published_facts p data Hp) as (_ & _ & Ho & Hnd & _).
  unfold select_text, chosen. rewrite (published_outputs p data Hp).
  assert (Forall (λ o, port_name (Output_Name o) = true ∧ Output_Name o ∉ (∅ : gset string)) (Outputs (Spec p))) as Hports.
  { eapply list.Forall_impl; [exact Ho|]. intros o Hv. cbv beta in Hv. unfold validPublicOutput in Hv. rewrite !andb_true_iff in Hv.
    split; [|apply not_elem_of_empty]. apply label_port; tauto. }
  rewrite (select_published name _ ∅ None Hports Hnd).
  destruct (with_name name (Outputs (Spec p))) as [o|] eqn:Hname; [|by destruct (port_name name)].
  apply (with_name_spec _ _ Hnd) in Hname as [Hin <-].
  rewrite list.Forall_forall in Hports, Ho. destruct (Hports o Hin) as [-> _]. specialize (Ho o Hin).
  cbv beta in Ho. unfold validPublicOutput in Ho. rewrite !andb_true_iff in Ho. destruct Ho as [[[_ Hpr] Hurl] Hc].
  cbn [negb O_Protocol O_MediaType O_ContractURL O_URL seen_output].
  rewrite (protocol_valid _ Hpr), (public_https_valid _ Hurl), (public_https_valid _ Hc).
  rewrite (bool_decide_ext _ _ (valid_text_is (Output_MediaType o) "application/json" eq_refl)).
  unfold supported. rewrite !negb_andb. destruct (_ || _ || _); [done|].
  by destruct (literalHTTPS approved), (Output_URL o == approved).
Qed.
End Published.

(** ** The exchange *)

Section Exchange.
Context `{E : Env} `{T : ScalarApi}.

Lemma bounded_read input limit data w w' :
  ReadAll (Z.to_nat (limit + 1)) input (limit + 1) "" w = (Some (inl data), w') → bounded_text data limit = true →
  boundedJSON input limit w = (Some (Some data), w').
Proof. intros Hr Hb. unfold boundedJSON, mbind, st_bind. by rewrite Hr, Hb. Qed.

(** The URL that is asked for a station. *)
Definition asked (approved station : string) : string :=
  approved +:+ (if station == "" then "" else "?station=" +:+ station).

Lemma port_name_query s : port_name s = true → QueryEscape s = s.
Proof.
  intros [_ Hm]%andb_true_iff. apply unreserved_escape, pattern_ascii; [done|].
  intros a. destruct a as [[] [] [] [] [] [] [] []]; done.
Qed.

Lemma literal_url approved : literalHTTPS approved = true → ∃ u, Parse approved = Some u ∧
  URL_String (ForceQuery approved u) u = approved.
Proof.
  unfold literalHTTPS. destruct (_ || _); [done|]. destruct (negb _); [done|].
  destruct (Parse approved) as [u|]; [|done]. destruct (_ || _) eqn:Hg; [done|]. intros _. exists u. split; [done|].
  apply orb_false_iff in Hg as [Hg _]. apply orb_false_iff in Hg as [_ Hg].
  by apply negb_false_iff, bool_decide_eq_true in Hg.
Qed.

Lemma query_asked approved station url : literalHTTPS approved = true → station = "" ∨ port_name station = true →
  query_url approved station = Some url → url = asked approved station.
Proof.
  intros (u & Hu & Hs)%literal_url Hst. unfold query_url. rewrite Hu. cbn [mbind option_bind].
  destruct (_ || _) eqn:Hg; [done|]. apply orb_false_iff in Hg as [Hq Hf]. rewrite Hf in *.
  apply negb_false_iff, bool_decide_eq_true in Hq. intros [= <-]. unfold asked. case_bool_decide as He; [by rewrite str_app_nil_r|].
  destruct Hst as [?|Hst]; [done|]. rewrite <- Hs. unfold URL_String, encode_values, EscapedPath.
  cbn [Scheme Host Path RawPath RawQuery map join fst snd orb]. rewrite (port_name_query _ Hst), Hq.
  rewrite <- !str_app_assoc. reflexivity.
Qed.
(** *** Which output is selected *)

Lemma chosen_iff l name approved endpoint : NoDup (map Output_Name l) →
  chosen l name approved = inl endpoint ↔ endpoint = approved ∧ literalHTTPS approved = true ∧
    ∃ o, o ∈ l ∧ Output_Name o = name ∧ supported o = true ∧ Output_URL o = approved.
Proof.
  intros Hnd. unfold chosen. split.
  - destruct (with_name name l) as [o|] eqn:Ho; [|done]. apply (with_name_spec _ _ Hnd) in Ho as [Hin Hname].
    destruct (supported o) eqn:Hs; [|done]. cbn [negb]. destruct (literalHTTPS approved); [|done]. cbn [andb].
    case_bool_decide as Hu; [|done]. intros [= <-]. split_and!; [done|done|]. by exists o.
  - intros (-> & Hlit & o & Hin & Hname & Hs & Hu).
    rewrite (proj2 (with_name_spec name l Hnd o)), Hs, Hlit by done. cbn [negb andb]. by rewrite bool_decide_eq_true_2.
Qed.

(** C36.  The consumer reads every descriptor the registry publishes: it selects an endpoint exactly when
    the product declares an output of that name with the supported protocol, media type and contract and
    with that very endpoint, and otherwise it says whether the output or the endpoint was at fault. *)
Theorem published_output_selected `{C : ConditionApi} `{N : NameValidation}
    (p : DataProduct) (data : string) (input : io_Reader) (name approved : string) (w w' : World) :
  labels_are_ports → encodePortableDescriptor p = inl data →
  ReadAll (Z.to_nat (65536 + 1)) input (65536 + 1) "" w = (Some (inl data), w') →
  selectOutput input name approved w = (Some (chosen (Outputs (Spec p)) name approved), w') ∧
  ∀ endpoint, chosen (Outputs (Spec p)) name approved = inl endpoint ↔
    endpoint = approved ∧ literalHTTPS approved = true ∧
    ∃ o, o ∈ Outputs (Spec p) ∧ Output_Name o = name ∧ supported o = true ∧ Output_URL o = approved.
Proof.
  intros HN Hp Hr. pose proof (published_facts p data Hp) as (_ & _ & _ & Hnd & _). split.
  - unfold selectOutput, mbind, st_bind. rewrite (bounded_read _ _ _ _ _ Hr (published_bounded p data Hp)).
    by rewrite (published_select p data name approved HN Hp).
  - intros endpoint. by apply chosen_iff.
Qed.

(** *** What is contacted and returned *)

Lemma selected_approved input name approved w endpoint w' :
  selectOutput input name approved w = (Some (inl endpoint), w') →
  endpoint = approved ∧ literalHTTPS approved = true.
Proof.
  unfold selectOutput, mbind, st_bind. destruct (boundedJSON input 65536 w) as [[[data|]|] w1]; [|done..].
  intros [= H _]. revert H. unfold select_text. destruct (negb (port_name name)); [done|].
  destruct (descriptor_outputs data) as [outputs|]; [|done]. destruct (select_loop _ _ _ _) as [[o|]|]; [|done..].
  destruct (_ || _); [done|]. destruct (literalHTTPS approved); [|done]. cbn [negb orb].
  destruct (O_URL o != approved); [done|]. by intros [= <-].
Qed.

(** An observation the consumer may return. *)
Definition sound_observation (station : string) (o : observation) : Prop :=
  port_name (Station o) = true ∧ (station ≠ "" → Station o = station) ∧ IsZeroTime (ObservedAt o) = false.

Lemma read_item_sound station raw o : read_item station raw = Some o → sound_observation station o.
Proof.
  unfold read_item. destruct (negb _); [done|]. destruct (unmarshal_item raw) as [[[s|] [x|] [y|] [t|]]|]; try done.
  cbn [mbind option_bind]. destruct (_ || _) eqn:Hg; [done|]. intros [= <-].
  apply orb_false_iff in Hg as [Hg Ht]. apply orb_false_iff in Hg as [Hn Hs]. unfold sound_observation.
  cbn [Station ObservedAt]. apply negb_false_iff in Hn. split_and!; [done| |done]. intros Hne.
  rewrite bool_decide_eq_false_2 in Hs by done. by apply negb_false_iff, bool_decide_eq_true in Hs.
Qed.

Lemma read_items_sound station data items : read_items station data = Some items →
  (len items <= 64)%Z ∧ Forall (sound_observation station) items.
Proof.
  unfold read_items. destruct (negb _); [done|]. destruct (object_texts data) as [members|]; [|done].
  cbn [mbind option_bind]. destruct (array_texts _) as [[raws|]|]; [|done..]. cbn [mbind option_bind].
  destruct (Z.ltb_spec 64 (len raws)) as [|Hl]; [done|]. intros Hm. split.
  - apply length_mapM in Hm. unfold len in *. lia.
  - apply mapM_Some in Hm. clear Hl. induction Hm as [|raw o raws items Ho _ IH]; constructor; [|done].
    by apply (read_item_sound station raw).
Qed.

Lemma ask_sound ctx client url station w items w' :
  ask ctx client url station w = (Some (inl items), w') →
  (len items <= 64)%Z ∧ Forall (sound_observation station) items.
Proof.
  unfold ask, mbind, st_bind. destruct (client ctx _ w) as [[response|e] w1]; [|done].
  destruct (read_response ctx station response w1) as [result w2] eqn:Hr. destruct (CloseBody response w2) as [[] w3].
  intros [= -> <-]. revert Hr. unfold read_response, mbind, st_bind. destruct (negb _); [done|].
  destruct (boundedJSON _ _ w1) as [[[data|]|] w4]; cbn [non_nil]; [|done..].
  destruct (Err ctx w4) as [late w5]. destruct (non_nil late); [done|].
  destruct (read_items station data) as [l|] eqn:Hl; [|done]. intros [= <- <-]. by apply (read_items_sound _ data).
Qed.

Lemma boundedJSON_total input limit w : progressive input → fst (boundedJSON input limit w) ≠ None.
Proof.
  intros Hp. unfold boundedJSON, mbind, st_bind.
  pose proof (ReadAll_total (Z.to_nat (limit + 1)) input (limit + 1) "" w Hp ltac:(lia)) as H.
  by destruct (ReadAll _ input _ _ w) as [[[data|e]|] w1].
Qed.

(** A client whose answers have bodies that end. *)
Definition ending_bodies (client : http_client) : Prop := ∀ ctx request w response,
  fst (client ctx request w) = inl response → progressive (Body response).

Lemma ask_total ctx client url station w : ending_bodies client → fst (ask ctx client url station w) ≠ None.
Proof.
  intros Hc. unfold ask, mbind, st_bind. specialize (Hc ctx (mkRequest url "application/json") w).
  destruct (client ctx _ w) as [[response|e] w1]; [|done]. specialize (Hc response eq_refl).
  destruct (read_response ctx station response w1) as [result w2] eqn:Hr. destruct (CloseBody response w2) as [[] w3].
  cbn. revert Hr. unfold read_response, mbind, st_bind. destruct (negb _); [by intros [= <- _]|].
  pose proof (boundedJSON_total _ 1048576 w1 Hc) as Ht.
  destruct (boundedJSON _ _ w1) as [[[data|]|] w4]; cbn [non_nil]; [|by intros [= <- _]|done].
  destruct (Err ctx w4) as [late w5]. by intros [= <- _].
Qed.

Lemma station_port (station : string) : (station != "") && negb (port_name station) = false →
  station = "" ∨ port_name station = true.
Proof. case_bool_decide as Hs; [by left|]. cbn [negb andb]. intros H%negb_false_iff. by right. Qed.

(** C39.  Whatever the descriptor says, the consumer contacts nothing but the endpoint its caller approved,
    asked for the caller's station: clients that answer that request alike are indistinguishable.  What it
    returns is at most 64 observations, each of a valid station, the caller's if one was named, with a
    time.  It returns if the readers it is given make progress. *)
Theorem consumer_contacts_approved (ctx : Ctx) (input : io_Reader) (name approved station : string)
    (client client' : http_client) (w : World) :
  (∀ ctx' w', client ctx' (mkRequest (asked approved station) "application/json") w' =
              client' ctx' (mkRequest (asked approved station) "application/json") w') →
  consume ctx input name approved station (Some client) w = consume ctx input name approved station (Some client') w ∧
  (∀ items, fst (consume ctx input name approved station (Some client) w) = Some (inl items) →
    literalHTTPS approved = true ∧ (len items <= 64)%Z ∧ Forall (sound_observation station) items) ∧
  (progressive input → ending_bodies client →
   fst (consume ctx input name approved station (Some client) w) ≠ None).
Proof.
  intros Hsame. unfold consume, mbind, st_bind.
  destruct (selectOutput input name approved w) as [selected w1] eqn:Hsel. split; [|split].
  - destruct selected as [[endpoint|e]|]; [|done..]. apply selected_approved in Hsel as [-> Hlit].
    destruct ((station != "") && _) eqn:Hst; [done|]. destruct (WithTimeout ctx _ w1) as [ctx' w2].
    destruct (query_url approved station) as [url|] eqn:Hurl; [|done]. destruct (non_nil (Parse url)); [|done].
    apply query_asked in Hurl; [|done|by apply station_port]. subst url. unfold ask, mbind, st_bind. by rewrite Hsame.
  - intros items. destruct selected as [[endpoint|e]|]; [|done..]. apply selected_approved in Hsel as [-> Hlit].
    destruct (_ && _); [done|]. destruct (WithTimeout ctx _ w1) as [ctx' w2].
    destruct (query_url approved station) as [url|]; [|done]. destruct (non_nil (Parse url)); [|done].
    destruct (ask ctx' client url station w2) as [result w3] eqn:Ha. cbn [fst]. intros ->.
    split; [done|]. by apply (ask_sound _ _ _ _ _ _ _ Ha).
  - intros Hin Hc. destruct selected as [[endpoint|e]|]; [|done|].
    + destruct (_ && _); [done|]. destruct (WithTimeout ctx _ w1) as [ctx' w2].
      destruct (query_url endpoint station) as [url|]; [|done]. destruct (non_nil (Parse url)); [|done]. by apply ask_total.
    + exfalso. revert Hsel. unfold selectOutput, mbind, st_bind.
      pose proof (boundedJSON_total input 65536 w Hin) as H. by destruct (boundedJSON input 65536 w) as [[[d|]|] w2].
Qed.
End Exchange.

(** ** Witnesses *)

#[local] Existing Instances ref_env ref_conditions ref_names.

Lemma up_to_star f n : ∀ t, Matches (RUpTo n (RClass f)) t → Matches (RStar (RClass f)) t.
Proof.
  induction n as [|n IH]; intros t Ht; cbn [RUpTo] in Ht; [inversion Ht; constructor|].
  inversion Ht as [| | |? ? ? H|? ? ? H| |]; subst; [inversion H; constructor|].
  apply cat_inv in H as (t1 & t2 & -> & H1 & H2). inversion H1; subst. constructor; [done|by apply IH].
Qed.

Lemma ref_label_ports : labels_are_ports.
Proof.
  intros s. cbn [IsDNS1123Label ref_names]. destruct (MatchString dns_label s) eqn:Hm; [|done]. intros _.
  apply MatchString_spec in Hm. unfold port_name. apply andb_true_iff. split.
  - apply longest_spec with (n := 63) in Hm; [|reflexivity]. apply Z.leb_le. unfold slen. lia.
  - apply MatchString_spec. unfold portName, dns_label, ROpt in *.
    apply cat_inv in Hm as (s1 & s2 & -> & H1 & H2). constructor; [by inversion H1; constructor|].
    inversion H2; subst; [by apply MAltL|apply MAltR].
    match goal with H : Matches (RCat _ _) _ |- _ => apply cat_inv in H as (t1 & t2 & -> & Ht1 & Ht2) end.
    constructor; [|by inversion Ht2; constructor]. by apply (up_to_star _ 61).
Qed.

(** A product with an output the consumer supports. *)
Definition observations_output : OutputPort :=
  mkOutputPort "observations" ProtocolOpenAPI "https://data.example/observations"
    "https://data.example/openapi.json" "application/json".
Definition sample_harbour : DataProduct :=
  sample "shop" "harbour" [] [sample_output; observations_output] [sample_ready].
Definition one_read (data : string) : io_Reader := λ n w, ((data, ReadEOF), w).

Lemma published_output_selected_witness : ∃ data, encodePortableDescriptor sample_harbour = inl data ∧
  fst (selectOutput (one_read data) "observations" "https://data.example/observations" sample_world) =
    Some (inl "https://data.example/observations"%string) ∧
  fst (selectOutput (one_read data) "observations" "https://evil.example/" sample_world) = Some (inr errEndpoint).
Proof.
  assert (∃ data, encodePortableDescriptor sample_harbour = inl data) as [data Hp] by (eexists; vm_compute; reflexivity).
  exists data. split; [exact Hp|].
  pose proof (λ name approved, published_output_selected sample_harbour data (one_read data) name approved
    sample_world sample_world ref_label_ports Hp) as H.
  split.
  - destruct (H "observations"%string "https://data.example/observations"%string) as [-> _]; [reflexivity|].
    vm_compute. reflexivity.
  - destruct (H "observations"%string "https://evil.example/"%string) as [-> _]; [reflexivity|].
    vm_compute. reflexivity.
Defined.

(** Numbers and times as texts. *)
Definition text_scalars : ScalarApi := {|
  float64 := string; ParseFloat := Some; MarshalFloat := λ t, t;
  time := string; UnmarshalTime := Some; IsZeroTime := λ t, t == ""; MarshalTime := Some |}.
#[local] Existing Instance text_scalars.

Definition quoted (s : string) : string := quote_byte +:+ s +:+ quote_byte.
Definition sample_answer : string :=
  "{" +:+ quoted "items" +:+ ":[{" +:+ quoted "station" +:+ ":" +:+ quoted "pier-1" +:+ "," +:+
  quoted "temperatureCelsius" +:+ ":4.5," +:+ quoted "salinityPsu" +:+ ":31," +:+
  quoted "observedAt" +:+ ":" +:+ quoted "2026-01-02T03:04:05Z" +:+ "}]}".
Definition sample_response : http_response :=
  mkResponse 200 "application/json" (one_read sample_answer) (mret tt).
(** A client that answers everything, and one that only knows the approved endpoint. *)
Definition any_client : http_client := λ _ _, mret (inl sample_response).
Definition careful_client : http_client := λ _ r,
  if RequestURL r == "https://data.example/observations?station=pier-1" then mret (inl sample_response)
  else mret (inr RForbidden).

Lemma consumer_contacts_approved_witness : ∃ data items, encodePortableDescriptor sample_harbour = inl data ∧
  fst (consume (E := ref_env) tt (one_read data) "observations" "https://data.example/observations" "pier-1"
    (Some careful_client) sample_world) = Some (inl items) ∧ len items = 1%Z ∧ Forall (sound_observation "pier-1") items.
Proof.
  assert (∃ data, encodePortableDescriptor sample_harbour = inl data ∧ ∃ items,
    fst (consume (E := ref_env) tt (one_read data) "observations" "https://data.example/observations" "pier-1"
      (Some any_client) sample_world) = Some (inl items) ∧ len items = 1%Z) as (data & Hp & items & Hi & Hl).
  { eexists. split; [vm_compute; reflexivity|]. eexists. split; vm_compute; reflexivity. }
  destruct (consumer_contacts_approved (E := ref_env) tt (one_read data) "observations"
    "https://data.example/observations" "pier-1" any_client careful_client sample_world) as (Heq & Hitems & _);
    [intros ctx w; reflexivity|].
  exists data, items. rewrite <- Heq. destruct (Hitems items Hi) as (_ & _ & Hs). exact (conj Hp (conj Hi (conj Hl Hs))).
Defined.
