(* ===== verification/WebHost.v ===== *)
(** * The portable hosts

    [internal/portablehost], [web/assets.go], [web/compatibility.go], [internal/uibundle],
    [internal/demoproduct] and the workspace of [internal/registry/handler.go]: the operator's transport choice, the health endpoint, the gated offline pages, content-addressed assets
    and the publication settings of the sample product.  The file server of [net/http] and the embedded
    files are parameters. *)

From Stdlib Require Import Ascii.
From stdpp Require Import pretty.
From S2P Require Import Prelude Kube Regex GoJson GoStrings GoUrl Config Sha256 GoFlag.

(** ** [net/http] and [net] *)

Record request := mkRequest {
  Method : string;
  URL_Path : string;
  URL_RawQuery : string;
  ContentLength : Z;
  TransferEncoding : list string;
  PathValue_asset : string
}.
Record response := mkResponse {
  Status_ : Z;
  Header : gmap string string;
  Body : string
}.
Definition line (s : string) : string := s +:+ one (ascii_of_N 10).
(** [http.Error], which replaces the content type, and [http.NotFound]. *)
Definition http_Error (headers : gmap string string) (text : string) (code : Z) : response :=
  mkResponse code (<["Content-Type" := "text/plain; charset=utf-8"]>
    (<["X-Content-Type-Options" := "nosniff"]> headers)) (line text).
Definition NotFound (headers : gmap string string) : response :=
  http_Error headers "404 page not found" 404.

(** [http.Redirect] with 307 to a path of its own. *)
Definition Redirect (path : string) (r : request) (headers : gmap string string) : response :=
  mkResponse 307
    (<["Content-Type" := "text/html; charset=utf-8"]> (<["Location" := path]> headers))
    (if Method r == "GET"
     then line (line ("<a href=" +:+ quote_byte +:+ path +:+ quote_byte +:+ ">Temporary Redirect</a>.")) else "").

(** [net.SplitHostPort]: host and port, or an error. *)
Definition SplitHostPort (hostport : string) : option (string * string) :=
  match cut_last ":" hostport with
  | None => None
  | Some (before, port) =>
      match before with
      | String.String a inner =>
          if Ascii.eqb a "[" then
            match cut_first "]" inner with
            | Some (host, "") =>
                if has_byte "[" inner || has_byte "[" port || has_byte "]" port then None
                else Some (host, port)
            | _ => None
            end
          else if has_byte ":" before || has_byte "[" hostport || has_byte "]" hostport then None
          else Some (before, port)
      | String.EmptyString =>
          if has_byte "[" hostport || has_byte "]" hostport then None else Some ("", port)
      end
  end.
(** [net.ParseIP(s) != nil]. *)
Definition is_IP (s : string) : bool :=
  match ParseAddr s with
  | Some (Addr4 _) => true
  | Some (Addr6 zone) => zone == ""
  | None => false
  end.

(** ** portablehost: options *)

Record Options := mkOptions {
  Address : string;
  Cert : string;
  Key : string;
  HTTPBehindGateway : bool
}.

Definition host_flags : list (flag Options) :=
  [StringVar "listen-address" (λ v o, mkOptions v (Cert o) (Key o) (HTTPBehindGateway o));
   StringVar "tls-cert" (λ v o, mkOptions (Address o) v (Key o) (HTTPBehindGateway o));
   StringVar "tls-key" (λ v o, mkOptions (Address o) (Cert o) v (HTTPBehindGateway o));
   BoolVar "http-behind-gateway" (λ v o, mkOptions (Address o) (Cert o) (Key o) v)].

Inductive host_error := ParseFailed (err : flag_error) | HostMessage (text : string).

(** The transport that was chosen. *)
Definition transport_error (o : Options) (explicitAddress : bool) : option string :=
  if HTTPBehindGateway o then
    if negb explicitAddress then Some "HTTP behind a gateway requires explicit --listen-address"
    else if (Cert o != "") || (Key o != "") then Some "HTTP behind a gateway cannot use TLS material"
    else None
  else if (Cert o == "") || (Key o == "") then Some "provide --tls-cert and --tls-key for the HTTPS host"
  else None.

(** The listener. *)
Definition listener_ok (address : string) : bool :=
  match SplitHostPort address with
  | None => false
  | Some (host, portText) =>
      match Atoi portText with
      | None => false
      | Some port => negb ((port <? 1)%Z || (65535 <? port)%Z || ((host != "localhost") && negb (is_IP host)))
      end
  end.

(** [ParseOptions]. *)
Definition ParseOptions (args : list string) : Options + host_error :=
  match ParseFlags host_flags args (mkOptions "127.0.0.1:8443" "" "" false) [] with
  | inr err => inr (ParseFailed err)
  | inl (o, actual, rest) =>
      if negb (len rest =? 0)%Z then inr (HostMessage "invalid portable host options")
      else match transport_error o (existsb (String.eqb "listen-address") actual) with
      | Some text => inr (HostMessage text)
      | None =>
          if listener_ok (Address o) then inl o
          else inr (HostMessage "listener requires an explicit IP or localhost and a port from 1 to 65535")
      end
  end.

(** [health]. *)
Definition health (r : request) : response :=
  let headers : gmap string string :=
    <["X-Content-Type-Options" := "nosniff"]> {["Cache-Control" := "no-store"]} in
  if (Method r != "GET") && (Method r != "HEAD") then
    http_Error (<["Allow" := "GET, HEAD"]> headers) "method not allowed" 405
  else if (URL_RawQuery r != "") || negb (ContentLength r =? 0)%Z || negb (len (TransferEncoding r) =? 0)%Z then
    http_Error headers "health accepts no input" 400
  else
    mkResponse 200 (<["Content-Length" := "3"]> (<["Content-Type" := "text/plain; charset=utf-8"]> headers))
      (if Method r == "GET" then line "ok" else "").

(** ** web: the gated pages *)

(** [KitOptions]; a nil callback is [None]. *)
Definition callback `{Env} : Type := option (ST World bool).
Definition called `{Env} (f : callback) : ST World bool :=
  match f with Some f => f | None => mret false end.
Record KitOptions `{Env} := mkKit {
  ContractEnabled : callback;
  AppearanceEnabled : callback;
  DiscoveryEnabled : callback;
  PublisherEnabled : callback
}.

Inductive asset_kind := ReportAsset | SharedAsset | KitAsset | OtherPath.
Definition kind_of_path (path : string) : asset_kind :=
  if existsb (String.eqb path)
       ["/publisher-review"; "/publisher.html"; "/publisher.css"; "/publisher.js"; "/preflight-report.js"]%string
  then ReportAsset
  else if existsb (String.eqb path) ["/metadata.js"; "/descriptor.js"]%string then SharedAsset
  else if existsb (String.eqb path) ["/"; "/index.html"; "/kit.css"; "/kit.js"; "/ui-contract.js"]%string
  then KitAsset
  else OtherPath.
#[export] Instance asset_kind_eq_dec : EqDecision asset_kind.
Proof. solve_decision. Defined.

Definition is_root (path : string) : bool := (path == "/") || (path == "/index.html").

(** The decision of the handler: the gates against the requested path. *)
Definition publisher_root (publisher contract : bool) (path : string) : bool :=
  publisher && negb contract && is_root path.
Definition path_allowed (publisher contract : bool) (path : string) : bool :=
  let kind := kind_of_path path in
  publisher && bool_decide (kind = ReportAsset) || (publisher || contract) && bool_decide (kind = SharedAsset) ||
  contract && bool_decide (kind = KitAsset) || publisher_root publisher contract path.

(** Double quotes of the markup. *)
Definition dq (s : string) : string := quote_byte +:+ s +:+ quote_byte.

(** [strings.Replace] with a count of one. *)
Definition page_policy (frames : string) : string :=
  "default-src 'self'; connect-src 'none'; frame-src " +:+ frames +:+
  "; frame-ancestors 'none'; object-src 'none'; base-uri 'none'".
Definition page_headers (frames : string) : gmap string string :=
  <["X-Content-Type-Options" := "nosniff"]>
  (<["Permissions-Policy" := "camera=(), geolocation=(), microphone=()"]>
  (<["Referrer-Policy" := "no-referrer"]>
  (<["Cache-Control" := "no-store"]>
  {["Content-Security-Policy" := page_policy frames]}))).

(** [workspaceNavigation]. *)
Definition workspaceNavigation (page : string) (publisherPage : bool) : string :=
  let current := " aria-current=" +:+ dq "page" in
  let '(kitCurrent, publisherCurrent) := if publisherPage then ("", current) else (current, "") in
  ReplaceFirst page "<!-- workspace-navigation -->"
    ("<nav id=" +:+ dq "workspace-navigation" +:+ " class=" +:+ dq "workspace-navigation" +:+ " aria-label=" +:+
     dq "Workspaces" +:+ ">" +:+ "<a href=" +:+ dq "/" +:+ kitCurrent +:+ ">Product UI workspace</a>" +:+
     "<a href=" +:+ dq "/publisher-review" +:+ publisherCurrent +:+ ">Publisher review</a></nav>").

Section Pages.
Context `{E : Env}.
(** The embedded files, and the file server over the given assets, which gets the headers that are set. *)
Context (ReadAsset : string → option string).
Context (files_ServeHTTP : gmap string string → request → response).

Definition html_headers (headers : gmap string string) : gmap string string :=
  <["Content-Type" := "text/html; charset=utf-8"]> headers.
Definition written (r : request) (headers : gmap string string) (page : string) : response :=
  mkResponse 200 headers (if Method r == "GET" then page else "").

(** The page of the publisher review. *)
Definition publisher_page (contract : bool) (r : request) (headers : gmap string string) : response :=
  match ReadAsset "publisher.html" with
  | None => http_Error headers "publisher review unavailable" 500
  | Some page => written r (html_headers headers) (if contract then workspaceNavigation page true else page)
  end.

(** The page of the kit. *)
Definition kit_page (options : KitOptions) (publisher : bool) (r : request) (headers : gmap string string)
  : ST World response :=
  match ReadAsset "index.html" with
  | None => mret (http_Error headers "kit unavailable" 500)
  | Some page =>
      appearance ← called (AppearanceEnabled options);
      discovery ← called (DiscoveryEnabled options);
      let body := "<body" +:+
        (if (appearance : bool) then " data-appearance-enabled=" +:+ dq "true" else "") +:+
        (if (discovery : bool) then " data-discovery-enabled=" +:+ dq "true" else "") +:+ ">" in
      let page := ReplaceFirst page "<body>" body in
      let page := if (publisher : bool) then workspaceNavigation page false else page in
      mret (written r (<["Cache-Control" := "no-store"]> (html_headers headers)) page)
  end.

(** [portableHandler]. *)
Definition portableHandler (options : KitOptions) (r : request) : ST World response :=
  publisher ← called (PublisherEnabled options);
  contract ← called (ContractEnabled options);
  let path := URL_Path r in
  if negb (path_allowed publisher contract path) || ((Method r != "GET") && (Method r != "HEAD")) then
    mret (NotFound ∅)
  else
    let frames := if (contract : bool) && bool_decide (kind_of_path path ≠ ReportAsset) then "https:" else "'none'" in
    let headers := page_headers frames in
    if publisher_root publisher contract path then
      mret (Redirect "/publisher-review" r headers)
    else if (path == "/publisher-review") || (path == "/publisher.html") then
      mret (publisher_page contract r headers)
    else if is_root path then kit_page options publisher r headers
    else mret (files_ServeHTTP headers r).

(** [PublisherHandler]. *)
Definition PublisherHandler (enabled : ST World bool) : request → ST World response :=
  portableHandler (mkKit _ None None None (Some enabled)).
End Pages.

(** ** uibundle *)

(** [Source], with what reading its file gives, [None] for an error. *)
Record source := mkSource {
  Source_contents : option string;
  Source_Path : string;
  Source_ContentType : string
}.
Record asset := mkAsset { contents : string; contentType : string; immutable : bool }.
Record Bundle := mkUIBundle { html : string; assets : gmap string asset }.

(** [path.Base] of a path that is not empty and does not end in a slash, and [path.Ext]. *)
Definition Base (p : string) : string :=
  match cut_last "/" p with Some (_, name) => name | None => p end.
Definition Ext (name : string) : string :=
  match cut_last "." name with Some (_, ext) => String.String "." ext | None => "" end.

(** The content-addressed name of an asset. *)
Definition fingerprinted (name contents : string) : string :=
  TrimSuffix name (Ext name) +:+ "-" +:+ hex_bytes (Sum256 contents) +:+ Ext name.

(** The loop of [Load]. *)
Fixpoint load_sources (sources : list source) (b : Bundle) : Bundle + string :=
  match sources with
  | [] => inl b
  | s :: sources' =>
      match Source_contents s with
      | None => inr "read"
      | Some bytes =>
          let name := Base (Source_Path s) in
          let address := fingerprinted name bytes in
          if non_nil (assets b !! name) then inr ("duplicate UI asset: " +:+ name)
          else
            load_sources sources' (mkUIBundle
              (ReplaceAll (html b) ("assets/" +:+ name) ("assets/" +:+ address))
              (<[address := mkAsset bytes (Source_ContentType s) true]>
                 (<[name := mkAsset bytes (Source_ContentType s) false]> (assets b))))
      end
  end.
(** [Load], for what reading the document gives. *)
Definition Load (index : option string) (sources : list source) : Bundle + string :=
  match index with
  | None => inr "read"
  | Some page => load_sources sources (mkUIBundle page ∅)
  end.

Definition ServeHTML (b : Bundle) (headers : gmap string string) : response :=
  mkResponse 200 (<["Cache-Control" := "no-store"]>
    (<["Content-Type" := "text/html; charset=utf-8"]> headers)) (html b).
Definition immutable_cache : string := "public, max-age=31536000, immutable".
Definition ServeAsset (b : Bundle) (headers : gmap string string) (name : string) : response :=
  match assets b !! name with
  | None => NotFound headers
  | Some file =>
      mkResponse 200
        (<["Cache-Control" := if immutable file then immutable_cache else "no-store"]>
         (<["Content-Type" := contentType file]> headers)) (contents file)
  end.

(** The composed runtime of [compatibility.go]: every other file keeps its contents. *)
Definition CompatibilityAssets_Open (Assets : string → option string) (name : string) : option string :=
  match Assets name with
  | None => None
  | Some file =>
      if name != "ui-contract.js" then Some file
      else match Assets "metadata.js" with
      | None => None
      | Some metadata => Some (line metadata +:+ file)
      end
  end.

(** ** The registry's workspace *)

(** The assets of [NewHandlerWithOptions] of the registry, over the embedded files of the registry and
    of [web]. *)
Definition css_type : string := "text/css; charset=utf-8".
Definition js_type : string := "text/javascript; charset=utf-8".
Definition registry_sources (uiFiles Assets : string → option string) : list source :=
  [mkSource (uiFiles "ui/registry.css") "ui/registry.css" css_type;
   mkSource (uiFiles "ui/registry.js") "ui/registry.js" js_type;
   mkSource (uiFiles "ui/lineage.js") "ui/lineage.js" js_type;
   mkSource (Assets "metadata.js") "metadata.js" js_type;
   mkSource (CompatibilityAssets_Open Assets "ui-contract.js") "ui-contract.js" js_type;
   mkSource (Assets "descriptor.js") "descriptor.js" js_type].
Definition registry_bundle (uiFiles Assets : string → option string) : Bundle + string :=
  Load (uiFiles "ui/index.html") (registry_sources uiFiles Assets).

(** [setUISecurityHeaders] of the registry. *)
Definition registry_policy : string :=
  "default-src 'self'; connect-src 'self'; frame-src 'none'; frame-ancestors 'none'; object-src 'none'; base-uri 'none'".
Definition registry_headers : gmap string string :=
  <["X-Content-Type-Options" := "nosniff"]>
  (<["Referrer-Policy" := "no-referrer"]>
  (<["Permissions-Policy" := "camera=(), geolocation=(), microphone=()"]>
  {["Content-Security-Policy" := registry_policy]})).
Definition registry_unavailable : response := http_Error ∅ "Unable to load the registry UI." 500.
Definition registryUI (bundle : Bundle + string) : response :=
  match bundle with inr _ => registry_unavailable | inl b => ServeHTML b registry_headers end.
Definition registryAsset (bundle : Bundle + string) (r : request) : response :=
  match bundle with
  | inr _ => registry_unavailable
  | inl b => ServeAsset b registry_headers (PathValue_asset r)
  end.

(** ** demoproduct *)

Record HandlerOptions := mkHandlerOptions {
  PublicBaseURL : string;
  HostOrigins : list string;
  AppearanceEnabled_ : bool
}.

(** [publicPath]. *)
Definition path_byte (a : ascii) : bool := alnum a || Ascii.eqb a "_" || Ascii.eqb a "-".
Definition publicPath : re := RStar (RCat (RChr "/") (RPlus (RClass path_byte))).

Definition accepted_origins (value : string) : bool :=
  match UIHostOrigins value with inl _ => true | inr _ => false end.

(** The check of a public base URL that is set. *)
Definition public_base_ok (baseURL : string) : bool :=
  match Parse baseURL with
  | None => false
  | Some parsed =>
      let origin := "https://" +:+ Host parsed in
      (slen baseURL <=? 1024)%Z && accepted_origins origin && (Scheme parsed == "https") && negb (User parsed) &&
      (baseURL == origin +:+ Path parsed) && MatchString publicPath (Path parsed)
  end.

(** [NewHandlerWithOptions]: the error, [None] when a handler for the options is returned. *)
Definition NewHandlerWithOptions (o : HandlerOptions) : option string :=
  if (PublicBaseURL o != "") && negb (public_base_ok (PublicBaseURL o)) then
    Some "PUBLIC_BASE_URL requires an exact HTTPS URL with an optional path prefix"
  else if AppearanceEnabled_ o &&
          (negb (accepted_origins (join "," (HostOrigins o))) || (len (HostOrigins o) =? 0)%Z) then
    Some "appearance requires publisher-approved HTTPS host origins"
  else None.

(** The content security policy around the sources the page may connect to. *)
Definition sample_policy (connectSources : string) : string :=
  "default-src 'self'; script-src 'self'; style-src 'self'; connect-src " +:+ connectSources +:+
  "; frame-ancestors https:; object-src 'none'; base-uri 'none'".
Definition releaseSourceURL : string := "https://api.github.com/repos/devantler-tech/ksail/releases".
Definition ui_sources (baseURL : string) : string :=
  if baseURL == "" then "'self'"
  else baseURL +:+ "/api/observations " +:+ baseURL +:+ "/ui-contract-config".
Definition release_sources (baseURL : string) : string :=
  if baseURL == "" then "'self' " +:+ releaseSourceURL
  else baseURL +:+ "/ksail-releases/ui-contract-config " +:+ releaseSourceURL.
Definition security_headers (policy : string) : gmap string string :=
  <["X-Content-Type-Options" := "nosniff"]>
  (<["Referrer-Policy" := "no-referrer"]> {["Content-Security-Policy" := policy]}).
(** [setUISecurityHeaders]. *)
Definition setUISecurityHeaders (baseURL : string) : gmap string string :=
  security_headers (sample_policy (ui_sources baseURL)).

(** [serveUI], for the bundle that was loaded. *)
Definition serveUI (bundle : Bundle + string) (o : HandlerOptions) (r : request) : response :=
  if Method r != "GET" then mkResponse 405 ∅ ""
  else match bundle with
  | inr _ => http_Error ∅ "product interface unavailable" 500
  | inl b =>
      let headers := setUISecurityHeaders (PublicBaseURL o) in
      if URL_Path r == "/ui" then ServeHTML b headers else ServeAsset b headers (PathValue_asset r)
  end.

(** The pages of [registerReleaseSurface]. *)
Definition serve_releases (bundle : Bundle + string) (o : HandlerOptions) (r : request) : response :=
  match bundle with
  | inr _ => http_Error ∅ "release interface unavailable" 500
  | inl b =>
      let headers := security_headers (sample_policy (release_sources (PublicBaseURL o))) in
      if URL_Path r == "/ksail-releases/ui" then ServeHTML b headers
      else ServeAsset b headers (PathValue_asset r)
  end.

(** The configuration both surfaces publish; a list without origins is the nil slice that
    [UIHostOrigins] gives for it, which is encoded as null. *)
Definition ui_contract_config (o : HandlerOptions) : response :=
  mkResponse 200
    (<["Access-Control-Allow-Origin" := "*"]> (<["Cache-Control" := "no-store"]>
      {["Content-Type" := "application/json"]}))
    (line (encode (JObject
      [("hostOrigins"%string,
        match HostOrigins o with [] => JNull | l => JArray (map JString l) end);
       ("appearanceEnabled"%string, JBool (AppearanceEnabled_ o))]))).

(** The liveness endpoint. *)
Definition demo_health (r : request) : response :=
  mkResponse (if Method r != "GET" then 405 else 200) ∅ "".
