(* ===== verification/WebHostSpec.v ===== *)
(** * The portable hosts: what is guaranteed

    An accepted transport is one of two explicit ones; a page is served only behind its release gates
    and under a policy without connections; an immutable response is content-addressed; accepted
    publication settings cannot inject into the policy they are written to. *)

From Stdlib Require Import Ascii.
From stdpp Require Import pretty.
From S2P Require Import Prelude Kube Regex GoJson GoStrings GoUrl GoQuery Config Sha256 GoFlag Reference WebHost.

(** ** Options *)

(** Accepted options serve TLS with both halves of the material, or plain HTTP without any of it on an
    address that was given explicitly; the listener is localhost or an IP address with a port. *)
Theorem transport_explicit args o : ParseOptions args = inl o →
  (if HTTPBehindGateway o then Cert o = "" ∧ Key o = "" ∧
     ∃ o' actual, ParseFlags host_flags args (mkOptions "127.0.0.1:8443" "" "" false) [] = inl (o', actual, []) ∧
       "listen-address" ∈ actual
   else Cert o ≠ "" ∧ Key o ≠ "") ∧
  ∃ host port n, SplitHostPort (Address o) = Some (host, port) ∧ Atoi port = Some n ∧ (1 <= n <= 65535)%Z ∧
    (host = "localhost" ∨ is_IP host = true).
Proof.
  unfold ParseOptions. destruct (ParseFlags _ _ _ _) as [[[o' actual] rest]|e] eqn:HP; [|done].
  destruct (len rest =? 0)%Z eqn:Hrest; [|done]. apply Z.eqb_eq in Hrest.
  assert (rest = []) as -> by (destruct rest; [done|unfold len in Hrest; cbn in Hrest; lia]).
  destruct (transport_error _ _) eqn:Ht; [done|]. destruct (listener_ok (Address o')) eqn:Hl; [|done].
  intros [= ->]. split.
  - unfold transport_error in Ht. destruct (HTTPBehindGateway o).
    + destruct (existsb _ actual) eqn:He; [|done]. destruct (_ || _) eqn:Hc; [done|]. go_bool. destruct Hc.
      split; [done|]. split; [done|]. exists o, actual. split; [done|].
      apply existsb_exists_elem in He as (x & Hx & Heq%String.eqb_eq). by subst.
    + destruct (_ || _) eqn:Hc; [done|]. go_bool. tauto.
  - unfold listener_ok in Hl. destruct (SplitHostPort (Address o)) as [[host port]|]; [|done].
    destruct (Atoi port) as [n|] eqn:Hn; [|done]. apply negb_true_iff in Hl.
    rewrite !orb_false_iff, !andb_false_iff in Hl. destruct Hl as [[H1 H2] H3].
    exists host, port, n. split_and!; [done|done|lia|lia|].
    destruct H3 as [H3|H3]; [left; by apply negb_false_iff, bool_decide_eq_true in H3|right].
    by apply negb_false_iff.
Qed.

(** ** Pages *)

Section Pages.
Context `{E : Env} (ReadAsset : string → option string)
  (files_ServeHTTP : gmap string string → request → response).

(** The headers of a page forbid connections, and frames unless the contract gate is on. *)
Definition inert_page (contract : bool) (headers : gmap string string) : Prop :=
  ∃ frames, headers !! "Content-Security-Policy" = Some (page_policy frames) ∧
    (frames = "'none'" ∨ contract = true ∧ frames = "https:").

Lemma inert_headers (contract : bool) path :
  inert_page contract (page_headers
    (if contract && bool_decide (kind_of_path path ≠ ReportAsset) then "https:" else "'none'")).
Proof.
  eexists. split; [reflexivity|]. destruct contract; [|by left].
  cbn [andb]. case_bool_decide; [by right|by left].
Qed.

(** What the gates let through. *)
Lemma allowed_gates publisher contract path : path_allowed publisher contract path = true →
  (kind_of_path path = ReportAsset → publisher = true) ∧
  (kind_of_path path = SharedAsset → publisher = true ∨ contract = true) ∧
  (kind_of_path path = KitAsset → contract = true ∨ publisher_root publisher contract path = true) ∧
  kind_of_path path ≠ OtherPath.
Proof.
  assert (is_root path = true → kind_of_path path = KitAsset) as Hroot.
  { unfold is_root, kind_of_path. intros [->%bool_decide_eq_true| ->%bool_decide_eq_true]%orb_true_iff; done. }
  unfold path_allowed. intros H. assert (kind_of_path path ≠ OtherPath) as Ho.
  { intros Hk. rewrite Hk in H. cbn in H. unfold publisher_root in H. destruct (is_root path); [by rewrite Hroot in Hk|].
    by destruct publisher, contract. }
  unfold publisher_root in *.
  destruct (kind_of_path path); destruct publisher, contract; cbn in H |- *; split_and!; intros;
    first [done | by auto | by left | by right].
Qed.

(** Every answer of the portable pages is a plain 404, or an answer to a GET or
    HEAD of a path the gates allow, under headers that forbid connections: a report asset needs the
    publisher gate, a shared asset one of the gates, and a kit asset the contract gate, except that a
    publisher without the kit is redirected from the root to the review. *)
Theorem portable_gates options r w publisher contract w1 w2 resp w'
    (Hpublisher : called (PublisherEnabled options) w = (publisher, w1))
    (Hcontract : called (ContractEnabled options) w1 = (contract, w2)) :
  portableHandler ReadAsset files_ServeHTTP options r w = (resp, w') →
  resp = NotFound ∅ ∧ w' = w2 ∨
  ∃ headers, inert_page contract headers ∧ (Method r = "GET" ∨ Method r = "HEAD") ∧
    kind_of_path (URL_Path r) ≠ OtherPath ∧
    (kind_of_path (URL_Path r) = ReportAsset → publisher = true) ∧
    (kind_of_path (URL_Path r) = SharedAsset → publisher = true ∨ contract = true) ∧
    (kind_of_path (URL_Path r) = KitAsset → contract = true ∨
       publisher = true ∧ resp = Redirect "/publisher-review" r headers) ∧
    (resp = files_ServeHTTP headers r ∨
     Header resp !! "Content-Security-Policy" = headers !! "Content-Security-Policy").
Proof.
  unfold portableHandler, mbind, st_bind. rewrite Hpublisher, Hcontract.
  destruct (_ || _) eqn:Hg; [intros [= <- <-]; by left|]. intros Hrun. right.
  apply orb_false_iff in Hg as [Ha%negb_false_iff Hm].
  assert (Method r = "GET" ∨ Method r = "HEAD") as Hmethod by (go_bool; tauto).
  destruct (allowed_gates _ _ _ Ha) as (A1 & A2 & A3 & A4).
  set (headers := page_headers _) in Hrun. exists headers. split; [apply inert_headers|].
  split; [done|]. split; [done|]. split; [done|]. split; [done|].
  destruct (publisher_root publisher contract (URL_Path r)) eqn:Hroot.
  { injection Hrun as <- <-. split; [right; by destruct publisher|]. right. cbn [Redirect Header]. by rewrite !lookup_insert_ne by done. }
  split; [intros Hk; destruct (A3 Hk); by left|]. destruct (_ || _).
  { injection Hrun as <- <-. right. unfold publisher_page. destruct (ReadAsset _); cbn [written http_Error Header];
      unfold html_headers; by rewrite !lookup_insert_ne by done. }
  destruct (is_root _); [|injection Hrun as <- <-; by left]. right.
  unfold kit_page, mbind, st_bind in Hrun. destruct (ReadAsset _).
  - destruct (called _ w2) as [appearance w3]. destruct (called _ w3) as [discovery w4]. injection Hrun as <- <-.
    cbn [written Header]. unfold html_headers. by rewrite !lookup_insert_ne by done.
  - injection Hrun as <- <-. cbn [http_Error Header]. by rewrite !lookup_insert_ne by done.
Qed.
End Pages.

(** ** Bundles *)

(** A bundle whose immutable assets are named by the digest of their contents. *)
Definition addressed (b : Bundle) : Prop := ∀ name file, assets b !! name = Some file → immutable file = true →
  ∃ base, name = fingerprinted base (contents file).

Lemma load_sources_addressed sources : ∀ b b', addressed b → load_sources sources b = inl b' → addressed b'.
Proof.
  induction sources as [|s sources IH]; intros b b' Hb; cbn [load_sources]; [by intros [= <-]|].
  destruct (Source_contents s) as [bytes|]; [|done]. destruct (non_nil _); [done|]. apply IH.
  intros name file. cbn [assets]. rewrite lookup_insert. case_decide as Hn.
  - intros [= <-] _. subst. by eexists.
  - rewrite lookup_insert. case_decide; [by intros [= <-]|]. apply Hb.
Qed.

Lemma response_immutable b headers name : headers !! "Cache-Control" = None →
  Header (ServeAsset b headers name) !! "Cache-Control" = Some immutable_cache →
  ∃ file, assets b !! name = Some file ∧ immutable file = true ∧ Body (ServeAsset b headers name) = contents file.
Proof.
  unfold ServeAsset. intros Hh. destruct (assets b !! name) as [file|]; cbn [Header Body].
  - rewrite lookup_insert_eq. destruct (immutable file) eqn:Hi; [|by intros [=]]. intros _. by exists file.
  - unfold NotFound, http_Error. cbn [Header]. by rewrite !lookup_insert_ne, Hh by done.
Qed.

(** A response that may be cached forever holds bytes whose SHA-256 digest is in the requested name, so
    two releases that serve different immutable bytes under one name collide in SHA-256. *)
Theorem immutable_content_addressed index sources b headers name
    (Hload : Load index sources = inl b) (Hheaders : headers !! "Cache-Control" = None) :
  Header (ServeAsset b headers name) !! "Cache-Control" = Some immutable_cache →
  ∃ base, name = fingerprinted base (Body (ServeAsset b headers name)).
Proof.
  intros Hc. destruct (response_immutable b headers name Hheaders Hc) as (file & Hf & Hi & ->).
  unfold Load in Hload. destruct index as [page|]; [|done].
  apply load_sources_addressed in Hload; [by eapply Hload|]. intros n f. cbn [assets]. by rewrite lookup_empty.
Qed.

(** The workspace of the registry is confined: whatever it serves but an error of its bundle is served
    under its policy, and what may be cached forever is content-addressed. *)
Theorem workspace_confined uiFiles Assets r :
  let bundle := registry_bundle uiFiles Assets in
  ∀ resp, resp ∈ [registryUI bundle; registryAsset bundle r] →
  resp = registry_unavailable ∨
  Header resp !! "Content-Security-Policy" = Some registry_policy ∧
  (Header resp !! "Cache-Control" = Some immutable_cache →
     ∃ base, PathValue_asset r = fingerprinted base (Body resp)).
Proof.
  intros bundle resp Hin. destruct bundle as [b|e] eqn:Hb; [right|left; set_solver].
  apply elem_of_cons in Hin as [->|Hin]; [by split|]. apply list_elem_of_singleton in Hin as ->. cbn [registryAsset].
  split; [|by apply (immutable_content_addressed _ _ b registry_headers (PathValue_asset r) Hb)].
  unfold ServeAsset. destruct (assets b !! _); [reflexivity|].
  unfold NotFound, http_Error. cbn [Header]. by rewrite !lookup_insert_ne by done.
Qed.

(** ** Publication settings *)

(** The bytes a hostname, an authority and a public base URL consist of. *)
Definition host_byte (a : ascii) : bool := lower a || digit a || one_of "-." a.
Definition base_byte (a : ascii) : bool := alnum a || one_of "-._:/[]" a.

Lemma ipv4_bytes s : ∀ val n acc l, ipv4_fields s val n acc = Some l → all_bytes host_byte s = true.
Proof.
  induction s as [|a s IH]; intros val n acc l; cbn [ipv4_fields all_bytes]; [done|].
  destruct (digit a) eqn:Hd.
  - destruct (_ && _); [done|]. destruct (_ <? _)%Z; [done|]. intros ->%IH. unfold host_byte. rewrite Hd.
    by rewrite orb_true_r.
  - destruct (Ascii.eqb_spec a ".") as [->|]; [|done]. destruct (_ || _); [done|]. by intros ->%IH.
Qed.

Lemma join_bytes f sep l : all_bytes f sep = true → Forall (λ s, all_bytes f s = true) l →
  all_bytes f (join sep l) = true.
Proof.
  intros Hsep Hl. induction Hl as [|s l Hs Hl IH]; [done|]. destruct l as [|s' l]; [done|].
  change (join sep (s :: s' :: l)) with (s +:+ (sep +:+ join sep (s' :: l))).
  by rewrite !all_bytes_app, Hs, Hsep, IH.
Qed.

Lemma label_bytes : within host_byte labelPattern.
Proof.
  assert (∀ a, label_edge a = true → host_byte a = true) as He
    by (unfold label_edge, host_byte; intros a ->; done).
  change ((∀ a, label_edge a = true → host_byte a = true) ∧ True ∧
    within host_byte (RUpTo 61 (RClass (λ a, label_edge a || Ascii.eqb a "-"))) ∧
    (∀ a, label_edge a = true → host_byte a = true)).
  split_and!; [done|exact I| |done]. apply within_up_to.
  intros a [Ha|Ha%Ascii.eqb_eq]%orb_true_iff; [by apply He|by subst].
Qed.

Lemma hostname_bytes host : validUIHostname host = true → all_bytes host_byte host = true.
Proof.
  unfold validUIHostname. destruct (_ || _ || _); [done|]. destruct (_ || _).
  - destruct (ParseAddr host) as [[fields|]|] eqn:HP; [|done..]. intros _. unfold ParseAddr in HP.
    destruct (address_kind host); [|done]. destruct (Ascii.eqb _ _).
    + unfold parseIPv4 in HP. destruct (ipv4_fields host 0 0 []) eqn:Hf; [|done]. by eapply ipv4_bytes.
    + destruct (Ascii.eqb _ _); [|done]. unfold parseIPv6 in HP. repeat split_guard_in HP; done.
  - rewrite forallb_elem. intros Hall.
    rewrite <- (join_split_byte "." host "" : join "." (Split host ".") = host).
    apply join_bytes; [done|]. apply list.Forall_forall. intros label Hl.
    apply Hall, MatchString_spec in Hl. exact (within_spec host_byte _ _ Hl label_bytes).
Qed.

Lemma host_base a : host_byte a = true → base_byte a = true.
Proof.
  unfold host_byte, base_byte, alnum. destruct (lower a), (digit a), (upper a); cbn; try done.
  all: unfold one_of; cbn; intros H; repeat (apply orb_true_iff in H as [H|H]); try done;
    rewrite H; by rewrite ?orb_true_r.
Qed.

(** *** Hosts of parsed URLs *)

(** What [unescape] lets through in a host. *)
Definition host_out (a : ascii) : bool := byte_in 0x80 0xFF a || host_safe a || one_of "% " a.

Lemma unhex_small a x : unhex a = Some x → (x < 16)%N.
Proof.
  assert (∀ lo hi n, in_range lo hi a = true → n = N_of_ascii a → (N_of_ascii lo <= n <= N_of_ascii hi)%N) as Hr.
  { unfold in_range. intros lo hi n H ->. apply andb_true_iff in H as [H1%N.leb_le H2%N.leb_le]. done. }
  unfold unhex, digit. destruct (in_range "0" "9" a) eqn:H1; [|destruct (in_range "a" "f" a) eqn:H2;
    [|destruct (in_range "A" "F" a) eqn:H3; [|done]]]; intros [= <-].
  - pose proof (Hr _ _ _ H1 eq_refl) as H. cbn in H. lia.
  - pose proof (Hr _ _ _ H2 eq_refl) as H. cbn in H. lia.
  - pose proof (Hr _ _ _ H3 eq_refl) as H. cbn in H. lia.
Qed.

Lemma decoded_byte x y : (x < 16)%N → (y < 16)%N →
  let v := (16 * x + y)%N in
  (8 <=? x)%N || (v =? 37)%N || (v =? 32)%N || host_safe (ascii_of_N v) = true → host_out (ascii_of_N v) = true.
Proof.
  intros Hx Hy v Hv. set (digits := map N.of_nat (seq 0 16)).
  assert (∀ n, (n < 16)%N → n ∈ digits) as Hd.
  { intros n Hn. apply list_elem_of_fmap. exists (N.to_nat n). split; [lia|]. apply elem_of_seq. lia. }
  assert (forallb (λ x, forallb (λ y, implb
    ((8 <=? x)%N || (16 * x + y =? 37)%N || (16 * x + y =? 32)%N || host_safe (ascii_of_N (16 * x + y)))
    (host_out (ascii_of_N (16 * x + y)))) digits) digits = true) as Hall by (vm_compute; reflexivity).
  rewrite forallb_elem in Hall. specialize (Hall x (Hd x Hx)). rewrite forallb_elem in Hall.
  specialize (Hall y (Hd y Hy)). cbn beta in Hall. unfold v in *. by rewrite Hv in Hall.
Qed.

Lemma unescape_bytes mode s : mode = encodeHost ∨ mode = encodeZone →
  ∀ t, unescape mode s = Some t → all_bytes host_out t = true.
Proof.
  intros Hmode. assert (∀ n s, String.length s <= n → ∀ t, unescape mode s = Some t → all_bytes host_out t = true)
    as H; [|by apply (H (String.length s))].
  clear s. induction n as [|n IH]; intros [|a s] Hn t; cbn in Hn; try lia; try (by intros [= <-]).
  cbn [unescape]. destruct (Ascii.eqb a "%").
  - destruct s as [|b [|c s]]; [done..|]. destruct (unhex b) as [x|] eqn:Hb; [|done].
    destruct (unhex c) as [y|] eqn:Hc; [|done]. cbn zeta. set (v := (16 * x + y)%N).
    match goal with |- context [if ?b then _ else _] => destruct b eqn:Ha; [|done] end.
    destruct (unescape mode s) as [t'|] eqn:E; [|done]. intros [= <-]. cbn [all_bytes].
    rewrite (IH s) by (first [done | cbn in Hn; lia]). rewrite andb_true_r.
    apply (decoded_byte x y); [by eapply unhex_small|by eapply unhex_small|]. fold v.
    destruct Hmode as [-> | ->]; cbn in Ha; go_bool; tauto.
  - match goal with |- context [if ?b then _ else _] => destruct b eqn:Ha; [|done] end.
    destruct (unescape mode s) as [t'|] eqn:E; [|done]. intros [= <-]. cbn [all_bytes].
    rewrite (IH s) by (first [done | lia]). rewrite andb_true_r. unfold host_out.
    by destruct Hmode as [-> | ->]; rewrite Ha.
Qed.

Lemma no_slash_out s : all_bytes host_out s = true → has_byte "/" s = false.
Proof. intros H. by apply (all_bytes_absent host_out). Qed.

Lemma parseHost_bytes scheme host h : parseHost scheme host = Some h →
  all_bytes (λ a, host_out a || one_of "[]" a) h = true.
Proof.
  assert (∀ s, all_bytes host_out s = true → all_bytes (λ a, host_out a || one_of "[]" a) s = true) as Hw.
  { intros s. apply all_bytes_impl. by intros a ->. }
  assert (∀ s t, unescape encodeHost s = Some t → all_bytes (λ a, host_out a || one_of "[]" a) t = true) as Hu.
  { intros s t Ht. apply Hw. eapply unescape_bytes; [by left|exact Ht]. }
  unfold parseHost. destruct (cut_last "[" host) as [[l r]|].
  - destruct (l != ""); [done|]. destruct (cut_last "]" r) as [[hostname port]|]; [|done].
    destruct (negb _); [done|]. destruct (unescape encodeHost port) as [p|] eqn:Hp; [|done].
    destruct (bracket_host hostname) as [b|] eqn:Hb; [|done]. intros [= <-].
    rewrite !all_bytes_app, (Hu _ _ Hp), andb_true_r. apply andb_true_iff. split; [done|].
    apply Hw. unfold bracket_host in Hb.
    destruct (split_at "%25" hostname) as [[x y]|].
    + destruct (unescape encodeHost x) as [x'|] eqn:Hx; [|done].
      destruct (unescape encodeZone y) as [y'|] eqn:Hy; [|done].
      destruct (ParseAddr _) as [a|]; [|done]. destruct (Is4 a); [done|]. injection Hb as <-.
      rewrite all_bytes_app. apply andb_true_iff.
      split; [exact (unescape_bytes encodeHost x (or_introl eq_refl) _ Hx)|
              exact (unescape_bytes encodeZone y (or_intror eq_refl) _ Hy)].
    + destruct (unescape encodeHost hostname) as [x'|] eqn:Hx; [|done].
      destruct (ParseAddr _) as [a|]; [|done]. destruct (Is4 a); [done|]. injection Hb as <-.
      exact (unescape_bytes encodeHost hostname (or_introl eq_refl) _ Hx).
  - destruct (if (_ : bool) then cut_first _ _ else _) as [[x y]|]; [|apply Hu].
    destruct (validOptionalPort _); [apply Hu|done].
Qed.

(** The host of a parsed URL holds no slash. *)
Lemma Parse_host_slash s u : Parse s = Some u → has_byte "/" (Host u) = false.
Proof.
  assert (∀ s u, parse_url s = Some u → has_byte "/" (Host u) = false) as H.
  { clear s u. intros s u. unfold parse_url. destruct (negb _); [done|]. destruct (s == "*"); [by intros [= <-]|].
    destruct (getScheme s) as [[sch rest]|]; [|done]. destruct (match cut_first "?" rest with Some _ => _ | None => _ end) as [p q].
    destruct (_ && _); [by intros [= <-]|]. destruct (_ && _); [done|].
    destruct (if (_ : bool) then Some _ else _) as [[auth path]|].
    - destruct (parseAuthority _ auth) as [[user h]|] eqn:Ha; [|done]. destruct (unescape _ path); [|done].
      intros [= <-]. cbn [Host]. unfold parseAuthority in Ha.
      assert (∃ x, parseHost (lower_ascii sch) x = Some h) as [x Hx].
      { destruct (cut_last "@" auth) as [[ui host]|].
        - destruct (parseHost _ host) as [h'|] eqn:E; [|done]. exists host. destruct (negb _); [done|].
          repeat (split_guard_in Ha; try done). by injection Ha as _ <-.
        - destruct (parseHost _ auth) as [h'|] eqn:E; [|done]. exists auth. by injection Ha as _ <-. }
      apply parseHost_bytes in Hx. by apply (all_bytes_absent (λ a, host_out a || one_of "[]" a)).
    - destruct (unescape _ p); [|done]. by intros [= <-]. }
  unfold Parse. destruct (cut_first "#" s) as [[l r]|]; [|apply H].
  destruct (parse_url l) as [v|] eqn:E; [|done]. destruct (unescape _ r); [|done]. intros [= <-]. by apply H in E.
Qed.

(** *** Accepted settings *)

Lemma has_byte_app a s t : has_byte a (s +:+ t) = has_byte a s || has_byte a t.
Proof. induction s as [|b s IH]; [done|]. by rewrite str_app_cons, !has_byte_cons, IH, orb_assoc. Qed.

Lemma Split_free sep l : Forall (λ s, has_byte sep s = false) l → l ≠ [] → Split (join (one sep) l) sep = l.
Proof.
  intros Hl Hne. apply Split_join; [done|]. eapply list.Forall_impl; [exact Hl|]. intros s. apply cut_first_absent.
Qed.

Lemma cut_last_Some sep s : ∀ l r, cut_last sep s = Some (l, r) → s = l +:+ String.String sep r.
Proof.
  induction s as [|a s IH]; intros l r; cbn [cut_last]; [done|].
  destruct (cut_last sep s) as [[l' r']|]; [|destruct (Ascii.eqb_spec a sep) as [->|]; [|done]].
  - intros [= <- <-]. by rewrite str_app_cons, <- (IH l' r').
  - by intros [= <- <-].
Qed.

(** The bytes of an authority are those of its hostname, brackets and a port. *)
Lemma brackets_bytes s : HasPrefix s "[" && HasSuffix s "]" = true →
  all_bytes base_byte (take_bytes (String.length s - 2) (drop_bytes 1 s)) = true → all_bytes base_byte s = true.
Proof.
  intros [Hp Hs]%andb_true_iff Hin. apply HasPrefix_spec in Hp as [t ->].
  apply andb_true_iff in Hs as [_ Hs]. apply bool_decide_eq_true in Hs.
  change ("[" +:+ t) with (String.String "[" t) in *. cbn [String.length] in *.
  replace (S (String.length t) - 2) with (String.length t - 1) in Hin by lia. cbn [drop_bytes] in Hin.
  replace (S (String.length t) - 1) with (String.length t) in Hs by lia.
  destruct (String.length t) as [|n] eqn:Hn; [done|]. cbn [drop_bytes] in Hs.
  replace (S n - 1) with n in Hin by lia.
  cbn [all_bytes]. rewrite (take_drop_bytes n t), all_bytes_app, Hin, Hs. done.
Qed.

Lemma authority_bytes s : all_bytes base_byte (fst (splitHostPort s)) = true → all_bytes base_byte s = true.
Proof.
  assert (∀ host port : string, all_bytes base_byte
    (fst (if HasPrefix host "[" && HasSuffix host "]"
          then (take_bytes (String.length host - 2) (drop_bytes 1 host), port) else (host, port))) = true →
    all_bytes base_byte host = true) as Hin.
  { intros host port. destruct (_ && _) eqn:E; [|done]. by apply brackets_bytes. }
  unfold splitHostPort. destruct (cut_last ":" s) as [[l r]|] eqn:Hc; [|apply Hin].
  destruct (validOptionalPort _) eqn:Hv; [|apply Hin]. intros Hl%Hin. apply cut_last_Some in Hc as ->.
  rewrite all_bytes_app, Hl. cbn [all_bytes]. apply andb_true_iff in Hv as [_ Hv].
  revert Hv. apply all_bytes_impl. intros a Ha. unfold base_byte, alnum. rewrite Ha. by rewrite orb_true_r.
Qed.

Lemma origin_bytes origin : exact_origin origin → all_bytes base_byte origin = true.
Proof.
  intros (host & -> & _ & parsed & _ & <- & _ & Hh & _). rewrite all_bytes_app. apply andb_true_iff. split; [done|].
  apply authority_bytes. apply (all_bytes_impl host_byte); [exact host_base|]. by apply hostname_bytes.
Qed.

(** One origin whose host holds no slash is accepted as itself. *)
Lemma single_origin host : has_byte "/" host = false → accepted_origins ("https://" +:+ host) = true →
  exact_origin ("https://" +:+ host).
Proof.
  intros Hs. unfold accepted_origins. destruct (UIHostOrigins _) as [l|] eqn:Ho; [|done]. intros _.
  destruct (accepted_origins_exact _ _ Ho) as (Hl & _ & _ & Hj). destruct Hl as [|o l Hx Hl]; [done|].
  destruct Hl as [|o' l Hx' Hl]; [cbn in Hj; by rewrite <- Hj|]. exfalso.
  destruct Hx as (h1 & -> & _). destruct Hx' as (h2 & -> & _).
  assert (∃ t, join "," (("https://" +:+ h1) :: ("https://" +:+ h2) :: l) =
    "https://" +:+ h1 +:+ ",https://" +:+ t) as [t Ht].
  { destruct l as [|o l].
    - exists h2. change (join "," _) with (("https://" +:+ h1) +:+ "," +:+ ("https://" +:+ h2)).
      by rewrite <- !str_app_assoc.
    - exists (h2 +:+ "," +:+ join "," (o :: l)).
      trans (("https://" +:+ h1) +:+ "," +:+ ("https://" +:+ h2) +:+ "," +:+ join "," (o :: l)); [reflexivity|].
      by rewrite <- !str_app_assoc. }
  rewrite Ht in Hj. apply str_app_inj_r in Hj. rewrite <- Hj, !has_byte_app in Hs.
  change (has_byte "/" ",https://") with true in Hs. destruct (has_byte "/" h1); done.
Qed.

(** What an accepted public base URL is. *)
Definition public_base (baseURL : string) : Prop := baseURL = "" ∨
  ∃ origin path, baseURL = origin +:+ path ∧ exact_origin origin ∧ MatchString publicPath path = true ∧
    (slen baseURL <= 1024)%Z.

Lemma public_base_accepted o : NewHandlerWithOptions o = None → public_base (PublicBaseURL o).
Proof.
  unfold NewHandlerWithOptions. destruct (_ && _) eqn:Hb; [done|]. intros _.
  apply andb_false_iff in Hb as [Hb%negb_false_iff%bool_decide_eq_true|Hb%negb_false_iff]; [by left|right].
  unfold public_base_ok in Hb. destruct (Parse (PublicBaseURL o)) as [parsed|] eqn:HP; [|done].
  rewrite !andb_true_iff in Hb. destruct Hb as [[[[[Hlen Hacc] _] _] Heq] Hpath].
  exists ("https://" +:+ Host parsed), (Path parsed). split; [by apply bool_decide_eq_true in Heq|].
  split; [apply single_origin; [by eapply Parse_host_slash|done]|]. split; [done|]. lia.
Qed.

Lemma path_bytes path : MatchString publicPath path = true → all_bytes base_byte path = true.
Proof.
  intros Hm%MatchString_spec. apply (within_spec base_byte _ _ Hm).
  assert (∀ a, path_byte a = true → base_byte a = true) as Hb.
  { intros a. unfold path_byte, base_byte. destruct (alnum a); [done|].
    cbn [orb]. intros [->%Ascii.eqb_eq| ->%Ascii.eqb_eq]%orb_true_iff; done. }
  split; [by intros a <-%Ascii.eqb_eq|]. by split.
Qed.

Lemma base_bytes baseURL : public_base baseURL → all_bytes base_byte baseURL = true.
Proof.
  intros [->|(origin & path & -> & Ho & Hp & _)]; [done|].
  by rewrite all_bytes_app, origin_bytes, path_bytes.
Qed.
Lemma base_free sep baseURL : public_base baseURL → base_byte sep = false → has_byte sep baseURL = false.
Proof. intros H%base_bytes. by apply all_bytes_absent. Qed.

(** The directives of the policy around the sources, and the URLs among them. *)
Definition sample_directives (sources : string) : list string :=
  ["default-src 'self'"; " script-src 'self'"; " style-src 'self'"; " connect-src " +:+ sources;
   " frame-ancestors https:"; " object-src 'none'"; " base-uri 'none'"]%string.
Definition ui_urls (baseURL : string) : list string :=
  if baseURL == "" then ["'self'"%string]
  else [baseURL +:+ "/api/observations"; baseURL +:+ "/ui-contract-config"].
Definition release_urls (baseURL : string) : list string :=
  if baseURL == "" then ["'self'"%string; releaseSourceURL]
  else [baseURL +:+ "/ksail-releases/ui-contract-config"; releaseSourceURL].

Lemma policy_split sources : has_byte ";" sources = false →
  Split (sample_policy sources) ";" = sample_directives sources.
Proof.
  intros Hs. rewrite <- (Split_free ";" (sample_directives sources)); [|repeat constructor; try done|done].
  - reflexivity.
  - by rewrite has_byte_app, Hs.
Qed.

Lemma ui_sources_free baseURL : public_base baseURL →
  has_byte ";" (ui_sources baseURL) = false ∧ has_byte ";" (release_sources baseURL) = false.
Proof.
  intros Hb. pose proof (base_free ";" baseURL Hb eq_refl) as H. unfold ui_sources, release_sources.
  case_bool_decide; [done|]. by rewrite !has_byte_app, H.
Qed.

Lemma sources_split baseURL : public_base baseURL →
  Split (ui_sources baseURL) " " = ui_urls baseURL ∧ Split (release_sources baseURL) " " = release_urls baseURL.
Proof.
  intros Hb. pose proof (base_free " " baseURL Hb eq_refl) as H.
  unfold ui_sources, ui_urls, release_sources, release_urls. case_bool_decide; [done|].
  split.
  - rewrite <- (Split_free " " [_; _]); [|by rewrite !list.Forall_cons, !has_byte_app, H|done]. f_equal.
    change (join (one " ") _) with ((baseURL +:+ "/api/observations") +:+ " " +:+ (baseURL +:+ "/ui-contract-config")).
    by rewrite <- !str_app_assoc.
  - rewrite <- (Split_free " " [_; _]); [|by rewrite !list.Forall_cons, has_byte_app, H|done]. f_equal.
    change (join (one " ") _) with ((baseURL +:+ "/ksail-releases/ui-contract-config") +:+ " " +:+ releaseSourceURL).
    by rewrite <- !str_app_assoc.
Qed.

(** Host origins that may be announced to embedding pages. *)
Lemma appearance_origins o : NewHandlerWithOptions o = None → AppearanceEnabled_ o = true →
  HostOrigins o ≠ [] ∧
  (Forall (λ h, h ≠ "" ∧ has_byte "," h = false) (HostOrigins o) →
   Forall exact_origin (HostOrigins o) ∧ NoDup (HostOrigins o) ∧ (len (HostOrigins o) <= 16)%Z).
Proof.
  unfold NewHandlerWithOptions. destruct (_ && negb _); [done|]. intros H Ha. rewrite Ha in H. cbn [andb] in H.
  destruct (_ || _) eqn:Hg; [done|]. apply orb_false_iff in Hg as [Hacc%negb_false_iff Hl%Z.eqb_neq].
  assert (HostOrigins o ≠ []) as Hne by (intros E; by rewrite E in Hl). split; [done|]. intros Hf.
  unfold accepted_origins in Hacc. destruct (UIHostOrigins _) as [l|] eqn:Ho; [|done].
  assert (l = HostOrigins o) as ->; [|by destruct (accepted_origins_exact _ _ Ho) as (? & ? & ? & _)].
  unfold UIHostOrigins in Ho. case_bool_decide as He.
  - destruct (HostOrigins o) as [|h [|h' hs]]; [done|..]; apply list.Forall_cons in Hf as [[Hh _] _]; [done|].
    destruct h; [done|]. done.
  - destruct (_ <? _)%Z; [done|]. destruct (origins_loop _ _); [done|]. injection Ho as <-.
    apply Split_free; [|done]. eapply list.Forall_impl; [exact Hf|]. by intros h [_ ?].
Qed.

(** Accepted publication settings cannot inject into the policies they are written to: the public
    base URL is empty, or an exact HTTPS origin and a plain path prefix of at most 1024 bytes together;
    the policy of either surface then splits into exactly its seven directives, and its connect sources
    into exactly the published endpoints, whatever bytes the setting has.  With appearance, the host
    origins are at least one and, when none is empty or holds a comma, at most 16 distinct exact HTTPS
    origins. *)
Theorem publication_settings_safe o (Haccepted : NewHandlerWithOptions o = None) :
  let base := PublicBaseURL o in
  public_base base ∧
  Split (sample_policy (ui_sources base)) ";" = sample_directives (ui_sources base) ∧
  Split (ui_sources base) " " = ui_urls base ∧
  Split (sample_policy (release_sources base)) ";" = sample_directives (release_sources base) ∧
  Split (release_sources base) " " = release_urls base ∧
  (AppearanceEnabled_ o = true → HostOrigins o ≠ [] ∧
     (Forall (λ h, h ≠ "" ∧ has_byte "," h = false) (HostOrigins o) →
      Forall exact_origin (HostOrigins o) ∧ NoDup (HostOrigins o) ∧ (len (HostOrigins o) <= 16)%Z)).
Proof.
  intros base. pose proof (public_base_accepted o Haccepted) as Hb. fold base in Hb.
  destruct (ui_sources_free base Hb) as [H1 H2]. destruct (sources_split base Hb) as [H3 H4].
  split; [done|]. split; [by apply policy_split|]. split; [done|]. split; [by apply policy_split|]. split; [done|].
  intros Ha. by apply appearance_origins.
Qed.
