(* ===== verification/SampleApi.v ===== *)
(** * The API of the sample product

    The data endpoints of [internal/demoproduct/handler.go] and [releases.go]: the constant observations,
    their filter and the documents.  What the API answers is what the API consumer of the examples reads. *)

From Stdlib Require Import Ascii.
From S2P Require Import Prelude Kube Api Regex GoJson GoStrings GoUrl Config GoQuery GoMime GoJsonRead.
From S2P Require Import Input GoJsonSpec GoRawJson DiscoverySpec Consumer ConsumerSpec WebHost.

(** ** The handlers *)

(** [URL.Query]: [ParseQuery] without its error, so malformed pairs are skipped. *)
Fixpoint query_pairs (pairs : list string) (values : Values) : Values :=
  match pairs with
  | [] => values
  | text :: pairs' =>
      query_pairs pairs' (match parse_pair text with Some (Some (k, v)) => add_value values k v | _ => values end)
  end.
Definition Query (raw : string) : Values :=
  let pairs := Split raw "&" in
  if (maxParams <? len pairs)%Z then ∅ else query_pairs pairs ∅.

(** The observations, with the texts [json.Marshal] gives their constant numbers and times. *)
Record reading := mkReading {
  R_Station : string;
  R_Temperature : string;
  R_Salinity : string;
  R_ObservedAt : string
}.
Definition observations : list reading :=
  [mkReading "nordhavn" "16.8" "14.2" "2026-08-29T12:00:00Z";
   mkReading "refshaleoen" "17.1" "13.9" "2026-08-29T12:05:00Z"].
Definition reading_text (o : reading) : string :=
  "{" +:+ json_string "station" +:+ ":" +:+ json_string (R_Station o) +:+ "," +:+
  json_string "temperatureCelsius" +:+ ":" +:+ R_Temperature o +:+ "," +:+
  json_string "salinityPsu" +:+ ":" +:+ R_Salinity o +:+ "," +:+
  json_string "observedAt" +:+ ":" +:+ json_string (R_ObservedAt o) +:+ "}".
Definition readings_text (l : list reading) : string :=
  line ("{" +:+ json_string "items" +:+ ":[" +:+ join "," (map reading_text l) +:+ "]}").

(** The observations of a station, or all of them. *)
Definition at_station (station : string) : list reading :=
  List.filter (λ o, (station == "") || (R_Station o == station)) observations.
(** [observationsHandler]; the station is compared with ASCII names only. *)
Definition observationsHandler (r : request) : response :=
  if Method r != "GET" then mkResponse 405 ∅ ""
  else
    let station := lower_media (TrimSpace (Get (Query (URL_RawQuery r)) "station")) in
    mkResponse 200
      (<["Cache-Control" := "public, max-age=60"]> (<["Content-Type" := "application/json"]>
        {["Access-Control-Allow-Origin" := "*"]}))
      (readings_text (at_station station)).

(** [openAPIHandler], for the constant document. *)
Definition openAPIHandler (openAPIDocument : string) (r : request) : response :=
  if Method r != "GET" then mkResponse 405 ∅ ""
  else mkResponse 200 {["Content-Type" := "application/json"]} openAPIDocument.

(** The documents of [registerReleaseSurface]: the release schema without a cache, for any origin. *)
Definition release_document (releaseOpenAPI : string) : response :=
  mkResponse 200
    (<["Access-Control-Allow-Origin" := "*"]> (<["Cache-Control" := "no-store"]>
      {["Content-Type" := "application/json"]})) releaseOpenAPI.

(** ** The filter *)

Lemma query_pairs_parsed pairs : ∀ values result, parse_pairs pairs values = Some result →
  query_pairs pairs values = result.
Proof.
  induction pairs as [|p pairs IH]; intros values result; cbn [parse_pairs query_pairs]; [by intros [= <-]|].
  destruct (parse_pair p) as [[[k v]|]|]; [apply IH..|done].
Qed.

Lemma Query_parsed raw values : ParseQuery raw = Some values → Query raw = values.
Proof. unfold ParseQuery, Query. destruct (_ <? _)%Z; [done|]. apply query_pairs_parsed. Qed.

Lemma station_query station : port_name station = true → Get (Query ("station=" +:+ station)) "station" = station.
Proof.
  intros Hs. replace ("station=" +:+ station) with (encode_values [("station"%string, station)])
    by (unfold encode_values; cbn [map join fst snd]; by rewrite (port_name_query _ Hs)).
  rewrite (Query_parsed _ _ (ParseQuery_encoded [("station"%string, station)] ltac:(done) ltac:(done))).
  cbn [foldl fst snd]. unfold add_value, Get, Values. by rewrite lookup_insert_eq.
Qed.

Lemma label_no_space a s : label_byte a = true → space_size (String.String a s) = 0.
Proof. destruct a as [[] [] [] [] [] [] [] []]; intros Ha; try discriminate Ha; by destruct s as [|b [|c s]]. Qed.

Lemma trim_labels s : all_bytes label_byte s = true → TrimSpace s = s.
Proof.
  intros Hs. unfold TrimSpace, TrimLeftSpace.
  assert (trim_left (String.length s) s = s) as ->.
  { destruct s as [|a s]; [done|]. cbn [all_bytes] in Hs. apply andb_true_iff in Hs as [Ha _].
    cbn [String.length trim_left]. by rewrite label_no_space. }
  induction s as [|a s IH]; [done|]. cbn [all_bytes] in Hs. apply andb_true_iff in Hs as [Ha Hs].
  cbn [trim_right String.length all_space]. rewrite label_no_space, IH by done. by rewrite bool_decide_eq_false_2.
Qed.

Lemma lower_labels s : all_bytes label_byte s = true → lower_media s = s.
Proof.
  assert (∀ a, label_byte a = true → to_lower_byte a = a ∧ (N_of_ascii a =? 0xC4)%N = false ∧ (N_of_ascii a =? 0xE2)%N = false) as Ha.
  { intros a. by destruct a as [[] [] [] [] [] [] [] []]. }
  induction s as [|a s IH]; [done|]. cbn [all_bytes]. intros [H Hs]%andb_true_iff.
  destruct (Ha a H) as (H1 & H2 & H3). cbn [lower_media]. rewrite H1, H2, H3, (IH Hs). cbn [andb].
  by destruct s as [|b [|c s]].
Qed.

Lemma requested_station station : station = "" ∨ port_name station = true →
  lower_media (TrimSpace (Get (Query (if station == "" then "" else "station=" +:+ station)) "station")) = station.
Proof.
  intros [->|Hs]; [done|]. case_bool_decide as He; [by subst|]. rewrite station_query by done.
  apply andb_true_iff in Hs as [_ Hm]. pose proof (pattern_ascii label_byte station Hm (λ a H, H)) as Hl.
  by rewrite trim_labels, lower_labels.
Qed.

(** ** What a consumer reads *)

Section Read.
Context `{E : Env} `{T : ScalarApi}.

(** The standard library reads the texts it gives the constants. *)
Definition constants_read : Prop := ∀ o, o ∈ observations →
  is_Some (ParseFloat (R_Temperature o)) ∧ is_Some (ParseFloat (R_Salinity o)) ∧
  ∃ t, UnmarshalTime (json_string (R_ObservedAt o)) = Some t ∧ IsZeroTime t = false.

Lemma reading_read station o : constants_read → o ∈ observations → station = "" ∨ R_Station o = station →
  ∃ i, read_item station (reading_text o) = Some i ∧ Station i = R_Station o.
Proof.
  intros Hc Ho Hs. destruct (Hc o Ho) as ([x Hx] & [y Hy] & t & Ht & Hz).
  assert (unmarshal_item (reading_text o) = Some (mkItem (Some (R_Station o)) (Some x) (Some y) (Some t))) as Hi.
  { apply elem_of_cons in Ho as [->|Ho]; [|apply list_elem_of_singleton in Ho as ->].
    all: vm_compute in Hx, Hy, Ht; vm_compute; rewrite Hx, Hy, Ht; reflexivity. }
  unfold read_item. rewrite Hi.
  assert (exactFields (reading_text o) ["station"; "temperatureCelsius"; "salinityPsu"; "observedAt"]%string [] = true ∧
    port_name (R_Station o) = true) as [-> Hp].
  { apply elem_of_cons in Ho as [->|Ho]; [|apply list_elem_of_singleton in Ho as ->]; split; vm_compute; reflexivity. }
  cbn [negb mbind option_bind]. rewrite Hp, Hz. exists (mkObservation (R_Station o) x y t). split; [|done].
  destruct Hs as [-> | ->]; [done|]. by rewrite (bool_decide_eq_true_2 (station = station)), andb_false_r.
Qed.
Lemma station_cases station : at_station station = observations ∧ station = "" ∨
  (∃ o, o ∈ observations ∧ R_Station o = station ∧ at_station station = [o]) ∨ at_station station = [].
Proof.
  destruct (decide (station = "")) as [->|Hne]; [by left|]. right.
  destruct (decide (station = "nordhavn")) as [->|H1].
  { left. exists (mkReading "nordhavn" "16.8" "14.2" "2026-08-29T12:00:00Z"). split_and!; [left|done|vm_compute; reflexivity]. }
  destruct (decide (station = "refshaleoen")) as [->|H2].
  { left. exists (mkReading "refshaleoen" "17.1" "13.9" "2026-08-29T12:05:00Z").
    split_and!; [right; left|done|vm_compute; reflexivity]. }
  right. unfold at_station, observations. cbn [List.filter R_Station].
  by rewrite !bool_decide_eq_false_2 by congruence.
Qed.

(** The answer for every station is a bounded document of the texts of its observations. *)
Lemma answer_texts station :
  bounded_text (readings_text (at_station station)) 1048576 = true ∧
  ∀ s, read_items s (readings_text (at_station station)) = mapM (read_item s) (map reading_text (at_station station)).
Proof.
  assert (∀ l, l ∈ [observations; []] ∨ (∃ o, o ∈ observations ∧ l = [o]) → bounded_text (readings_text l) 1048576 = true ∧
    exactFields (readings_text l) ["items"%string] [] = true ∧
    (members ← object_texts (readings_text l); array_texts (default "" (text_map (default [] members) !! "items"%string))) =
      Some (Some (map reading_text l)) ∧ (len l <= 64)%Z) as H.
  { intros l Hl. assert (l = observations ∨ l = [] ∨ l = take 1 observations ∨ l = drop 1 observations) as H.
    { destruct Hl as [[->|[->|[]%elem_of_nil]%elem_of_cons]%elem_of_cons|(o & [->|[->|[]%elem_of_nil]%elem_of_cons]%elem_of_cons & ->)]; auto. }
    destruct H as [->|[->|[-> | ->]]]; (split; [|split; [|split]]); [vm_compute; first [reflexivity|discriminate]..]. }
  destruct (H (at_station station)) as (H1 & H2 & H3 & H4).
  { destruct (station_cases station) as [[-> _]|[(o & Ho & _ & ->)| ->]]; [left; set_solver|right; eauto|left; set_solver]. }
  split; [done|]. intros s. unfold read_items. rewrite H2. cbn [negb].
  destruct (object_texts (readings_text (at_station station))) as [members|]; [|done]. cbn [mbind option_bind] in H3 |- *.
  rewrite H3. cbn [mbind option_bind]. unfold len in *. by rewrite length_map, (proj2 (Z.ltb_ge _ _) H4).
Qed.

(** The sample product serves what the API consumer asks for.  Whoever follows a selected endpoint to the
    sample API receives, for a station or for all of them, exactly the constant observations. *)
Theorem sample_api_read (ctx : Ctx) (station : string) (r : request) (input : io_Reader) (close : ST World unit)
    (w w1 w2 : World) :
  constants_read → station = "" ∨ port_name station = true →
  Method r = "GET" → URL_RawQuery r = (if station == "" then "" else "station=" +:+ station) →
  let answer := observationsHandler r in
  ReadAll (Z.to_nat (1048576 + 1)) input (1048576 + 1) "" w = (Some (inl (Body answer)), w1) → Err ctx w1 = (None, w2) →
  ∃ items, map Station items = map R_Station (at_station station) ∧
    read_response ctx station
      (Consumer.mkResponse (Status_ answer) (default "" (Header answer !! "Content-Type"%string)) input close) w =
    (Some (inl items), w2).
Proof.
  intros Hc Hs Hm Hq. unfold observationsHandler. rewrite Hm, Hq, requested_station by done.
  rewrite (bool_decide_eq_true_2 ("GET" = "GET"%string)) by done. cbn [negb Status_ Header Body]. intros Hr He.
  destruct (answer_texts station) as [Hb Hi]. specialize (Hi station).
  assert (∃ items, mapM (read_item station) (map reading_text (at_station station)) = Some items ∧
    map Station items = map R_Station (at_station station)) as (items & Hitems & Hst).
  { assert (∀ o, o ∈ at_station station → o ∈ observations ∧ (station = "" ∨ R_Station o = station)) as Hin.
    { intros o. unfold at_station. rewrite list_elem_of_In, filter_In, <- list_elem_of_In, orb_true_iff, !bool_decide_eq_true. tauto. }
    revert Hin. generalize (at_station station). intros l. induction l as [|o l IH]; intros Hin; [by exists []|].
    destruct IH as (items & Hl & Hst); [intros; apply Hin; by right|]. destruct (Hin o) as [Ho Ho']; [by left|].
    destruct (reading_read station o Hc Ho Ho') as (i & Hi' & Hs'). exists (i :: items). cbn [map mapM].
    split; [|by rewrite Hs', Hst]. rewrite Hi'. cbn [mbind option_bind]. by rewrite Hl. }
  exists items. split; [done|]. unfold read_response.
  change (json_response (Consumer.mkResponse 200 (default "" (_ !! _)) input close)) with true. cbn [negb].
  unfold mbind, st_bind. cbn [Consumer.Body]. rewrite (bounded_read _ _ _ _ _ Hr Hb). cbn [non_nil]. rewrite He. cbn [non_nil].
  by rewrite Hi, Hitems.
Qed.
End Read.

(** The assumption on the standard library holds for numbers and times kept as their texts. *)
Example constants_read_texts : constants_read (T := text_scalars).
Proof.
  intros o [->|[->|[]%elem_of_nil]%elem_of_cons]%elem_of_cons; (split; [by eexists|]; split; [by eexists|]);
    eexists; split; vm_compute; reflexivity.
Qed.
