(* ===== verification/EngineReader.v ===== *)
(** * Metadata-only reads

    [internal/provider/v1/engine_reader.go]: the transport that keeps the manager from falling back to
    full objects, such as Secrets with their data, when it asks for the metadata of one object.  The
    transport below it and [rest.Config] are parameters. *)

From Stdlib Require Import Ascii.
From S2P Require Import Prelude Regex GoJson GoStrings GoUrl GoMime.

(** [http.Request] as far as it is read: the method and the values of each header, by its name. *)
Record request := mkRequest {
  Method : string;
  Header : gmap string (list string)
}.

Definition metadataOnlyAccept : string :=
  "application/vnd.kubernetes.protobuf;as=PartialObjectMetadata;g=meta.k8s.io;v=v1,application/json;as=PartialObjectMetadata;g=meta.k8s.io;v=v1".

(** One entry of an [Accept] header asks for the metadata of one object. *)
Definition asks_metadata (entry : string) : bool :=
  match media_parameter (TrimSpace entry) "as" with
  | None => false
  | Some as_ =>
      (as_ == "PartialObjectMetadata") &&
      (default "" (media_parameter (TrimSpace entry) "g") == "meta.k8s.io") &&
      (default "" (media_parameter (TrimSpace entry) "v") == "v1")
  end.

(** [header.Values]. *)
Definition header_values (header : gmap string (list string)) (name : string) : list string :=
  default [] (header !! name).

(** [requestsObjectMetadata]. *)
Definition requestsObjectMetadata (header : gmap string (list string)) : bool :=
  existsb (λ value, existsb asks_metadata (Split value ",")) (header_values header "Accept").

(** [metadataOnlyTransport.RoundTrip]: the request that reaches the next transport.  The caller's request
    is cloned before it is changed. *)
Definition forwarded (r : request) : request :=
  if (Method r == "GET") && requestsObjectMetadata (Header r) then
    mkRequest (Method r) (<["Accept" := [metadataOnlyAccept]]> (Header r))
  else r.
Definition RoundTrip {S T} (next : request → ST S T) (r : request) : ST S T := next (forwarded r).

(** [MetadataOnlyConfig]: a configuration whose transport is wrapped; the caller's stays as it was. *)
Definition MetadataOnlyConfig {config S T} (wrap : ((request → ST S T) → request → ST S T) → config → config)
    (c : config) : config := wrap RoundTrip c.

(** ** What the transport guarantees *)

Lemma metadata_accept : forallb asks_metadata (Split metadataOnlyAccept ",") = true.
Proof. vm_compute. reflexivity. Qed.

(** A GET that asks for the metadata of one object in any of its [Accept] values reaches the server
    asking for nothing else: every representation it accepts is the metadata, so the server cannot
    answer with the object.  Every other request is forwarded as it is, other headers are never
    changed, and a second transport of this kind changes nothing. *)
Theorem metadata_only (r : request) :
  let r' := forwarded r in
  Method r' = Method r ∧ (∀ name, name ≠ "Accept"%string → Header r' !! name = Header r !! name) ∧
  (if (Method r == "GET") && requestsObjectMetadata (Header r)
   then ∀ value, value ∈ header_values (Header r') "Accept" → ∀ entry, entry ∈ Split value "," →
          asks_metadata entry = true
   else r' = r) ∧
  forwarded r' = r'.
Proof.
  intros r'. assert (r' = if (Method r == "GET") && requestsObjectMetadata (Header r)
    then mkRequest (Method r) (<["Accept" := [metadataOnlyAccept]]> (Header r)) else r) as Hr' by done.
  clearbody r'. destruct (_ && _) eqn:Hg; subst r'.
  - cbn [Method Header]. split; [done|]. split; [intros name Hn; by apply lookup_insert_ne|].
    assert (header_values (<["Accept" := [metadataOnlyAccept]]> (Header r)) "Accept" = [metadataOnlyAccept]) as Hv
      by (unfold header_values; by rewrite lookup_insert_eq).
    split.
    + rewrite Hv. intros value ->%list_elem_of_singleton entry He.
      pose proof metadata_accept as H. rewrite forallb_elem in H. by apply H.
    + unfold forwarded. cbn [Method Header]. apply andb_true_iff in Hg as [Hm _]. rewrite Hm.
      destruct (requestsObjectMetadata _); [|done]. cbn [andb]. by rewrite insert_insert_eq.
  - split; [done|]. split; [done|]. split; [done|]. unfold forwarded. by rewrite Hg.
Qed.

Example accepts_both : Header (forwarded (mkRequest "GET"
  {["Accept" := ["application/vnd.kubernetes.protobuf;as=PartialObjectMetadata;g=meta.k8s.io;v=v1,application/json"%string]]}))
  !! "Accept" = Some [metadataOnlyAccept].
Proof. vm_compute. reflexivity. Qed.
Example accepts_list : Header (forwarded (mkRequest "GET"
  {["Accept" := ["application/json;as=PartialObjectMetadataList;g=meta.k8s.io;v=v1"%string]]}))
  !! "Accept" = Some ["application/json;as=PartialObjectMetadataList;g=meta.k8s.io;v=v1"%string].
Proof. vm_compute. reflexivity. Qed.
