(* ===== verification/Lifecycle.v ===== *)
(** * The lifecycle of an HTTP server

    [internal/httpserver/lifecycle.go]: [Run] and the goroutine that serves, with the context, the
    server and the clock around them.  A state is what they share; an event is a step of one of them.
    The events of the outside world are the cancellation, the return of [start], the return of
    [Shutdown] and the expiry of its deadline; the others are the steps of [Run]. *)

From S2P Require Import Prelude.

Section Lifecycle.
Context {err : Type}.
(** [errors.Is(e, http.ErrServerClosed)], and the error of a context past its deadline. *)
Context (is_closed : err → bool) (DeadlineExceeded : err).

(** The goroutine that serves: still in [start], with its result in the buffered channel, or received. *)
Inductive listener := Running | Sent (result : option err) | Taken.
(** Where [Run] is: in its first select, in [Shutdown] with what the select received, in the second
    select with the error of [Shutdown], or returned the errors it joins. *)
Inductive position :=
| Serving
| ShuttingDown (received : option (option err))
| Collecting (received : option (option err)) (shutdownError : option err)
| Returned (errors : list err).

Record state := mkState {
  ctx_done : bool;
  serving : listener;
  expired : bool;
  server_closed : bool;
  at_ : position
}.
(** [Run] was called with a context that may be cancelled already. *)
Definition initial (done : bool) : state := mkState done Running false false Serving.

Inductive event :=
| Cancel | StartReturns (result : option err) | Expire | ShutdownReturns (result : option err)
| SelectDone | SelectResult | CollectReceived | CollectResult | CollectDeadline.

(** [errors.Join(serveError, shutdownError)], after a closed server was taken for success. *)
Definition joined (serveError shutdownError : option err) : list err :=
  match serveError with
  | Some e => if is_closed e then [] else [e]
  | None => []
  end ++ match shutdownError with Some e => [e] | None => [] end.

Definition move (s : state) (p : position) : state := mkState (ctx_done s) (serving s) (expired s) (server_closed s) p.

(** A step, or [None] when the event cannot happen. *)
Definition step (ev : event) (s : state) : option state :=
  match ev, serving s, at_ s with
  | Cancel, _, _ => Some (mkState true (serving s) (expired s) (server_closed s) (at_ s))
  | StartReturns r, Running, _ => Some (mkState (ctx_done s) (Sent r) (expired s) (server_closed s) (at_ s))
  | Expire, _, (ShuttingDown _ | Collecting _ _) =>
      Some (mkState (ctx_done s) (serving s) true (server_closed s) (at_ s))
  | SelectDone, _, Serving => if ctx_done s then Some (move s (ShuttingDown None)) else None
  | SelectResult, Sent r, Serving =>
      Some (mkState (ctx_done s) Taken (expired s) (server_closed s) (ShuttingDown (Some r)))
  | ShutdownReturns e, _, ShuttingDown received =>
      (* the server is closed right after *)
      Some (mkState (ctx_done s) (serving s) (expired s) true (Collecting received e))
  | CollectReceived, _, Collecting (Some r) e => Some (move s (Returned (joined r e)))
  | CollectResult, Sent r, Collecting None e =>
      Some (mkState (ctx_done s) Taken (expired s) (server_closed s) (Returned (joined r e)))
  | CollectDeadline, _, Collecting None e =>
      if expired s then Some (move s (Returned (joined (Some DeadlineExceeded) e))) else None
  | _, _, _ => None
  end.

(** The run of a schedule. *)
Fixpoint run (evs : list event) (s : state) : option state :=
  match evs with
  | [] => Some s
  | ev :: evs' => match step ev s with Some s' => run evs' s' | None => None end
  end.

(** ** What every run keeps *)

(** The results that were given to a run: of [start] and of [Shutdown]. *)
Definition start_results (evs : list event) : list (option err) :=
  omap (λ ev, match ev with StartReturns r => Some r | _ => None end) evs.
Definition shutdown_results (evs : list event) : list (option err) :=
  omap (λ ev, match ev with ShutdownReturns r => Some r | _ => None end) evs.

(** What is known of a state after a schedule. *)
Definition accounted (evs : list event) (s : state) : Prop :=
  match serving s with
  | Running => start_results evs = []
  | Sent r => start_results evs = [r]
  | Taken => ∃ r, start_results evs = [r]
  end ∧
  (expired s = true → Expire ∈ evs) ∧
  match at_ s with
  | Serving => serving s ≠ Taken ∧ shutdown_results evs = [] ∧ server_closed s = false
  | ShuttingDown received =>
      shutdown_results evs = [] ∧ server_closed s = false ∧
      match received with
      | Some r => start_results evs = [r] ∧ serving s = Taken
      | None => serving s ≠ Taken
      end
  | Collecting received e =>
      shutdown_results evs = [e] ∧ server_closed s = true ∧
      match received with
      | Some r => start_results evs = [r] ∧ serving s = Taken
      | None => serving s ≠ Taken
      end
  | Returned errors =>
      server_closed s = true ∧ ∃ e, shutdown_results evs = [e] ∧
      ((∃ r, start_results evs = [r] ∧ errors = joined r e) ∨
       Expire ∈ evs ∧ errors = joined (Some DeadlineExceeded) e)
  end.

Lemma run_snoc evs ev s s2 : run (evs ++ [ev]) s = Some s2 → ∃ s1, run evs s = Some s1 ∧ step ev s1 = Some s2.
Proof.
  revert s. induction evs as [|e evs IH]; intros s; cbn [app run].
  - destruct (step ev s) as [s'|] eqn:E; [|done]. intros [= <-]. eauto.
  - destruct (step e s); [apply IH|done].
Qed.

Lemma expire_before evs (ev : event) : Expire ∈ evs → Expire ∈ evs ++ [ev].
Proof. intros H. apply elem_of_app. by left. Qed.
Lemma expire_now evs : Expire ∈ evs ++ [Expire].
Proof. apply elem_of_app. right. by left. Qed.

(** An event adds its own result to those before. *)
Lemma start_results_snoc evs ev : start_results (evs ++ [ev]) =
  start_results evs ++ match ev with StartReturns r => [r] | _ => [] end.
Proof. unfold start_results. rewrite omap_app. by destruct ev. Qed.
Lemma shutdown_results_snoc evs ev : shutdown_results (evs ++ [ev]) =
  shutdown_results evs ++ match ev with ShutdownReturns r => [r] | _ => [] end.
Proof. unfold shutdown_results. rewrite omap_app. by destruct ev. Qed.

(** The events of the outside world do not move [Run], except for the return of [Shutdown]. *)
Lemma step_accounted evs ev s s' : accounted evs s → step ev s = Some s' → accounted (evs ++ [ev]) s'.
Proof.
  destruct s as [d l x c p]. unfold accounted. rewrite start_results_snoc, shutdown_results_snoc.
  cbn [serving expired at_ server_closed]. intros (H1 & H2 & H3).
  pose proof (expire_before evs ev) as He.
  destruct ev; cbn [step serving at_ ctx_done expired server_closed move]; rewrite ?app_nil_r; intros Hs.
  - injection Hs as <-. cbn. split; [done|]. split; [by auto|].
    destruct p; try done. destruct H3 as (? & e & ? & [?|[? ?]]); eauto 8.
  - destruct l; try done. injection Hs as <-. cbn. rewrite H1. split; [done|]. split; [by auto|].
    destruct p as [|[r|]|[r|] e|errs]; try (destruct_and?; simplify_eq; done).
    destruct H3 as (? & e & ? & [(r & Hr & _)|[? ?]]); [congruence|eauto 8].
  - pose proof (expire_now evs). destruct p as [|r|r e|]; try by destruct l.
    all: destruct l; injection Hs as <-; cbn; (split; [done|]); (split; [by auto|]); done.
  - destruct p as [|r|r e|]; try by destruct l.
    destruct H3 as (Hs2 & _ & H3). destruct l; injection Hs as <-; cbn; rewrite Hs2;
      (split; [done|]); (split; [by auto|]); done.
  - destruct p as [|r|r e|]; try by destruct l.
    destruct H3 as (Hl & Hs2 & Hc). destruct l, d; try done; injection Hs as <-; cbn;
      (split; [done|]); (split; [by auto|]); done.
  - destruct l as [|r|]; try done. destruct p; try done. injection Hs as <-. cbn.
    destruct H3 as (_ & Hs2 & Hc). split; [by eauto|]. split; [by auto|]. done.
  - destruct p as [|?|[r|] e|]; try by destruct l.
    destruct H3 as (Hs2 & Hc & Hr & ->). injection Hs as <-. cbn. split; [done|]. split; [by auto|]. eauto 8.
  - destruct l as [|r|]; try done. destruct p as [|?|[?|] e|]; try done.
    destruct H3 as (Hs2 & Hc & _). injection Hs as <-. cbn. split; [by eauto|]. split; [by auto|]. eauto 8.
  - destruct p as [|?|[?|] e|]; try by destruct l.
    destruct H3 as (Hs2 & Hc & _). destruct x; [|by destruct l].
    destruct l; try done; injection Hs as <-; cbn; (split; [done|]); (split; [by auto|]); eauto 8.
Qed.

Lemma run_accounted done evs s : run evs (initial done) = Some s → accounted evs s.
Proof.
  revert s. induction evs as [|ev evs IH] using rev_ind; intros s.
  - intros [= <-]. by repeat split.
  - intros (s1 & H1 & H2)%run_snoc. eapply step_accounted; eauto.
Qed.

(** ** What [Run] guarantees *)

(** A run that returned shut the server down once and closed it.  It reports no error exactly when
    [Shutdown] reported none and [start] returned nil or for the shutdown; the only error of its own is
    the deadline of the shutdown, for a [start] that did not return before it. *)
Theorem run_result done evs s errors (Hown : is_closed DeadlineExceeded = false)
    (Hrun : run evs (initial done) = Some s) (Hend : at_ s = Returned errors) :
  server_closed s = true ∧ ∃ e, shutdown_results evs = [e] ∧
    ((∃ r, start_results evs = [r] ∧ errors = joined r e ∧
        (errors = [] ↔ e = None ∧ match r with Some x => is_closed x = true | None => True end)) ∨
     Expire ∈ evs ∧ DeadlineExceeded ∈ errors).
Proof.
  destruct (run_accounted _ _ _ Hrun) as (_ & _ & H). rewrite Hend in H.
  destruct H as (Hc & e & He & H). split; [done|]. exists e. split; [done|].
  destruct H as [(r & Hr & ->)|[Hx ->]].
  - left. exists r. split; [done|]. split; [done|]. unfold joined.
    destruct r as [x|]; [destruct (is_closed x)|]; destruct e; cbn; naive_solver.
  - right. split; [done|]. unfold joined. rewrite Hown. cbn. by left.
Qed.

(** The steps of [Run] itself. *)
Definition own (ev : event) : bool :=
  match ev with Cancel | StartReturns _ | Expire => false | _ => true end.
(** How many of them are left at most. *)
Definition remaining (p : position) : nat :=
  match p with Serving => 3 | ShuttingDown _ => 2 | Collecting _ _ => 1 | Returned _ => 0 end.

Lemma step_remaining ev s s' : step ev s = Some s' →
  remaining (at_ s) = (if own ev then 1 else 0) + remaining (at_ s').
Proof.
  destruct s as [d l x c p].
  destruct ev, l, p as [|[?|]|[?|] ?|]; cbn; try done; try destruct d; try destruct x; try done; by intros [= <-].
Qed.

(** [Run] takes at most three steps, in any schedule. *)
Lemma own_steps evs : ∀ s s', run evs s = Some s' →
  length (filter (λ ev, own ev = true) evs) + remaining (at_ s') = remaining (at_ s).
Proof.
  induction evs as [|ev evs IH]; intros s s'; cbn [run]; [by intros [= <-]|].
  destruct (step ev s) as [s1|] eqn:Hs; [|done]. intros Hr. rewrite (step_remaining _ _ _ Hs), <- (IH _ _ Hr).
  rewrite filter_cons. destruct (own ev); cbn; [by rewrite decide_True by done|by rewrite decide_False by done].
Qed.

(** [Run] waits only for what it has to.  In every reachable state it has returned, or waits in its
    first select for a cancellation or the listener, or for the return of [Shutdown], or, after a
    cancellation, for the listener or the deadline of the shutdown; in any other state one of its own
    steps is possible, and it takes at most three. *)
Theorem run_progress done evs s (Hrun : run evs (initial done) = Some s) :
  (length (filter (λ ev, own ev = true) evs) <= 3) ∧
  ((∃ errors, at_ s = Returned errors ∧ server_closed s = true) ∨
   (at_ s = Serving ∧ ctx_done s = false ∧ serving s = Running) ∨
   ((∃ received, at_ s = ShuttingDown received) ∧ ∀ e, ∃ s', step (ShutdownReturns e) s = Some s') ∨
   ((∃ e, at_ s = Collecting None e) ∧ expired s = false ∧ serving s = Running) ∨
   ∃ ev s', own ev = true ∧ step ev s = Some s').
Proof.
  split; [pose proof (own_steps _ _ _ Hrun) as H; cbn in H; lia|].
  destruct (run_accounted _ _ _ Hrun) as (_ & _ & H). destruct s as [d l x c p]. cbn in *.
  destruct p as [|received|[r|] e|errors].
  - destruct H as (Hl & _). destruct d; [do 4 right; exists SelectDone; by eexists|].
    destruct l as [|r|]; [by right; left|do 4 right; exists SelectResult; by eexists|done].
  - do 2 right. left. split; [by eexists|]. intros e. destruct l; by eexists.
  - do 4 right. exists CollectReceived. destruct l; by eexists.
  - destruct H as (_ & _ & Hl). destruct l as [|r|]; [|do 4 right; exists CollectResult; by eexists|done].
    destruct x; [do 4 right; exists CollectDeadline; by eexists|]. do 3 right. left. eauto.
  - left. destruct H as [Hc _]. eauto.
Qed.
End Lifecycle.

(** ** Runs *)

(** A graceful end after an interrupt, a listener that fails, and one that never returns. *)
Example graceful : option_map at_ (run (String.eqb "closed") "deadline"
  [Cancel; SelectDone; StartReturns (Some "closed"); ShutdownReturns None; CollectResult] (initial false))
  = Some (Returned []).
Proof. reflexivity. Qed.
Example failed_listener : option_map at_ (run (String.eqb "closed") "deadline"
  [StartReturns (Some "address in use"); SelectResult; ShutdownReturns None; CollectReceived] (initial false))
  = Some (Returned ["address in use"%string]).
Proof. reflexivity. Qed.
Example stuck_listener : option_map at_ (run (String.eqb "closed") "deadline"
  [Cancel; SelectDone; Expire; ShutdownReturns (Some "deadline"); CollectDeadline] (initial false))
  = Some (Returned ["deadline"%string; "deadline"%string]).
Proof. reflexivity. Qed.
