(* ===== verification/Serving.v ===== *)
(** * The servers of the private services

    [serve] of [cmd/http-source/main.go] runs two listeners, [run] of [cmd/contract-probe/main.go] one.
    As in [Lifecycle], a state is what the goroutines share and an event is a step of one of them; the
    channel is a queue, whose capacity the code fixes. *)

From S2P Require Import Prelude.

Section Serving.
Context {err : Type} (is_closed : err → bool).

(** A closed server is taken for success. *)
Definition drop_closed (e : option err) : option err :=
  match e with Some x => if is_closed x then None else Some x | None => None end.
(** [errors.Join]. *)
Definition Join (l : list (option err)) : list err := omap id l.

(** ** Two listeners *)

Inductive pair_position :=
| Selecting
| StoppingApi (result : option err)
| StoppingAdmin (result apiError : option err)
| PairReturned (errors : list err).
Record pair_state := mkPair {
  cancelled : bool;  (* the context every request is based on *)
  api_serving : bool;
  admin_serving : bool;
  results : list (option err);
  api_closed : bool;
  admin_closed : bool;
  pair_at : pair_position
}.
Definition pair_initial (done : bool) : pair_state := mkPair done true true [] false false Selecting.

Inductive pair_event :=
| Interrupt | ApiServed (result : option err) | AdminServed (result : option err)
| TakeDone | TakeResult | ApiShutdown (result : option err) | AdminShutdown (result : option err).

(** A step, or [None] when the event cannot happen.  A goroutine sends when [Serve] returns; taking
    either branch of the select leads to [cancel]; both servers are closed once both were shut down. *)
Definition pair_step (ev : pair_event) (s : pair_state) : option pair_state :=
  let '(mkPair c a m q ca cm p) := s in
  match ev, p with
  | Interrupt, _ => Some (mkPair true a m q ca cm p)
  | ApiServed r, _ => if a && (len q <? 2)%Z then Some (mkPair c false m (q ++ [r]) ca cm p) else None
  | AdminServed r, _ => if m && (len q <? 2)%Z then Some (mkPair c a false (q ++ [r]) ca cm p) else None
  | TakeDone, Selecting => if c then Some (mkPair true a m q ca cm (StoppingApi None)) else None
  | TakeResult, Selecting =>
      match q with
      | r :: q' => Some (mkPair true a m q' ca cm (StoppingApi (drop_closed r)))
      | [] => None
      end
  | ApiShutdown e, StoppingApi result => Some (mkPair c a m q ca cm (StoppingAdmin result e))
  | AdminShutdown e, StoppingAdmin result apiError =>
      Some (mkPair c a m q true true (PairReturned (Join [result; apiError; e])))
  | _, _ => None
  end.

(** ** One listener *)

Inductive probe_position := Waiting | Stopping | ProbeReturned (error : option err).
Record probe_state := mkProbe {
  interrupted : bool;
  probe_serving : bool;
  outcome : list (option err);
  probe_closed : bool;
  probe_at : probe_position
}.
Definition probe_initial (done : bool) : probe_state := mkProbe done true [] false Waiting.
Inductive probe_event :=
| ProbeInterrupt | ProbeServed (result : option err) | TakeOutcome | TakeInterrupt
| ProbeShutdown (result : option err).
(** A listener that ends ends the command; after an interrupt the server is shut down and closed. *)
Definition probe_step (ev : probe_event) (s : probe_state) : option probe_state :=
  let '(mkProbe c a q cl p) := s in
  match ev, p with
  | ProbeInterrupt, _ => Some (mkProbe true a q cl p)
  | ProbeServed r, _ => if a && (len q <? 1)%Z then Some (mkProbe c false (q ++ [r]) cl p) else None
  | TakeOutcome, Waiting =>
      match q with r :: q' => Some (mkProbe c a q' cl (ProbeReturned (drop_closed r))) | [] => None end
  | TakeInterrupt, Waiting => if c then Some (mkProbe c a q cl Stopping) else None
  | ProbeShutdown e, Stopping => Some (mkProbe c a q true (ProbeReturned e))
  | _, _ => None
  end.

(** ** Runs *)

Fixpoint run_steps {S V : Type} (step : V → S → option S) (evs : list V) (s : S) : option S :=
  match evs with
  | [] => Some s
  | ev :: evs' => match step ev s with Some s' => run_steps step evs' s' | None => None end
  end.

Lemma run_steps_invariant {S V : Type} (step : V → S → option S) (P : list V → S → Prop) s0 :
  P [] s0 → (∀ evs ev s s', P evs s → step ev s = Some s' → P (evs ++ [ev]) s') →
  ∀ evs s, run_steps step evs s0 = Some s → P evs s.
Proof.
  intros H0 Hstep.
  assert (∀ evs done s s', P done s → run_steps step evs s = Some s' → P (done ++ evs) s') as H.
  { induction evs as [|ev evs IH]; intros done s s' Hp; cbn [run_steps]; [intros [= <-]; by rewrite app_nil_r|].
    destruct (step ev s) as [s1|] eqn:Hs; [|done]. intros Hr.
    replace (done ++ ev :: evs) with ((done ++ [ev]) ++ evs) by by rewrite <- app_assoc.
    eapply IH; [by eapply Hstep|done]. }
  intros evs s Hr. by apply (H evs [] s0 s).
Qed.

(** What the listeners returned, in order, and what each [Shutdown] did. *)
Definition served (evs : list pair_event) : list (option err) :=
  omap (λ ev, match ev with ApiServed r | AdminServed r => Some r | _ => None end) evs.
Definition shutdowns (evs : list pair_event) : list (option err) :=
  omap (λ ev, match ev with ApiShutdown e | AdminShutdown e => Some e | _ => None end) evs.

Definition from_first (first : option (option err)) : option err :=
  match first with Some r => drop_closed r | None => None end.

(** What is known after a schedule: [first] is what the select received, if it took the channel. *)
Definition pair_ok (evs : list pair_event) (s : pair_state) : Prop := ∃ first,
  served evs = option_list first ++ results s ∧
  (len (results s) + (if api_serving s then 1 else 0) + (if admin_serving s then 1 else 0) <= 2)%Z ∧
  match pair_at s with
  | Selecting => first = None ∧ shutdowns evs = []
  | StoppingApi result => cancelled s = true ∧ result = from_first first ∧ shutdowns evs = []
  | StoppingAdmin result apiError => cancelled s = true ∧ result = from_first first ∧ shutdowns evs = [apiError]
  | PairReturned errors =>
      cancelled s = true ∧ api_closed s = true ∧ admin_closed s = true ∧
      ∃ apiError adminError, shutdowns evs = [apiError; adminError] ∧
        errors = Join [from_first first; apiError; adminError]
  end.

Lemma served_snoc evs ev : served (evs ++ [ev]) =
  served evs ++ match ev with ApiServed r | AdminServed r => [r] | _ => [] end.
Proof. unfold served. rewrite omap_app. by destruct ev. Qed.
Lemma shutdowns_snoc evs ev : shutdowns (evs ++ [ev]) =
  shutdowns evs ++ match ev with ApiShutdown e | AdminShutdown e => [e] | _ => [] end.
Proof. unfold shutdowns. rewrite omap_app. by destruct ev. Qed.

Lemma pair_step_ok evs ev s s' : pair_ok evs s → pair_step ev s = Some s' → pair_ok (evs ++ [ev]) s'.
Proof.
  intros (first & Hq & Hl & Hp) Hs. destruct s as [c a m q ca cm p]. unfold pair_ok.
  rewrite served_snoc, shutdowns_snoc. cbn [results api_serving admin_serving pair_at cancelled api_closed admin_closed] in *.
  destruct ev; cbn [pair_step] in Hs; rewrite ?app_nil_r.
  - injection Hs as <-. exists first. cbn. split; [done|]. split; [done|]. destruct p; naive_solver.
  - destruct a; [|done]. destruct (len q <? 2)%Z; [|done]. injection Hs as <-. exists first. cbn.
    rewrite Hq, len_app, <- app_assoc. split; [done|]. split; [change (len [result]) with 1%Z; lia|done].
  - destruct m; [|done]. destruct (len q <? 2)%Z; [|done]. injection Hs as <-. exists first. cbn.
    rewrite Hq, len_app, <- app_assoc. split; [done|]. split; [change (len [result]) with 1%Z; destruct a; lia|done].
  - destruct p; try done. destruct c; [|done]. injection Hs as <-. exists first. cbn. split; [done|]. split; [done|].
    by destruct Hp as [-> ->].
  - destruct p; try done. destruct q as [|r q]; [done|]. injection Hs as <-. destruct Hp as [-> Hp].
    exists (Some r). cbn in Hq, Hl |- *. rewrite Hq. split; [done|]. split; [|done]. unfold len in *. cbn [length] in Hl. lia.
  - destruct p; try done. injection Hs as <-. exists first. cbn. split; [done|]. split; [done|].
    destruct Hp as (-> & -> & ->). done.
  - destruct p; try done. injection Hs as <-. exists first. cbn. split; [done|]. split; [done|].
    destruct Hp as (-> & -> & ->). split_and!; [done..|]. by exists apiError, result.
Qed.

Lemma pair_run_ok done evs s : run_steps pair_step evs (pair_initial done) = Some s → pair_ok evs s.
Proof.
  apply (run_steps_invariant pair_step pair_ok); [|exact pair_step_ok].
  exists None. by split_and!.
Qed.

(** ** What [serve] guarantees *)

(** When [serve] returns, the context of every request was cancelled and both servers are closed; both were
    shut down once, and the errors are those of the first listener that ended, unless the select saw the
    interrupt, and of the two shutdowns. *)
Theorem serve_result done evs s errors :
  run_steps pair_step evs (pair_initial done) = Some s → pair_at s = PairReturned errors →
  cancelled s = true ∧ api_closed s = true ∧ admin_closed s = true ∧
  ∃ first apiError adminError, served evs = option_list first ++ results s ∧
    shutdowns evs = [apiError; adminError] ∧ errors = Join [from_first first; apiError; adminError].
Proof.
  intros (first & Hq & _ & Hp)%pair_run_ok He. rewrite He in Hp. destruct Hp as (H1 & H2 & H3 & a & b & Ha & Hb).
  split_and!; [done..|]. by exists first, a, b.
Qed.

(** [serve] leaves no goroutine behind and waits only for what it has to: in every reachable state a
    listener whose [Serve] returns can send its result, and [serve] has returned, waits for an interrupt or
    a listener, waits for a [Shutdown], or can go on. *)
Theorem serve_progress done evs s : run_steps pair_step evs (pair_initial done) = Some s →
  (∀ r, (api_serving s = true → is_Some (pair_step (ApiServed r) s)) ∧
        (admin_serving s = true → is_Some (pair_step (AdminServed r) s))) ∧
  match pair_at s with
  | Selecting => (cancelled s = false ∧ results s = []) ∨ is_Some (pair_step TakeDone s) ∨ is_Some (pair_step TakeResult s)
  | StoppingApi _ => ∀ e, is_Some (pair_step (ApiShutdown e) s)
  | StoppingAdmin _ _ => ∀ e, is_Some (pair_step (AdminShutdown e) s)
  | PairReturned _ => True
  end.
Proof.
  intros (first & _ & Hl & _)%pair_run_ok. destruct s as [c a m q ca cm p]. cbn in *. split.
  - intros r. split; intros ->; cbn [andb]; rewrite (proj2 (Z.ltb_lt _ _)); try (by eexists); try destruct a; try destruct m; lia.
  - destruct p; try done; [|intros; by eexists..]. destruct c; [right; left; by eexists|].
    destruct q; [by left|right; right; by eexists].
Qed.

(** ** What the probe's command guarantees *)

Definition probe_ok (s : probe_state) : Prop :=
  (len (outcome s) + (if probe_serving s then 1 else 0) <= 1)%Z ∧
  match probe_at s with
  | Waiting => True
  | Stopping => interrupted s = true
  | ProbeReturned _ => probe_closed s = true ∨ probe_serving s = false
  end.

Lemma probe_run_ok done evs s : run_steps probe_step evs (probe_initial done) = Some s → probe_ok s.
Proof.
  apply (run_steps_invariant probe_step (λ _, probe_ok)); [by split|]. clear evs s.
  intros _ ev [c a q cl p] s' [Hl Hp] Hs. cbn in Hl, Hp. destruct ev; cbn in Hs.
  - injection Hs as <-. split; [done|]. by destruct p.
  - destruct a; [|done]. destruct (len q <? 1)%Z; [|done]. injection Hs as <-.
    split; cbn; [rewrite len_app; change (len [result]) with 1%Z; lia|]. destruct p; [done|done|by right].
  - destruct p; try done. destruct q as [|r q]; [done|]. injection Hs as <-. unfold probe_ok, len in *. cbn in *.
    destruct a; [lia|]. split; [lia|by right].
  - destruct p; try done. destruct c; [|done]. by injection Hs as <-.
  - destruct p; try done. injection Hs as <-. split; [done|by left].
Qed.

(** When the command returns, its listener has ended or the server was closed after an interrupt; the
    listener can always send its result. *)
Theorem probe_result done evs s : run_steps probe_step evs (probe_initial done) = Some s →
  (∀ e, probe_at s = ProbeReturned e → probe_closed s = true ∨ probe_serving s = false) ∧
  (probe_serving s = true → ∀ r, is_Some (probe_step (ProbeServed r) s)).
Proof.
  intros [Hl Hp]%probe_run_ok. split; [intros e He; by rewrite He in Hp|]. destruct s as [c a q cl p]. cbn in *.
  intros -> r. cbn [andb]. rewrite (proj2 (Z.ltb_lt _ _)); [by eexists|lia].
Qed.
End Serving.

(** ** Runs *)

Example interrupted_pair : option_map pair_at (run_steps (pair_step (String.eqb "closed"))
  [Interrupt; TakeDone; ApiServed (Some "closed"); ApiShutdown None; AdminServed (Some "closed"); AdminShutdown None]
  (pair_initial false)) = Some (PairReturned []).
Proof. reflexivity. Qed.
Example failed_management : option_map pair_at (run_steps (pair_step (String.eqb "closed"))
  [AdminServed (Some "address in use"); TakeResult; ApiShutdown None; ApiServed (Some "closed"); AdminShutdown None]
  (pair_initial false)) = Some (PairReturned ["address in use"%string]).
Proof. reflexivity. Qed.
