(* ===== verification/Startup.v ===== *)
(** * Start-up

    [main.go], [registry_server.go] and the service commands under [cmd]: how settings become release
    gates, and which gates the reconciler, the registry, the catalog and the hosts are given.  The
    controller runtime is a record of operations; logging is left out, and servers are described by what
    they are configured with. *)

From Stdlib Require Import Ascii.
From S2P Require Import Prelude Kube Api Regex GoJson GoStrings GoUrl Config Composition Connector Provisioner.
From S2P Require Import Cnpg CnpgHybrid Percona Arango Provider Contracts Reconciler Catalog Lineage Discovery.
From S2P Require Import GoFlag Commands WebHost.

(** ** Release settings *)

(** A setting: its flag, its variable, the function of [config] that reads it, and the text of the log
    entry when it is invalid. *)
Record setting := mkSetting {
  setting_flag : string;
  setting_env : string;
  setting_read : string → bool + string;
  setting_failure : string
}.

(** The statements that read settings one after the other; the first invalid one ends them. *)
Fixpoint read_settings (settings : list setting) (getenv : string → string) (flags : gmap string bool)
  : gmap string bool + setting * string :=
  match settings with
  | [] => inl flags
  | s :: settings' =>
      match setting_read s (getenv (setting_env s)) with
      | inr err => inr (s, err)
      | inl on => read_settings settings' getenv (<[setting_flag s := on]> flags)
      end
  end.

Section Settings.
Context (quote : string → string).

Definition provisionedSourcesFlag : string := "provisioned-sources".
Definition engineProvidersFlag : string := "engine-providers".
Definition connectorReadinessFlag : string := "connector-readiness".
Definition contractReadinessFlag : string := "contract-readiness".
Definition compositionFlag : string := "composition".
Definition dcatCatalogFlag : string := "dcat-catalog".
Definition uiContractFlag : string := "ui-contract".
Definition uiAppearanceFlag : string := "ui-appearance".
Definition registryDiscoveryFlag : string := "registry-discovery".
Definition registryLineageFlag : string := "registry-lineage".

(** The settings of [main]. *)
Definition main_settings : list setting :=
  [mkSetting provisionedSourcesFlag "PROVISIONED_SOURCES_ENABLED" (Config.ProvisionedSourcesEnabled quote)
     "invalid provisioned sources configuration";
   mkSetting engineProvidersFlag "ENGINE_PROVIDERS_ENABLED" (Config.EngineProvidersEnabled quote)
     "invalid engine provider configuration";
   mkSetting connectorReadinessFlag "CONNECTOR_READINESS_ENABLED" (Config.ConnectorReadinessEnabled quote)
     "invalid connector readiness configuration";
   mkSetting contractReadinessFlag "CONTRACT_READINESS_ENABLED" (Config.ContractReadinessEnabled quote)
     "invalid contract readiness configuration";
   mkSetting compositionFlag "COMPOSITION_ENABLED" (Config.CompositionEnabled quote) "invalid composition configuration";
   mkSetting dcatCatalogFlag "DCAT_CATALOG_ENABLED" (Config.DCATCatalogEnabled quote) "invalid DCAT catalog configuration";
   mkSetting uiContractFlag "UI_CONTRACT_ENABLED" (Config.UIContractEnabled quote) "invalid UI contract configuration";
   mkSetting uiAppearanceFlag "UI_APPEARANCE_ENABLED" (Config.UIAppearanceEnabled quote)
     "invalid UI appearance configuration";
   mkSetting registryDiscoveryFlag "REGISTRY_DISCOVERY_ENABLED" (Config.RegistryDiscoveryEnabled quote)
     "invalid registry discovery configuration";
   mkSetting registryLineageFlag "REGISTRY_LINEAGE_ENABLED" (Config.RegistryLineageEnabled quote)
     "invalid registry lineage configuration"].

(** The settings of [ui-kit] and [demo-product], which return the error instead of logging it. *)
Definition kit_settings : list setting :=
  [mkSetting "ui-contract" "UI_CONTRACT_ENABLED" (Config.UIContractEnabled quote) "";
   mkSetting "ui-appearance" "UI_APPEARANCE_ENABLED" (Config.UIAppearanceEnabled quote) "";
   mkSetting "registry-discovery" "REGISTRY_DISCOVERY_ENABLED" (Config.RegistryDiscoveryEnabled quote) ""].
Definition demo_settings : list setting :=
  [mkSetting "ui-contract" "UI_CONTRACT_ENABLED" (Config.UIContractEnabled quote) "";
   mkSetting "ui-appearance" "UI_APPEARANCE_ENABLED" (Config.UIAppearanceEnabled quote) ""].
End Settings.

(** ** main.go: the parts that are wired *)

Record controllerFlags := mkControllerFlags {
  metricsAddress : string;
  probeAddress : string;
  registryAddress : string;
  leaderElection : bool
}.
Definition controller_flags : list (flag controllerFlags) :=
  [StringVar "metrics-bind-address"
     (λ v f, mkControllerFlags v (probeAddress f) (registryAddress f) (leaderElection f));
   StringVar "health-probe-bind-address"
     (λ v f, mkControllerFlags (metricsAddress f) v (registryAddress f) (leaderElection f));
   StringVar "registry-bind-address"
     (λ v f, mkControllerFlags (metricsAddress f) (probeAddress f) v (leaderElection f));
   BoolVar "leader-elect"
     (λ v f, mkControllerFlags (metricsAddress f) (probeAddress f) (registryAddress f) v)].
Definition default_flags : controllerFlags := mkControllerFlags ":8080" ":8081" ":8082" false.

Record managerOptions := mkManagerOptions {
  Metrics_BindAddress : string;
  HealthProbeBindAddress : string;
  LeaderElection : bool;
  LeaderElectionID : string
}.
Definition manager_options (f : controllerFlags) : managerOptions :=
  mkManagerOptions (metricsAddress f) (probeAddress f) (leaderElection f)
    "data-product-controller.data.devantler.tech".

(** How the process ends: an exit code and the last log entry. *)
Inductive exit := Exit (code : Z) (text : string).

Section Controller.
Context `{E : Env} `{C : ConditionApi} `{V : VersionApi} `{G : GoFmt} `{N : NameValidation}
  `{U : UnstructuredApi} `{A : ArangoApi} {F : FlagSdk}.
(** Decoding of an ArangoDeployment, and [apiequality.Semantic.DeepEqual] on statuses. *)
Context (decode : Unstructured → option ArangoDeployment).
Context (deep_equal : DataProductStatus → DataProductStatus → bool).

(** The server of [newRegistryServer]: the registry under [/] and the catalog under its own path. *)
Record registryServer := mkRegistryServer {
  Addr : string;
  Registry_server : server;
  Registry_inventory : InventoryReader;
  Catalog_reader : ListReader;
  Catalog_ID : string;
  Catalog_Enabled : Flag
}.

(** The manager of the controller runtime: its clients, and what can be registered with it. *)
Record Manager := mkManager {
  Manager_Get : Reader DataProduct;
  Manager_List : Ctx → ST World (list DataProduct + error);
  Manager_Status_Update : Ctx → DataProduct → ST World (option error);
  APIReader_Get : Reader DataProduct;
  APIReader_Source : SourceReader;
  APIReader_List : InventoryReader;
  GetRESTMapper : RESTMapper;
  SetupWithManager : DataProductReconciler → ST World (option error);
  Add : registryServer → ST World (option error);
  AddHealthzCheck : ST World (option error);
  AddReadyzCheck : ST World (option error);
  Start : ST World (option error)
}.
(** The rest of the controller runtime; a cluster configuration that cannot be loaded ends the process
    inside [GetConfigOrDie]. *)
Record Runtime := mkRuntime {
  config : Type;
  AddToScheme : ST World (option error);
  GetConfigOrDie : ST World (option config);
  NewDeploymentReader : config → ST World (Reader Deployment + error);
  NewEngineReader : config → ST World (SourceReader + error);
  (** [MetadataOnlyConfig], a copy with the transport of [EngineReader] *)
  MetadataOnlyConfig : config → config;
  NewManager : config → managerOptions → ST World (Manager + error);
  (** the flags of [zap.Options.BindFlags] *)
  zap_flags : list (flag controllerFlags)
}.

(** A callback that evaluates a flag of a client. *)
Definition gate_of (client flag : string) : Flag := Some (λ ctx, Enabled ctx client flag).

(** The reconciler, the registry and the catalog of [main]. *)
Definition reconciler_of (client : string) (m : Manager) (connectors : Reader Deployment) (engines : SourceReader)
  : DataProductReconciler :=
  mkReconciler (Manager_Get m) (Manager_List m) (Manager_Status_Update m) (GetRESTMapper m) deep_equal
    (Some (APIReader_Source m))
    (Some (registry_Observe
       (mkRegistry (Some engines) (Some (APIReader_Source m)) (Some (GetRESTMapper m)) decode)))
    decode
    (gate_of client provisionedSourcesFlag)
    (gate_of client engineProvidersFlag)
    (Some connectors)
    (gate_of client connectorReadinessFlag)
    (gate_of client contractReadinessFlag)
    (gate_of client compositionFlag).
Definition server_of (client : string) (m : Manager) : server :=
  mkServer (APIReader_Get m) (gate_of client registryDiscoveryFlag) (gate_of client registryLineageFlag)
    (Some DeclaredInputCompatibility).
Definition registry_of (client address id : string) (m : Manager) : registryServer :=
  mkRegistryServer address (server_of client m) (APIReader_List m)
    (λ ctx limit token, APIReader_List m ctx "" limit token) id (gate_of client dcatCatalogFlag).

(** A failing operation ends the process with its log entry. *)
Definition checked (op : ST World (option error)) (text : string) (next : ST World exit) : ST World exit :=
  err ← op;
  match err with Some _ => mret (Exit 1 text) | None => next end.
Definition obtained {T} (op : ST World (T + error)) (text : string) (next : T → ST World exit) : ST World exit :=
  got ← op;
  match got with inr _ => mret (Exit 1 text) | inl x => next x end.

(** What follows once the manager exists. *)
Definition run_manager (client : string) (f : controllerFlags) (getenv : string → string) (m : Manager)
    (connectors : Reader Deployment) (engines : SourceReader) : ST World exit :=
  checked (SetupWithManager m (reconciler_of client m connectors engines)) "register data-product controller"
    (if non_nil (NewHandler (getenv "DCAT_CATALOG_ID")) then mret (Exit 1 "configure DCAT catalog")
     else
       checked (Add m (registry_of client (registryAddress f) (getenv "DCAT_CATALOG_ID") m))
         "register descriptor registry"
         (checked (AddHealthzCheck m) "register health check"
            (checked (AddReadyzCheck m) "register readiness check"
               (checked (Start m) "run controller manager" (mret (Exit 0 "")))))).

(** What follows once the flags are registered. *)
Definition run_controller (rt : Runtime) (client : string) (f : controllerFlags) (getenv : string → string)
  : ST World exit :=
  checked (AddToScheme rt) "register data-product API"
    (found ← GetConfigOrDie rt;
     match found with
     | None => mret (Exit 1 "unable to get kubeconfig")
     | Some cfg =>
         obtained (NewDeploymentReader rt cfg) "create connector reader" (λ connectors,
         obtained (NewEngineReader rt cfg) "create engine provider reader" (λ engines,
         obtained (NewManager rt (MetadataOnlyConfig rt cfg) (manager_options f)) "create controller manager" (λ m,
           run_manager client f getenv m connectors engines)))
     end).

Definition controller_domain : string := "data-product-controller".

(** [main]; arguments that cannot be parsed end the process with 2, a request for help with 0. *)
Definition controller_main (rt : Runtime) (args : list string) (getenv : string → string) : ST World exit :=
  match ParseFlags (controller_flags ++ zap_flags rt) args default_flags [] with
  | inr ErrHelp => mret (Exit 0 "")
  | inr FlagError => mret (Exit 2 "")
  | inl (f, _, _) =>
      match read_settings (main_settings Quote) getenv ∅ with
      | inr (s, _) => mret (Exit 1 (setting_failure s))
      | inl flags =>
          client ← NewClient controller_domain (NewProvider flags);
          match client with
          | inr _ => mret (Exit 1 "configure feature flags")
          | inl client => run_controller rt client f getenv
          end
      end
  end.
End Controller.

(** ** The service commands

    Each ends before it listens: the result is what the server is configured with. *)

(** Why a command does not start: its arguments, the options of the portable host, or one text. *)
Inductive run_error := Usage (err : flag_error) | HostFailed (err : host_error) | Failed (text : string).

Section Services.
Context `{E : Env} `{G : GoFmt} {F : FlagSdk}.

(** The release setting of the publisher preflight. *)
Definition publisher_setting (getenv : string → string) : option bool :=
  let setting := getenv "PUBLISHER_PREFLIGHT_ENABLED" in
  if (setting != "") && (setting != "true") && (setting != "false") then None
  else Some (bool_decide (setting = "true")).
Definition publisher_error : string := "PUBLISHER_PREFLIGHT_ENABLED must be true or false".

(** A client for the flags; the text is followed by the error of the SDK, which is left out. *)
Definition with_client {T} (domain : string) (flags : gmap string bool) (text : string)
    (next : string → ST World (T + run_error)) : ST World (T + run_error) :=
  client ← NewClient domain (NewProvider flags);
  match client with
  | inr _ => mret (inr (Failed text))
  | inl client => next client
  end.

(** A callback of the kit, which evaluates its flag in the background context. *)
Definition kit_gate (background : Ctx) (client flag : string) : callback := Some (Enabled background client flag).

(** ui-kit. *)
Definition ui_kit (background : Ctx) (args : list string) (getenv : string → string)
  : ST World (Options * KitOptions + run_error) :=
  match ParseOptions args with
  | inr err => mret (inr (HostFailed err))
  | inl options =>
      match read_settings (kit_settings Quote) getenv ∅ with
      | inr (_, err) => mret (inr (Failed err))
      | inl flags =>
          match publisher_setting getenv with
          | None => mret (inr (Failed publisher_error))
          | Some publisher =>
              with_client "ui-kit" (<["publisher-preflight" := publisher]> flags) "configure UI flag" (λ client,
                mret (inl (options,
                  mkKit _ (kit_gate background client "ui-contract") (kit_gate background client "ui-appearance")
                    (kit_gate background client "registry-discovery")
                    (kit_gate background client "publisher-preflight"))))
          end
      end
  end.

(** publisher-review; what it gives to [PublisherHandler]. *)
Definition publisher_review (background : Ctx) (args : list string) (getenv : string → string)
  : ST World (Options * ST World bool + run_error) :=
  match ParseOptions args with
  | inr err => mret (inr (HostFailed err))
  | inl options =>
      match publisher_setting getenv with
      | None => mret (inr (Failed publisher_error))
      | Some publisher =>
          with_client "publisher-review" {["publisher-preflight" := publisher]} "configure publisher flag"
            (λ client, mret (inl (options, Enabled background client "publisher-preflight")))
      end
  end.

(** demo-product: the publication settings, for the client that was registered. *)
Definition demo_options (background : Ctx) (client : string) (getenv : string → string)
  : ST World (HandlerOptions + run_error) :=
  contract ← Enabled background client "ui-contract";
  match (if (contract : bool) then UIHostOrigins (getenv "UI_HOST_ORIGINS") else inl []) with
  | inr err => mret (inr (Failed err))
  | inl origins =>
      again ← Enabled background client "ui-contract";
      appearance ← (if (again : bool) then Enabled background client "ui-appearance" else mret false);
      let options := mkHandlerOptions (getenv "PUBLIC_BASE_URL") origins appearance in
      mret (match NewHandlerWithOptions options with
            | Some err => inr (Failed err)
            | None => inl options
            end)
  end.
(** demo-product: its address and its publication settings. *)
Definition demo_product (background : Ctx) (args : list string) (getenv : string → string)
  : ST World (string * HandlerOptions + run_error) :=
  match ParseFlags [StringVar "listen-address" (λ v _, v)] args ":8080" [] with
  | inr err => mret (inr (Usage err))
  | inl (address, _, _) =>
      match read_settings (demo_settings Quote) getenv ∅ with
      | inr (_, err) => mret (inr (Failed err))
      | inl flags =>
          with_client "demo-product" flags "configure UI flag" (λ client,
            options ← demo_options background client getenv;
            mret (match options with inl o => inl (address, o) | inr err => inr err end))
      end
  end.

(** contract-probe: the target of the service and its gate. *)
Definition contract_probe (getenv : string → string) : ST World (string * Flag + run_error) :=
  match Config.ContractReadinessEnabled Quote (getenv "CONTRACT_READINESS_ENABLED") with
  | inr _ => mret (inr (Failed "CONTRACT_READINESS_ENABLED must be a boolean"))
  | inl enabled =>
      with_client "contract-probe" {["contract-readiness" := enabled]} "initialize contract release flag"
        (λ client, mret (inl (getenv "CONTRACT_PROBE_URL", gate_of client "contract-readiness")))
  end.

(** http-source: both addresses, the path of the configuration and the gate. *)
Record sourceFlags := mkSourceFlags {
  listenAddress : string;
  managementAddress : string;
  configPath : string
}.
Definition source_flags : list (flag sourceFlags) :=
  [StringVar "listen-address" (λ v f, mkSourceFlags v (managementAddress f) (configPath f));
   StringVar "management-address" (λ v f, mkSourceFlags (listenAddress f) v (configPath f));
   StringVar "source-config" (λ v f, mkSourceFlags (listenAddress f) (managementAddress f) v)].
Definition default_source_flags : sourceFlags :=
  mkSourceFlags ":8080" ":8081" "/etc/http-source/config.json".
Definition http_source (args : list string) (getenv : string → string)
  : ST World (sourceFlags * Flag + run_error) :=
  match ParseFlags source_flags args default_source_flags [] with
  | inr err => mret (inr (Usage err))
  | inl (f, _, rest) =>
      if negb (len rest =? 0)%Z then mret (inr (Failed "unsupported HTTP source arguments"))
      else
        let raw := getenv "HTTP_SOURCE_ENABLED" in
        match (if raw == "" then Some false else ParseBool raw) with
        | None => mret (inr (Failed "HTTP_SOURCE_ENABLED must be a boolean"))
        | Some enabled =>
            with_client "http-source" {["http-source" := enabled]} "initialize release flag"
              (λ client, mret (inl (f, gate_of client "http-source")))
        end
  end.
End Services.
