(* ===== verification/StartupSpec.v ===== *)
(** * Start-up: what is guaranteed

    An invalid setting ends the controller before anything is touched; with valid ones each gate of the
    reconciler, the registry and the catalog evaluates to its own setting.  The sample product starts
    only with settings that are safe to publish, and publisher-review serves nothing but the review. *)

From Stdlib Require Import Ascii.
From S2P Require Import Prelude Kube Api Regex GoJson GoStrings GoUrl Config Composition Connector Provisioner.
From S2P Require Import Cnpg CnpgHybrid Percona Arango Provider Contracts Reconciler Catalog Lineage Discovery.
From S2P Require Import GoFlag Commands CommandsSpec WebHost WebHostSpec Startup Reference.

(** ** Settings *)

Definition readable (getenv : string → string) (s : setting) : Prop :=
  ∃ on, setting_read s (getenv (setting_env s)) = inl on.

Lemma read_settings_other settings getenv : ∀ flags flags' k, read_settings settings getenv flags = inl flags' →
  k ∉ map setting_flag settings → flags' !! k = flags !! k.
Proof.
  induction settings as [|s l IH]; intros flags flags' k; cbn [read_settings map]; [by intros [= <-]|].
  destruct (setting_read s _) as [on|]; [|done]. intros Hr [Hk Hl]%not_elem_of_cons.
  rewrite (IH _ _ k Hr Hl). by apply lookup_insert_ne.
Qed.

(** Read settings are readable, and every flag holds its own. *)
Lemma read_settings_flags settings getenv : NoDup (map setting_flag settings) → ∀ flags flags',
  read_settings settings getenv flags = inl flags' →
  ∀ s, s ∈ settings → ∃ on, setting_read s (getenv (setting_env s)) = inl on ∧ flags' !! setting_flag s = Some on.
Proof.
  induction settings as [|s l IH]; intros Hd flags flags'; cbn [read_settings].
  - intros _ s []%elem_of_nil.
  - cbn [map] in Hd. apply list.NoDup_cons in Hd as [Hs Hd].
    destruct (setting_read s _) as [on|] eqn:Ho; [|done]. intros Hr s' [->|Hin]%elem_of_cons.
    + exists on. split; [done|]. rewrite (read_settings_other _ _ _ _ _ Hr Hs). apply lookup_insert_eq.
    + by eapply IH.
Qed.

(** The first setting that is not readable ends the reading. *)
Lemma read_settings_readable settings getenv : Forall (readable getenv) settings → ∀ flags,
  ∃ flags', read_settings settings getenv flags = inl flags'.
Proof. induction 1 as [|s l [on Ho] Hl IH]; intros flags; cbn [read_settings]; [eauto|]. rewrite Ho. apply IH. Qed.
Lemma read_settings_refused settings getenv s err : s ∈ settings → setting_read s (getenv (setting_env s)) = inr err →
  ∀ flags, ∃ s' err', s' ∈ settings ∧ read_settings settings getenv flags = inr (s', err') ∧
    setting_read s' (getenv (setting_env s')) = inr err'.
Proof.
  intros Hin Herr. induction settings as [|t l IH]; [by apply elem_of_nil in Hin|]. intros flags.
  cbn [read_settings]. destruct (setting_read t _) as [on|e] eqn:Ht.
  - apply elem_of_cons in Hin as [->|Hin]; [congruence|].
    destruct (IH Hin (<[setting_flag t := on]> flags)) as (s' & e' & H1 & H2 & H3).
    exists s', e'. split; [by right|done].
  - exists t, e. split; [by left|done].
Qed.

(** Every setting has a flag of its own. *)
Lemma main_settings_distinct quote : NoDup (map setting_flag (main_settings quote)).
Proof. apply (bool_decide_unpack (NoDup _)). vm_compute. exact I. Qed.
Lemma demo_settings_distinct quote : NoDup (map setting_flag (demo_settings quote)).
Proof. apply (bool_decide_unpack (NoDup _)). vm_compute. exact I. Qed.

(** What a release setting of [config] says: off unless it is set to a true boolean. *)
Definition setting_on (quote : string → string) (getenv : string → string) (name : string) : bool :=
  match featureEnabled quote name (getenv name) with inl on => on | inr _ => false end.

Section Gates.
Context `{E : Env} `{C : ConditionApi} `{V : VersionApi} `{G : GoFmt} `{N : NameValidation}
  `{U : UnstructuredApi} `{A : ArangoApi} {F : FlagSdk} {L : FlagSdkLaws}.
Context (decode : Unstructured → option ArangoDeployment).
Context (deep_equal : DataProductStatus → DataProductStatus → bool).

(** The gates of everything that [main] wires are exactly the settings of [getenv]. *)
Record gates_exact (getenv : string → string) (client : string) (w : World) : Prop := {
  reconciler_gates : ∀ m connectors engines ctx,
    let r := reconciler_of decode deep_equal client m connectors engines in
    flag_on (SourcesEnabled r) ctx w = (setting_on Quote getenv "PROVISIONED_SOURCES_ENABLED", w) ∧
    flag_on (EngineProvidersEnabled r) ctx w = (setting_on Quote getenv "ENGINE_PROVIDERS_ENABLED", w) ∧
    flag_on (ConnectorsEnabled r) ctx w = (setting_on Quote getenv "CONNECTOR_READINESS_ENABLED", w) ∧
    flag_on (ContractsEnabled r) ctx w = (setting_on Quote getenv "CONTRACT_READINESS_ENABLED", w) ∧
    flag_on (CompositionEnabled r) ctx w = (setting_on Quote getenv "COMPOSITION_ENABLED", w);
  registry_gates : ∀ address m ctx,
    let rs := registry_of client address (getenv "DCAT_CATALOG_ID") m in
    flag_on (discoveryEnabled (Registry_server rs)) ctx w =
      (setting_on Quote getenv "REGISTRY_DISCOVERY_ENABLED", w) ∧
    flag_on (lineageEnabled (Registry_server rs)) ctx w =
      (setting_on Quote getenv "REGISTRY_LINEAGE_ENABLED", w) ∧
    flag_on (Catalog_Enabled rs) ctx w = (setting_on Quote getenv "DCAT_CATALOG_ENABLED", w)
}.

Lemma main_gates getenv flags w : read_settings (main_settings Quote) getenv ∅ = inl flags →
  registered controller_domain (NewProvider flags) w → gates_exact getenv controller_domain w.
Proof.
  intros Hr Hreg.
  assert (∀ s, s ∈ main_settings Quote → setting_read s = featureEnabled Quote (setting_env s)) as Hread
    by (apply list.Forall_forall; repeat constructor).
  assert (∀ s ctx, s ∈ main_settings Quote →
    Enabled ctx controller_domain (setting_flag s) w = (setting_on Quote getenv (setting_env s), w)) as H.
  { intros s ctx Hs. destruct (read_settings_flags _ _ (main_settings_distinct Quote) _ _ Hr s Hs) as (on & Ho & Hf).
    rewrite (gate_exact controller_domain flags (setting_flag s) on ctx w Hreg Hf). unfold setting_on.
    by rewrite <- (Hread s Hs), Ho. }
  assert (∀ n s, main_settings Quote !! n = Some s → s ∈ main_settings Quote) as Hin
    by (intros n s; apply list_elem_of_lookup_2).
  split.
  - intros m connectors engines ctx. cbn. repeat split.
    + exact (H _ ctx (Hin 0 _ eq_refl)).
    + exact (H _ ctx (Hin 1 _ eq_refl)).
    + exact (H _ ctx (Hin 2 _ eq_refl)).
    + exact (H _ ctx (Hin 3 _ eq_refl)).
    + exact (H _ ctx (Hin 4 _ eq_refl)).
  - intros address m ctx. cbn. repeat split.
    + exact (H _ ctx (Hin 8 _ eq_refl)).
    + exact (H _ ctx (Hin 9 _ eq_refl)).
    + exact (H _ ctx (Hin 5 _ eq_refl)).
Qed.

(** C27.  The release gates of the controller are its settings.  With arguments that parse, an invalid setting
    ends the process with 1 and the log entry of one, before it has any effect; with valid ones the process either cannot register
    its flags, or goes on in a world in which, as in any later one that keeps them registered, each gate
    of the reconciler, the registry and the catalog evaluates to its own setting. *)
Theorem controller_gates_exact rt args getenv f actual rest w
    (Hargs : ParseFlags (controller_flags ++ zap_flags rt) args default_flags [] = inl (f, actual, rest)) :
  (∀ s err, s ∈ main_settings Quote → setting_read s (getenv (setting_env s)) = inr err →
     ∃ s', s' ∈ main_settings Quote ∧ ¬ readable getenv s' ∧
       controller_main decode deep_equal rt args getenv w = (Exit 1 (setting_failure s'), w)) ∧
  (Forall (readable getenv) (main_settings Quote) → ∃ flags w1,
     (controller_main decode deep_equal rt args getenv w = (Exit 1 "configure feature flags", w1) ∨
      controller_main decode deep_equal rt args getenv w =
        run_controller decode deep_equal rt controller_domain f getenv w1 ∧
      registered controller_domain (NewProvider flags) w1) ∧
     ∀ w2, registered controller_domain (NewProvider flags) w2 → gates_exact getenv controller_domain w2).
Proof.
  unfold controller_main. rewrite Hargs. split.
  - intros s err Hs Herr. destruct (read_settings_refused _ _ _ _ Hs Herr ∅) as (s' & e' & Hs' & -> & He').
    exists s'. split; [done|]. split; [|done]. intros [on Ho]. congruence.
  - intros Hall. destruct (read_settings_readable _ _ Hall ∅) as [flags Hr]. rewrite Hr.
    unfold NewClient, mbind, st_bind. exists flags.
    destruct (SetNamedProviderAndWait _ _ w) as [[e|] w1] eqn:Hs; exists w1; cbn [mret st_ret].
    + split; [by left|]. intros w2. by apply main_gates.
    + split; [right; split; [done|by apply set_registers in Hs]|]. intros w2. by apply main_gates.
Qed.
End Gates.

(** ** The sample product and the review host *)

Section Services.
Context `{E : Env} `{G : GoFmt} {F : FlagSdk} {L : FlagSdkLaws}.

Lemma with_client_inl {T} domain flags text (next : string → ST World (T + run_error)) w x w' :
  with_client domain flags text next w = (inl x, w') →
  ∃ w1, registered domain (NewProvider flags) w1 ∧ next domain w1 = (inl x, w').
Proof.
  unfold with_client, NewClient, mbind, st_bind.
  destruct (SetNamedProviderAndWait _ _ w) as [[e|] w1] eqn:Hs; cbn [mret st_ret]; [done|].
  apply set_registers in Hs. eauto.
Qed.

(** What the publication settings of the sample product are when it starts. *)
Lemma demo_options_inl background getenv flags contract appearance w o w' :
  registered "demo-product" (NewProvider flags) w →
  flags !! "ui-contract" = Some contract → flags !! "ui-appearance" = Some appearance →
  demo_options background "demo-product" getenv w = (inl o, w') →
  NewHandlerWithOptions o = None ∧ PublicBaseURL o = getenv "PUBLIC_BASE_URL" ∧
  AppearanceEnabled_ o = contract && appearance ∧
  (if contract then UIHostOrigins (getenv "UI_HOST_ORIGINS") = inl (HostOrigins o) else HostOrigins o = []).
Proof.
  intros Hr Hc Ha. unfold demo_options, mbind, st_bind.
  rewrite (gate_exact _ _ _ _ background _ Hr Hc).
  destruct (if contract then _ else _) as [origins|e] eqn:Ho; [|done].
  rewrite (gate_exact _ _ _ _ background _ Hr Hc).
  assert ((if contract then Enabled background "demo-product" "ui-appearance" else mret false) w =
    (contract && appearance, w)) as ->.
  { destruct contract; [apply (gate_exact _ _ _ _ background _ Hr Ha)|done]. }
  cbn [mret st_ret]. destruct (NewHandlerWithOptions _) eqn:Hn; [done|]. intros [= <- _].
  split; [done|]. split; [done|]. split; [done|]. destruct contract; [done|]. by injection Ho as <-.
Qed.

Lemma demo_product_inl background args getenv w address o w' :
  demo_product background args getenv w = (inl (address, o), w') →
  NewHandlerWithOptions o = None ∧ PublicBaseURL o = getenv "PUBLIC_BASE_URL" ∧
  AppearanceEnabled_ o = setting_on Quote getenv "UI_CONTRACT_ENABLED" && setting_on Quote getenv "UI_APPEARANCE_ENABLED" ∧
  (if setting_on Quote getenv "UI_CONTRACT_ENABLED"
   then UIHostOrigins (getenv "UI_HOST_ORIGINS") = inl (HostOrigins o) else HostOrigins o = []).
Proof.
  unfold demo_product. destruct (ParseFlags _ _ _ _) as [[[a actual] rest]|]; [|done].
  destruct (read_settings _ _ _) as [flags|[]] eqn:Hr; [|done]. intros Hrun.
  apply with_client_inl in Hrun as (w1 & Hreg & Hrun). unfold mbind, st_bind in Hrun.
  destruct (demo_options _ _ _ w1) as [[o'|e] w2] eqn:Hd; [|done]. injection Hrun as -> -> ->.
  pose proof (read_settings_flags (demo_settings Quote) getenv (demo_settings_distinct Quote) _ _ Hr) as Hf.
  destruct (Hf _ (list_elem_of_lookup_2 (demo_settings Quote) 0 _ eq_refl)) as (contract & Hc & Hc').
  destruct (Hf _ (list_elem_of_lookup_2 (demo_settings Quote) 1 _ eq_refl)) as (appearance & Ha & Ha').
  unfold setting_on. cbn [setting_read setting_env] in Hc, Ha.
  unfold UIContractEnabled in Hc. unfold UIAppearanceEnabled in Ha. rewrite Hc, Ha.
  exact (demo_options_inl background getenv flags contract appearance w1 o w' Hreg Hc' Ha' Hd).
Qed.

(** C21.  Whatever its arguments and its environment hold, a sample product that starts publishes safe
    settings.  The public base URL is the configured one and is empty, or an exact HTTPS origin and a
    plain path prefix of at most 1024 bytes together; the content security policy of either surface
    splits into exactly its seven directives, and its connect sources into exactly the published
    endpoints, whatever bytes the setting has; the host origins are at most 16 distinct exact HTTPS
    origins, and none unless the contract is released; an appearance is granted only when both gates are
    on and there is an origin to grant it to. *)
Theorem demo_product_safe background args getenv w address o w'
    (Hrun : demo_product background args getenv w = (inl (address, o), w')) :
  let base := PublicBaseURL o in
  base = getenv "PUBLIC_BASE_URL" ∧ public_base base ∧
  Split (sample_policy (ui_sources base)) ";" = sample_directives (ui_sources base) ∧
  Split (ui_sources base) " " = ui_urls base ∧
  Split (sample_policy (release_sources base)) ";" = sample_directives (release_sources base) ∧
  Split (release_sources base) " " = release_urls base ∧
  Forall exact_origin (HostOrigins o) ∧ NoDup (HostOrigins o) ∧ (len (HostOrigins o) <= 16)%Z ∧
  (HostOrigins o ≠ [] → setting_on Quote getenv "UI_CONTRACT_ENABLED" = true) ∧
  (AppearanceEnabled_ o = true → HostOrigins o ≠ [] ∧ setting_on Quote getenv "UI_CONTRACT_ENABLED" = true ∧
     setting_on Quote getenv "UI_APPEARANCE_ENABLED" = true).
Proof.
  destruct (demo_product_inl _ _ _ _ _ _ _ Hrun) as (Hok & Hbase & Happ & Hor).
  destruct (publication_settings_safe o Hok) as (H1 & H2 & H3 & H4 & H5 & H6).
  intros base. do 6 (split; [done|]).
  assert (Forall exact_origin (HostOrigins o) ∧ NoDup (HostOrigins o) ∧ (len (HostOrigins o) <= 16)%Z) as (A1 & A2 & A3).
  { destruct (setting_on _ _ "UI_CONTRACT_ENABLED"); [|rewrite Hor; repeat split; try constructor; done].
    destruct (accepted_origins_exact _ _ Hor) as (? & ? & ? & _). done. }
  do 3 (split; [done|]). split.
  - intros Hne. by destruct (setting_on _ _ "UI_CONTRACT_ENABLED").
  - intros Ha. destruct (H6 Ha) as [Hne _]. rewrite Happ in Ha. apply andb_true_iff in Ha. tauto.
Qed.

(** publisher-review serves nothing but the review: with the gate off every answer is a 404; with it on
    an answer is a 404, the redirect to the review, or an asset of the review or one it shares, and
    every page forbids frames and connections.  Presentation settings have no effect on it. *)
Theorem publisher_review_inert ReadAsset files_ServeHTTP background args getenv w options enabled w'
    (Hrun : publisher_review background args getenv w = (inl (options, enabled), w')) :
  ∃ flags, ∀ w1, registered "publisher-review" (NewProvider flags) w1 → ∀ r,
    let '(resp, w2) := PublisherHandler ReadAsset files_ServeHTTP enabled r w1 in
    resp = NotFound ∅ ∧ w2 = w1 ∨
    getenv "PUBLISHER_PREFLIGHT_ENABLED" = "true" ∧ ∃ headers,
      headers !! "Content-Security-Policy" = Some (page_policy "'none'") ∧
      (resp = Redirect "/publisher-review" r headers ∨
       (kind_of_path (URL_Path r) = ReportAsset ∨ kind_of_path (URL_Path r) = SharedAsset) ∧
       (resp = files_ServeHTTP headers r ∨
        Header resp !! "Content-Security-Policy" = Some (page_policy "'none'"))).
Proof.
  unfold publisher_review in Hrun. destruct (ParseOptions args) as [o|e]; [|done].
  unfold publisher_setting in Hrun. destruct (_ && _); [done|].
  apply with_client_inl in Hrun as (w0 & _ & Hrun). injection Hrun as -> <- _.
  set (on := bool_decide (getenv "PUBLISHER_PREFLIGHT_ENABLED" = "true")).
  exists {["publisher-preflight" := on]}. intros w1 Hreg r.
  pose proof (gate_exact "publisher-review" _ "publisher-preflight" on background w1 Hreg
    (lookup_singleton_eq _ _)) as Hgate.
  destruct (PublisherHandler _ _ _ r w1) as [resp w2] eqn:Hp. unfold PublisherHandler in Hp.
  set (kit := mkKit _ None None None _) in Hp.
  destruct (portable_gates ReadAsset files_ServeHTTP kit r w1 on false w1 w1 resp w2 Hgate eq_refl Hp)
    as [[-> ->]|(headers & (frames & Hcsp & Hframes) & _ & Ho & Hr & Hs & Hk & Hresp)]; [by left|right].
  assert (frames = "'none'") as -> by (destruct Hframes as [?|[? _]]; done).
  assert (on = true) as Hon.
  { destruct (kind_of_path (URL_Path r)); [by apply Hr|by destruct (Hs eq_refl)|by destruct (Hk eq_refl) as [?|[? _]]|done]. }
  split; [by apply bool_decide_eq_true in Hon|]. exists headers. split; [done|]. rewrite Hcsp in Hresp.
  destruct (kind_of_path (URL_Path r)); [right; auto|right; auto| |done].
  destruct (Hk eq_refl) as [?|[_ ->]]; [done|by left].
Qed.
End Services.

(** ** A run *)

#[local] Existing Instances flag_env ref_fmt sample_sdk sample_sdk_laws.
#[local] Existing Instances ref_conditions ref_versions ref_names ref_unstructured sample_arango_api.

(** A controller of which only composition is released, on a machine without a cluster. *)
Definition sample_runtime : Runtime := {|
  config := unit;
  AddToScheme := λ w, (None, w);
  GetConfigOrDie := λ w, (None, w);
  NewDeploymentReader := λ _ w, (inr "unavailable"%string, w);
  NewEngineReader := λ _ w, (inr "unavailable"%string, w);
  MetadataOnlyConfig := λ c, c;
  NewManager := λ _ _ w, (inr "unavailable"%string, w);
  zap_flags := []
|}.
Definition composition_only (name : string) : string := if name == "COMPOSITION_ENABLED" then "true" else "".
Definition misspelt (name : string) : string := if name == "COMPOSITION_ENABLED" then "yes" else "".

Lemma sample_registered domain (provider : gmap string InMemoryFlag) : registered domain provider {[domain := provider]}.
Proof. exact (lookup_singleton_eq (M := gmap string) domain provider). Qed.

Lemma controller_gates_exact_witness :
  (∃ s, ¬ readable misspelt s ∧
     controller_main (λ _, None) (λ _ _, false) sample_runtime [] misspelt ∅ = (Exit 1 (setting_failure s), ∅)) ∧
  ∃ flags, gates_exact (λ _, None) (λ _ _, false) composition_only controller_domain
             {[controller_domain := NewProvider flags]} ∧
    setting_on Quote composition_only "COMPOSITION_ENABLED" = true ∧
    setting_on Quote composition_only "ENGINE_PROVIDERS_ENABLED" = false.
Proof.
  pose proof (λ getenv, controller_gates_exact (E := flag_env) (λ _, None) (λ _ _, false) sample_runtime [] getenv
    default_flags [] [] ∅ eq_refl) as H.
  split.
  - destruct (H misspelt) as [Hbad _].
    destruct (Hbad _ _ (list_elem_of_lookup_2 (main_settings Quote) 4 _ eq_refl) eq_refl) as (s & _ & Hs & Hm).
    exists s. exact (conj Hs Hm).
  - destruct (H composition_only) as [_ Hok].
    assert (Forall (readable composition_only) (main_settings Quote)) as Hall
      by (repeat (apply list.Forall_cons; split; [by eexists|]); apply list.Forall_nil; exact I).
    destruct (Hok Hall) as (flags & w1 & _ & Hg). exists flags.
    split; [exact (Hg _ (sample_registered _ _))|]. split; vm_compute; reflexivity.
Defined.

Definition sample_environment (name : string) : string :=
  if name == "UI_CONTRACT_ENABLED" then "true"
  else if name == "UI_APPEARANCE_ENABLED" then "1"
  else if name == "UI_HOST_ORIGINS" then "https://portal.example"
  else if name == "PUBLIC_BASE_URL" then "https://data.example:8443/products/harbour-1"
  else "".
Lemma demo_product_safe_witness : ∃ address o w',
  demo_product tt ["--listen-address"; "127.0.0.1:8080"]%string sample_environment ∅ = (inl (address, o), w') ∧
  Split (ui_sources (PublicBaseURL o)) " " =
    ["https://data.example:8443/products/harbour-1/api/observations";
     "https://data.example:8443/products/harbour-1/ui-contract-config"]%string ∧
  Forall exact_origin (HostOrigins o) ∧ HostOrigins o ≠ [].
Proof.
  assert (∃ address o w', AppearanceEnabled_ o = true ∧
    demo_product tt ["--listen-address"; "127.0.0.1:8080"]%string sample_environment ∅ = (inl (address, o), w'))
    as (address & o & w' & Ha & Hrun).
  { set (run := demo_product _ _ _ _).
    assert (match fst run with inl (_, o) => AppearanceEnabled_ o | inr _ => false end = true) as Hf
      by (vm_compute; reflexivity).
    clearbody run. destruct run as [[[address o]|e] w']; [|done]. by exists address, o, w'. }
  exists address, o, w'. split; [exact Hrun|].
  destruct (demo_product_safe (E := flag_env) tt _ sample_environment ∅ address o w' Hrun)
    as (Hb & _ & _ & Hs & _ & _ & Ho & _ & _ & _ & Happ).
  split; [rewrite Hs, Hb; vm_compute; reflexivity|]. split; [exact Ho|exact (proj1 (Happ Ha))].
Defined.
